(* ===== verification/_CoqProject ===== *)
-Q . S2P
Prelude.v
CString.v
Double.v
Inlined.v
Status.v
Charts.v
Clocks.v
Dictionary.v
DictionarySpec.v
DictionaryThms.v
Plugin.v
PluginSpec.v
EvictSpec.v
PluginThms.v
Fleet.v
Splitter.v
Protocol.v
Memory.v
CBuffer.v
RBuf.v
CRHash.v
WebBuffer.v
WebBufferSpec.v
WebBufferThms.v
Json.v
JsonSpec.v
JsonThms.v
SimplePattern.v
SimplePatternSpec.v
Url.v
UrlSpec.v
Uuid.v
Avl.v
AvlSpec.v
AvlInsert.v
AvlRemove.v
AvlThms.v
Sanitize.v
SanitizeSpec.v
SanitizeThms.v
Interleave.v
Refcount.v
Spinlock.v
RwSpinlock.v
