(* ===== verification/Prelude.v ===== *)
(** * upsd.plugin and the parts of libnetdata it stands on

    The repository holds one program of its own, src/upsd_plugin.c, and the netdata
    agent it is built with, src/netdata-2.6.0.  The program is a collector: it asks
    the daemon of Network UPS Tools which UPSes there are, and prints for each of
    them the lines of netdata's plugins protocol (CHART, DIMENSION, CLABEL, BEGIN,
    SET, END) that the agent reads from a pipe.  It keeps three dictionaries of
    libnetdata, parses numbers and status words itself or with inlined.h, and waits
    with the heartbeat of clocks.c.  The development models the program whole, the
    functions of libnetdata it calls, the splitter the agent reads its lines with,
    and the self-contained libraries of libnetdata the agent's answers are made with.

    ** How C is modelled

    A function that touches no state is a Rocq function.  A function that can go
    wrong returns [cres]: a value, a named undefined behaviour ([UB_null], [UB_oob],
    [UB_overflow], ...; a failed assertion or fatal() is [UB_fatal]), or [NoFuel].
    Code that changes state is a computation of the monad [cst S].  Integers are [Z]
    with the wrap-around of their width written out ([u8], [i32], [u64], ...);
    [double] is the executable IEEE 754 specification of the Standard Library.  A
    pointer that only moves forward in a text is the suffix it points at (CString,
    Status, Inlined) or the list of the characters (SimplePattern, Url, Uuid);
    blocks of bytes that are written by index are lists with checked accesses
    (Memory, Splitter, CBuffer, RBuf, WebBuffer, Sanitize); linked structures are a finite map
    from addresses to nodes (Dictionary, Avl); code that several threads run is a step
    relation, a move per atomic access, that any schedule drives (Interleave).  What is not in the repository is a
    parameter: libupsclient is the record [nut_client], whose answers depend on the
    calls made so far on each of the two connections, the kernel clocks are a
    function of the call number, the signals and getopt are arguments, JudyHS is a
    class with its laws, hash functions are arguments.

    ** The files

    Prelude: results, monads, machine integers, tactics.
    CString: C strings, [strchr()], [strncmp()] and the like.
    Double: [NETDATA_DOUBLE], conversions to integers.
    Inlined: libnetdata/inlined.h, from text to numbers, and the hashes.

    The program (src/upsd_plugin.c):
    Status: the scan of 'ups.status' in [send_metric_ups_status()], move by move.
    Charts: [struct nd_chart] and the table [nd_charts].
    Clocks: libnetdata/clocks/clocks.c.
    Dictionary, DictionarySpec, DictionaryThms: libnetdata/dictionary, the
    sequential master dictionary; its invariant; what it promises.
    Plugin: [main()] and every function of the program, on the record [pstate] of
    its dictionaries, its calls of the environment and its output.
    PluginSpec, EvictSpec: the invariants of the three dictionaries, registration,
    collection, the walk that forgets UPSes.
    PluginThms: what one registration, one reading and one eviction do, the command
    line, the inputs on which the program goes wrong.
    Fleet: whole runs; the abstract machine [whole_run] whose state is the list of the
    registered names and the position in the listings, clocks and signals of the
    environment.  Given those it has no choice, and its run is unique.

    The agent's end of the pipe:
    Splitter: libnetdata/line_splitter.
    Protocol: the lines of registrations and readings, as the splitter cuts them.

    Libraries of libnetdata:
    Memory: blocks of bytes.  CBuffer: circular_buffer.c.  RBuf: ringbuffer.c.
    CRHash: c_rhash.c.
    WebBuffer, WebBufferSpec, WebBufferThms: buffer.h and buffer.c, the text buffer.
    Json, JsonSpec, JsonThms: the functions of buffer.h that write JSON.
    SimplePattern, SimplePatternSpec: simple_pattern.c.
    Url, UrlSpec: url.c, percent encoding and HTTP requests.
    Uuid: uuid.c.
    Avl, AvlSpec, AvlInsert, AvlRemove, AvlThms: avl.c, the balanced trees.
    Sanitize, SanitizeSpec, SanitizeThms: libnetdata/sanitizers, the cleaning of
    chart names, labels, plugin texts and function names.

    Threads:
    Interleave: shared memory, schedules, counting threads.
    Refcount: atomics/refcount.h.  Spinlock: locks/spinlock.c.
    RwSpinlock: locks/rw-spinlock.c.

    ** What the theorems show

    The program.  [main_refines_rounds]: in every [environment] whose UPSes the program can
    handle (they may come and go, and their answers may differ from one round to the
    next), a whole run, command line to exit status, returns and prints what the
    abstract machine prints, and nothing else.  [collect_prints_reading], [register_ups_registers] and
    [eviction_forgets_unseen] are its parts: the lines of one reading, the charts
    recorded for a UPS, which UPSes are forgotten.  [parse_status_pieces] and
    [parse_status_join] say which bits a status text sets; [parse_status_off],
    [parse_status_unknown_last], [calculated_realpower_crashes] and
    [unclean_names_never_evicted] are the inputs on which the program fails.
    [agent_reads_plugin_lines] and [str2ll_encoded_print] close the circle: the agent
    splits every printed line into the words and numbers that were meant, unless a name
    or label has a quote or a backslash ([quote_in_a_label]).

    The dictionary.  [dictionary_refines_alist]: every sequence of set, get and
    delete behaves as on an association list; [traversal_visits_live_items],
    [gc_frees_exactly_the_dead], [flush_reads_freed_item].

    Byte queues and tables.  [cbuffer_refines_fifo], [rbuf_refines_queue],
    [c_rhash_refines_map], [c_rhash_iterators_visit_once], [find_bytes_finds].

    Trees.  [avl_refines_sorted_set]: every sequence of searches, insertions and
    removals returns what a sorted set returns, stays inside the memory and the
    stacks of 92 elements, and leaves an ordered balanced tree;
    [avl_traverse_in_order].

    Text.  [buffer_refines_text], [encoded_numbers_round_trip],
    [json_strings_round_trip], [json_documents_round_trip]: every document the JSON
    functions write is read back by a reader of RFC 8259.  [splitter_round_trip],
    [splitter_stays_in_bounds].  [simple_patterns_decide]: the matcher decides the
    relation [globs]; [wildcards_extracted].  [url_round_trip], [url_decode_safe],
    [request_payload_exact], [url_decode_reads_past_the_end], [uuid_round_trip].
    [text_sanitize_is_reference]: the sanitizer, in place or not, writes what a
    reference on characters says; [text_sanitize_one_byte_more] and
    [text_sanitize_writes_behind]: how far it writes; [chart_names_settle].

    Threads.  [refcount_deletion_is_exclusive] and [refcount_waiter_deletes]: one
    thread deletes, when nobody holds the object, and a waiter can always get there;
    [refcount_mixed_deletes_twice]: unless two ways of deleting are mixed.
    [rw_lock_excludes], [spinlock_excludes]: mutual exclusion under every schedule;
    [rw_lock_is_granted]: who gets the lock; [lock_patience]: how long threads sleep
    and when they give up.

    Time.  [heartbeat_next_beats]: with a kernel that [keeps_time], a heartbeat wakes at
    the next beat and not before, signals or not.

    ** Bounds and fuel

    Every loop that is not structural has fuel, and the theorems above prove that it
    does not run out: the status scan and the number parsers use the length of the
    text, the splitter twice that length; the dictionary loops the number of items;
    the walks down a tree the number of nodes in memory; the sleep the number of signals
    that can come while it lasts; a copy into or out of a ring
    buffer wraps at most once ([copy_fuel] is 3), and a circular buffer doubles at
    most 66 times ([grow_fuel]).  The main loop of the program ends only at a signal,
    a broken pipe or its own age: [main] takes a number of turns, and
    [main_refines_rounds] needs as many as the environment lets the loop run.  The
    text buffer is proved for texts below 1 GiB ([LIMIT]); a tree has less than 2^64
    nodes, hence at most 91 levels; a traversal returns an [int] that must not
    overflow; JSON documents nest at most as deep as the stack of the buffer.  The
    threads have no fuel: a schedule is a finite list of moves of any length, among
    any number of threads (fewer than 2^31 for the read-write lock, whose counter
    has 31 bits).

    ** Not modelled

    print_help(), print_version() and log messages: texts for a terminal.
    libupsclient, JudyHS, the hash functions, the kernel: not in the repository or
    vendored; parameters.  Memory orderings: a schedule is sequentially consistent.
    The program has one thread: the dictionary and the trees are modelled without
    their locks, dictionary views and sorted walkthroughs not at all.  Of inlined.h the file readers and trim; of
    clocks.c the uptime readers and sleep_to_absolute_time; of buffer.h the printf
    functions, dates, and members with floating point numbers or UUIDs.  The rest of
    the agent (database, streaming, health, web server, collectors, SQLite, xxHash)
    are other programs or third-party code: the plugin does not call them.
    [main_refines_rounds] is for names that [clean_name()] leaves alone and sleeps that
    no signal interrupts; what happens to other names, in a fleet of both kinds, is
    [unclean_names_never_evicted], and to other sleeps [heartbeat_next_beats].

    Natural next steps: the parsers of durations and sizes, storage_number.c, the interning of strings, the adaptive
    resortable list, and the remaining members of the text buffer. *)

From stdpp Require Export base tactics numbers list option strings gmap.
From Stdlib Require Export ZArith Lia Ascii.
From Stdlib Require String.

#[export] Set Default Proof Using "Type".

Declare Scope upsd_scope.
Delimit Scope upsd_scope with upsd.
#[global] Open Scope Z_scope.

(** [String.append] reduces on a constructor. *)
#[global] Arguments String.append !_ _ : simpl nomatch.

(** ** Results of C code

    A C computation either yields a value, or reaches one of the undefined
    behaviours below, or (loops only) exhausts the fuel of its model. *)

Inductive ub_kind : Set :=
| UB_null      (** a null (or null-derived) pointer is dereferenced *)
| UB_oob       (** an access outside an object *)
| UB_conv      (** a floating value that does not fit the target integer *)
| UB_overflow  (** a signed integer overflow *)
| UB_div0      (** an integer division or remainder by zero *)
| UB_fatal.    (** not undefined: the code calls [fatal()] and the process dies *)

Inductive cres (A : Type) : Type :=
| Ok (a : A)
| UB (k : ub_kind)
| NoFuel.
Arguments Ok {A} a.
Arguments UB {A} k.
Arguments NoFuel {A}.

#[global] Instance cres_ret : MRet cres := fun A a => Ok a.
#[global] Instance cres_bind : MBind cres := fun A B f m =>
  match m with
  | Ok a => f a
  | UB k => UB k
  | NoFuel => NoFuel
  end.

#[global] Instance ub_kind_eq_dec : EqDecision ub_kind.
Proof. intros [] []; (left; reflexivity) || (right; discriminate). Defined.

Definition is_ok {A} (r : cres A) : bool :=
  match r with Ok _ => true | _ => false end.

Lemma cres_bind_Ok {A B} (m : cres A) (f : A → cres B) (b : B) :
  (m ≫= f) = Ok b ↔ ∃ a, m = Ok a ∧ f a = Ok b.
Proof. destruct m; naive_solver. Qed.

Lemma cres_bind_assoc {A B C} (m : cres A) (f : A → cres B) (g : B → cres C) :
  ((m ≫= f) ≫= g) = (m ≫= fun a => f a ≫= g).
Proof. by destruct m. Qed.

(** ** Stateful C code

    [cst S A] is a computation that reads and writes a state of type [S] and
    ends like a C computation does. *)

Definition cst (S A : Type) : Type := S → cres (A * S).

#[global] Instance cst_ret S : MRet (cst S) := fun A a s => Ok (a, s).
#[global] Instance cst_bind S : MBind (cst S) := fun A B f m s =>
  match m s with
  | Ok (a, s') => f a s'
  | UB k => UB k
  | NoFuel => NoFuel
  end.

Definition cget {S} : cst S S := fun s => Ok (s, s).
Definition cput {S} (s : S) : cst S unit := fun _ => Ok (tt, s).
Definition cmodify {S} (f : S → S) : cst S unit := fun s => Ok (tt, f s).
Definition cfail {S A} (k : ub_kind) : cst S A := fun _ => UB k.
Definition clift {S A} (r : cres A) : cst S A := fun s =>
  match r with Ok a => Ok (a, s) | UB k => UB k | NoFuel => NoFuel end.

Lemma cst_bind_Ok {S A B} (m : cst S A) (f : A → cst S B) s a s' :
  m s = Ok (a, s') → (m ≫= f) s = f a s'.
Proof. intros Hm. unfold mbind, cst_bind. by rewrite Hm. Qed.

(** Running a program step by step. *)
Lemma bind_run {S A B} (m : cst S A) (f : A → cst S B) s :
  (m ≫= f) s = match m s with Ok (a, s') => f a s' | UB k => UB k | NoFuel => NoFuel end.
Proof. done. Qed.
Lemma bind_modify {S B} (h : S → S) (f : unit → cst S B) s :
  (cmodify h ≫= f) s = f tt (h s).
Proof. done. Qed.
Lemma bind_get {S B} (f : S → cst S B) s : (cget ≫= f) s = f s s.
Proof. done. Qed.
Lemma bind_ret {S A B} (a : A) (f : A → cst S B) s : (mret a ≫= f) s = f a s.
Proof. done. Qed.

Lemma cst_bind_inv {S A B} (m : cst S A) (f : A → cst S B) s b s'' :
  (m ≫= f) s = Ok (b, s'') → ∃ a s', m s = Ok (a, s') ∧ f a s' = Ok (b, s'').
Proof.
  unfold mbind, cst_bind. destruct (m s) as [[a s']|k|]; [eauto|done|done].
Qed.

(** ** Machine integers

    [wrap_u w z] and [wrap_s w z] are the value [z] takes when it is stored in
    an unsigned, respectively signed (two's complement), integer of [w] bits. *)

Definition wrap_u (w : Z) (z : Z) : Z := z mod 2 ^ w.
Definition wrap_s (w : Z) (z : Z) : Z :=
  (z + 2 ^ (w - 1)) mod 2 ^ w - 2 ^ (w - 1).

Abbreviation u8 := (wrap_u 8).
Abbreviation u32 := (wrap_u 32).
Abbreviation u64 := (wrap_u 64).
Abbreviation i32 := (wrap_s 32).
Abbreviation i64 := (wrap_s 64).

Lemma wrap_u_range w z : 0 ≤ w → 0 ≤ wrap_u w z < 2 ^ w.
Proof. intros. apply Z.mod_pos_bound. by apply Z.pow_pos_nonneg. Qed.

Lemma wrap_u_id w z : 0 ≤ z < 2 ^ w → wrap_u w z = z.
Proof. intros. by apply Z.mod_small. Qed.

Lemma wrap_u_idem w z : wrap_u w (wrap_u w z) = wrap_u w z.
Proof.
  unfold wrap_u. destruct (decide (2 ^ w = 0)) as [->|].
  - by rewrite !Z.mod_0_r.
  - by apply Z.mod_mod.
Qed.

Lemma wrap_s_range w z : 0 < w → - 2 ^ (w - 1) ≤ wrap_s w z < 2 ^ (w - 1).
Proof.
  intros. unfold wrap_s.
  pose proof (Z.mod_pos_bound (z + 2 ^ (w - 1)) (2 ^ w)
                (Z.pow_pos_nonneg 2 w ltac:(lia) ltac:(lia))) as Hb.
  assert (2 ^ w = 2 * 2 ^ (w - 1)).
  { rewrite <- Z.pow_succ_r by lia. f_equal. lia. }
  lia.
Qed.

Lemma wrap_s_id w z : 0 < w → - 2 ^ (w - 1) ≤ z < 2 ^ (w - 1) → wrap_s w z = z.
Proof.
  intros. unfold wrap_s.
  assert (2 ^ w = 2 * 2 ^ (w - 1)).
  { rewrite <- Z.pow_succ_r by lia. f_equal. lia. }
  rewrite Z.mod_small by lia. lia.
Qed.

Lemma wrap_u_eqm w a b : wrap_u w (wrap_u w a + b) = wrap_u w (a + b).
Proof. unfold wrap_u. apply Zplus_mod_idemp_l. Qed.

(** ** Automation *)

Create HintDb upsd.
Create Rewrite HintDb upsd.
#[export] Hint Rewrite @length_app @length_fmap @length_take @length_drop : upsd.

(** Case on the scrutinee of the first [match] or [if] of the goal. *)
Ltac case_head :=
  match goal with
  | |- context [match ?x with _ => _ end] => destruct x eqn:?
  end.

(** Invert equations between results. *)
Ltac inv_res :=
  repeat match goal with
  | H : Ok _ = Ok _ |- _ => injection H as H
  | H : Some _ = Some _ |- _ => injection H as H
  | H : UB _ = Ok _ |- _ => discriminate H
  | H : NoFuel = Ok _ |- _ => discriminate H
  | H : Ok _ = UB _ |- _ => discriminate H
  | H : None = Some _ |- _ => discriminate H
  | H : Some _ = None |- _ => discriminate H
  | H : (_, _) = (_, _) |- _ => injection H as ?H ?H
  end; subst.
