(* ===== verification/CString.v ===== *)
(** * C strings and pointers into them

    A C string is a Rocq [string] without the NUL character; its terminator is
    implicit.  A pointer into a string is the suffix it points at. *)

From S2P Require Import Prelude.

(** ** Characters *)

Definition NUL : ascii := "000".
Definition code (c : ascii) : Z := Z.of_N (N_of_ascii c).
Definition chr (z : Z) : ascii := ascii_of_N (Z.to_N z).

Lemma code_range c : 0 ≤ code c < 256.
Proof.
  unfold code. pose proof (N_ascii_bounded c). lia.
Qed.

Lemma chr_code c : chr (code c) = c.
Proof. unfold chr, code. rewrite N2Z.id. apply ascii_N_embedding. Qed.

Lemma code_inj c d : code c = code d → c = d.
Proof. intros H. rewrite <- (chr_code c), H. apply chr_code. Qed.

Lemma code_chr z : 0 ≤ z < 256 → code (chr z) = z.
Proof.
  intros. unfold chr, code. rewrite N_ascii_embedding by lia. lia.
Qed.

(** [isspace] and [isdigit] of the C locale. *)
Definition isspace (c : ascii) : bool :=
  (code c =? 32) || ((9 <=? code c) && (code c <=? 13)).
Definition isdigit (c : ascii) : bool := (48 <=? code c) && (code c <=? 57).

(** ** Whole strings *)

Fixpoint str_all (p : ascii → bool) (s : string) : bool :=
  match s with
  | "" => true
  | String c s' => p c && str_all p s'
  end%string.

(** A string that C can represent. *)
Definition no_nul (s : string) : bool := str_all (λ c, negb (Ascii.eqb c NUL)) s.

Fixpoint str_map (f : ascii → ascii) (s : string) : string :=
  match s with
  | "" => ""
  | String c s' => String (f c) (str_map f s')
  end%string.

Fixpoint str_drop (n : nat) (s : string) : string :=
  match n, s with
  | O, _ => s
  | S n', String _ s' => str_drop n' s'
  | S _, EmptyString => EmptyString
  end.

Lemma str_app_assoc (a b c : string) : ((a +:+ b) +:+ c = a +:+ (b +:+ c))%string.
Proof. induction a as [|x a IH]; simpl; [done|by rewrite IH]. Qed.

Lemma str_app_nil_r (a : string) : (a +:+ "" = a)%string.
Proof. induction a as [|x a IH]; simpl; [done|by rewrite IH]. Qed.

Lemma str_app_length (a b : string) :
  String.length (a +:+ b) = (String.length a + String.length b)%nat.
Proof. induction a as [|x a IH]; simpl; [done|by rewrite IH]. Qed.

Lemma str_app_cons c (a b : string) : (String c a +:+ b = String c (a +:+ b))%string.
Proof. done. Qed.

Lemma str_all_app p a b : str_all p (a +:+ b) = str_all p a && str_all p b.
Proof. induction a as [|x a IH]; simpl; [done|]. by rewrite IH, andb_assoc. Qed.

Lemma str_map_length f s : String.length (str_map f s) = String.length s.
Proof. induction s as [|x s IH]; simpl; [done|by rewrite IH]. Qed.

Lemma str_map_app f a b : (str_map f (a +:+ b) = str_map f a +:+ str_map f b)%string.
Proof. induction a as [|x a IH]; simpl; [done|by rewrite IH]. Qed.

Lemma str_map_id f s :
  str_all (λ c, Ascii.eqb (f c) c) s = true → str_map f s = s.
Proof.
  induction s as [|x s IH]; simpl; [done|].
  rewrite andb_true_iff. intros [H1%Ascii.eqb_eq H2]. by rewrite H1, IH.
Qed.

Lemma str_all_impl p q s :
  (∀ c, p c = true → q c = true) → str_all p s = true → str_all q s = true.
Proof.
  intros Hpq. induction s as [|x s IH]; simpl; [done|].
  rewrite !andb_true_iff. naive_solver.
Qed.

Lemma str_drop_length n s :
  String.length (str_drop n s) = (String.length s - n)%nat.
Proof.
  revert s; induction n as [|n IH]; intros [|x s]; simpl; auto.
Qed.

#[export] Hint Rewrite str_app_assoc str_app_nil_r str_app_length str_all_app : upsd.

(** ** Pointers *)

(** A [const char *]: null, a position inside a string (the suffix from there on,
    [PAt ""] being the terminator), past the terminator, or a pointer computed
    from null. *)
Inductive cptr : Type :=
| PNull
| PAt (s : string)
| PPast
| PWild.

(** [*p] *)
Definition deref (p : cptr) : cres ascii :=
  match p with
  | PAt EmptyString => Ok NUL
  | PAt (String c _) => Ok c
  | PPast => UB UB_oob
  | PNull | PWild => UB UB_null
  end.

(** [p + n] *)
Definition padd (p : cptr) (n : nat) : cptr :=
  match p with
  | PAt s => if (n <=? String.length s)%nat then PAt (str_drop n s) else PPast
  | PNull => match n with O => PNull | S _ => PWild end
  | PPast => PPast
  | PWild => PWild
  end.

(** [strchr(p, ch)] for a [ch] other than NUL. *)
Fixpoint strchr_from (s : string) (ch : ascii) : cptr :=
  match s with
  | EmptyString => PNull
  | String c s' => if Ascii.eqb c ch then PAt s else strchr_from s' ch
  end.

Definition strchr (p : cptr) (ch : ascii) : cres cptr :=
  match p with
  | PAt s => Ok (strchr_from s ch)
  | PPast => UB UB_oob
  | PNull | PWild => UB UB_null
  end.

(** [char *] value of an optional string: [None] is the null pointer. *)
Definition ptr_of (o : option string) : cptr :=
  match o with Some s => PAt s | None => PNull end.

Lemma padd_cons n c s : padd (PAt (String c s)) (S n) = padd (PAt s) n.
Proof. unfold padd. simpl. done. Qed.

Lemma padd_0 s : padd (PAt s) 0 = PAt s.
Proof. done. Qed.

Lemma strchr_from_none s ch :
  str_all (λ c, negb (Ascii.eqb c ch)) s = true → strchr_from s ch = PNull.
Proof.
  induction s as [|x s IH]; simpl; [done|].
  rewrite andb_true_iff, negb_true_iff. intros [-> ?]. auto.
Qed.

Lemma strchr_from_skip a s ch :
  str_all (λ c, negb (Ascii.eqb c ch)) a = true →
  strchr_from (a +:+ String ch s) ch = PAt (String ch s).
Proof.
  induction a as [|x a IH]; simpl.
  - by rewrite Ascii.eqb_refl.
  - rewrite andb_true_iff, negb_true_iff. intros [-> ?]. auto.
Qed.

(** ** Decimal output of [printf] *)

Definition digit_char (d : Z) : ascii := chr (48 + d).

(** The decimal digits of a non-negative number, in front of [acc]; [fuel] bounds
    their number. *)
Fixpoint dec_aux (fuel : nat) (n : Z) (acc : string) : string :=
  match fuel with
  | O => acc
  | S fuel =>
      let acc := String (digit_char (n mod 10)) acc in
      if n / 10 =? 0 then acc else dec_aux fuel (n / 10) acc
  end.

(** %u, %lu and PRIu64: an unsigned number below 2^64 has at most 20 digits. *)
Definition print_u (n : Z) : string := dec_aux 20 n "".

(** PRId64 *)
Definition print_d (n : Z) : string :=
  if n <? 0 then String "-" (print_u (- n)) else print_u n.

Lemma digit_char_code d : 0 ≤ d < 10 → code (digit_char d) = 48 + d.
Proof. intros. unfold digit_char. apply code_chr. lia. Qed.

Lemma isdigit_digit_char d : 0 ≤ d < 10 → isdigit (digit_char d) = true.
Proof.
  intros. unfold isdigit. rewrite digit_char_code by done.
  destruct (Z.leb_spec 48 (48 + d)), (Z.leb_spec (48 + d) 57); (done || lia).
Qed.

(** A property of all digits holds of the output. *)
Lemma dec_aux_all p fuel n acc :
  0 ≤ n → (∀ d, 0 ≤ d < 10 → p (digit_char d) = true) →
  str_all p acc = true → str_all p (dec_aux fuel n acc) = true.
Proof.
  intros Hn Hp. revert n acc Hn; induction fuel as [|fuel IH]; intros n acc Hn Hacc; [done|].
  simpl. pose proof (Z.mod_pos_bound n 10 ltac:(lia)).
  case_match; [|apply IH; [apply Z.div_pos; lia|]]; simpl; by rewrite Hp.
Qed.

Lemma print_u_all p n :
  0 ≤ n → (∀ d, 0 ≤ d < 10 → p (digit_char d) = true) → str_all p (print_u n) = true.
Proof. intros. by apply dec_aux_all. Qed.

Lemma dec_aux_nonempty fuel n acc :
  ∃ d s, 0 ≤ d < 10 ∧ dec_aux (S fuel) n acc = String (digit_char d) s.
Proof.
  revert n acc; induction fuel as [|fuel IH]; intros n acc;
    pose proof (Z.mod_pos_bound n 10 ltac:(lia)).
  - simpl. case_match; eauto.
  - change (dec_aux (S (S fuel)) n acc) with
      (if n / 10 =? 0 then String (digit_char (n mod 10)) acc
       else dec_aux (S fuel) (n / 10) (String (digit_char (n mod 10)) acc)).
    case_match; eauto.
Qed.

Lemma print_u_head n : ∃ d s, 0 ≤ d < 10 ∧ print_u n = String (digit_char d) s.
Proof. apply dec_aux_nonempty. Qed.
