(* ===== verification/Double.v ===== *)
(** * NETDATA_DOUBLE

    [NETDATA_DOUBLE] is [double] (libnetdata/storage_number/storage_number.h,
    the branch without NETDATA_WITH_LONG_DOUBLE): IEEE 754 binary64 with
    round-to-nearest-even, the executable specification of the Standard Library
    at precision 53 and maximal exponent 1024. *)

From S2P Require Import Prelude.
From Stdlib Require Import SpecFloat.

Abbreviation dbl := spec_float.

Definition d_of_Z (z : Z) : dbl := binary_normalize 53 1024 z 0 false.
Definition d_mul : dbl → dbl → dbl := SFmul 53 1024.
Definition d_add : dbl → dbl → dbl := SFadd 53 1024.
Definition d_div : dbl → dbl → dbl := SFdiv 53 1024.

(** Truncation towards zero, as in a C conversion to an integer type. *)
Definition d_trunc (x : dbl) : option Z :=
  match x with
  | S754_zero _ => Some 0
  | S754_finite s m e =>
      let a := if 0 <=? e then Zpos m * 2 ^ e else Zpos m / 2 ^ (- e) in
      Some (if s then - a else a)
  | S754_infinity _ | S754_nan => None
  end.

(** [(int64_t)x]: undefined when the truncated value does not fit. *)
Definition d_to_i64 (x : dbl) : cres Z :=
  match d_trunc x with
  | Some z => if (- 2 ^ 63 <=? z) && (z <? 2 ^ 63) then Ok z else UB UB_conv
  | None => UB UB_conv
  end.

(** ** Integers are exact below 2^53 *)

(** [m * 2 ^ e] is the integer [n]. *)
Definition scaled (m e n : Z) : Prop :=
  if 0 <=? e then n = m * 2 ^ e else m = n * 2 ^ (- e).

(** [x] is exactly the integer [n]. *)
Definition represents (x : dbl) (n : Z) : Prop :=
  match x with
  | S754_zero _ => n = 0
  | S754_finite s m e => scaled (if s then Zneg m else Zpos m) e n
  | _ => False
  end.

Lemma scaled_trunc m e n :
  scaled m e n → (if 0 <=? e then m * 2 ^ e else m / 2 ^ (- e)) = n.
Proof.
  unfold scaled. destruct (Z.leb_spec 0 e); [done|].
  intros ->. apply Z.div_mul. apply Z.pow_nonzero; lia.
Qed.

Lemma represents_trunc x n : represents x n → d_trunc x = Some n.
Proof.
  destruct x as [s|s| |s m e]; simpl; try done; [by intros ->|].
  destruct s; intros H.
  - assert (scaled (Zpos m) e (- n)) as H'.
    { revert H. unfold scaled. case_match; lia. }
    rewrite (scaled_trunc _ _ _ H'). f_equal. lia.
  - by rewrite (scaled_trunc _ _ _ H).
Qed.

Lemma digits2_log2 p : Zpos (digits2_pos p) = Z.log2 (Zpos p) + 1.
Proof.
  induction p as [p IH|p IH|]; simpl digits2_pos; [| |done].
  - rewrite Pos2Z.inj_succ, IH, (Pos2Z.inj_xI p), Z.log2_succ_double; lia.
  - rewrite Pos2Z.inj_succ, IH, (Pos2Z.inj_xO p), Z.log2_double; lia.
Qed.

Lemma scaled_log2 m e n :
  0 < m → 0 < n → scaled m e n → Z.log2 m + e = Z.log2 n.
Proof.
  unfold scaled. destruct (Z.leb_spec 0 e); intros Hm Hn ->.
  - rewrite Z.log2_mul_pow2; lia.
  - rewrite Z.log2_mul_pow2; lia.
Qed.

Lemma iter_pos_nat {A} (f : A → A) p x :
  iter_pos f p x = Nat.iter (Pos.to_nat p) f x.
Proof.
  revert x; induction p as [p IH|p IH|]; intros x; cbn [iter_pos]; [| |done];
    rewrite !IH, <- Nat.iter_add, ?Pos2Nat.inj_xI, ?Pos2Nat.inj_xO.
  - rewrite <- Nat.iter_succ_r. f_equal. lia.
  - f_equal. lia.
Qed.

Lemma shr_exact k m :
  0 < m →
  Nat.iter k shr_1 (Build_shr_record (m * 2 ^ Z.of_nat k) false false) =
  Build_shr_record m false false.
Proof.
  intros Hm. induction k as [|k IH].
  - simpl. by rewrite Z.mul_1_r.
  - rewrite Nat.iter_succ_r, Nat2Z.inj_succ, Z.pow_succ_r by lia.
    replace (m * (2 * 2 ^ Z.of_nat k)) with (2 * (m * 2 ^ Z.of_nat k)) by ring.
    destruct (m * 2 ^ Z.of_nat k) as [|p|p] eqn:Hp; [| |]; try (simpl; exact IH).
Qed.

Definition efix (m e : Z) : Z := fexp 53 1024 (Zdigits2 m + e) - e.

Lemma efix_scaled m e n :
  0 < m → 0 < n < 2 ^ 53 → scaled m e n → efix m e = Z.log2 n - 52 - e.
Proof.
  intros Hm Hn Hs. unfold efix, fexp, emin.
  destruct m as [|p|p]; try lia. simpl Zdigits2. rewrite digits2_log2.
  pose proof (scaled_log2 (Zpos p) e n Hm ltac:(lia) Hs).
  pose proof (Z.log2_nonneg n).
  assert (Z.log2 n < 53) by (apply Z.log2_lt_pow2; lia). lia.
Qed.

(** Shifting right by [efix] loses nothing. *)
Lemma shr_fexp_exact m e n :
  0 < m → 0 < n < 2 ^ 53 → scaled m e n →
  ∃ m' e', shr_fexp 53 1024 m e loc_Exact = (Build_shr_record m' false false, e') ∧
           0 < m' ∧ scaled m' e' n ∧ efix m' e' ≤ 0.
Proof.
  intros Hm Hn Hs. pose proof (efix_scaled _ _ _ Hm Hn Hs) as He.
  assert (Z.log2 n < 53) by (apply Z.log2_lt_pow2; lia).
  unfold shr_fexp. fold (efix m e). simpl shr_record_of_loc.
  destruct (efix m e) as [|k|k] eqn:Hk.
  - exists m, e. repeat split; auto; lia.
  - assert (e < 0) by lia.
    unfold scaled in Hs. destruct (Z.leb_spec 0 e); [lia|].
    exists (n * 2 ^ (- e - Zpos k)), (e + Zpos k).
    assert (m = n * 2 ^ (- e - Zpos k) * 2 ^ Z.of_nat (Pos.to_nat k)) as Hm'.
    { rewrite positive_nat_Z, <- Z.mul_assoc, <- Z.pow_add_r by lia.
      rewrite Hs. f_equal; f_equal; lia. }
    assert (0 < n * 2 ^ (- e - Zpos k)).
    { apply Z.mul_pos_pos; [lia|]. apply Z.pow_pos_nonneg; lia. }
    assert (scaled (n * 2 ^ (- e - Zpos k)) (e + Zpos k) n) as Hs'.
    { unfold scaled. destruct (Z.leb_spec 0 (e + Zpos k)).
      - assert (- e - Zpos k = 0) as -> by lia. assert (e + Zpos k = 0) as -> by lia. lia.
      - f_equal. f_equal. lia. }
    split_and!; auto.
    + unfold shr. rewrite iter_pos_nat. rewrite Hm' at 1. by rewrite shr_exact.
    + rewrite (efix_scaled _ _ n); auto. lia.
  - exists m, e. repeat split; auto; lia.
Qed.

Lemma shr_fexp_stable m e :
  efix m e ≤ 0 → shr_fexp 53 1024 m e loc_Exact = (Build_shr_record m false false, e).
Proof.
  intros H. unfold shr_fexp. fold (efix m e). simpl shr_record_of_loc.
  destruct (efix m e); simpl; (done || lia).
Qed.

Lemma round_exact s m e n :
  0 < n < 2 ^ 53 → scaled (Zpos m) e n →
  represents (binary_round_aux 53 1024 s (Zpos m) e loc_Exact) (if s then - n else n).
Proof.
  intros Hn Hs.
  destruct (shr_fexp_exact (Zpos m) e n) as (m' & e' & Hsh & Hm' & Hs' & He'); auto; [lia|].
  unfold binary_round_aux. rewrite Hsh. cbn [shr_m loc_of_shr_record round_nearest_even].
  rewrite shr_fexp_stable by done. cbn [shr_m].
  destruct m' as [|p|p]; try lia.
  assert (e' <= 53).
  { destruct (Z.le_gt_cases e' 53); [done|].
    pose proof (scaled_log2 (Zpos p) e' n Hm' ltac:(lia) Hs').
    assert (Z.log2 n < 53) by (apply Z.log2_lt_pow2; lia).
    pose proof (Z.log2_nonneg (Zpos p)). lia. }
  destruct (Z.leb_spec e' (1024 - 53)); [|lia].
  simpl. destruct s; [|done]. revert Hs'. unfold scaled. case_match; lia.
Qed.

Lemma shl_align_scaled m e e' :
  let '(m', e1) := shl_align m e e' in
  (e1 = e ∧ m' = m ∧ e ≤ e') ∨ (e1 = e' ∧ e' < e ∧ Zpos m' = Zpos m * 2 ^ (e - e')).
Proof.
  unfold shl_align. destruct (e' - e) as [|d|d] eqn:Hd; [left; lia|left; lia|right].
  split_and!; [done|lia|].
  replace (e - e') with (Zpos d) by lia.
  clear Hd. induction d as [|d IH] using Pos.peano_ind.
  - change (Zpos (xO m) = Zpos m * 2). lia.
  - rewrite Pos.iter_succ, Pos2Z.inj_xO, IH, Pos2Z.inj_succ, Z.pow_succ_r by lia. ring.
Qed.

Lemma scaled_shift m e e' n :
  e' ≤ e → scaled m e n → scaled (m * 2 ^ (e - e')) e' n.
Proof.
  unfold scaled. intros He.
  destruct (Z.leb_spec 0 e), (Z.leb_spec 0 e'); try lia; intros ->.
  - rewrite <- Z.mul_assoc, <- Z.pow_add_r by lia. f_equal; f_equal; lia.
  - rewrite <- Z.mul_assoc, <- Z.pow_add_r by lia. f_equal; f_equal; lia.
  - rewrite <- Z.mul_assoc, <- Z.pow_add_r by lia. f_equal; f_equal; lia.
Qed.

Lemma binary_round_exact s m e n :
  0 < n < 2 ^ 53 → scaled (Zpos m) e n →
  represents (binary_round 53 1024 s m e) (if s then - n else n).
Proof.
  intros Hn Hs. unfold binary_round.
  pose proof (shl_align_scaled m e (fexp 53 1024 (Zpos (digits2_pos m) + e))) as H.
  destruct (shl_align _ _ _) as [mz ez].
  destruct H as [(-> & -> & _)|(-> & Hlt & Heq)]; apply round_exact; auto.
  rewrite Heq. apply scaled_shift; [lia|done].
Qed.

Lemma normalize_exact m e n b :
  Z.abs n < 2 ^ 53 → scaled m e n →
  represents (binary_normalize 53 1024 m e b) n.
Proof.
  intros Hn Hs. destruct m as [|p|p]; simpl.
  - unfold scaled in Hs. case_match; [lia|].
    assert (2 ^ (- e) ≠ 0) by (apply Z.pow_nonzero; lia). lia.
  - apply (binary_round_exact false); auto.
    revert Hs. unfold scaled. case_match; intros; [|]; nia.
  - rewrite <- (Z.opp_involutive n).
    apply (binary_round_exact true); revert Hs; unfold scaled; case_match; nia.
Qed.

(** ** Exact operations on integers *)

Lemma scaled_mul m1 e1 n1 m2 e2 n2 :
  scaled m1 e1 n1 → scaled m2 e2 n2 → scaled (m1 * m2) (e1 + e2) (n1 * n2).
Proof.
  unfold scaled. intros H1 H2.
  destruct (Z.leb_spec 0 e1), (Z.leb_spec 0 e2), (Z.leb_spec 0 (e1 + e2));
    try lia; subst.
  - rewrite Z.pow_add_r by lia. ring.
  - replace e1 with ((e1 + e2) + - e2) at 1 by lia.
    rewrite Z.pow_add_r by lia. ring.
  - replace (- e2) with (e1 + - (e1 + e2)) by lia. rewrite Z.pow_add_r by lia. ring.
  - replace e2 with ((e1 + e2) + - e1) at 1 by lia.
    rewrite Z.pow_add_r by lia. ring.
  - replace (- e1) with (e2 + - (e1 + e2)) by lia. rewrite Z.pow_add_r by lia. ring.
  - rewrite Z.opp_add_distr, Z.pow_add_r by lia. ring.
Qed.

Lemma scaled_add m1 m2 e n1 n2 :
  scaled m1 e n1 → scaled m2 e n2 → scaled (m1 + m2) e (n1 + n2).
Proof. unfold scaled. case_match; intros -> ->; ring. Qed.

Lemma scaled_abs m e n : scaled m e n → scaled (Z.abs m) e (Z.abs n).
Proof.
  unfold scaled. case_match; intros ->; rewrite Z.abs_mul; f_equal;
    apply Z.abs_eq, Z.pow_nonneg; lia.
Qed.

Lemma scaled_nonzero m e n : m ≠ 0 → scaled m e n → n ≠ 0.
Proof.
  unfold scaled. case_match; intros ? ->; [|lia].
  apply Z.neq_mul_0; split; [done|apply Z.pow_nonzero; lia].
Qed.

Lemma d_of_Z_exact n : Z.abs n < 2 ^ 53 → represents (d_of_Z n) n.
Proof. intros. apply normalize_exact; [done|]. unfold scaled. simpl. lia. Qed.

Lemma d_mul_exact x y a b :
  represents x a → represents y b → Z.abs (a * b) < 2 ^ 53 →
  represents (d_mul x y) (a * b).
Proof.
  destruct x as [s|s| |s m e], y as [s'|s'| |s' m' e']; simpl; try done;
    try (intros -> ?; simpl; lia); try (intros ? ->; simpl; lia).
  intros Ha Hb Hlt. unfold d_mul, SFmul.
  pose proof (scaled_mul _ _ _ _ _ _ Ha Hb) as Hs.
  pose proof (scaled_abs _ _ _ Hs) as Hs'.
  assert (a * b ≠ 0) by (eapply scaled_nonzero; [|exact Hs]; by destruct s, s').
  replace (Z.abs ((if s then Zneg m else Zpos m) * (if s' then Zneg m' else Zpos m')))
    with (Zpos (m * m')) in Hs' by (by destruct s, s').
  replace (a * b) with (if xorb s s' then - Z.abs (a * b) else Z.abs (a * b)).
  - apply round_exact; [lia|done].
  - revert Ha Hb. unfold scaled.
    assert (∀ k, 0 ≤ k → 0 < 2 ^ k) by (intros; apply Z.pow_pos_nonneg; lia).
    destruct (Z.leb_spec 0 e), (Z.leb_spec 0 e'); intros; subst;
      [pose proof (H0 e); pose proof (H0 e')
      |pose proof (H0 e); pose proof (H0 (- e'))
      |pose proof (H0 (- e)); pose proof (H0 e')
      |pose proof (H0 (- e)); pose proof (H0 (- e'))];
      destruct s, s'; simpl; nia.
Qed.

Lemma d_add_exact x y a b :
  represents x a → represents y b → Z.abs (a + b) < 2 ^ 53 →
  represents (d_add x y) (a + b).
Proof.
  destruct x as [s|s| |s m e], y as [s'|s'| |s' m' e']; simpl; try done.
  - intros -> -> _. unfold d_add, SFadd. by destruct s, s'.
  - by intros -> ? _.
  - intros ? -> _. by rewrite Z.add_0_r.
  - intros Ha Hb Hlt. unfold d_add, SFadd. apply normalize_exact; [done|].
    assert (∀ (s : bool) (m : positive) (e ez n : Z), ez ≤ e → scaled (if s then Zneg m else Zpos m) e n →
              scaled (cond_Zopp s (Zpos (fst (shl_align m e ez)))) ez n) as Hal.
    { clear. intros s m e ez n Hle Hs. pose proof (shl_align_scaled m e ez) as H.
      destruct (shl_align m e ez) as [m1 e1]. simpl fst.
      destruct H as [(-> & -> & ?)|(-> & ? & Heq)].
      - assert (ez = e) as -> by lia. by destruct s.
      - apply (scaled_shift _ _ ez) in Hs; [|lia].
        destruct s; simpl cond_Zopp; rewrite Heq in *; [|done].
        replace (- (Zpos m * 2 ^ (e - ez))) with (Zneg m * 2 ^ (e - ez)) by lia. done. }
    apply scaled_add; apply Hal; (done || lia).
Qed.

Lemma d_to_i64_exact x n :
  represents x n → - 2 ^ 63 ≤ n < 2 ^ 63 → d_to_i64 x = Ok n.
Proof.
  intros H%represents_trunc ?. unfold d_to_i64. rewrite H.
  destruct (Z.leb_spec (- 2 ^ 63) n), (Z.ltb_spec n (2 ^ 63)); (done || lia).
Qed.
