(* ===== verification/Inlined.v ===== *)
(** * libnetdata/inlined.h: numbers in strings, hashes

    The inline functions of libnetdata that turn text into numbers.  A [const
    char *] that only moves forward inside its string is the suffix it points at;
    a function with an [endptr] argument returns it as the second component. *)

From S2P Require Import Prelude CString Double.
From Stdlib Require Import SpecFloat.

#[local] Open Scope string_scope.
#[local] Open Scope Z_scope.

(** ** Decimal integers *)

(** [while(isspace((uint8_t)*s)) s++;] *)
Fixpoint skip_spaces (s : string) : string :=
  match s with
  | String c s' => if isspace c then skip_spaces s' else s
  | EmptyString => s
  end.

(** [*s - '0'] *)
Definition digit_of (c : ascii) : Z := code c - 48.

(** [while( *s >= '0' && *s <= '9') n = n * 10 + ( *s++ - '0');] on an unsigned
    [n] of [w] bits. *)
Fixpoint digits_loop (w : Z) (s : string) (n : Z) : Z * string :=
  match s with
  | String c s' =>
      if isdigit c then digits_loop w s' (wrap_u w (n * 10 + digit_of c)) else (n, s)
  | EmptyString => (n, s)
  end.

Definition str2u (s : string) : Z := fst (digits_loop 32 (skip_spaces s) 0).

(** [(int) n] and [-(int) n] of an unsigned [n] of [w] bits; negating the
    smallest value overflows. *)
Definition neg_signed (w : Z) (n : Z) : cres Z :=
  let v := wrap_s w n in
  if v =? - 2 ^ (w - 1) then UB UB_overflow else Ok (- v).

Definition str2i (s : string) : cres Z :=
  let s := skip_spaces s in
  match s with
  | String "-" s' => neg_signed 32 (str2u s')
  | String "+" s' => Ok (i32 (str2u s'))
  | _ => Ok (i32 (str2u s))
  end%char.

(** [unsigned long] and [long] have 64 bits on the platforms of the plugin. *)
Definition str2ul (s : string) : Z := fst (digits_loop 64 (skip_spaces s) 0).

Definition str2l (s : string) : cres Z :=
  let s := skip_spaces s in
  match s with
  | String "-" s' => neg_signed 64 (str2ul s')
  | String "+" s' => Ok (i64 (str2ul s'))
  | _ => Ok (i64 (str2ul s))
  end%char.

Definition str2uint32_t (s : string) : Z * string := digits_loop 32 (skip_spaces s) 0.

(** The ENV32BIT prologue is not compiled on 64-bit platforms. *)
Definition str2uint64_t (s : string) : Z * string := digits_loop 64 (skip_spaces s) 0.

Definition str2ull (s : string) : Z * string := str2uint64_t s.

Definition str2ll (s : string) : cres Z :=
  let s := skip_spaces s in
  match s with
  | String "-" s' => neg_signed 64 (fst (str2uint64_t s'))
  | String "+" s' => Ok (i64 (fst (str2uint64_t s')))
  | _ => Ok (i64 (fst (str2uint64_t s)))
  end%char.

(** ** Hexadecimal and base64 integers *)

Definition hex_digits : string := "0123456789ABCDEF".
Definition hex_digits_lower : string := "0123456789abcdef".
Definition base64_digits : string :=
  "ABCDEFGHIJKLMNOPQRSTUVWXYZabcdefghijklmnopqrstuvwxyz0123456789+/".

Definition toupper (c : ascii) : ascii :=
  if (97 <=? code c) && (code c <=? 122) then chr (code c - 32) else c.
Definition tolower (c : ascii) : ascii :=
  if (65 <=? code c) && (code c <=? 90) then chr (code c + 32) else c.

(** [t[(int)c] = i] for every character [c = f(digits[i])]. *)
Fixpoint fill_map (f : ascii → ascii) (digits : string) (i : Z) (t : list Z) : list Z :=
  match digits with
  | EmptyString => t
  | String c ds => fill_map f ds (i + 1) (<[Z.to_nat (code (f c)) := i]> t)
  end.

Definition hex_value_from_ascii : list Z :=
  fill_map tolower hex_digits 0 (fill_map toupper hex_digits 0 (replicate 256 255)).
Definition base64_value_from_ascii : list Z :=
  fill_map (λ c, c) base64_digits 0 (replicate 256 255).

Definition ascii_map (t : list Z) (c : ascii) : Z := nth (Z.to_nat (code c)) t 255.

(** [while ((c = t[*s]) != 255) { num = (num << k) | c; s++; }] *)
Fixpoint radix_loop (t : list Z) (w k : Z) (s : string) (num : Z) : Z * string :=
  match s with
  | String c s' =>
      let v := ascii_map t c in
      if v =? 255 then (num, s)
      else radix_loop t w k s' (Z.lor (wrap_u w (Z.shiftl num k)) v)
  | EmptyString => (num, s)
  end.

Definition str2uint32_hex (src : string) : Z * string :=
  radix_loop hex_value_from_ascii 32 4 (skip_spaces src) 0.
Definition str2uint64_hex (src : string) : Z * string :=
  radix_loop hex_value_from_ascii 64 4 (skip_spaces src) 0.
Definition str2uint64_base64 (src : string) : Z * string :=
  radix_loop base64_value_from_ascii 64 6 (skip_spaces src) 0.

Definition str2ull_encoded (s : string) : Z :=
  match s with
  | String "#" s' => fst (str2uint64_base64 s')
  | String "0" (String "x" s') => fst (str2uint64_hex s')
  | _ => fst (str2uint64_t s)
  end%char.

Definition str2ll_encoded (s : string) : cres Z :=
  match s with
  | String "-" s' => neg_signed 64 (str2ull_encoded s')
  | _ => Ok (i64 (str2ull_encoded s))
  end%char.

(** ** Decimal fractions *)

Section Str2ndd.
(** [pow] of the C library: [powndd] of storage_number.h. *)
Variable pow : dbl → dbl → dbl.

Definition pow10 (e : dbl) : dbl := pow (d_of_Z 10) e.

(** ULONG_MAX / 10 *)
Definition ulong_max_div_10 : Z := (2 ^ 64 - 1) / 10.

(** [while ( *s >= '0' && *s <= '9' && ni < (ULONG_MAX / 10))] *)
Fixpoint chunk_loop (s : string) (ni exponent : Z) : string * Z * Z :=
  match s with
  | String c s' =>
      if isdigit c && (ni <? ulong_max_div_10)
      then chunk_loop s' (u64 (ni * 10 + digit_of c)) (u32 (exponent + 1))
      else (s, ni, exponent)
  | EmptyString => (s, ni, exponent)
  end.

(** The outer [while( *s >= '0' && *s <= '9')]. *)
Fixpoint decimal_loop (fuel : nat) (s : string) (n : dbl) : string * dbl :=
  match fuel, s with
  | S fuel, String c _ =>
      if isdigit c then
        let '(s', ni, exponent) := chunk_loop s 0 0 in
        decimal_loop fuel s'
          (d_add (d_mul n (pow10 (d_of_Z exponent))) (d_of_Z ni))
      else (s, n)
  | _, _ => (s, n)
  end.

(** The value and the number of digits. *)
Definition str2ndd_parse_double_decimal_digits_internal (src : string) : dbl * nat :=
  let src := skip_spaces src in
  let '(s, n) := decimal_loop (String.length src) src (S754_zero false) in
  (n, (String.length src - String.length s)%nat).

(** The sign and the special values: [inl] is an early return. *)
Definition str2ndd_prefix (s : string) : (dbl * string) + (dbl * string) :=
  match s with
  | String "-" s' => inr (d_of_Z (-1), s')
  | String "+" s' => inr (d_of_Z 1, s')
  | String "n" (String "a" (String "n" s')) => inl (S754_nan, s')
  | String "n" (String "u" (String "l" (String "l" s'))) =>
      inl (S754_nan, String "l" s')
  | String "i" (String "n" (String "f" s')) => inl (S754_infinity false, s')
  | _ => inr (d_of_Z 1, s)
  end%char.

(** [if ( *s == '.') ...]: the fraction, its digits and the rest. *)
Definition str2ndd_fraction (s : string) : dbl * nat * string :=
  match s with
  | String "." s' =>
      let '(f, n) := str2ndd_parse_double_decimal_digits_internal s' in
      (f, n, str_drop n s')
  | _ => (S754_zero false, O, s)
  end%char.

(** [if ( *s == 'e' || *s == 'E') ...] *)
Definition str2ndd_exponent (s : string) : dbl * nat * string :=
  match s with
  | String x s1 =>
      if Ascii.eqb x "e" || Ascii.eqb x "E" then
        let '(sg, s2) :=
          match s1 with
          | String "-" s2 => (-1, s2)
          | String "+" s2 => (1, s2)
          | _ => (1, s1)
          end%char in
        let '(e, n) := str2ndd_parse_double_decimal_digits_internal s2 in
        match n with
        | O => (S754_zero false, O, s)
        | _ => (d_mul e (d_of_Z sg), n, str_drop n s2)
        end
      else (S754_zero false, O, s)
  | EmptyString => (S754_zero false, O, s)
  end.

Definition str2ndd (src : string) : dbl * string :=
  match str2ndd_prefix (skip_spaces src) with
  | inl r => r
  | inr (sign, s) =>
      let '(result, integral_digits) := str2ndd_parse_double_decimal_digits_internal s in
      let s := str_drop integral_digits s in
      let '(fractional, fractional_digits, s) := str2ndd_fraction s in
      let '(exponent, exponent_digits, s) := str2ndd_exponent s in
      let result :=
        match exponent_digits with
        | O => result
        | _ => d_mul result (pow10 exponent)
        end in
      let result :=
        match fractional_digits with
        | O => result
        | _ => d_add result
                 (d_mul (d_div fractional (pow10 (d_of_Z (Z.of_nat fractional_digits))))
                    match exponent_digits with
                    | O => d_of_Z 1
                    | _ => pow10 exponent
                    end)
        end in
      (d_mul sign result, s)
  end.
End Str2ndd.

(** ** Hashes *)

Fixpoint str_fold {A} (f : A → ascii → A) (a : A) (s : string) : A :=
  match s with
  | EmptyString => a
  | String c s' => str_fold f (f a c) s'
  end.

Definition djb2_hash32 (name : string) : Z :=
  str_fold (λ hash c, u32 (u32 (Z.shiftl hash 5) + hash + code c)) 5381 name.
Definition pluginsd_parser_hash32 (name : string) : Z :=
  str_fold (λ hash c, u32 (u32 (Z.shiftl hash 5) + (code c - 32))) 0 name.
Definition larson_hash32 (name : string) : Z :=
  str_fold (λ hash c, u32 (hash * 101 + code c)) 0 name.
Definition fnv1_hash32 (name : string) : Z :=
  str_fold (λ hash c, Z.lxor (u32 (hash * 16777619)) (code c)) 2166136261 name.
Definition fnv1a_hash32 (name : string) : Z :=
  str_fold (λ hash c, u32 (Z.lxor hash (code c) * 16777619)) 2166136261 name.
Definition fnv1a_uhash32 (name : string) : Z :=
  str_fold (λ hash c, u32 (Z.lxor hash (code (tolower c)) * 16777619)) 2166136261 name.
Definition simple_hash : string → Z := fnv1a_hash32.

(** ** Comparison *)

(** [streq] on possibly null strings. *)
Definition streq (a b : option string) : bool :=
  match a, b with
  | None, None => true
  | Some a, Some b => String.eqb a b
  | _, _ => false
  end.

(** ** Lemmas on decimal input *)

(** The mathematical value of the leading digits, after [n]. *)
Fixpoint digits_value (s : string) (n : Z) : Z :=
  match s with
  | String c s' => if isdigit c then digits_value s' (n * 10 + digit_of c) else n
  | EmptyString => n
  end.

Fixpoint digits_rest (s : string) : string :=
  match s with
  | String c s' => if isdigit c then digits_rest s' else s
  | EmptyString => s
  end.

Lemma digits_loop_value w s n m :
  wrap_u w n = wrap_u w m →
  digits_loop w s (wrap_u w n) = (wrap_u w (digits_value s m), digits_rest s).
Proof.
  revert n m; induction s as [|c s IH]; intros n m Hnm; simpl; [by rewrite Hnm|].
  case_match; [|by rewrite Hnm]. apply IH.
  unfold wrap_u in *. rewrite (Zplus_mod (n mod _ * 10)), Zmult_mod_idemp_l,
    Zmult_mod, Hnm, <- Zmult_mod, <- Zplus_mod. done.
Qed.

(** The unsigned accumulator holds the value modulo its width. *)
Lemma digits_loop_spec w s :
  digits_loop w s 0 = (wrap_u w (digits_value s 0), digits_rest s).
Proof.
  assert (wrap_u w 0 = 0) as H0 by (unfold wrap_u; apply Zmod_0_l).
  rewrite <- H0 at 1. by apply digits_loop_value.
Qed.

Lemma digits_value_dec fuel n acc :
  0 ≤ n < 10 ^ Z.of_nat fuel →
  digits_value (dec_aux fuel n acc) 0 = digits_value acc n ∧
  digits_rest (dec_aux fuel n acc) = digits_rest acc.
Proof.
  revert n acc; induction fuel as [|fuel IH]; intros n acc Hn.
  { simpl in Hn. replace n with 0 by lia. done. }
  pose proof (Z.mod_pos_bound n 10 ltac:(lia)).
  pose proof (Z.div_mod n 10 ltac:(lia)).
  rewrite Nat2Z.inj_succ, Z.pow_succ_r in Hn by lia.
  assert (∀ m, digits_value (String (digit_char (n mod 10)) acc) m =
               digits_value acc (m * 10 + n mod 10)) as Hd.
  { intros m. simpl. rewrite isdigit_digit_char by done. unfold digit_of.
    rewrite digit_char_code by done. f_equal. lia. }
  assert (digits_rest (String (digit_char (n mod 10)) acc) = digits_rest acc) as Hr.
  { simpl. by rewrite isdigit_digit_char. }
  simpl dec_aux. destruct (Z.eqb_spec (n / 10) 0) as [Hz|Hz].
  - rewrite Hd, Hr. split; [f_equal; lia|done].
  - destruct (IH (n / 10) (String (digit_char (n mod 10)) acc)) as [-> ->].
    { split; [apply Z.div_pos; lia|]. apply Z.div_lt_upper_bound; lia. }
    rewrite Hd, Hr. split; [f_equal; lia|done].
Qed.

Lemma digits_value_print n :
  0 ≤ n < 2 ^ 64 → digits_value (print_u n) 0 = n ∧ digits_rest (print_u n) = "".
Proof.
  intros. unfold print_u. destruct (digits_value_dec 20 n ""); [|done].
  split; [lia|]. apply Z.lt_trans with (2 ^ 64); [lia|]. vm_compute. done.
Qed.

Lemma digit_not_space d : 0 ≤ d < 10 → isspace (digit_char d) = false.
Proof.
  intros. unfold isspace. rewrite digit_char_code by done.
  destruct (Z.eqb_spec (48 + d) 32), (Z.leb_spec 9 (48 + d)), (Z.leb_spec (48 + d) 13);
    (done || lia).
Qed.

Lemma skip_spaces_print n : skip_spaces (print_u n) = print_u n.
Proof.
  destruct (print_u_head n) as (d & s & Hd & ->). simpl.
  by rewrite digit_not_space.
Qed.

Lemma str2uint64_print n : 0 ≤ n < 2 ^ 64 → str2uint64_t (print_u n) = (n, "").
Proof.
  intros Hn. unfold str2uint64_t. rewrite skip_spaces_print, digits_loop_spec.
  destruct (digits_value_print n Hn) as [-> ->]. by rewrite wrap_u_id.
Qed.

Lemma print_u_digits n : 0 ≤ n → str_all isdigit (print_u n) = true.
Proof. intros. apply print_u_all; [done|]. apply isdigit_digit_char. Qed.

Lemma str2ull_encoded_digits s :
  str_all isdigit s = true → str2ull_encoded s = fst (str2uint64_t s).
Proof.
  destruct s as [|c [|d s]]; simpl; [done| |].
  - rewrite andb_true_r. intros H. destruct c as [[] [] [] [] [] [] [] []]; done.
  - rewrite !andb_true_iff. intros (Hc & Hd & _).
    destruct c as [[] [] [] [] [] [] [] []]; try done;
    destruct d as [[] [] [] [] [] [] [] []]; done.
Qed.

(** C11. Every value the plugin prints after SET is read back by the agent's
    [str2ll_encoded] as the same signed 64-bit number; the smallest one, which
    the agent could not negate, is excluded. *)
Theorem str2ll_encoded_print (n : Z) :
  - 2 ^ 63 < n < 2 ^ 63 → str2ll_encoded (print_d n) = Ok n.
Proof.
  intros Hn. unfold print_d.
  assert (∀ m, 0 ≤ m < 2 ^ 63 → str2ull_encoded (print_u m) = m) as Hu.
  { intros m Hm. rewrite str2ull_encoded_digits by (apply print_u_digits; lia).
    rewrite str2uint64_print by lia. done. }
  destruct (Z.ltb_spec n 0).
  - simpl. rewrite Hu by lia. unfold neg_signed. rewrite wrap_s_id by lia.
    destruct (Z.eqb_spec (- n) (- 2 ^ (64 - 1))); [lia|]. f_equal. lia.
  - assert (str2ll_encoded (print_u n) = Ok (i64 (str2ull_encoded (print_u n)))) as ->.
    { destruct (print_u_head n) as (d & s & Hd & ->). unfold str2ll_encoded.
      assert (isdigit (digit_char d) = true) as Hi by (by apply isdigit_digit_char).
      destruct (digit_char d) as [[] [] [] [] [] [] [] []]; done. }
    rewrite Hu by lia. by rewrite wrap_s_id by lia.
Qed.

Lemma str2ll_encoded_print_witness :
  str2ll_encoded "-1250" = Ok (-1250).
Proof. exact (str2ll_encoded_print (-1250) (conj eq_refl eq_refl)). Defined.

(** ** Integers read by [str2ndd] *)

Lemma digits_value_ge s n : 0 ≤ n → n ≤ digits_value s n.
Proof.
  revert n; induction s as [|c s IH]; intros n Hn; simpl; [lia|].
  unfold isdigit, digit_of. case_match; [|lia].
  match goal with H : _ && _ = true |- _ => apply andb_true_iff in H as [H1%Z.leb_le _] end.
  etransitivity; [|apply IH]; lia.
Qed.

Lemma chunk_loop_digits s ni e :
  str_all isdigit s = true → 0 ≤ ni → digits_value s ni < ulong_max_div_10 →
  ∃ e', chunk_loop s ni e = ("", digits_value s ni, e') ∧
        (0 ≤ e → e + Z.of_nat (String.length s) < 2 ^ 32 →
         e' = e + Z.of_nat (String.length s)).
Proof.
  assert (ulong_max_div_10 * 10 < 2 ^ 64) as HU by (vm_compute; done).
  revert ni e; induction s as [|c s IH]; intros ni e; simpl.
  { intros. exists e. split; [done|]. lia. }
  rewrite andb_true_iff. intros [Hc Hs] Hni Hlt. rewrite Hc in *. simpl.
  assert (0 ≤ digit_of c) as Hd.
  { unfold isdigit in Hc. apply andb_true_iff in Hc as [H1%Z.leb_le _].
    unfold digit_of. lia. }
  pose proof (digits_value_ge s (ni * 10 + digit_of c) ltac:(lia)) as Hge.
  destruct (Z.ltb_spec ni ulong_max_div_10); [|lia].
  assert (u64 (ni * 10 + digit_of c) = ni * 10 + digit_of c) as Hw.
  { apply wrap_u_id. lia. }
  destruct (IH (u64 (ni * 10 + digit_of c)) (u32 (e + 1))) as (e' & He & He'); auto.
  { rewrite Hw. lia. } { by rewrite Hw. }
  exists e'. rewrite He, Hw. split; [done|]. intros H0 H32.
  rewrite wrap_u_id in He' by lia. rewrite He'; lia.
Qed.

Lemma dec_aux_length fuel n acc :
  (String.length (dec_aux fuel n acc) ≤ fuel + String.length acc)%nat.
Proof.
  revert n acc; induction fuel as [|fuel IH]; intros n acc; simpl; [lia|].
  case_match; simpl; [lia|]. etransitivity; [apply IH|]. simpl. lia.
Qed.

Lemma print_u_length n : (1 ≤ String.length (print_u n) ≤ 20)%nat.
Proof.
  split.
  - destruct (print_u_head n) as (d & s & _ & ->). simpl. lia.
  - exact (dec_aux_length 20 n "").
Qed.

Lemma str_drop_all s : str_drop (String.length s) s = "".
Proof. induction s as [|c s IH]; simpl; auto. Qed.

(** What the text of a number between -2^53 and 2^53 is read as. *)
Section Str2nddInteger.
Variable pow : dbl → dbl → dbl.

(** [pow] is exact where its result is a double: powers of ten up to 10^22. *)
Definition pow10_exact : Prop :=
  ∀ k, 0 ≤ k ≤ 22 → represents (pow (d_of_Z 10) (d_of_Z k)) (10 ^ k).

Hypothesis Hpow : pow10_exact.

Lemma d_mul_zero x a b : represents x a → ∃ s, d_mul (S754_zero b) x = S754_zero s.
Proof. destruct x; simpl; intros; try done; eexists; done. Qed.

Lemma decimal_loop_stop fuel : decimal_loop pow fuel "" = λ n, ("", n).
Proof. by destruct fuel. Qed.

Lemma parse_digits_print n :
  0 ≤ n < 2 ^ 53 →
  ∃ x, str2ndd_parse_double_decimal_digits_internal pow (print_u n) =
         (x, String.length (print_u n)) ∧ represents x n.
Proof using Hpow.
  intros Hn. unfold str2ndd_parse_double_decimal_digits_internal.
  rewrite skip_spaces_print.
  destruct (digits_value_print n ltac:(lia)) as [Hv _].
  pose proof (print_u_length n) as Hl.
  pose proof (print_u_digits n ltac:(lia)) as Hd.
  destruct (chunk_loop_digits (print_u n) 0 0) as (e' & Hch & He'); auto; [lia| |].
  { rewrite Hv. transitivity (2 ^ 53); [lia|]. vm_compute. done. }
  rewrite Hv in Hch. specialize (He' ltac:(lia) ltac:(lia)).
  destruct (print_u_head n) as (d & s & Hdd & Hs).
  assert (decimal_loop pow (String.length (print_u n)) (print_u n) (S754_zero false) =
          ("", d_add (d_mul (S754_zero false) (pow10 pow (d_of_Z e'))) (d_of_Z n))) as ->.
  { rewrite Hs at 1 2. simpl String.length. cbn [decimal_loop].
    rewrite isdigit_digit_char by done. rewrite <- Hs, Hch. by rewrite decimal_loop_stop. }
  eexists. split; [by rewrite Nat.sub_0_r|].
  destruct (d_mul_zero (pow10 pow (d_of_Z e')) (10 ^ e') false) as [b ->].
  { apply Hpow. lia. }
  rewrite <- (Z.add_0_l n). apply d_add_exact; simpl; [done| |lia].
  apply d_of_Z_exact. lia.
Qed.

Lemma str2ndd_print n :
  Z.abs n < 2 ^ 53 →
  ∃ x, str2ndd pow (print_d n) = (x, "") ∧ represents x n.
Proof using Hpow.
  intros Hn.
  assert (∃ sg, skip_spaces (print_d n) = print_d n ∧
            str2ndd_prefix (print_d n) = inr (d_of_Z sg, print_u (Z.abs n)) ∧
            sg * Z.abs n = n ∧ Z.abs sg = 1) as (sg & Hsk & Hpre & Hsg & Habs).
  { unfold print_d. destruct (Z.ltb_spec n 0).
    - exists (-1). replace (Z.abs n) with (- n) by lia. repeat split; lia.
    - exists 1. rewrite skip_spaces_print. replace (Z.abs n) with n by lia.
      split_and!; [done| |lia|lia].
      destruct (print_u_head n) as (d & s & Hd & ->).
      assert (isdigit (digit_char d) = true) as Hi by (by apply isdigit_digit_char).
      destruct (digit_char d) as [[] [] [] [] [] [] [] []]; done. }
  unfold str2ndd. rewrite Hsk, Hpre.
  destruct (parse_digits_print (Z.abs n)) as (x & -> & Hx); [lia|].
  rewrite str_drop_all. cbn [str2ndd_fraction str2ndd_exponent].
  eexists. split; [done|]. rewrite <- Hsg.
  apply d_mul_exact; auto; [apply d_of_Z_exact; lia | rewrite Hsg; lia].
Qed.
End Str2nddInteger.

(** [pow] on integral arguments, for closed computations. *)
Definition pow_table (x y : dbl) : dbl :=
  match d_trunc x, d_trunc y with
  | Some b, Some e => if 0 <=? e then d_of_Z (b ^ e) else d_div (d_of_Z 1) (d_of_Z (b ^ (- e)))
  | _, _ => S754_nan
  end.

Definition represents_b (x : dbl) (n : Z) : bool :=
  match x with
  | S754_zero _ => n =? 0
  | S754_finite s m e =>
      let v := if s then Zneg m else Zpos m in
      if 0 <=? e then n =? v * 2 ^ e else v =? n * 2 ^ (- e)
  | _ => false
  end.

Lemma represents_b_true x n : represents_b x n = true → represents x n.
Proof.
  destruct x as [s|s| |s m e]; simpl; try done; [apply Z.eqb_eq|].
  unfold scaled. case_match; apply Z.eqb_eq.
Qed.

Lemma pow_table_exact : pow10_exact pow_table.
Proof.
  intros k Hk. apply represents_b_true.
  assert (k ∈ seqZ 0 23) as Hin by (apply elem_of_seqZ; lia).
  assert (forallb (λ k, represents_b (pow_table (d_of_Z 10) (d_of_Z k)) (10 ^ k)) (seqZ 0 23)
          = true) as Hall by (vm_compute; reflexivity).
  rewrite forallb_forall in Hall. apply Hall. by apply list_elem_of_In.
Qed.
