(* ===== verification/Status.v ===== *)
(** * The 'ups.status' parser of [send_metric_ups_status]

    The NUT variable 'ups.status' is a list of words such as "OL CHRG LB".  The
    plugin scans it with one pointer and a [switch] on the character it points
    at; the [struct nut_ups_status] bit field collects the words found.  This
    file models the scan with every pointer move the code makes, so that a move
    past the terminator or through a null [strchr] result is visible. *)

From S2P Require Import Prelude CString.

#[local] Open Scope string_scope.

(** ** Data *)

(** The members of [struct nut_ups_status]. *)
Inductive flag : Set :=
| OL | OB | LB | HB | RB | CHRG | DISCHRG | BYPASS | CAL | OFF | OVER | TRIM
| BOOST | FSD | OTHER.

#[global] Instance flag_eq_dec : EqDecision flag.
Proof. solve_decision. Defined.

(** [struct nut_ups_status]: one bit per member. *)
Record nut_ups_status : Set := NutUpsStatus {
  st_OL : bool; st_OB : bool; st_LB : bool; st_HB : bool; st_RB : bool;
  st_CHRG : bool; st_DISCHRG : bool; st_BYPASS : bool; st_CAL : bool;
  st_OFF : bool; st_OVER : bool; st_TRIM : bool; st_BOOST : bool;
  st_FSD : bool; st_OTHER : bool }.

(** [status = { 0 }] *)
Definition status_zero : nut_ups_status :=
  NutUpsStatus false false false false false false false false false false
               false false false false false.

(** Reading a member. *)
Definition st_get (st : nut_ups_status) (f : flag) : bool :=
  match f with
  | OL => st_OL st | OB => st_OB st | LB => st_LB st | HB => st_HB st
  | RB => st_RB st | CHRG => st_CHRG st | DISCHRG => st_DISCHRG st
  | BYPASS => st_BYPASS st | CAL => st_CAL st | OFF => st_OFF st
  | OVER => st_OVER st | TRIM => st_TRIM st | BOOST => st_BOOST st
  | FSD => st_FSD st | OTHER => st_OTHER st
  end.

(** [status.f = 1] *)
Definition st_set (f : flag) (st : nut_ups_status) : nut_ups_status :=
  let g h := bool_decide (f = h) || st_get st h in
  NutUpsStatus (g OL) (g OB) (g LB) (g HB) (g RB) (g CHRG) (g DISCHRG)
    (g BYPASS) (g CAL) (g OFF) (g OVER) (g TRIM) (g BOOST) (g FSD) (g OTHER).

(** ** The scan *)

(** The [default:] cases: [status.OTHER = 1; c = strchr(c, ' ')]. *)
Definition skip_other (c : cptr) (st : nut_ups_status)
  : cres (cptr * nut_ups_status) :=
  c' ← strchr c " ";
  Ok (c', st_set OTHER st).

(** The nested [switch] on [*++c] of 'B'. *)
Definition status_switch_B (c : cptr) (st : nut_ups_status)
  : cres (cptr * nut_ups_status) :=
  let c := padd c 1 in
  x ← deref c;
  match x with
  | "O" => Ok (padd c 3, st_set BOOST st)
  | "Y" => Ok (padd c 4, st_set BYPASS st)
  | _ => skip_other c st
  end%char.

(** The nested [switch] on [*++c] of 'C'. *)
Definition status_switch_C (c : cptr) (st : nut_ups_status)
  : cres (cptr * nut_ups_status) :=
  let c := padd c 1 in
  x ← deref c;
  match x with
  | "H" => Ok (padd c 2, st_set CHRG st)
  | "A" => Ok (padd c 1, st_set CAL st)
  | _ => skip_other c st
  end%char.

(** The nested [switch] on [*++c] of 'O'. *)
Definition status_switch_O (c : cptr) (st : nut_ups_status)
  : cres (cptr * nut_ups_status) :=
  let c := padd c 1 in
  x ← deref c;
  match x with
  | "B" => Ok (c, st_set OB st)
  | "F" => Ok (c, st_set OFF st)
  | "L" => Ok (c, st_set OL st)
  | "V" => Ok (padd c 2, st_set OVER st)
  | _ => skip_other c st
  end%char.

(** The outer [switch] on [*c]: the pointer and the status when control reaches the
    loop's [c++]. *)
Definition status_switch (c : cptr) (x : ascii) (st : nut_ups_status)
  : cres (cptr * nut_ups_status) :=
  match x with
  | " " => Ok (c, st)
  | "L" => Ok (padd c 1, st_set LB st)
  | "H" => Ok (padd c 1, st_set HB st)
  | "R" => Ok (padd c 1, st_set RB st)
  | "D" => Ok (padd c 6, st_set DISCHRG st)
  | "T" => Ok (padd c 3, st_set TRIM st)
  | "F" => Ok (padd c 2, st_set FSD st)
  | "B" => status_switch_B c st
  | "C" => status_switch_C c st
  | "O" => status_switch_O c st
  | _ => skip_other c st
  end%char.

(** [for (const char *c = ups_status_string; c && *c; c++)] around it *)
Fixpoint status_loop (fuel : nat) (c : cptr) (st : nut_ups_status)
  : cres nut_ups_status :=
  match fuel with
  | O => NoFuel
  | S fuel =>
      match c with
      | PNull => Ok st
      | _ =>
          x ← deref c;
          if Ascii.eqb x NUL then Ok st
          else
            '(c', st') ← status_switch c x st;
            status_loop fuel (padd c' 1) st'
      end
  end.

#[local] Arguments status_loop : simpl never.

(** The whole scan of a possibly null 'ups.status' value. *)
Definition parse_status (o : option string) : cres nut_ups_status :=
  let fuel := match o with Some s => S (String.length s) | None => 1%nat end in
  status_loop fuel (ptr_of o) status_zero.

(** ** The status words *)

Definition token (f : flag) : string :=
  match f with
  | OL => "OL" | OB => "OB" | LB => "LB" | HB => "HB" | RB => "RB"
  | CHRG => "CHRG" | DISCHRG => "DISCHRG" | BYPASS => "BYPASS" | CAL => "CAL"
  | OFF => "OFF" | OVER => "OVER" | TRIM => "TRIM" | BOOST => "BOOST"
  | FSD => "FSD" | OTHER => ""
  end.

Definition not_space (c : ascii) : bool := negb (Ascii.eqb c " ").

Definition char_in (x : ascii) (cs : list ascii) : bool := existsb (Ascii.eqb x) cs.

(** The first characters the outer [switch] has a case for, and the second
    characters its nested switches have a case for. *)
Definition one_char_cases : list ascii := [" "; "L"; "H"; "R"; "D"; "T"; "F"]%char.
Definition second_cases (x : ascii) : option (list ascii) :=
  match x with
  | "B" => Some ["O"; "Y"]
  | "C" => Some ["H"; "A"]
  | "O" => Some ["B"; "F"; "L"; "V"]
  | _ => None
  end%char.

(** The words the scan sends to one of its [default:] cases. *)
Definition unknown_word (w : string) : bool :=
  str_all not_space w &&
  match w with
  | EmptyString => false
  | String x w' =>
      negb (char_in x one_char_cases) && negb (Ascii.eqb x NUL) &&
      match second_cases x, w' with
      | Some cs, String y _ => negb (char_in y cs)
      | _, _ => true
      end
  end.

(** A status text cut in pieces: a blank, a word of the table, or a word the
    plugin does not know, with the blank that ends it. *)
Inductive piece : Type :=
| Blank
| Known (f : flag)
| Unknown (w : string).

Definition render_piece (p : piece) : string :=
  match p with
  | Blank => " "
  | Known f => token f
  | Unknown w => w +:+ " "
  end.

Definition render (ps : list piece) : string :=
  foldr (λ p s, render_piece p +:+ s) "" ps.

Definition piece_flag (p : piece) (st : nut_ups_status) : nut_ups_status :=
  match p with
  | Blank => st
  | Known f => st_set f st
  | Unknown _ => st_set OTHER st
  end.

Definition pieces_flags (ps : list piece) (st : nut_ups_status) : nut_ups_status :=
  foldl (λ st p, piece_flag p st) st ps.

(** The pieces the scan handles as intended: every word but OFF. *)
Definition good_piece (p : piece) : bool :=
  match p with
  | Blank => true
  | Known f => negb (bool_decide (f = OFF)) && negb (bool_decide (f = OTHER))
  | Unknown w => unknown_word w
  end.

(** A status text as NUT writes it: words separated by single blanks. *)
Definition join_tokens (fs : list flag) : string :=
  match fs with
  | [] => ""
  | f :: fs => token f +:+ render (foldr (λ f ps, Blank :: Known f :: ps) [] fs)
  end.

(** ** Lemmas *)

Lemma st_get_set f g st : st_get (st_set f st) g = bool_decide (f = g) || st_get st g.
Proof. by destruct g. Qed.

Lemma st_ext st1 st2 : (∀ f, st_get st1 f = st_get st2 f) → st1 = st2.
Proof.
  intros H. destruct st1, st2.
  f_equal; [exact (H OL)|exact (H OB)|exact (H LB)|exact (H HB)|exact (H RB)
    |exact (H CHRG)|exact (H DISCHRG)|exact (H BYPASS)|exact (H CAL)|exact (H OFF)
    |exact (H OVER)|exact (H TRIM)|exact (H BOOST)|exact (H FSD)|exact (H OTHER)].
Qed.

Lemma st_get_pieces ps st f :
  st_get (pieces_flags ps st) f = true ↔
  st_get st f = true ∨ Known f ∈ ps ∨ (f = OTHER ∧ ∃ w, Unknown w ∈ ps).
Proof.
  revert st; induction ps as [|p ps IH]; intros st; simpl.
  - setoid_rewrite elem_of_nil. naive_solver.
  - setoid_rewrite elem_of_cons. rewrite IH.
    destruct p as [|g|w]; simpl;
      rewrite ?st_get_set, ?orb_true_iff, ?bool_decide_eq_true; naive_solver.
Qed.

Lemma st_set_idem f st : st_get st f = true → st_set f st = st.
Proof.
  intros H. apply st_ext. intros g. rewrite st_get_set.
  case_bool_decide; by subst.
Qed.

Lemma status_loop_S fuel s st :
  status_loop (S fuel) (PAt s) st =
  (x ← deref (PAt s);
   if Ascii.eqb x NUL then Ok st
   else '(c', st') ← status_switch (PAt s) x st; status_loop fuel (padd c' 1) st').
Proof. done. Qed.

(** A word of the table other than OFF: the scan ends on its last character. *)
Lemma scan_known fuel f s st :
  f ≠ OFF → f ≠ OTHER →
  status_loop (S fuel) (PAt (token f +:+ s)) st = status_loop fuel (PAt s) (st_set f st).
Proof. intros. by destruct f. Qed.

Ltac ascii_cases c := destruct c as [[] [] [] [] [] [] [] []].

(** The nested switch of a first character, if it has one. *)
Definition status_switch2 (x : ascii) : cptr → nut_ups_status → cres (cptr * nut_ups_status) :=
  match x with
  | "B" => status_switch_B
  | "C" => status_switch_C
  | "O" => status_switch_O
  | _ => skip_other
  end%char.

Lemma switch_not_one_char c x st :
  char_in x one_char_cases = false → status_switch c x st = status_switch2 x c st.
Proof. by ascii_cases x. Qed.

Lemma second_cases_inv x cs :
  second_cases x = Some cs →
  (x = "B" ∧ cs = ["O"; "Y"] ∨ x = "C" ∧ cs = ["H"; "A"] ∨
   x = "O" ∧ cs = ["B"; "F"; "L"; "V"])%char.
Proof. ascii_cases x; simpl; naive_solver. Qed.

Lemma switch2_default x cs y c st :
  second_cases x = Some cs → deref (padd c 1) = Ok y → char_in y cs = false →
  status_switch2 x c st = skip_other (padd c 1) st.
Proof.
  intros Hx%second_cases_inv Hy Hn.
  destruct Hx as [[-> ->]|[[-> ->]|[-> ->]]]; simpl;
    unfold status_switch_B, status_switch_C, status_switch_O; rewrite Hy; simpl;
    revert Hn; by ascii_cases y.
Qed.

Lemma switch2_none x c st :
  second_cases x = None → status_switch2 x c st = skip_other c st.
Proof. by ascii_cases x. Qed.

(** Where [strchr] lands from inside a word without blanks that ends at [tl]. *)
Lemma strchr_word w tl :
  str_all not_space w = true → (tl = "" ∨ ∃ s, tl = String " " s) →
  strchr_from (w +:+ tl) " " = strchr_from tl " ".
Proof.
  intros Hw [->|[s ->]].
  - rewrite str_app_nil_r. by apply strchr_from_none.
  - simpl. by apply strchr_from_skip.
Qed.

(** The [default:] cases on a word that ends at [tl]. *)
Lemma switch_unknown x w tl st :
  unknown_word (String x w) = true →
  (tl = "" ∨ ∃ s, tl = String " " s) →
  status_switch (PAt (String x (w +:+ tl))) x st =
    Ok (strchr_from tl " ", st_set OTHER st).
Proof.
  unfold unknown_word. rewrite !andb_true_iff, !negb_true_iff.
  intros (Hns & (H1 & _) & H2) Htl.
  pose proof (strchr_word _ _ Hns Htl) as Hx.
  simpl in Hns. apply andb_true_iff in Hns as [_ Hns].
  pose proof (strchr_word _ _ Hns Htl) as Hw.
  rewrite switch_not_one_char by done.
  destruct (second_cases x) as [cs|] eqn:Hcs.
  - assert (∃ y, deref (padd (PAt (String x (w +:+ tl))) 1) = Ok y ∧
                 char_in y cs = false) as (y & Hy & Hn).
    { rewrite padd_cons, padd_0. destruct w as [|y w]; simpl.
      - destruct Htl as [->|[s ->]]; (eexists; split; [done|]);
          revert Hcs; ascii_cases x; naive_solver.
      - exists y. apply negb_true_iff in H2. done. }
    rewrite (switch2_default _ _ _ _ _ Hcs Hy Hn), padd_cons, padd_0.
    unfold skip_other. simpl. by rewrite Hw.
  - rewrite switch2_none by done. unfold skip_other. simpl in *. by rewrite Hx.
Qed.

Lemma unknown_head x w : unknown_word (String x w) = true → Ascii.eqb x NUL = false.
Proof. unfold unknown_word. rewrite !andb_true_iff, !negb_true_iff. tauto. Qed.

Lemma scan_unknown fuel w s st :
  unknown_word w = true →
  status_loop (S fuel) (PAt (w +:+ " " +:+ s)) st = status_loop fuel (PAt s) (st_set OTHER st).
Proof.
  destruct w as [|x w]; [done|]. intros Hw. rewrite status_loop_S. simpl.
  rewrite (unknown_head _ _ Hw).
  rewrite (switch_unknown x w (String " " s)) by eauto. done.
Qed.

(** The pieces are scanned one by one. *)
Lemma scan_pieces ps fuel s st :
  forallb good_piece ps = true →
  status_loop (length ps + fuel) (PAt (render ps +:+ s)) st =
  status_loop fuel (PAt s) (pieces_flags ps st).
Proof.
  revert st; induction ps as [|p ps IH]; intros st; [done|].
  simpl forallb. rewrite andb_true_iff. intros [Hp Hps].
  change (length (p :: ps) + fuel)%nat with (S (length ps + fuel)).
  change (render (p :: ps)) with (render_piece p +:+ render ps).
  rewrite str_app_assoc. destruct p as [|f|w]; simpl in Hp.
  - change (status_loop _ (PAt (render_piece Blank +:+ render ps +:+ s)) st)
      with (status_loop (length ps + fuel) (PAt (render ps +:+ s)) st).
    by rewrite IH.
  - rewrite andb_true_iff, !negb_true_iff, !bool_decide_eq_false in Hp.
    simpl render_piece. rewrite scan_known by tauto. by rewrite IH.
  - simpl render_piece. rewrite str_app_assoc, scan_unknown by done. by rewrite IH.
Qed.

(** ** Progress of the scan *)

(** The pointer does not move backwards. *)
Definition advances (s : string) (c : cptr) : Prop :=
  match c with
  | PAt s' => (String.length s' ≤ String.length s)%nat
  | PNull | PPast => True
  | PWild => False
  end.

Lemma advances_padd s c n : advances s c → c ≠ PNull → advances s (padd c n).
Proof.
  destruct c as [| s' | |]; simpl; try done.
  intros. case_match; simpl; [rewrite str_drop_length; lia | done].
Qed.

Lemma advances_strchr s s' ch :
  (String.length s' ≤ String.length s)%nat → advances s (strchr_from s' ch).
Proof.
  induction s' as [|x s' IH]; simpl; [done|]. intros. case_match; simpl; [lia|].
  apply IH. lia.
Qed.

Lemma advances_refl s : advances s (PAt s).
Proof. simpl. lia. Qed.

#[local] Hint Resolve advances_refl advances_padd : upsd.

Lemma advances_skip_other s c st c' st' :
  advances s c → skip_other c st = Ok (c', st') → advances s c'.
Proof.
  unfold skip_other. destruct c; simpl; intros H Heq; inv_res; try done.
  by apply advances_strchr.
Qed.

Lemma advances_switch2 s x st c' st' :
  status_switch2 x (PAt s) st = Ok (c', st') → advances s c'.
Proof.
  assert (advances s (padd (PAt s) 1)) as Hp by (apply advances_padd; [apply advances_refl|done]).
  assert (padd (PAt s) 1 ≠ PNull) as Hn by (unfold padd; by case_match).
  destruct (second_cases x) as [cs|] eqn:Hcs.
  - apply second_cases_inv in Hcs.
    destruct Hcs as [[-> _]|[[-> _]|[-> _]]]; simpl;
      unfold status_switch_B, status_switch_C, status_switch_O;
      destruct (deref (padd (PAt s) 1)) as [y| |]; try done;
      intros Heq; cbn -[padd skip_other] in Heq; revert Heq; ascii_cases y; intros Heq;
      try (by eapply advances_skip_other); injection Heq as <- <-;
      try exact Hp; by apply advances_padd.
  - rewrite switch2_none by done. apply advances_skip_other, advances_refl.
Qed.

Lemma advances_switch s x st c' st' :
  status_switch (PAt s) x st = Ok (c', st') → advances s c'.
Proof.
  destruct (char_in x one_char_cases) eqn:Hx.
  - assert (∀ n, advances s (padd (PAt s) n)) as Hp by (intros; apply advances_padd; [apply advances_refl|done]).
    unfold char_in, one_char_cases in Hx. simpl in Hx. rewrite !orb_true_iff in Hx.
    rewrite !Ascii.eqb_eq in Hx.
    destruct Hx as [->|[->|[->|[->|[->|[->|[->|?]]]]]]]; cbn -[padd];
      intros Heq; try injection Heq as <- <-; try done; try apply advances_refl;
      first [exact (Hp 1%nat)|exact (Hp 2%nat)|exact (Hp 3%nat)|exact (Hp 6%nat)].
  - rewrite switch_not_one_char by done. apply advances_switch2.
Qed.

(** Fuel above the length of the text makes no difference. *)
Lemma status_loop_fuel n m s st :
  (String.length s < n)%nat → (String.length s < m)%nat →
  status_loop n (PAt s) st = status_loop m (PAt s) st.
Proof.
  revert m s st; induction n as [|n IH]; intros [|m] s st Hn Hm; try lia.
  rewrite !status_loop_S. destruct s as [|x s]; [done|]. simpl deref. simpl mbind.
  case_match; [done|].
  destruct (status_switch (PAt (String x s)) x st) as [[c' st']| |] eqn:Hsw;
    simpl; try done.
  apply advances_switch in Hsw.
  simpl in Hn, Hm.
  destruct c' as [| [|y s'] | |];
    try (by destruct n as [|n], m as [|m]; [lia|lia|lia|]).
  simpl in Hsw. rewrite padd_cons, padd_0. apply IH; lia.
Qed.

Lemma parse_status_at n s :
  (String.length s < n)%nat → parse_status (Some s) = status_loop n (PAt s) status_zero.
Proof. intros. apply (status_loop_fuel (S (String.length s))); lia. Qed.

Lemma status_loop_total s st : status_loop (S (String.length s)) (PAt s) st ≠ NoFuel.
Proof.
  remember (String.length s) as n eqn:Hn.
  revert s st Hn; induction n as [n IH] using lt_wf_ind; intros s st ->.
  rewrite status_loop_S. destruct s as [|x s]; [done|]. simpl deref. simpl mbind.
  case_match; [done|].
  destruct (status_switch (PAt (String x s)) x st) as [[c' st']| |] eqn:Hsw;
    simpl; try done.
  - apply advances_switch in Hsw.
    destruct c' as [| [|y s'] | |]; try done.
    simpl in Hsw. simpl String.length. rewrite padd_cons, padd_0.
    rewrite (status_loop_fuel _ (S (String.length s')) s') by lia.
    eapply (IH (String.length s')); [simpl; lia|done].
  - revert Hsw. unfold status_switch, status_switch_B, status_switch_C,
      status_switch_O, skip_other.
    destruct (padd (PAt (String x s)) 1); simpl; repeat (case_match; simpl; try done).
Qed.

(** Bits are never cleared. *)
Definition keeps (st : nut_ups_status) (r : cres (cptr * nut_ups_status)) : Prop :=
  ∀ c' st' f, r = Ok (c', st') → st_get st f = true → st_get st' f = true.

Lemma keeps_set c st g : keeps st (Ok (c, st_set g st)).
Proof. intros c' st' f Heq Hf. inv_res. rewrite st_get_set, Hf. by rewrite orb_true_r. Qed.

Lemma keeps_skip c st : keeps st (skip_other c st).
Proof. unfold skip_other. destruct c; simpl; try (intros ???; discriminate). apply keeps_set. Qed.

Lemma keeps_switch c x st : keeps st (status_switch c x st).
Proof.
  destruct (char_in x one_char_cases) eqn:Hx.
  - unfold char_in, one_char_cases in Hx. simpl in Hx.
    rewrite !orb_true_iff, !Ascii.eqb_eq in Hx.
    destruct Hx as [->|[->|[->|[->|[->|[->|[->|?]]]]]]]; try apply keeps_set; try done.
    intros c' st' f Heq Hf. cbn in Heq. injection Heq as <- <-. exact Hf.
  - rewrite switch_not_one_char by done.
    destruct (second_cases x) as [cs|] eqn:Hcs.
    + apply second_cases_inv in Hcs.
      destruct Hcs as [[-> _]|[[-> _]|[-> _]]]; simpl;
        unfold status_switch_B, status_switch_C, status_switch_O;
        destruct (deref (padd c 1)) as [y| |]; try (intros ???; discriminate);
        cbn -[padd skip_other st_set];
        ascii_cases y; (apply keeps_set || apply keeps_skip).
    + rewrite switch2_none by done. apply keeps_skip.
Qed.

Lemma status_loop_mono n c st1 st :
  status_loop n c st1 = Ok st → ∀ f, st_get st1 f = true → st_get st f = true.
Proof.
  revert c st1; induction n as [|n IH]; intros c st1; [done|]. unfold status_loop; fold status_loop.
  destruct c as [|s| |]; try done; [by intros; inv_res|].
  destruct (deref (PAt s)) as [x| |]; try done. simpl.
  case_match; [by intros; inv_res|].
  destruct (status_switch (PAt s) x st1) as [[c' st']| |] eqn:Hsw; try done.
  simpl. intros H' f Hf. eapply IH; [exact H'|]. by eapply keeps_switch.
Qed.

(** ** The scan on texts of the status table *)

Lemma parse_pieces ps s n :
  forallb good_piece ps = true → (String.length s < n)%nat →
  parse_status (Some (render ps +:+ s)) =
  status_loop n (PAt s) (pieces_flags ps status_zero).
Proof.
  intros Hps Hn.
  set (m := (length ps + (n + String.length (render ps)))%nat).
  rewrite (parse_status_at m) by (rewrite str_app_length; lia).
  unfold m. rewrite scan_pieces by done. apply status_loop_fuel; lia.
Qed.

Lemma render_join fs :
  join_tokens fs =
  render (match fs with
          | [] => []
          | f :: fs => Known f :: foldr (λ f ps, Blank :: Known f :: ps) [] fs
          end).
Proof. by destruct fs. Qed.

Lemma known_in_join fs f :
  Known f ∈ foldr (λ f ps, Blank :: Known f :: ps) [] fs ↔ f ∈ fs.
Proof.
  induction fs as [|g fs IH]; simpl; [set_solver|].
  rewrite !elem_of_cons, IH. naive_solver.
Qed.

Lemma unknown_not_in_join fs w :
  Unknown w ∉ foldr (λ f ps, Blank :: Known f :: ps) [] fs.
Proof. induction fs as [|g fs IH]; simpl; [set_solver|]. rewrite !elem_of_cons. naive_solver. Qed.

Lemma good_join fs :
  Forall (λ f, f ≠ OFF ∧ f ≠ OTHER) fs →
  forallb good_piece (foldr (λ f ps, Blank :: Known f :: ps) [] fs) = true.
Proof.
  induction 1 as [|f fs [H1 H2] _ IH]; simpl; [done|].
  rewrite !bool_decide_eq_false_2, IH by done. done.
Qed.



Lemma parse_join (fs : list flag) :
  Forall (λ f, f ≠ OFF ∧ f ≠ OTHER) fs →
  ∃ st, parse_status (Some (join_tokens fs)) = Ok st ∧
        ∀ f, st_get st f = true ↔ f ∈ fs.
Proof.
  intros Hfs. destruct fs as [|g fs].
  { exists status_zero. split; [done|]. intros []; set_solver. }
  inversion Hfs as [|? ? [H1 H2] Hfs']; subst.
  set (ps := Known g :: foldr (λ f ps, Blank :: Known f :: ps) [] fs).
  assert (forallb good_piece ps = true) as Hps.
  { simpl. rewrite !bool_decide_eq_false_2, good_join by done. done. }
  exists (pieces_flags ps status_zero). split.
  - rewrite render_join. fold ps. rewrite <- (str_app_nil_r (render ps)).
    by rewrite (parse_pieces ps "" 1) by first [done|simpl; lia].
  - intros f. rewrite st_get_pieces. unfold ps.
    setoid_rewrite elem_of_cons. rewrite known_in_join.
    pose proof (unknown_not_in_join fs). destruct f; simpl; naive_solver.
Qed.

(** The texts NUT sends, words separated by one blank, set exactly the bits
    of their words, whatever the order and the repetitions, as long as OFF is not
    among them. *)
Theorem parse_status_join (fs : list flag) :
  Forall (λ f, f ≠ OFF ∧ f ≠ OTHER) fs →
  ∃ st, parse_status (Some (join_tokens fs)) = Ok st ∧
        ∀ f, st_get st f = true ↔ f ∈ fs.
Proof. apply parse_join. Qed.

Lemma parse_status_join_witness :
  ∃ st, parse_status (Some "OL CHRG LB") = Ok st ∧
        ∀ f, st_get st f = true ↔ f ∈ [OL; CHRG; LB].
Proof.
  apply (parse_status_join [OL; CHRG; LB]). repeat (constructor; [done|]). constructor.
Defined.

(** The scan of any text ends: it returns a status or reaches one of the
    undefined reads, and never runs out of the fuel of its model. *)
Theorem parse_status_terminates (o : option string) : parse_status o ≠ NoFuel.
Proof. destruct o as [s|]; [apply status_loop_total | done]. Qed.



(** The word OFF is scanned as "OF" followed by "FSD": at the end of the text
    the scan reads past the terminator, and whenever a scan of a text with OFF in
    it succeeds it reports a forced shutdown. *)
Theorem parse_status_off (ps : list piece) (s : string) :
  forallb good_piece ps = true →
  parse_status (Some (render ps +:+ "OFF")) = UB UB_oob ∧
  ∀ st, parse_status (Some (render ps +:+ "OFF" +:+ s)) = Ok st →
        st_get st OFF = true ∧ st_get st FSD = true.
Proof.
  intros Hps. split.
  - by rewrite (parse_pieces _ _ 4) by first [done|simpl; lia].
  - intros st. rewrite (parse_pieces _ _ (S (S (S (S (String.length s))))))
      by first [done|simpl; lia].
    set (st0 := pieces_flags ps status_zero).
    destruct s as [|a [|b s]]; try done.
    change (status_loop _ (PAt ("OFF" +:+ String a (String b s))) st0)
      with (status_loop (S (S (S (S (String.length s))))) (padd (PAt (String b s)) 1)
              (st_set FSD (st_set OFF st0))).
    rewrite padd_cons, padd_0. intros H.
    split; (eapply status_loop_mono; [exact H|]); rewrite !st_get_set; done.
Qed.

Lemma parse_status_off_witness :
  parse_status (Some "OFF") = UB UB_oob ∧
  (∃ st, parse_status (Some "OFF xOL") = Ok st ∧ st_get st FSD = true).
Proof.
  split; [exact (proj1 (parse_status_off [] "" eq_refl))|].
  eexists. split; [reflexivity|].
  exact (proj2 (proj2 (parse_status_off [] " xOL" eq_refl) _ eq_refl)).
Defined.
