(* ===== verification/Charts.v ===== *)
(** * The charts of upsd.plugin

    [struct nd_chart] and the table [nd_charts] that maps the NUT variables to
    netdata charts, up to its terminating entry. *)

From S2P Require Import Prelude CString.
#[local] Open Scope string_scope.
#[local] Open Scope Z_scope.

Definition NETDATA_CHART_PRIO_UPSD_UPS_LOAD : Z := 70000.
Definition NETDATA_CHART_PRIO_UPSD_UPS_LOADUSAGE : Z := 70001.
Definition NETDATA_CHART_PRIO_UPSD_UPS_STATUS : Z := 70002.
Definition NETDATA_CHART_PRIO_UPSD_UPS_TEMP : Z := 70003.
Definition NETDATA_CHART_PRIO_UPSD_BATT_CHARGE : Z := 70004.
Definition NETDATA_CHART_PRIO_UPSD_BATT_RUNTIME : Z := 70005.
Definition NETDATA_CHART_PRIO_UPSD_BATT_VOLTAGE : Z := 70006.
Definition NETDATA_CHART_PRIO_UPSD_BATT_VOLTAGE_NOM : Z := 70007.
Definition NETDATA_CHART_PRIO_UPSD_INPT_VOLTAGE : Z := 70008.
Definition NETDATA_CHART_PRIO_UPSD_INPT_VOLTAGE_NOM : Z := 70009.
Definition NETDATA_CHART_PRIO_UPSD_INPT_CURRENT : Z := 70010.
Definition NETDATA_CHART_PRIO_UPSD_INPT_CURRENT_NOM : Z := 70011.
Definition NETDATA_CHART_PRIO_UPSD_INPT_FREQUENCY : Z := 70012.
Definition NETDATA_CHART_PRIO_UPSD_INPT_FREQUENCY_NOM : Z := 70013.
Definition NETDATA_CHART_PRIO_UPSD_OUPT_VOLTAGE : Z := 70014.
Definition NETDATA_CHART_PRIO_UPSD_OUPT_VOLTAGE_NOM : Z := 70015.
Definition NETDATA_CHART_PRIO_UPSD_OUPT_CURRENT : Z := 70016.
Definition NETDATA_CHART_PRIO_UPSD_OUPT_CURRENT_NOM : Z := 70017.
Definition NETDATA_CHART_PRIO_UPSD_OUPT_FREQUENCY : Z := 70018.
Definition NETDATA_CHART_PRIO_UPSD_OUPT_FREQUENCY_NOM : Z := 70019.

(** [chart_name] is null in every entry of the table. *)
Record nd_chart := NdChart {
  nut_variable : string;
  chart_id : string;
  chart_name : option string;
  chart_title : string;
  chart_units : string;
  chart_family : string;
  chart_context : string;
  chart_type : string;
  chart_priority : Z;
  chart_dimension : string;
}.

Definition nd_charts : list nd_chart := [
  NdChart "ups.load" "load_percentage" None
    "UPS load" "percentage"
    "ups" "upsd.ups_load" "area"
    NETDATA_CHART_PRIO_UPSD_UPS_LOAD "load";
  NdChart "ups.realpower" "load_usage" None
    "UPS load usage (power output)" "Watts"
    "ups" "upsd.ups_load_usage" "line"
    NETDATA_CHART_PRIO_UPSD_UPS_LOADUSAGE "load_usage";
  NdChart "ups.temperature" "temperature" None
    "UPS temperature" "Celsius"
    "ups" "upsd.ups_temperature" "line"
    NETDATA_CHART_PRIO_UPSD_UPS_TEMP "temperature";
  NdChart "battery.charge" "battery_charge_percentage" None
    "UPS Battery charge" "percentage"
    "battery" "upsd.ups_battery_charge" "area"
    NETDATA_CHART_PRIO_UPSD_BATT_CHARGE "charge";
  NdChart "battery.runtime" "battery_estimated_runtime" None
    "UPS Battery estimated runtime" "seconds"
    "battery" "upsd.ups_battery_estimated_runtime" "line"
    NETDATA_CHART_PRIO_UPSD_BATT_RUNTIME "runtime";
  NdChart "battery.voltage" "battery_voltage" None
    "UPS Battery voltage" "Volts"
    "battery" "upsd.ups_battery_voltage" "line"
    NETDATA_CHART_PRIO_UPSD_BATT_VOLTAGE "voltage";
  NdChart "battery.voltage.nominal" "battery_voltage_nominal" None
    "UPS Battery voltage nominal" "Volts"
    "battery" "upsd.ups_battery_voltage_nominal" "line"
    NETDATA_CHART_PRIO_UPSD_BATT_VOLTAGE_NOM "nominal_voltage";
  NdChart "input.voltage" "input_voltage" None
    "UPS Input voltage" "Volts"
    "input" "upsd.ups_input_voltage" "line"
    NETDATA_CHART_PRIO_UPSD_INPT_VOLTAGE "voltage";
  NdChart "input.voltage.nominal" "input_voltage_nominal" None
    "UPS Input voltage nominal" "Volts"
    "input" "upsd.ups_input_voltage_nominal" "line"
    NETDATA_CHART_PRIO_UPSD_INPT_VOLTAGE_NOM "nominal_voltage";
  NdChart "input.current" "input_current" None
    "UPS Input current" "Ampere"
    "input" "upsd.ups_input_current" "line"
    NETDATA_CHART_PRIO_UPSD_INPT_CURRENT "current";
  NdChart "input.current.nominal" "input_current_nominal" None
    "UPS Input current nominal" "Ampere"
    "input" "upsd.ups_input_current_nominal" "line"
    NETDATA_CHART_PRIO_UPSD_INPT_CURRENT_NOM "nominal_current";
  NdChart "input.frequency" "input_frequency" None
    "UPS Input frequency" "Hz"
    "input" "upsd.ups_input_frequency" "line"
    NETDATA_CHART_PRIO_UPSD_INPT_FREQUENCY "frequency";
  NdChart "input.frequency.nominal" "input_frequency_nominal" None
    "UPS Input frequency nominal" "Hz"
    "input" "upsd.ups_input_frequency_nominal" "line"
    NETDATA_CHART_PRIO_UPSD_INPT_FREQUENCY_NOM "nominal_frequency";
  NdChart "output.voltage" "output_voltage" None
    "UPS Output voltage" "Volts"
    "output" "upsd.ups_output_voltage" "line"
    NETDATA_CHART_PRIO_UPSD_OUPT_VOLTAGE "voltage";
  NdChart "output.voltage.nominal" "output_voltage_nominal" None
    "UPS Output voltage nominal" "Volts"
    "output" "upsd.ups_output_voltage_nominal" "line"
    NETDATA_CHART_PRIO_UPSD_OUPT_VOLTAGE_NOM "nominal_voltage";
  NdChart "output.current" "output_current" None
    "UPS Output current" "Ampere"
    "output" "upsd.ups_output_current" "line"
    NETDATA_CHART_PRIO_UPSD_OUPT_CURRENT "current";
  NdChart "output.current.nominal" "output_current_nominal" None
    "UPS Output current nominal" "Ampere"
    "output" "upsd.ups_output_current_nominal" "line"
    NETDATA_CHART_PRIO_UPSD_OUPT_CURRENT_NOM "nominal_current";
  NdChart "output.frequency" "output_frequency" None
    "UPS Output frequency" "Hz"
    "output" "upsd.ups_output_frequency" "line"
    NETDATA_CHART_PRIO_UPSD_OUPT_FREQUENCY "frequency";
  NdChart "output.frequency.nominal" "output_frequency_nominal" None
    "UPS Output frequency nominal" "Hz"
    "output" "upsd.ups_output_frequency_nominal" "line"
    NETDATA_CHART_PRIO_UPSD_OUPT_FREQUENCY_NOM "nominal_frequency"
].

#[global] Instance nd_chart_eq_dec : EqDecision nd_chart.
Proof. solve_decision. Defined.
