(* ===== verification/Clocks.v ===== *)
(** * libnetdata/clocks: time sources, heartbeats and sleeping

    The kernel is a parameter: what [clock_gettime()], [clock_getres()] and
    [nanosleep()] answer at their n-th call.  Everything the file computes from
    those answers is 64-bit arithmetic as the code has it. *)

From S2P Require Import Prelude.

Definition NSEC_PER_SEC : Z := 1000000000.
Definition NSEC_PER_USEC : Z := 1000.
Definition USEC_PER_SEC : Z := 1000000.
Definition MSEC_PER_SEC : Z := 1000.
Definition USEC_PER_MS : Z := 1000.
Definition DEFAULT_CLOCK_RESOLUTION_UT : Z := 0 * USEC_PER_SEC + 1 * USEC_PER_MS.
Definition MAX_CLOCK_RESOLUTION_UT : Z := 0 * USEC_PER_SEC + 10 * USEC_PER_MS.

Inductive clockid : Set := CLOCK_REALTIME | CLOCK_MONOTONIC | CLOCK_MONOTONIC_RAW | CLOCK_BOOTTIME.
Record timespec := Timespec { ts_sec : Z; ts_nsec : Z }.
Record timeval := Timeval { tv_sec : Z; tv_usec : Z }.

Inductive gettime_result : Type := GtOk (ts : timespec) | GtEINVAL | GtError.
Inductive nanosleep_result : Type := NsDone | NsEINTR (rem : timespec) | NsError.

(** The system calls, by the number of calls made before. *)
Record kernel := Kernel {
  k_gettime : clockid → nat → gettime_result;
  k_getres : clockid → option timespec;
  k_nanosleep : nat → timespec → nanosleep_result;
  k_hash : nat → Z;          (** [XXH3_64bits()] of a heartbeat's key *)
  k_hz : Z;                  (** [system_hz] *)
}.

(** [struct heartbeat_thread_statistics], [heartbeat_t] *)
Record hb_stats := HbStats { hs_sequence : Z; hs_dt : Z; hs_randomness : Z }.
Record heartbeat := Heartbeat {
  hb_step : Z; hb_realtime : Z; hb_randomness : Z; hb_statistics_id : Z; hb_hash : Z;
}.

(** The globals of clocks.c, and the number of system calls made. *)
Record clocks := Clocks {
  ck_calls : nat;
  ck_monotonic : clockid;            (** [clock_monotonic_to_use] *)
  ck_boottime : clockid;             (** [clock_boottime_to_use] *)
  ck_monotonic_resolution : Z;
  ck_realtime_resolution : Z;
  ck_alignment_id : Z;               (** [heartbeat_alignment_id] *)
  ck_alignment : list hb_stats;      (** [heartbeat_alignment_values] *)
  ck_alignment_old : list hb_stats;  (** [old] of [heartbeat_statistics()] *)
}.
Definition HEARTBEAT_ALIGNMENT_STATISTICS_SIZE : nat := 20.

Definition set_calls n c := Clocks n (ck_monotonic c) (ck_boottime c)
  (ck_monotonic_resolution c) (ck_realtime_resolution c) (ck_alignment_id c)
  (ck_alignment c) (ck_alignment_old c).
Definition set_clock_ids m b c := Clocks (ck_calls c) m b
  (ck_monotonic_resolution c) (ck_realtime_resolution c) (ck_alignment_id c)
  (ck_alignment c) (ck_alignment_old c).
Definition set_resolutions m r c := Clocks (ck_calls c) (ck_monotonic c) (ck_boottime c)
  m r (ck_alignment_id c) (ck_alignment c) (ck_alignment_old c).
Definition set_alignment_id n c := Clocks (ck_calls c) (ck_monotonic c) (ck_boottime c)
  (ck_monotonic_resolution c) (ck_realtime_resolution c) n
  (ck_alignment c) (ck_alignment_old c).
Definition set_alignment l c := Clocks (ck_calls c) (ck_monotonic c) (ck_boottime c)
  (ck_monotonic_resolution c) (ck_realtime_resolution c) (ck_alignment_id c)
  l (ck_alignment_old c).
Definition set_alignment_old l c := Clocks (ck_calls c) (ck_monotonic c) (ck_boottime c)
  (ck_monotonic_resolution c) (ck_realtime_resolution c) (ck_alignment_id c)
  (ck_alignment c) l.

Definition clocks_start : clocks :=
  Clocks 0 CLOCK_MONOTONIC CLOCK_MONOTONIC DEFAULT_CLOCK_RESOLUTION_UT
    DEFAULT_CLOCK_RESOLUTION_UT 0
    (replicate HEARTBEAT_ALIGNMENT_STATISTICS_SIZE (HbStats 0 0 0))
    (replicate HEARTBEAT_ALIGNMENT_STATISTICS_SIZE (HbStats 0 0 0)).

(** ** Differences of times *)

Definition timeval_usec (tv : timeval) : Z :=
  u64 (u64 (tv_sec tv * USEC_PER_SEC) + u64 (tv_usec tv) mod USEC_PER_SEC).
Definition timeval_msec (tv : timeval) : Z :=
  u64 (u64 (tv_sec tv * MSEC_PER_SEC) + (u64 (tv_usec tv) mod USEC_PER_SEC) / MSEC_PER_SEC).
Definition dt_usec_signed (now old : timeval) : Z :=
  let ts1 := timeval_usec now in
  let ts2 := timeval_usec old in
  if ts2 <=? ts1 then i64 (ts1 - ts2) else i64 (- i64 (ts2 - ts1)).
Definition dt_usec (now old : timeval) : Z :=
  let ts1 := timeval_usec now in
  let ts2 := timeval_usec old in
  if ts2 <? ts1 then u64 (ts1 - ts2) else u64 (ts2 - ts1).

(** ** Reading the clocks *)

Section kernel.
Context (k : kernel).

Definition clock_gettime (clk : clockid) : cst clocks gettime_result := fun c =>
  Ok (k_gettime k clk (ck_calls c), set_calls (S (ck_calls c)) c).

Definition now_sec (clk : clockid) : cst clocks Z :=
  r ← clock_gettime clk;
  mret match r with GtOk ts => ts_sec ts | _ => 0 end.

Definition now_usec (clk : clockid) : cst clocks Z :=
  r ← clock_gettime clk;
  mret match r with
       | GtOk ts => u64 (u64 (ts_sec ts * USEC_PER_SEC) +
                         (u64 (ts_nsec ts) mod NSEC_PER_SEC) / NSEC_PER_USEC)
       | _ => 0
       end.

Definition now_timeval (clk : clockid) : cst clocks (Z * timeval) :=
  r ← clock_gettime clk;
  mret match r with
       | GtOk ts => (0, Timeval (ts_sec ts)
                          (i64 ((u64 (ts_nsec ts) mod NSEC_PER_SEC) / NSEC_PER_USEC)))
       | _ => (-1, Timeval 0 0)
       end.

Definition now_realtime_sec : cst clocks Z := now_sec CLOCK_REALTIME.
Definition now_realtime_usec : cst clocks Z := now_usec CLOCK_REALTIME.
Definition now_realtime_msec : cst clocks Z :=
  u ← now_usec CLOCK_REALTIME; mret (u / USEC_PER_MS).
Definition now_realtime_timeval : cst clocks (Z * timeval) := now_timeval CLOCK_REALTIME.
Definition now_monotonic_sec : cst clocks Z := c ← cget; now_sec (ck_monotonic c).
Definition now_monotonic_usec : cst clocks Z := c ← cget; now_usec (ck_monotonic c).
Definition now_monotonic_timeval : cst clocks (Z * timeval) :=
  c ← cget; now_timeval (ck_monotonic c).
Definition now_boottime_sec : cst clocks Z := c ← cget; now_sec (ck_boottime c).
Definition now_boottime_usec : cst clocks Z := c ← cget; now_usec (ck_boottime c).

(** ** Initialization *)

Definition test_clock_monotonic_raw : cst clocks unit :=
  r ← clock_gettime CLOCK_MONOTONIC_RAW;
  cmodify (fun c => set_clock_ids
    (match r with GtEINVAL => CLOCK_MONOTONIC | _ => CLOCK_MONOTONIC_RAW end)
    (ck_boottime c) c).
Definition test_clock_boottime : cst clocks unit :=
  r ← clock_gettime CLOCK_BOOTTIME;
  cmodify (fun c => set_clock_ids (ck_monotonic c)
    (match r with GtEINVAL => ck_monotonic c | _ => CLOCK_BOOTTIME end) c).

Definition get_clock_resolution (clk : clockid) : Z :=
  match k_getres k clk with
  | Some ts =>
      let ret := u64 (u64 (ts_sec ts * USEC_PER_SEC) + u64 (ts_nsec ts) / NSEC_PER_USEC) in
      if (ret =? 0) && (0 <? ts_nsec ts) && (ts_nsec ts <? NSEC_PER_USEC) then 1
      else if MAX_CLOCK_RESOLUTION_UT <? ret then DEFAULT_CLOCK_RESOLUTION_UT
      else ret
  | None => DEFAULT_CLOCK_RESOLUTION_UT
  end.

Definition clocks_init : cst clocks unit :=
  _ ← test_clock_monotonic_raw;
  _ ← test_clock_boottime;
  cmodify (fun c => set_resolutions (get_clock_resolution (ck_monotonic c))
                                    (get_clock_resolution CLOCK_REALTIME) c).

(** ** Sleeping *)

Definition usec_to_timespec (usec : Z) : timespec :=
  Timespec (i64 (usec / USEC_PER_SEC)) (i64 (u64 ((usec mod USEC_PER_SEC) * NSEC_PER_USEC))).

(** [(usec_t)req.tv_sec * USEC_PER_SEC + (usec_t)req.tv_nsec * NSEC_PER_USEC > usec]:
    the comparison binds last, the value is 0 or 1. *)
Definition sleep_remaining_ut (req : timespec) (usec : Z) : Z :=
  if usec <? u64 (u64 (ts_sec req * USEC_PER_SEC) + u64 (ts_nsec req * NSEC_PER_USEC))
  then 1 else 0.

Fixpoint sleep_loop (fuel : nat) (usec started_ut end_ut : Z) (req : timespec)
  : cst clocks unit :=
  match fuel with
  | O => fun _ => NoFuel
  | S fuel =>
      c ← cget;
      _ ← cput (set_calls (S (ck_calls c)) c);
      match k_nanosleep k (ck_calls c) req with
      | NsDone => mret tt
      | NsEINTR rem =>
          if (ts_sec rem =? 0) && (ts_nsec rem =? 0) then mret tt
          else
            let req := rem in
            now_ut ← now_realtime_usec;
            if end_ut <=? now_ut then mret tt
            else
              let remaining_ut := sleep_remaining_ut req usec in
              let check_ut := u64 (now_ut - started_ut) in
              let req := if check_ut <? remaining_ut then usec_to_timespec check_ut
                         else req in
              sleep_loop fuel usec started_ut end_ut req
      | NsError => mret tt
      end
  end.

Definition sleep_usec_with_now (fuel : nat) (usec started_ut : Z) : cst clocks unit :=
  started_ut ← (if started_ut =? 0 then now_realtime_usec else mret started_ut);
  let end_ut := u64 (started_ut + usec) in
  sleep_loop fuel usec started_ut end_ut (usec_to_timespec usec).

(** ** Heartbeats *)

Definition HEARTBEAT_MIN_OFFSET_UT : Z := 150 * USEC_PER_MS.
Definition HEARTBEAT_RANDOM_OFFSET_UT : Z := 350 * USEC_PER_MS.

Definition heartbeat_hash : cst clocks Z :=
  _ ← now_realtime_usec;
  c ← cget;
  mret (u64 (k_hash k (ck_calls c))).

(** The tick interval of the scheduler, at most 10ms; [system_hz] divides. *)
Definition scheduler_step_ut : cres Z :=
  if k_hz k =? 0 then UB UB_div0
  else
    let step := USEC_PER_SEC / k_hz k in
    Ok (if 10 * USEC_PER_MS <? step then 10 * USEC_PER_MS else step).
Definition heartbeat_randomness (hash : Z) : cres Z :=
  let offset_ut := HEARTBEAT_MIN_OFFSET_UT + hash mod HEARTBEAT_RANDOM_OFFSET_UT in
  step ← scheduler_step_ut;
  if step =? 0 then UB UB_div0
  else Ok (if offset_ut mod step <? step / 4 then offset_ut + step / 4 else offset_ut).

Definition stats_write (id : Z) (f : hb_stats → hb_stats) : cst clocks unit :=
  cmodify (fun c =>
    if id <? Z.of_nat HEARTBEAT_ALIGNMENT_STATISTICS_SIZE
    then set_alignment (alter f (Z.to_nat id) (ck_alignment c)) c else c).

Definition heartbeat_init (step : Z) : cst clocks heartbeat :=
  let step := if step =? 0 then USEC_PER_SEC else step in
  c ← cget;
  let id := ck_alignment_id c in
  _ ← cput (set_alignment_id (u64 (id + 1)) c);
  hash ← heartbeat_hash;
  randomness ← clift (heartbeat_randomness hash);
  _ ← stats_write id (fun _ => HbStats 0 0 randomness);
  mret (Heartbeat step 0 randomness id hash).

(** The moment of the next beat. *)
Definition next_beat (now tick randomness resolution : Z) : Z :=
  let next := u64 (now - now mod tick + tick + randomness) in
  if next mod resolution =? 0 then next
  else u64 (next - next mod resolution + resolution).

Definition heartbeat_next (fuel : nat) (hb : heartbeat) : cst clocks (Z * heartbeat) :=
  let tick := hb_step hb in
  now ← now_realtime_usec;
  c ← cget;
  if (tick =? 0) || (ck_realtime_resolution c =? 0) then cfail UB_div0
  else
    let next := next_beat now tick (hb_randomness hb) (ck_realtime_resolution c) in
    _ ← sleep_usec_with_now fuel (u64 (next - now)) now;
    now ← now_realtime_usec;
    let dt := u64 (now - hb_realtime hb) in
    _ ← stats_write (hb_statistics_id hb) (fun s =>
          HbStats (u64 (hs_sequence s + 1)) (u64 (hs_dt s + u64 (now - next)))
                  (hs_randomness s));
    let dt := if hb_realtime hb =? 0 then 0 else dt in
    mret (dt, Heartbeat (hb_step hb) now (hb_randomness hb) (hb_statistics_id hb) (hb_hash hb)).

(** [heartbeat_statistics()]: minimum, maximum, average and count of the
    delays of the heartbeats that moved since the last call. *)
Definition stats_acc (acc : Z * Z * Z * Z) (p : hb_stats * hb_stats) : Z * Z * Z * Z :=
  let '(mn, mx, total, count) := acc in
  let '(current, old) := p in
  if hs_sequence current =? hs_sequence old then acc
  else
    let value := u64 (hs_dt current - hs_dt old) in
    if count =? 0 then (value, value, value, 1)
    else (if value <? mn then value else mn, if mx <? value then value else mx,
          u64 (total + value), count + 1).
Definition heartbeat_statistics : cst clocks (Z * Z * Z * Z) :=
  c ← cget;
  let '(mn, mx, total, count) :=
    fold_left stats_acc (zip (ck_alignment c) (ck_alignment_old c)) (0, 0, 0, 0) in
  let average := if count =? 0 then 0 else total / count in
  _ ← cput (set_alignment_old (ck_alignment c) c);
  mret (mn, mx, average, count).
End kernel.

(** ** Properties *)

Lemma timespec_usec s ns : 0 ≤ s < 2 ^ 40 → 0 ≤ ns < NSEC_PER_SEC →
  u64 (u64 (s * USEC_PER_SEC) + (u64 ns mod NSEC_PER_SEC) / NSEC_PER_USEC) =
  s * USEC_PER_SEC + ns / NSEC_PER_USEC.
Proof.
  unfold NSEC_PER_SEC, NSEC_PER_USEC, USEC_PER_SEC. intros Hs Hns.
  rewrite (wrap_u_id 64 ns) by lia. rewrite (Z.mod_small ns) by lia.
  assert (0 ≤ ns / 1000 < 1000000).
  { split; [apply Z.div_pos; lia|apply Z.div_lt_upper_bound; lia]. }
  rewrite (wrap_u_id 64 (s * 1000000)) by lia. apply wrap_u_id. lia.
Qed.

Definition ts_usec (ts : timespec) : Z := ts_sec ts * USEC_PER_SEC + ts_nsec ts / NSEC_PER_USEC.
Definition ts_valid (ts : timespec) : Prop :=
  0 ≤ ts_sec ts < 2 ^ 40 ∧ 0 ≤ ts_nsec ts < NSEC_PER_SEC.

Lemma ts_usec_range ts : ts_valid ts → 0 ≤ ts_usec ts < 2 ^ 60.
Proof.
  intros [Hs Hn]. unfold ts_usec, USEC_PER_SEC, NSEC_PER_USEC, NSEC_PER_SEC in *.
  assert (0 ≤ ts_nsec ts / 1000 < 1000000).
  { split; [apply Z.div_pos; lia|apply Z.div_lt_upper_bound; lia]. }
  lia.
Qed.

Lemma now_usec_ok k clk c ts : k_gettime k clk (ck_calls c) = GtOk ts → ts_valid ts →
  now_usec k clk c = Ok (ts_usec ts, set_calls (S (ck_calls c)) c).
Proof.
  intros Hk [Hs Hn]. unfold now_usec, clock_gettime, mbind, cst_bind. rewrite Hk.
  unfold mret, cst_ret. rewrite timespec_usec by done. done.
Qed.

(** The beat that follows [now]: strictly in the future, after the end of the
    running tick plus the offset, on a multiple of the resolution, and late by
    less than one resolution. *)
Lemma next_beat_bounds now tick randomness resolution :
  0 ≤ now < 2 ^ 60 → 0 < tick < 2 ^ 50 → 0 ≤ randomness < 2 ^ 50 →
  0 < resolution < 2 ^ 50 →
  let base := now - now mod tick + tick + randomness in
  let next := next_beat now tick randomness resolution in
  now + randomness < base ∧ base ≤ next < base + resolution ∧ next mod resolution = 0.
Proof.
  intros Hn Ht Hr Hres base next.
  pose proof (Z.mod_pos_bound now tick ltac:(lia)) as Hm.
  assert (Hb : now + randomness < base) by (unfold base; lia). split; [done|].
  assert (Hbr : 0 ≤ base < 2 ^ 63) by (unfold base in *; lia).
  unfold next, next_beat. fold base. rewrite (wrap_u_id 64 base) by lia.
  pose proof (Z.mod_pos_bound base resolution ltac:(lia)) as Hm2.
  destruct (Z.eqb_spec (base mod resolution) 0) as [E|E]; [lia|].
  rewrite wrap_u_id by lia. split; [lia|].
  replace (base - base mod resolution + resolution)
    with (resolution * (base / resolution) + 1 * resolution)
    by (rewrite (Z.div_mod base resolution) at 2; lia).
  rewrite Z.mod_add, Z.mul_comm, Z.mod_mul by lia. done.
Qed.

(** ** A kernel that keeps time *)

Definition ns (ts : timespec) : Z := ts_sec ts * NSEC_PER_SEC + ts_nsec ts.
Definition of_ns (t : Z) : timespec := Timespec (t / NSEC_PER_SEC) (t mod NSEC_PER_SEC).
Definition request_ok (ts : timespec) : Prop := 0 ≤ ts_sec ts ∧ 0 ≤ ts_nsec ts < NSEC_PER_SEC.

Section timekeeping.
Context (k : kernel).

(** [T n] is the time in nanoseconds when the [n]-th system call returns, and the
    real-time clock reads it.  From the call [c0] on, every second call is a sleep
    (between two readings of the clock), for [turns] of them: [nanosleep()] is done when the time that was
    asked for has passed, and at most [late] after; when a signal interrupts it, which
    is not before [gap], the remaining time it gives back is not less than what was
    left. *)
Record keeps_time (T : nat → Z) (gap late : Z) (c0 turns : nat) : Prop := {
  kt_range : ∀ n, 1000 ≤ T n < 2 ^ 40 * NSEC_PER_SEC;
  kt_order : ∀ n, T n ≤ T (S n);
  kt_clock : ∀ n, k_gettime k CLOCK_REALTIME n = GtOk (of_ns (T n));
  kt_valid : ∀ j req, (j < turns)%nat → request_ok req → k_nanosleep k (S (c0 + 2 * j)) req ≠ NsError;
  kt_done : ∀ j req, (j < turns)%nat → k_nanosleep k (S (c0 + 2 * j)) req = NsDone →
    T (c0 + 2 * j)%nat + ns req ≤ T (S (c0 + 2 * j)) ≤ T (c0 + 2 * j)%nat + ns req + late;
  kt_intr : ∀ j req rem, (j < turns)%nat → k_nanosleep k (S (c0 + 2 * j)) req = NsEINTR rem → request_ok rem ∧
    T (c0 + 2 * j)%nat + ns req ≤ T (S (c0 + 2 * j)) + ns rem ∧ T (c0 + 2 * j)%nat + gap ≤ T (S (c0 + 2 * j));
  kt_gap : 1000 ≤ gap;
}.
Context {T : nat → Z} {gap late : Z} {c0 turns : nat} (Hk : keeps_time T gap late c0 turns).

(** The microseconds the clock shows. *)
Definition shows (t : Z) : Z := t / 1000.
Lemma of_ns_usec t : 0 ≤ t → ts_usec (of_ns t) = shows t.
Proof.
  intros Ht. unfold ts_usec, of_ns, shows, USEC_PER_SEC, NSEC_PER_SEC, NSEC_PER_USEC. cbn [ts_sec ts_nsec].
  rewrite (Z.div_mod t 1000000000) at 3 by done. set (q := t / _). set (m := t mod _).
  replace (1000000000 * q + m) with ((q * 1000000) * 1000 + m) by lia. rewrite Z.div_add_l by done. done.
Qed.
Lemma of_ns_valid n : ts_valid (of_ns (T n)).
Proof using Hk.
  pose proof (kt_range _ _ _ _ _ Hk n) as H. unfold ts_valid, of_ns, NSEC_PER_SEC in *. cbn [ts_sec ts_nsec].
  split; [split; [apply Z.div_pos; lia|apply Z.div_lt_upper_bound; lia]|apply Z.mod_pos_bound; lia].
Qed.
Lemma clock_shows c : now_realtime_usec k c = Ok (shows (T (ck_calls c)), set_calls (S (ck_calls c)) c).
Proof using Hk.
  pose proof (kt_range _ _ _ _ _ Hk (ck_calls c)). unfold now_realtime_usec.
  rewrite (now_usec_ok k CLOCK_REALTIME c (of_ns (T (ck_calls c)))); [|apply Hk|apply of_ns_valid].
  by rewrite of_ns_usec by lia.
Qed.
Lemma shows_range n : 0 < shows (T n) < 2 ^ 60.
Proof using Hk.
  pose proof (kt_range _ _ _ _ _ Hk n) as H. unfold shows, NSEC_PER_SEC in *.
  assert (1 ≤ T n / 1000) by (apply Z.div_le_lower_bound; lia).
  assert (T n / 1000 < 2 ^ 40 * 1000000) by (apply Z.div_lt_upper_bound; lia). lia.
Qed.
Lemma shows_later a b usec : a + usec * 1000 ≤ b → shows a + usec ≤ shows b.
Proof. intros H. unfold shows. rewrite <- Z.div_add by done. by apply Z.div_le_mono. Qed.
Lemma T_mono n m : (n ≤ m)%nat → T n ≤ T m.
Proof using Hk. induction 1 as [|m _ IH]; [done|]. etrans; [exact IH|apply Hk]. Qed.
Lemma request_of_usec usec : 0 ≤ usec < 2 ^ 61 →
  request_ok (usec_to_timespec usec) ∧ ns (usec_to_timespec usec) = usec * 1000.
Proof.
  intros Hu. unfold request_ok, ns, usec_to_timespec, USEC_PER_SEC, NSEC_PER_USEC, NSEC_PER_SEC. cbn [ts_sec ts_nsec].
  pose proof (Z.mod_pos_bound usec 1000000 ltac:(lia)) as Hm. pose proof (Z.div_mod usec 1000000 ltac:(lia)) as Hd.
  assert (0 ≤ usec / 1000000 < 2 ^ 61) by (split; [apply Z.div_pos; lia|apply Z.div_lt_upper_bound; lia]).
  rewrite (wrap_u_id 64) by lia. rewrite !(wrap_s_id 64) by lia. lia.
Qed.

(** The loop around [nanosleep()], after [j] interruptions. *)
Lemma sleep_long_enough usec fuel : 0 ≤ usec < 2 ^ 61 → shows (T c0) + usec < 2 ^ 63 → ∀ j req c,
  ck_calls c = S (c0 + 2 * j) → request_ok req → T c0 + usec * 1000 ≤ T (c0 + 2 * j)%nat + ns req →
  T c0 + Z.of_nat j * gap ≤ T (c0 + 2 * j)%nat → (j = 0%nat ∨ shows (T (c0 + 2 * j)) < shows (T c0) + usec) →
  usec * 1000 + 1000 < (Z.of_nat j + Z.of_nat fuel) * gap → (j + fuel = turns)%nat →
  ∃ n, sleep_loop k fuel usec (shows (T c0)) (u64 (shows (T c0) + usec)) req c = Ok (tt, set_calls n c) ∧
    shows (T c0) + usec ≤ shows (T n) ∧
    (k_nanosleep k (S (c0 + 2 * j)) req = NsDone → n = S (S (c0 + 2 * j))).
Proof using Hk.
  intros Hu Hend. pose proof (shows_range c0) as R0. pose proof (kt_gap _ _ _ _ _ Hk) as Hg.
  induction fuel as [|fuel IH]; intros j req c Hc Hreq Htarget Hj Hnot Hfuel Hturns.
  { exfalso. destruct Hnot as [->|Hnot]; [lia|].
    assert (shows (T c0) + usec ≤ shows (T (c0 + 2 * j))) by (apply shows_later; lia). lia. }
  cbn [sleep_loop]. erewrite cst_bind_Ok by reflexivity. erewrite cst_bind_Ok by reflexivity. rewrite Hc.
  assert (Hlate : ∀ n, (S (c0 + 2 * j) ≤ n)%nat → T c0 + usec * 1000 ≤ T (S (c0 + 2 * j)) → shows (T c0) + usec ≤ shows (T n)).
  { intros n Hn Hle. apply shows_later. etrans; [exact Hle|by apply T_mono]. }
  destruct (k_nanosleep k (S (c0 + 2 * j)) req) as [|rem|] eqn:E.
  - apply Hk in E as [E _]; [|lia]. exists (S (S (c0 + 2 * j))). split; [done|]. split; [|done]. apply Hlate; lia.
  - destruct (kt_intr _ _ _ _ _ Hk j req rem ltac:(lia) E) as (Hrem & E2 & E3). destruct ((ts_sec rem =? 0) && (ts_nsec rem =? 0)) eqn:Ez.
    { apply andb_prop in Ez as [Z1%Z.eqb_eq Z2%Z.eqb_eq]. exists (S (S (c0 + 2 * j))). split; [done|]. split; [|done].
      apply Hlate; [lia|]. unfold ns in E2 at 2. rewrite Z1, Z2 in E2. lia. }
    erewrite cst_bind_Ok by apply clock_shows. cbn [ck_calls set_calls].
    replace (S (S (c0 + 2 * j))) with (c0 + 2 * S j)%nat by lia.
    assert (Hnext : T (S (c0 + 2 * j)) ≤ T (c0 + 2 * S j)%nat) by (apply T_mono; lia).
    rewrite (wrap_u_id 64 (shows (T c0) + usec)) by lia. pose proof (shows_range (c0 + 2 * S j)) as R1.
    destruct (Z.leb_spec (shows (T c0) + usec) (shows (T (c0 + 2 * S j)))) as [Hd|Hd].
    { eexists. split; [done|]. split; [|done]. etrans; [exact Hd|]. unfold shows. apply Z.div_le_mono; [done|]. apply T_mono. lia. }
    assert (H1 : shows (T c0) + 1 ≤ shows (T (c0 + 2 * S j))) by (apply shows_later; nia).
    rewrite (wrap_u_id 64 (shows (T (c0 + 2 * S j)) - shows (T c0))) by lia.
    assert (sleep_remaining_ut rem usec ≤ 1) by (unfold sleep_remaining_ut; case_match; lia).
    rewrite (proj2 (Z.ltb_ge _ _)) by lia.
    destruct (IH (S j) rem (set_calls (S (c0 + 2 * S j)) c)) as (n & Hrest & Hn & _);
      [done|done|lia|lia|by right|lia|lia|].
    rewrite (wrap_u_id 64 (shows (T c0) + usec)) in Hrest by lia. exists n. split; [exact Hrest|]. split; [exact Hn|done].
  - exfalso. by apply (kt_valid _ _ _ _ _ Hk j req ltac:(lia) Hreq).
Qed.

End timekeeping.

Section claims.
Context (k : kernel).

(** The offset of a heartbeat is between 150ms and 502.5ms whatever the
    hash, for every [system_hz] from 1 to one million; for 0 and for more than
    a million the code divides by zero. *)
Theorem heartbeat_randomness_bounds hash : 0 ≤ hash →
  if (1 <=? k_hz k) && (k_hz k <=? USEC_PER_SEC)
  then ∃ r, heartbeat_randomness k hash = Ok r ∧ 150000 ≤ r < 502500
  else 0 ≤ k_hz k → heartbeat_randomness k hash = UB UB_div0.
Proof.
  intros Hh. unfold heartbeat_randomness, scheduler_step_ut, HEARTBEAT_MIN_OFFSET_UT,
    HEARTBEAT_RANDOM_OFFSET_UT, USEC_PER_MS, USEC_PER_SEC.
  destruct (Z.leb_spec 1 (k_hz k)); cbn [andb].
  - rewrite (proj2 (Z.eqb_neq (k_hz k) 0)) by lia. simpl mbind. cbn [mbind cres_bind].
    pose proof (Z.mod_pos_bound hash (350 * 1000) ltac:(lia)).
    destruct (Z.leb_spec (k_hz k) 1000000).
    + assert (1 ≤ 1000000 / k_hz k) by (apply Z.div_le_lower_bound; lia).
      set (step := if _ <? _ then _ else _).
      assert (Hs : 1 ≤ step ≤ 10000).
      { unfold step. destruct (Z.ltb_spec (10 * 1000) (1000000 / k_hz k)); lia. }
      assert (0 ≤ step / 4 ≤ 2500).
      { split; [apply Z.div_pos; lia|]. apply Z.div_le_upper_bound; lia. }
      rewrite (proj2 (Z.eqb_neq step 0)) by lia. eexists. split; [done|].
      case_match; lia.
    + intros _. rewrite Z.div_small by lia. done.
  - intros Hz. by rewrite (proj2 (Z.eqb_eq (k_hz k) 0)) by lia.
Qed.

(** A clock whose reported resolution is zero makes [clocks_init()]
    keep a zero resolution, and every later [heartbeat_next()] divides by it. *)
Theorem zero_resolution_divides_by_zero hb c fuel :
  k_getres k CLOCK_REALTIME = Some (Timespec 0 0) →
  ∃ c', clocks_init k c = Ok (tt, c') ∧ heartbeat_next k fuel hb c' = UB UB_div0.
Proof.
  intros Hres. assert (Hz : get_clock_resolution k CLOCK_REALTIME = 0)
    by (unfold get_clock_resolution; by rewrite Hres).
  unfold clocks_init, test_clock_monotonic_raw, test_clock_boottime.
  eexists. split; [reflexivity|]. unfold heartbeat_next, now_realtime_usec, now_usec.
  unfold mbind, cst_bind, clock_gettime, cmodify, cget, mret, cst_ret.
  cbn -[get_clock_resolution]. rewrite Hz. by rewrite orb_true_r.
Qed.

(** The check that is meant to cut an interrupted sleep compares a
    boolean with the elapsed time: it replaces the request only when no
    microsecond has passed, and then by a request of zero, so that the next
    [nanosleep()] returns at once. *)
Theorem sleep_guard_requests_zero (rem : timespec) (usec now_ut started_ut : Z) :
  0 ≤ started_ut ≤ now_ut → now_ut < 2 ^ 63 →
  (u64 (now_ut - started_ut) <? sleep_remaining_ut rem usec) = true →
  now_ut = started_ut ∧ usec_to_timespec (u64 (now_ut - started_ut)) = Timespec 0 0.
Proof.
  intros Hle Hlt Hg. apply Z.ltb_lt in Hg. rewrite wrap_u_id in * by lia.
  assert (sleep_remaining_ut rem usec ≤ 1) by (unfold sleep_remaining_ut; case_match; lia).
  assert (now_ut = started_ut) as -> by lia. by rewrite Z.sub_diag.
Qed.
End claims.

(** A kernel whose real-time clock advances one second at a time. *)
Definition ex_kernel : kernel := Kernel
  (fun _ n => GtOk (Timespec (1000 + Z.of_nat n) 0)) (fun _ => Some (Timespec 0 1))
  (fun _ _ => NsDone) (fun n => 12345) 100.
Definition ex_hb : heartbeat := Heartbeat 1000000 0 162345 0 12345.

(** A kernel that sends a signal after each second of sleep, for a while. *)
Definition ex_time (n : nat) : Z := 1000000000000 + Z.of_nat (Nat.min n 20) * 1000000000.
Definition ex_signals : kernel := Kernel (fun _ n => GtOk (of_ns (ex_time n))) (fun _ => Some (Timespec 0 1))
  (fun n req =>
    let left := ex_time (pred n) + ns req - ex_time n in
    if left =? 0 then NsDone else NsEINTR (of_ns (Z.max 0 left))) (fun n => 12345) 100.
Lemma of_ns_ok t : 0 ≤ t → request_ok (of_ns t) ∧ ns (of_ns t) = t.
Proof.
  intros Ht. unfold request_ok, ns, of_ns, NSEC_PER_SEC. cbn [ts_sec ts_nsec].
  pose proof (Z.mod_pos_bound t 1000000000 ltac:(lia)). pose proof (Z.div_mod t 1000000000 ltac:(lia)).
  assert (0 ≤ t / 1000000000) by (apply Z.div_pos; lia). lia.
Qed.
Lemma ex_keeps_time : keeps_time ex_signals ex_time 1000000000 0 0 3.
Proof.
  split.
  - intros n. unfold ex_time, NSEC_PER_SEC. lia.
  - intros n. unfold ex_time. lia.
  - done.
  - intros j req Hj _. cbn -[Nat.mul]. by destruct (_ =? 0).
  - intros j req Hj. cbn -[Nat.mul]. destruct (Z.eqb_spec (ex_time (2 * j) + ns req - ex_time (S (2 * j))) 0); [|done]. intros _. lia.
  - intros j req rem Hj. cbn -[Nat.mul]. destruct (_ =? 0); [done|]. intros [= <-].
    match goal with |- context [of_ns ?x] => destruct (of_ns_ok x ltac:(lia)) as [H1 H2] end.
    split; [done|]. rewrite H2. unfold ex_time. lia.
  - lia.
Qed.
Lemma heartbeat_randomness_bounds_witness :
  ∃ r, heartbeat_randomness ex_kernel 12345 = Ok r ∧ 150000 ≤ r < 502500.
Proof. exact (heartbeat_randomness_bounds ex_kernel 12345 ltac:(lia)). Defined.
Definition ex_kernel_res0 : kernel := Kernel
  (fun _ n => GtOk (Timespec 1000 0)) (fun _ => Some (Timespec 0 0))
  (fun _ _ => NsDone) (fun n => 0) 100.
Lemma zero_resolution_divides_by_zero_witness :
  ∃ c', clocks_init ex_kernel_res0 clocks_start = Ok (tt, c') ∧
        heartbeat_next ex_kernel_res0 5 ex_hb c' = UB UB_div0.
Proof.
  exact (zero_resolution_divides_by_zero ex_kernel_res0 ex_hb clocks_start 5 eq_refl).
Defined.
Lemma sleep_guard_requests_zero_witness :
  100 = 100 ∧ usec_to_timespec (u64 (100 - 100)) = Timespec 0 0.
Proof.
  exact (sleep_guard_requests_zero (Timespec 0 500) 1000 100 100 ltac:(lia) ltac:(lia) eq_refl).
Defined.
