(* ===== verification/Dictionary.v ===== *)
(** * libnetdata/dictionary: the sequential master dictionary

    A dictionary is a JudyHS index from names to items plus a doubly linked
    list of all the items, those marked deleted but still referenced (or not
    yet collected) included.  The file models the whole life of an item of a
    master dictionary used by one thread: creation, reference counting,
    value reset, deletion, garbage collection, flush, traversal, and the
    destruction of dictionaries with the queue of those that are still
    referenced.  Locks are no-ops in this mode, and a compare-and-exchange
    succeeds at its first attempt.  Views are not modelled.

    Items live at addresses; an address that is not in the linked list is
    freed memory, and touching it is [UB_oob]. *)

From S2P Require Import Prelude.

(** ** The index

    What the code relies on of JudyHS, which maps a name to one pointer. *)

Class JudyHS (J : Type) := {
  judy_empty : J;
  judy_get : J → string → option nat;
  judy_set : J → string → nat → J;
  judy_del : J → string → J;
  judy_get_empty : ∀ k, judy_get judy_empty k = None;
  judy_get_set : ∀ j k k' a,
    judy_get (judy_set j k a) k' = if decide (k' = k) then Some a else judy_get j k';
  judy_get_del : ∀ j k k',
    judy_get (judy_del j k) k' = if decide (k' = k) then None else judy_get j k';
}.

(** Values are memory objects the dictionary copies ([memcpy]) or clears. *)
Class CVal (V : Type) := {
  cv_copy : V → Z → V;
  cv_zero : Z → V;
}.

#[global, program] Instance judy_gmap : JudyHS (gmap string nat) := {|
  judy_empty := ∅;
  judy_get m k := m !! k;
  judy_set m k a := <[k := a]> m;
  judy_del m k := delete k m;
|}.
Next Obligation. intros k. apply lookup_empty. Qed.
Next Obligation.
  intros m k k' a. case_decide; subst.
  - by rewrite lookup_insert_eq.
  - by rewrite lookup_insert_ne.
Qed.
Next Obligation.
  intros m k k'. case_decide; subst.
  - by rewrite lookup_delete_eq.
  - by rewrite lookup_delete_ne.
Qed.

Definition REFCOUNT_DELETED : Z := -2 * 1000 * 1000 * 1000.

Definition RC_ITEM_OK : Z := 0.
Definition RC_ITEM_MARKED_FOR_DELETION : Z := -1.
Definition RC_ITEM_IS_CURRENTLY_BEING_DELETED : Z := -2.
Definition RC_ITEM_IS_CURRENTLY_BEING_CREATED : Z := -3.
Definition RC_ITEM_IS_REFERENCED : Z := -4.

(** [DICT_OPTIONS], one field per bit. *)
Record dict_options := DictOptions {
  opt_single_threaded : bool;
  opt_value_link : bool;
  opt_name_link : bool;
  opt_dont_overwrite : bool;
  opt_add_in_front : bool;
  opt_fixed_size : bool;
}.

Inductive lock_mode : Set := LOCK_READ | LOCK_WRITE | LOCK_REENTRANT.

Section dictionary.
Context {V : Type} `{!CVal V} {J : Type} `{!JudyHS J}.

(** [struct dictionary_item] and the [struct dictionary_item_shared] that, in
    a master dictionary, belongs to it alone. *)
Record item := Item {
  i_addr : nat;
  i_name : string;
  i_key_len : Z;
  i_refcount : Z;
  i_deleted : bool;
  i_being_created : bool;
  i_value : option V;
  i_value_len : Z;
  i_links : Z;
  i_shared_deleted : bool;
}.

Definition with_refcount (r : Z) (it : item) : item :=
  Item (i_addr it) (i_name it) (i_key_len it) r (i_deleted it) (i_being_created it)
       (i_value it) (i_value_len it) (i_links it) (i_shared_deleted it).
Definition with_deleted (it : item) : item :=
  Item (i_addr it) (i_name it) (i_key_len it) (i_refcount it) true (i_being_created it)
       (i_value it) (i_value_len it) (i_links it) (i_shared_deleted it).
Definition with_created (it : item) : item :=
  Item (i_addr it) (i_name it) (i_key_len it) (i_refcount it) (i_deleted it) false
       (i_value it) (i_value_len it) (i_links it) (i_shared_deleted it).
Definition with_value (v : option V) (len : Z) (it : item) : item :=
  Item (i_addr it) (i_name it) (i_key_len it) (i_refcount it) (i_deleted it)
       (i_being_created it) v len (i_links it) (i_shared_deleted it).
Definition with_links (n : Z) (it : item) : item :=
  Item (i_addr it) (i_name it) (i_key_len it) (i_refcount it) (i_deleted it)
       (i_being_created it) (i_value it) (i_value_len it) n (i_shared_deleted it).
Definition with_shared_deleted (it : item) : item :=
  Item (i_addr it) (i_name it) (i_key_len it) (i_refcount it) (i_deleted it)
       (i_being_created it) (i_value it) (i_value_len it) (i_links it) true.

(** [struct dictionary_hooks]: each callback sees the item's name and value
    and may change the value in place. *)
Record hooks := Hooks {
  insert_callback : option (string → option V → option V);
  conflict_callback : option (string → option V → option V → bool * option V);
  react_callback : option (string → option V → option V);
  delete_callback : option (string → option V → option V);
}.

(** [struct dictionary]; [d_fresh] is the next address the allocator returns. *)
Record dict := Dict {
  d_options : dict_options;
  d_destroyed : bool;
  d_index : J;
  d_items : list item;
  d_fresh : nat;
  d_hooks : option hooks;
  d_version : Z;
  d_entries : Z;
  d_referenced : Z;
  d_pending : Z;
}.

Definition set_items (l : list item) (d : dict) : dict :=
  Dict (d_options d) (d_destroyed d) (d_index d) l (d_fresh d) (d_hooks d)
       (d_version d) (d_entries d) (d_referenced d) (d_pending d).
Definition set_index (j : J) (d : dict) : dict :=
  Dict (d_options d) (d_destroyed d) j (d_items d) (d_fresh d) (d_hooks d)
       (d_version d) (d_entries d) (d_referenced d) (d_pending d).
Definition set_fresh (n : nat) (d : dict) : dict :=
  Dict (d_options d) (d_destroyed d) (d_index d) (d_items d) n (d_hooks d)
       (d_version d) (d_entries d) (d_referenced d) (d_pending d).
Definition set_destroyed (d : dict) : dict :=
  Dict (d_options d) true (d_index d) (d_items d) (d_fresh d) (d_hooks d)
       (d_version d) (d_entries d) (d_referenced d) (d_pending d).
Definition set_hooks (h : option hooks) (d : dict) : dict :=
  Dict (d_options d) (d_destroyed d) (d_index d) (d_items d) (d_fresh d) h
       (d_version d) (d_entries d) (d_referenced d) (d_pending d).
Definition set_options (o : dict_options) (d : dict) : dict :=
  Dict o (d_destroyed d) (d_index d) (d_items d) (d_fresh d) (d_hooks d)
       (d_version d) (d_entries d) (d_referenced d) (d_pending d).

(** The counters: [version] is a [uint32_t], the others are [int32_t]. *)
Definition bump (version entries referenced pending : Z) (d : dict) : dict :=
  Dict (d_options d) (d_destroyed d) (d_index d) (d_items d) (d_fresh d) (d_hooks d)
       (u32 (d_version d + version)) (i32 (d_entries d + entries))
       (i32 (d_referenced d + referenced)) (i32 (d_pending d + pending)).

Definition ENTRIES_PLUS1 : cst dict unit := cmodify (bump 1 1 1 0).
Definition ENTRIES_MINUS1 : cst dict unit := cmodify (bump 1 (-1) 0 0).
Definition VALUE_RESETS_PLUS1 : cst dict unit := cmodify (bump 1 0 0 0).
Definition REFERENCED_ITEMS_PLUS1 : cst dict unit := cmodify (bump 0 0 1 0).
Definition REFERENCED_ITEMS_MINUS1 : cst dict unit := cmodify (bump 0 0 (-1) 0).
Definition PENDING_DELETES_PLUS1 : cst dict unit := cmodify (bump 0 0 0 1).
Definition PENDING_DELETES_MINUS1 : cst dict Z := fun d =>
  let d' := bump 0 0 0 (-1) d in Ok (d_pending d', d').
Definition dictionary_version_increment : cst dict unit := cmodify (bump 1 0 0 0).

(** *** The linked list *)

Definition find_item (l : list item) (a : nat) : option item :=
  List.find (fun it => Nat.eqb (i_addr it) a) l.
Definition upd_item (a : nat) (f : item → item) (l : list item) : list item :=
  (fun it => if Nat.eqb (i_addr it) a then f it else it) <$> l.
Definition del_item (a : nat) (l : list item) : list item :=
  List.filter (fun it => negb (Nat.eqb (i_addr it) a)) l.

(** [item->next] *)
Fixpoint next_addr (l : list item) (a : nat) : option nat :=
  match l with
  | x :: t => if Nat.eqb (i_addr x) a then i_addr <$> head t else next_addr t a
  | [] => None
  end.

(** Read a field of, or write to, the item at [a]. *)
Definition item_at (a : nat) : cst dict item := fun d =>
  match find_item (d_items d) a with
  | Some it => Ok (it, d)
  | None => UB UB_oob
  end.
Definition item_write (a : nat) (f : item → item) : cst dict unit :=
  cmodify (fun d => set_items (upd_item a f (d_items d)) d).
Definition item_next (a : nat) : cst dict (option nat) :=
  _ ← item_at a; d ← cget; mret (next_addr (d_items d) a).

(** *** Reference counters *)

Definition item_acquire (a : nat) : cst dict unit :=
  it ← item_at a;
  let refcount := i32 (i_refcount it + 1) in
  _ ← item_write a (with_refcount refcount);
  if refcount <=? 0 then cfail UB_fatal
  else if refcount =? 1 then
    _ ← REFERENCED_ITEMS_PLUS1;
    if i_deleted it then PENDING_DELETES_MINUS1 ≫= fun _ => mret tt else mret tt
  else mret tt.

Definition item_release (a : nat) : cst dict unit :=
  it ← item_at a;
  let is_deleted := i_deleted it in
  let refcount := i32 (i_refcount it - 1) in
  _ ← item_write a (with_refcount refcount);
  if refcount <? 0 then cfail UB_fatal
  else if refcount =? 0 then
    _ ← (if is_deleted then PENDING_DELETES_PLUS1 else mret tt);
    REFERENCED_ITEMS_MINUS1
  else mret tt.

Definition item_check_and_acquire_advanced (a : nat) : cst dict Z :=
  it ← item_at a;
  let refcount := i_refcount it in
  if refcount <? 0 then mret RC_ITEM_IS_CURRENTLY_BEING_DELETED
  else if i_deleted it then mret RC_ITEM_MARKED_FOR_DELETION
  else
    let desired := i32 (refcount + 1) in
    _ ← item_write a (with_refcount desired);
    _ ← (if desired =? 1 then REFERENCED_ITEMS_PLUS1 else mret tt);
    mret RC_ITEM_OK.

Definition item_check_and_acquire (a : nat) : cst dict bool :=
  rc ← item_check_and_acquire_advanced a; mret (rc =? RC_ITEM_OK).

Definition item_is_not_referenced_and_can_be_removed_advanced (a : nat) : cst dict Z :=
  it ← item_at a;
  let refcount := i_refcount it in
  if refcount <? 0 then mret RC_ITEM_IS_CURRENTLY_BEING_DELETED
  else if 0 <? refcount then mret RC_ITEM_IS_REFERENCED
  else if i_being_created it then mret RC_ITEM_IS_CURRENTLY_BEING_CREATED
  else
    _ ← item_write a (with_refcount REFCOUNT_DELETED);
    mret RC_ITEM_OK.

Definition item_is_not_referenced_and_can_be_removed (a : nat) : cst dict bool :=
  rc ← item_is_not_referenced_and_can_be_removed_advanced a; mret (rc =? RC_ITEM_OK).

(** On an item the caller owns (already unlinked, or about to be freed). *)
Definition item_shared_release_and_check_if_it_can_be_freed (it : item) : bool * item :=
  let links := i32 (i_links it - 1) in
  if links =? 0 then (true, with_links REFCOUNT_DELETED it)
  else (false, with_links links it).

(** *** Callbacks *)

Definition execute_insert_callback (d : dict) (it : item) : item :=
  match d_hooks d with
  | Some h => match insert_callback h with
              | Some f => with_value (f (i_name it) (i_value it)) (i_value_len it) it
              | None => it
              end
  | None => it
  end.
Definition execute_conflict_callback (d : dict) (it : item) (new_value : option V)
  : bool * item :=
  match d_hooks d with
  | Some h => match conflict_callback h with
              | Some f => let '(b, v) := f (i_name it) (i_value it) new_value in
                          (b, with_value v (i_value_len it) it)
              | None => (false, it)
              end
  | None => (false, it)
  end.
Definition execute_react_callback (d : dict) (it : item) : item :=
  match d_hooks d with
  | Some h => match react_callback h with
              | Some f => with_value (f (i_name it) (i_value it)) (i_value_len it) it
              | None => it
              end
  | None => it
  end.
Definition execute_delete_callback (d : dict) (it : item) : item :=
  match d_hooks d with
  | Some h => match delete_callback h with
              | Some f => with_value (f (i_name it) (i_value it)) (i_value_len it) it
              | None => it
              end
  | None => it
  end.

(** *** Creating, resetting and freeing an item *)

Definition dict_item_value_create (value : option V) (value_len : Z) : option V :=
  if value_len =? 0 then None
  else match value with
       | Some v => Some (cv_copy v value_len)
       | None => Some (cv_zero value_len)
       end.

Definition dict_item_create : cst dict item := fun d =>
  Ok (Item (d_fresh d) "" 0 1 false true None 0 1 false, set_fresh (S (d_fresh d)) d).

Definition item_set_name (name : string) (it : item) : item :=
  Item (i_addr it) name (Z.of_nat (String.length name)) (i_refcount it) (i_deleted it)
       (i_being_created it) (i_value it) (i_value_len it) (i_links it)
       (i_shared_deleted it).

Definition stored_value (d : dict) (value : option V) (value_len : Z) : option V :=
  if opt_value_link (d_options d) then value else dict_item_value_create value value_len.

Definition dict_item_create_with_hooks (name : string) (value : option V) (value_len : Z)
  : cst dict item :=
  it ← dict_item_create;
  d ← cget;
  let it := item_set_name name it in
  let it := with_value (stored_value d value value_len) value_len it in
  let it := execute_insert_callback d it in
  _ ← ENTRIES_PLUS1;
  mret it.

Definition dict_item_reset_value_with_hooks (a : nat) (value : option V) (value_len : Z)
  : cst dict unit :=
  _ ← VALUE_RESETS_PLUS1;
  d ← cget;
  _ ← item_write a (execute_delete_callback d);
  _ ← item_write a (with_value (stored_value d value value_len) value_len);
  item_write a (execute_insert_callback d).

(** Takes the item by value: it is already out of the list (or the list is
    being torn down), and its memory is gone afterwards.  The size of what was
    freed is the result. *)
Definition SIZEOF_ITEM : Z := 40.
Definition SIZEOF_ITEM_SHARED : Z := 16.
Definition dict_item_free_with_hooks (it : item) : cst dict Z :=
  _ ← (if i_deleted it then mret tt else ENTRIES_MINUS1);
  d ← cget;
  let '(free_shared, it) := item_shared_release_and_check_if_it_can_be_freed it in
  let it := if free_shared then execute_delete_callback d it else it in
  let value_size := if free_shared then i_value_len it else 0 in
  let item_size := (if free_shared then SIZEOF_ITEM_SHARED else 0) + SIZEOF_ITEM in
  mret (item_size + (if opt_value_link (d_options d) then 0 else value_size)).

(** *** Garbage collection

    The loop caches [item->next] before it may free [item], and frees nothing
    else, so it walks the list as it was at entry. *)

Fixpoint gc_loop (todo : list nat) : cst dict unit :=
  match todo with
  | [] => mret tt
  | a :: next =>
      rc ← item_check_and_acquire_advanced a;
      if rc =? RC_ITEM_MARKED_FOR_DELETION then
        b ← item_is_not_referenced_and_can_be_removed a;
        if (b : bool) then
          it ← item_at a;
          _ ← cmodify (fun d => set_items (del_item a (d_items d)) d);
          _ ← dict_item_free_with_hooks it;
          pending ← PENDING_DELETES_MINUS1;
          if pending =? 0 then mret tt else gc_loop next
        else gc_loop next
      else if rc =? RC_ITEM_OK then
        _ ← item_release a; gc_loop next
      else gc_loop next
  end.

Definition garbage_collect_pending_deletes : cst dict unit :=
  d ← cget;
  if 0 <? d_pending d then gc_loop (i_addr <$> d_items d) else mret tt.

(** *** The linked list, with collection *)

Definition item_linked_list_add (it : item) : cst dict unit :=
  _ ← cmodify (fun d =>
        set_items (if opt_add_in_front (d_options d) then it :: d_items d
                   else d_items d ++ [it]) d);
  _ ← item_write (i_addr it) with_created;
  garbage_collect_pending_deletes.

Definition item_linked_list_remove (a : nat) : cst dict item :=
  it ← item_at a;
  _ ← cmodify (fun d => set_items (del_item a (d_items d)) d);
  _ ← garbage_collect_pending_deletes;
  mret it.

(** *** Deleting *)

Definition dict_item_shared_set_deleted (a : nat) : cst dict unit :=
  item_write a with_shared_deleted.

Definition dict_item_set_deleted (a : nat) : cst dict bool :=
  it ← item_at a;
  if i_deleted it then mret false
  else
    _ ← item_write a with_deleted;
    _ ← ENTRIES_MINUS1;
    mret true.

Definition dict_item_free_or_mark_deleted (a : nat) : cst dict unit :=
  rc ← item_is_not_referenced_and_can_be_removed_advanced a;
  if rc =? RC_ITEM_OK then
    _ ← dict_item_shared_set_deleted a;
    it ← item_linked_list_remove a;
    _ ← dict_item_free_with_hooks it;
    mret tt
  else if (rc =? RC_ITEM_IS_REFERENCED) || (rc =? RC_ITEM_IS_CURRENTLY_BEING_CREATED) then
    _ ← dict_item_shared_set_deleted a;
    _ ← dict_item_set_deleted a;
    mret tt
  else mret tt.

Definition dict_item_release_and_check (rw : lock_mode) (a : nat) : cst dict unit :=
  match rw with
  | LOCK_WRITE =>
      it ← item_at a;
      let should_be_deleted := i_deleted it in
      _ ← item_release a;
      if should_be_deleted then
        b ← item_is_not_referenced_and_can_be_removed a;
        if (b : bool) then
          _ ← PENDING_DELETES_MINUS1;
          it ← item_linked_list_remove a;
          _ ← dict_item_free_with_hooks it;
          mret tt
        else mret tt
      else mret tt
  | _ => item_release a
  end.

Definition dict_item_del (name : string) : cst dict bool :=
  d ← cget;
  match judy_get (d_index d) name with
  | None => mret false
  | Some a =>
      _ ← cmodify (set_index (judy_del (d_index d) name));
      _ ← dict_item_free_or_mark_deleted a;
      mret true
  end.

(** *** Adding, updating, finding *)

Definition api_is_name_good (name : option string) : option string :=
  match name with
  | None => None
  | Some s => if String.eqb s "" then None else Some s
  end.

(** The [continue] of the loop leaves it, since [item] is then not null: the
    item is returned without a reference. *)
Definition dict_item_add_or_reset_value_and_acquire
    (name : string) (value : option V) (value_len : Z) : cst dict (option nat) :=
  if String.eqb name "" then mret None
  else
    d ← cget;
    if d_destroyed d then mret None
    else
      x ← match judy_get (d_index d) name with
          | None =>
              it ← dict_item_create_with_hooks name value value_len;
              _ ← cmodify (fun d => set_index (judy_set (d_index d) name (i_addr it)) d);
              _ ← item_linked_list_add it;
              mret (i_addr it, true)
          | Some a =>
              rc ← item_check_and_acquire_advanced a;
              if negb (rc =? RC_ITEM_OK) then mret (a, false)
              else if negb (opt_dont_overwrite (d_options d)) then
                _ ← dict_item_reset_value_with_hooks a value value_len;
                mret (a, true)
              else
                it ← item_at a;
                let '(b, it') := execute_conflict_callback d it value in
                _ ← item_write a (fun _ => it');
                if b then _ ← dictionary_version_increment; mret (a, true)
                else mret (a, false)
          end;
      let '(a, added_or_updated) := x in
      _ ← (if (added_or_updated : bool) then
             d ← cget; item_write a (execute_react_callback d)
           else mret tt);
      mret (Some a).

Definition dict_item_find_and_acquire (name : string) : cst dict (option nat) :=
  if String.eqb name "" then mret None
  else
    d ← cget;
    if d_destroyed d then mret None
    else
      match judy_get (d_index d) name with
      | None => mret None
      | Some a =>
          b ← item_check_and_acquire a;
          mret (if (b : bool) then Some a else None)
      end.

(** *** The public API *)

Definition dictionary_set_and_acquire_item (name : option string) (value : option V)
    (value_len : Z) : cst dict (option nat) :=
  match api_is_name_good name with
  | None => mret None
  | Some s => dict_item_add_or_reset_value_and_acquire s value value_len
  end.

(** The pointer [dictionary_set()] returns is the address of the item's value:
    the result names the item, so that a caller can write through it. *)
Definition dictionary_set (name : option string) (value : option V) (value_len : Z)
  : cst dict (option nat * option V) :=
  r ← dictionary_set_and_acquire_item name value value_len;
  match r with
  | Some a =>
      it ← item_at a;
      _ ← item_release a;
      mret (Some a, i_value it)
  | None => mret (None, None)
  end.

(** The caller writes to the value it got from [dictionary_set()]. *)
Definition value_write (a : nat) (v : V) : cst dict unit :=
  it ← item_at a; item_write a (with_value (Some v) (i_value_len it)).

Definition dictionary_get_and_acquire_item (name : option string) : cst dict (option nat) :=
  match api_is_name_good name with
  | None => mret None
  | Some s => dict_item_find_and_acquire s
  end.

Definition dictionary_get (name : option string) : cst dict (option V) :=
  r ← dictionary_get_and_acquire_item name;
  match r with
  | Some a =>
      it ← item_at a;
      _ ← item_release a;
      mret (i_value it)
  | None => mret None
  end.

Definition dictionary_acquired_item_dup (item : option nat) : cst dict (option nat) :=
  match item with
  | Some a => _ ← item_acquire a; mret (Some a)
  | None => mret None
  end.

Definition dictionary_acquired_item_release (item : option nat) : cst dict unit :=
  match item with
  | Some a => item_release a
  | None => mret tt
  end.

Definition dictionary_acquired_item_value (item : option nat) : cst dict (option V) :=
  match item with
  | Some a => it ← item_at a; mret (i_value it)
  | None => mret None
  end.

Definition dictionary_acquired_item_references (item : option nat) : cst dict Z :=
  match item with
  | Some a => it ← item_at a; mret (i_refcount it)
  | None => mret 0
  end.

Definition dictionary_del (name : option string) : cst dict bool :=
  match api_is_name_good name with
  | None => mret false
  | Some s =>
      d ← cget;
      if d_destroyed d then mret false else dict_item_del s
  end.

Definition dictionary_version (d : dict) : Z := d_version d.
Definition dictionary_entries (d : dict) : Z := u64 (d_entries d).
Definition dictionary_referenced_items : cst dict Z := fun d =>
  if d_referenced d <? 0 then UB UB_fatal else Ok (d_referenced d, d).
Definition dictionary_garbage_collect : cst dict unit := garbage_collect_pending_deletes.

(** [dictionary_flush()] caches [item->next] and then deletes [item], which
    may run the collector: the cached item may be freed by then. *)
Fixpoint flush_loop (fuel : nat) (cur : option nat) : cst dict unit :=
  match cur with
  | None => mret tt
  | Some a =>
      match fuel with
      | O => fun _ => NoFuel
      | S fuel =>
          it ← item_at a;
          next ← item_next a;
          _ ← dict_item_del (i_name it);
          flush_loop fuel next
      end
  end.

Definition dictionary_flush : cst dict unit :=
  d ← cget;
  _ ← flush_loop (S (length (d_items d))) (i_addr <$> head (d_items d));
  dictionary_garbage_collect.

(** *** Callback registration *)

Definition no_hooks : hooks := Hooks None None None None.
Definition dictionary_hooks_allocate (d : dict) : hooks :=
  match d_hooks d with Some h => h | None => no_hooks end.
Definition dictionary_register_insert_callback f : cst dict unit := cmodify (fun d =>
  let h := dictionary_hooks_allocate d in
  set_hooks (Some (Hooks f (conflict_callback h) (react_callback h) (delete_callback h))) d).
Definition dictionary_register_conflict_callback f : cst dict unit := cmodify (fun d =>
  let o := d_options d in
  let d := set_options (DictOptions (opt_single_threaded o) (opt_value_link o)
             (opt_name_link o) true (opt_add_in_front o) (opt_fixed_size o)) d in
  let h := dictionary_hooks_allocate d in
  set_hooks (Some (Hooks (insert_callback h) f (react_callback h) (delete_callback h))) d).
Definition dictionary_register_react_callback f : cst dict unit := cmodify (fun d =>
  let h := dictionary_hooks_allocate d in
  set_hooks (Some (Hooks (insert_callback h) (conflict_callback h) f (delete_callback h))) d).
Definition dictionary_register_delete_callback f : cst dict unit := cmodify (fun d =>
  let h := dictionary_hooks_allocate d in
  set_hooks (Some (Hooks (insert_callback h) (conflict_callback h) (react_callback h) f)) d).

(** *** Traversal *)

Record DICTFE := Dictfe {
  dfe_dict : bool;              (** [dfe->dict] is not null *)
  dfe_item : option nat;
  dfe_name : option string;
  dfe_value : option V;
  dfe_counter : Z;
}.
Definition dfe_null : DICTFE := Dictfe false None None None 0.

(** [while(item && !item_check_and_acquire(dict, item)) item = item->next;] *)
Fixpoint skip_deleted (fuel : nat) (cur : option nat) : cst dict (option nat) :=
  match cur with
  | None => mret None
  | Some a =>
      match fuel with
      | O => fun _ => NoFuel
      | S fuel =>
          b ← item_check_and_acquire a;
          if (b : bool) then mret (Some a)
          else next ← item_next a; skip_deleted fuel next
      end
  end.

Definition dfe_at (r : option nat) (counter : Z) : cst dict DICTFE :=
  match r with
  | Some a => it ← item_at a;
              mret (Dictfe true (Some a) (Some (i_name it)) (i_value it) counter)
  | None => mret (Dictfe true None None None counter)
  end.

Definition dictionary_foreach_start_rw : cst dict DICTFE :=
  d ← cget;
  if d_destroyed d then mret dfe_null
  else
    r ← skip_deleted (S (length (d_items d))) (i_addr <$> head (d_items d));
    dfe_at r 0.

Definition dictionary_foreach_done (rw : lock_mode) (dfe : DICTFE) : cst dict DICTFE :=
  if negb (dfe_dict dfe) then mret dfe
  else
    _ ← match dfe_item dfe with
        | Some a => dict_item_release_and_check rw a
        | None => mret tt
        end;
    mret dfe_null.

Definition dictionary_foreach_next (rw : lock_mode) (dfe : DICTFE) : cst dict DICTFE :=
  if negb (dfe_dict dfe) then mret dfe
  else
    d ← cget;
    if d_destroyed d then dictionary_foreach_done rw dfe
    else
      next ← match dfe_item dfe with
             | Some a => item_next a
             | None => mret None
             end;
      r ← skip_deleted (S (length (d_items d))) next;
      _ ← match dfe_item dfe with
          | Some a => dict_item_release_and_check rw a
          | None => mret tt
          end;
      dfe_at r (match r with Some _ => dfe_counter dfe + 1 | None => dfe_counter dfe end).

(** An operation on a dictionary that is part of a larger state. *)
Definition run_in {P A : Type} (getd : P → option dict) (putd : dict → P → P)
    (m : cst dict A) : cst P A := fun p =>
  match getd p with
  | None => UB UB_oob
  | Some d => match m d with
              | Ok (a, d') => Ok (a, putd d' p)
              | UB k => UB k
              | NoFuel => NoFuel
              end
  end.

(** [dfe_start_rw(dict, value) { body } dfe_done(value)], inside a larger state
    that [run] reaches the dictionary through. *)
Section foreach.
Context {P : Type} (run : cst dict DICTFE → cst P DICTFE) (rw : lock_mode).
Context (body : option V → cst P unit).
Fixpoint dfe_loop (fuel : nat) (dfe : DICTFE) : cst P unit :=
  match dfe_item dfe, dfe_value dfe with
  | None, None => _ ← run (dictionary_foreach_done rw dfe); mret tt
  | _, _ =>
      match fuel with
      | O => fun _ => NoFuel
      | S fuel =>
          _ ← body (dfe_value dfe);
          dfe ← run (dictionary_foreach_next rw dfe);
          dfe_loop fuel dfe
      end
  end.
Definition dfe_foreach (fuel : nat) : cst P unit :=
  dfe ← run dictionary_foreach_start_rw; dfe_loop fuel dfe.
End foreach.

(** [dictionary_walkthrough_rw()]; the callback may change the dictionary. *)
Fixpoint walkthrough_loop (fuel : nat) (rw : lock_mode)
    (cb : nat → option V → cst dict Z) (cur : option nat) (ret : Z) : cst dict Z :=
  match cur with
  | None => mret ret
  | Some a =>
      match fuel with
      | O => fun _ => NoFuel
      | S fuel =>
          b ← item_check_and_acquire a;
          if negb b then next ← item_next a; walkthrough_loop fuel rw cb next ret
          else
            it ← item_at a;
            r ← cb a (i_value it);
            next ← item_next a;
            _ ← dict_item_release_and_check rw a;
            if r <? 0 then mret r
            else walkthrough_loop fuel rw cb next (i32 (ret + r))
      end
  end.

Definition dictionary_walkthrough_rw (fuel : nat) (rw : lock_mode)
    (cb : nat → option V → cst dict Z) : cst dict Z :=
  d ← cget;
  if d_destroyed d then mret 0
  else walkthrough_loop fuel rw cb (i_addr <$> head (d_items d)) 0.

(** *** Creation and destruction

    The allocated dictionaries, by address, and the global
    [dictionaries_waiting_to_be_destroyed] list.  A dictionary that is not in
    [s_dicts] is freed memory. *)
Record store := Store {
  s_dicts : gmap nat dict;
  s_waiting : list nat;
  s_fresh : nat;
}.

Definition store_empty : store := Store ∅ [] 0.

(** Run an operation on the dictionary at [h]. *)
Definition store_get (h : nat) (s : store) : option dict := s_dicts s !! h.
Definition store_put (h : nat) (d : dict) (s : store) : store :=
  Store (<[h := d]> (s_dicts s)) (s_waiting s) (s_fresh s).
Definition on_dict {A} (h : nat) (m : cst dict A) : cst store A :=
  run_in (store_get h) (store_put h) m.

(** The items are freed without being unlinked. *)
Fixpoint free_items_loop (l : list item) (item_size : Z) : cst dict Z :=
  match l with
  | [] => mret item_size
  | it :: next =>
      n ← dict_item_free_with_hooks it;
      free_items_loop next (item_size + n)
  end.

Definition dictionary_free_all_resources (h : nat) (force : bool) : cst store bool :=
  n ← (if force then mret 0 else on_dict h dictionary_referenced_items);
  if negb (n =? 0) then mret false
  else
    _ ← on_dict h (
      _ ← cmodify (set_index judy_empty);
      d ← cget;
      _ ← free_items_loop (d_items d) 0;
      cmodify (set_items []));
    _ ← cmodify (fun s => Store (delete h (s_dicts s)) (s_waiting s) (s_fresh s));
    mret true.

Definition dictionary_queue_for_destruction (h : nat) : cst store unit :=
  d ← on_dict h cget;
  if d_destroyed d then mret tt
  else
    _ ← on_dict h (cmodify set_destroyed);
    cmodify (fun s => Store (s_dicts s) (h :: s_waiting s) (s_fresh s)).

Definition dictionary_destroy_delayed_count (s : store) : Z :=
  Z.of_nat (length (s_waiting s)).

(** The queue is walked once; what can be freed leaves it. *)
Fixpoint cleanup_loop (l : list nat) : cst store (list nat) :=
  match l with
  | [] => mret []
  | h :: next =>
      b ← dictionary_free_all_resources h false;
      rest ← cleanup_loop next;
      mret (if (b : bool) then rest else h :: rest)
  end.

Definition cleanup_destroyed_dictionaries : cst store Z :=
  s ← cget;
  kept ← cleanup_loop (s_waiting s);
  _ ← cmodify (fun s => Store (s_dicts s) kept (s_fresh s));
  mret (Z.of_nat (length kept)).

Definition dictionary_create_advanced (options : dict_options) (fixed_size : Z)
  : cst store nat :=
  _ ← cleanup_destroyed_dictionaries;
  s ← cget;
  let h := s_fresh s in
  let options := DictOptions (opt_single_threaded options) (opt_value_link options)
                   (opt_name_link options) (opt_dont_overwrite options)
                   (opt_add_in_front options) (negb (fixed_size =? 0)) in
  _ ← cput (Store (<[h := Dict options false judy_empty [] 0 None 0 0 0 0]> (s_dicts s))
                  (s_waiting s) (S h));
  mret h.

Definition dictionary_destroy (dict : option nat) : cst store unit :=
  _ ← cleanup_destroyed_dictionaries;
  match dict with
  | None => mret tt
  | Some h =>
      referenced_items ← on_dict h dictionary_referenced_items;
      if negb (referenced_items =? 0) then
        _ ← on_dict h dictionary_flush;
        dictionary_queue_for_destruction h
      else
        _ ← dictionary_free_all_resources h true;
        mret tt
  end.

End dictionary.
Arguments store : clear implicits.
Arguments item : clear implicits.
Arguments dict : clear implicits.
Arguments DICTFE : clear implicits.
