(* ===== verification/DictionarySpec.v ===== *)
(** * Correctness of the dictionary

    The invariant [wf] ties the index, the linked list and the counters
    together.  Under it the dictionary refines an ordered association list
    ([live]): get, set and delete act on that list alone, whatever items are
    still waiting to be collected. *)

From S2P Require Import Prelude Dictionary.

(** ** Machine counters *)

Lemma i32_add x y : i32 (i32 x + y) = i32 (x + y).
Proof.
  unfold wrap_s. f_equal.
  replace ((x + 2 ^ (32 - 1)) mod 2 ^ 32 - 2 ^ (32 - 1) + y + 2 ^ (32 - 1))
    with ((x + 2 ^ (32 - 1)) mod 2 ^ 32 + y) by lia.
  rewrite Zplus_mod_idemp_l. f_equal. lia.
Qed.
Lemma i32_idem x : i32 (i32 x) = i32 x.
Proof. rewrite <- (Z.add_0_r (i32 x)) at 1. rewrite i32_add. f_equal. lia. Qed.
Lemma i32_small x : - 2 ^ 31 ≤ x < 2 ^ 31 → i32 x = x.
Proof. intros. apply wrap_s_id; lia. Qed.

(** ** Ordered association lists *)

Section alist.
Context {A : Type}.
Implicit Types l : list (string * A).

Definition al_get (k : string) l : option A :=
  snd <$> List.find (fun p => String.eqb (fst p) k) l.
Definition al_upd (k : string) (v : A) l : list (string * A) :=
  (fun p => if String.eqb (fst p) k then (fst p, v) else p) <$> l.
Definition al_del (k : string) l : list (string * A) :=
  List.filter (fun p => negb (String.eqb (fst p) k)) l.
Definition al_set (front : bool) (k : string) (v : A) l : list (string * A) :=
  match al_get k l with
  | Some _ => al_upd k v l
  | None => if front then (k, v) :: l else l ++ [(k, v)]
  end.

Lemma al_get_None k l : k ∉ l.*1 ↔ al_get k l = None.
Proof.
  unfold al_get. induction l as [|[k' v] l IH]; simpl.
  - split; [done|intros _; apply not_elem_of_nil].
  - rewrite not_elem_of_cons. destruct (String.eqb_spec k' k); simpl; naive_solver.
Qed.
Lemma al_get_mid k v l1 l2 : k ∉ l1.*1 → al_get k (l1 ++ (k, v) :: l2) = Some v.
Proof.
  unfold al_get. induction l1 as [|[k' v'] l1 IH]; simpl; intros Hk.
  - by rewrite String.eqb_refl.
  - apply not_elem_of_cons in Hk as [Hne Hk].
    destruct (String.eqb_spec k' k); [done|auto].
Qed.
Lemma al_upd_notin k v l : k ∉ l.*1 → al_upd k v l = l.
Proof.
  induction l as [|[k' v'] l IH]; simpl; intros Hk; [done|].
  apply not_elem_of_cons in Hk as [Hne Hk].
  destruct (String.eqb_spec k' k); [done|]. f_equal. by apply IH.
Qed.
Lemma al_del_notin k l : k ∉ l.*1 → al_del k l = l.
Proof.
  induction l as [|[k' v'] l IH]; simpl; intros Hk; [done|].
  apply not_elem_of_cons in Hk as [Hne Hk].
  destruct (String.eqb_spec k' k); [done|]. simpl. f_equal. by apply IH.
Qed.
Lemma al_mid k v w l1 l2 : k ∉ l1.*1 → k ∉ l2.*1 →
  al_upd k w (l1 ++ (k, v) :: l2) = l1 ++ (k, w) :: l2 ∧
  al_del k (l1 ++ (k, v) :: l2) = l1 ++ l2.
Proof.
  intros H1 H2.
  pose proof (al_upd_notin k w l1 H1). pose proof (al_upd_notin k w l2 H2).
  pose proof (al_del_notin k l1 H1). pose proof (al_del_notin k l2 H2).
  unfold al_upd, al_del in *. rewrite fmap_app, fmap_cons, List.filter_app. simpl.
  rewrite String.eqb_refl. simpl.
  split; [by do 2 f_equal|by f_equal].
Qed.
Lemma al_get_upd k k' v l :
  al_get k' (al_upd k v l) =
  if decide (k' = k) then (fun _ => v) <$> al_get k l else al_get k' l.
Proof.
  unfold al_get, al_upd. induction l as [|[a b] l IH]; simpl; [by case_decide|].
  destruct (String.eqb_spec a k); simpl; destruct (String.eqb_spec a k'); simpl;
    case_decide; subst; naive_solver.
Qed.
Lemma al_get_app k l1 l2 :
  al_get k (l1 ++ l2) = match al_get k l1 with Some v => Some v | None => al_get k l2 end.
Proof.
  unfold al_get. induction l1 as [|[a b] l IH]; simpl; [done|].
  by destruct (String.eqb_spec a k).
Qed.
(** The law of the abstract map: a lookup after an update. *)
Lemma al_get_set front k k' v l :
  al_get k' (al_set front k v l) = if decide (k' = k) then Some v else al_get k' l.
Proof.
  unfold al_set. destruct (al_get k l) eqn:E.
  - rewrite al_get_upd, E. by case_decide.
  - assert (H1 : ∀ l', al_get k' ((k, v) :: l') =
                       if decide (k' = k) then Some v else al_get k' l').
    { intros l'. unfold al_get; simpl.
      destruct (String.eqb_spec k k'); simpl; case_decide; naive_solver. }
    destruct front; [apply H1|rewrite al_get_app, H1].
    case_decide; subst; [by rewrite E|by destruct (al_get k' l)].
Qed.
Lemma al_get_del k k' l :
  al_get k' (al_del k l) = if decide (k' = k) then None else al_get k' l.
Proof.
  unfold al_get, al_del. induction l as [|[a b] l IH]; simpl; [by case_decide|].
  destruct (String.eqb_spec a k); simpl.
  - rewrite IH. destruct (String.eqb_spec a k'); case_decide; naive_solver.
  - destruct (String.eqb_spec a k'); simpl; case_decide; naive_solver.
Qed.
Lemma al_upd_set front k v w l : al_upd k w (al_set front k v l) = al_set front k w l.
Proof.
  unfold al_set. destruct (al_get k l) eqn:E.
  - unfold al_upd. rewrite <- list_fmap_compose. apply list_fmap_ext.
    intros i [x y] _. unfold compose. simpl.
    destruct (String.eqb_spec x k) as [->|Hne]; simpl; [by rewrite String.eqb_refl|].
    by destruct (String.eqb_spec x k).
  - apply al_get_None in E. destruct front.
    + change (al_upd k w ((k, v) :: l)) with (al_upd k w ([] ++ (k, v) :: l)).
      by apply (al_mid k v w []); [apply not_elem_of_nil|].
    + by apply (al_mid k v w l []); [|apply not_elem_of_nil].
Qed.
Lemma al_get_elem k v l : al_get k l = Some v → (k, v) ∈ l.
Proof.
  unfold al_get. induction l as [|[a b] l IH]; simpl; [done|].
  destruct (String.eqb_spec a k) as [->|]; simpl; [intros [= ->]; by left|]. right; auto.
Qed.
Lemma al_split k v l : al_get k l = Some v → NoDup l.*1 →
  ∃ l1 l2, l = l1 ++ (k, v) :: l2 ∧ (k ∉ l1.*1) ∧ (k ∉ l2.*1).
Proof.
  intros Hg Hnd. apply al_get_elem in Hg as (l1 & l2 & ->)%list_elem_of_split.
  exists l1, l2. split; [done|]. rewrite fmap_app, fmap_cons in Hnd.
  apply NoDup_app in Hnd as (_ & Hx & [Hy _]%NoDup_cons). split; [|done].
  intros H1. apply (Hx _ H1), elem_of_cons. by left.
Qed.
(** An update puts one pair, in the place of the old one or at the end. *)
Lemma al_set_shape k v l : NoDup l.*1 → ∃ l1 l2,
  al_set false k v l = l1 ++ (k, v) :: l2 ∧ (k ∉ l1.*1) ∧ (k ∉ l2.*1) ∧
  (l = l1 ++ l2 ∨ ∃ w, l = l1 ++ (k, w) :: l2).
Proof.
  intros Hnd. unfold al_set. destruct (al_get k l) as [w|] eqn:E.
  - destruct (al_split k w l E Hnd) as (l1 & l2 & -> & H1 & H2). exists l1, l2.
    destruct (al_mid k w v l1 l2 H1 H2) as [-> _].
    repeat (split; [done|]). right. by exists w.
  - apply al_get_None in E. exists l, []. rewrite app_nil_r.
    repeat split; [done|apply not_elem_of_nil|by left].
Qed.
Lemma al_set_keys_nodup k v l : NoDup l.*1 → NoDup (al_set false k v l).*1.
Proof.
  intros Hnd. destruct (al_set_shape k v l Hnd) as (l1 & l2 & -> & H1 & H2 & Hl).
  rewrite fmap_app, fmap_cons. destruct Hl as [->|[w ->]].
  - rewrite fmap_app in Hnd. apply NoDup_app in Hnd as (G1 & G2 & G3).
    apply NoDup_app. split; [done|]. split; [|by apply NoDup_cons].
    intros x Hx [->|Hin]%elem_of_cons; [done|by eapply G2].
  - by rewrite fmap_app, fmap_cons in Hnd.
Qed.
End alist.

(** Mapping the values of an association list. *)
Section alist_map.
Context {A B : Type} (g : string → A → B).
Definition al_map (l : list (string * A)) : list (string * B) :=
  (fun p => (fst p, g (fst p) (snd p))) <$> l.
Lemma al_map_keys l : (al_map l).*1 = l.*1.
Proof. unfold al_map. rewrite <- list_fmap_compose. by apply list_fmap_ext. Qed.
Lemma al_get_map k l : al_get k (al_map l) = g k <$> al_get k l.
Proof.
  unfold al_get, al_map. induction l as [|[a b] l IH]; simpl; [done|].
  destruct (String.eqb_spec a k) as [->|]; [done|exact IH].
Qed.
Lemma al_set_map front k v l : al_set front k (g k v) (al_map l) = al_map (al_set front k v l).
Proof.
  unfold al_set. rewrite al_get_map. destruct (al_get k l) eqn:E; simpl.
  - unfold al_upd, al_map. rewrite <- !list_fmap_compose. apply list_fmap_ext.
    intros i [x y] _. unfold compose. simpl. destruct (String.eqb_spec x k) as [->|]; done.
  - destruct front; [done|]. unfold al_map. by rewrite fmap_app.
Qed.
Lemma al_del_map k l : al_del k (al_map l) = al_map (al_del k l).
Proof.
  unfold al_del, al_map. induction l as [|[a b] l IH]; simpl; [done|].
  destruct (String.eqb_spec a k); simpl; [exact IH|]. f_equal. exact IH.
Qed.
End alist_map.

(** ** The invariant *)

Section spec.
Context {V : Type} `{!CVal V} {J : Type} `{!JudyHS J}.
Abbreviation item := (item V).
Abbreviation dict := (dict V J).
Implicit Types (d : dict) (it : item) (l : list item).

Definition countb (p : item → bool) l : Z := Z.of_nat (length (List.filter p l)).

Definition is_live it : bool := negb (i_deleted it).
Definition is_referenced it : bool := 0 <? i_refcount it.
Definition is_pending it : bool := i_deleted it && (i_refcount it =? 0).

(** What holds of every linked item between two operations. *)
Record item_ok it : Prop := {
  ok_refcount : 0 ≤ i_refcount it < 2 ^ 31 - 1;
  ok_created : i_being_created it = false;
  ok_links : i_links it = 1;
  ok_deleted : i_shared_deleted it = i_deleted it;
}.

Record wf d : Prop := {
  wf_nodup : NoDup (i_addr <$> d_items d);
  wf_fresh : Forall (fun it => (i_addr it < d_fresh d)%nat) (d_items d);
  wf_items : Forall item_ok (d_items d);
  wf_index : ∀ k a, judy_get (d_index d) k = Some a ↔
    ∃ it, it ∈ d_items d ∧ i_addr it = a ∧ i_name it = k ∧ i_deleted it = false;
  wf_version : 0 ≤ d_version d < 2 ^ 32;
  wf_entries : d_entries d = i32 (countb is_live (d_items d));
  wf_referenced : d_referenced d = i32 (countb is_referenced (d_items d));
  wf_pending : d_pending d = i32 (countb is_pending (d_items d));
}.

(** The abstraction: names and values of the items that are not deleted, in
    the order of the linked list. *)
Definition live d : list (string * option V) :=
  (fun it => (i_name it, i_value it)) <$> List.filter is_live (d_items d).

(** Nobody holds a reference. *)
Definition unreferenced d : Prop := Forall (fun it => i_refcount it = 0) (d_items d).

(** *** Lists of items *)

Lemma countb_app p l1 l2 : countb p (l1 ++ l2) = countb p l1 + countb p l2.
Proof. unfold countb. rewrite List.filter_app, length_app. lia. Qed.
Lemma countb_cons p it l : countb p (it :: l) = (if p it then 1 else 0) + countb p l.
Proof. unfold countb. simpl. destruct (p it); simpl; lia. Qed.
Lemma countb_nonneg p l : 0 ≤ countb p l.
Proof. unfold countb. lia. Qed.
Lemma countb_le p l : countb p l ≤ Z.of_nat (length l).
Proof.
  induction l as [|it l IH]; [done|]. rewrite countb_cons. simpl. destruct (p it); lia.
Qed.

Lemma find_item_mid l1 it l2 :
  i_addr it ∉ (i_addr <$> l1) → find_item (l1 ++ it :: l2) (i_addr it) = Some it.
Proof.
  unfold find_item. induction l1 as [|x l1 IH]; simpl; intros Hn.
  - by rewrite Nat.eqb_refl.
  - apply not_elem_of_cons in Hn as [Hne Hn].
    destruct (Nat.eqb_spec (i_addr x) (i_addr it)); [congruence|auto].
Qed.
Lemma upd_item_notin a f l : a ∉ (i_addr <$> l) → upd_item a f l = l.
Proof.
  unfold upd_item. induction l as [|x l IH]; simpl; intros Hn; [done|].
  apply not_elem_of_cons in Hn as [Hne Hn].
  destruct (Nat.eqb_spec (i_addr x) a); [congruence|]. f_equal. by apply IH.
Qed.
Lemma del_item_notin a l : a ∉ (i_addr <$> l) → del_item a l = l.
Proof.
  unfold del_item. induction l as [|x l IH]; simpl; intros Hn; [done|].
  apply not_elem_of_cons in Hn as [Hne Hn].
  destruct (Nat.eqb_spec (i_addr x) a); [congruence|]. simpl. f_equal. by apply IH.
Qed.
Lemma nodup_mid_notin l1 it l2 : NoDup (i_addr <$> (l1 ++ it :: l2)) →
  (i_addr it ∉ (i_addr <$> l1)) ∧ (i_addr it ∉ (i_addr <$> l2)).
Proof.
  rewrite fmap_app, fmap_cons. intros (_ & H1 & H2)%NoDup_app.
  apply NoDup_cons in H2 as [H2 _]. split; [|done].
  intros Hin. apply (H1 _ Hin). apply elem_of_cons. by left.
Qed.
Lemma upd_item_mid f l1 it l2 : NoDup (i_addr <$> (l1 ++ it :: l2)) →
  upd_item (i_addr it) f (l1 ++ it :: l2) = l1 ++ f it :: l2.
Proof.
  intros [H1 H2]%nodup_mid_notin. unfold upd_item. rewrite fmap_app, fmap_cons.
  fold (upd_item (i_addr it) f l1) (upd_item (i_addr it) f l2).
  by rewrite !upd_item_notin, Nat.eqb_refl.
Qed.
Lemma del_item_mid l1 it l2 : NoDup (i_addr <$> (l1 ++ it :: l2)) →
  del_item (i_addr it) (l1 ++ it :: l2) = l1 ++ l2.
Proof.
  intros [H1 H2]%nodup_mid_notin. unfold del_item. rewrite List.filter_app. simpl.
  rewrite Nat.eqb_refl. simpl.
  fold (del_item (i_addr it) l1) (del_item (i_addr it) l2).
  by rewrite !del_item_notin.
Qed.
Lemma next_addr_mid l1 it l2 : NoDup (i_addr <$> (l1 ++ it :: l2)) →
  next_addr (l1 ++ it :: l2) (i_addr it) = i_addr <$> head l2.
Proof.
  intros [H1 _]%nodup_mid_notin. induction l1 as [|x l1 IH]; simpl.
  - by rewrite Nat.eqb_refl.
  - apply not_elem_of_cons in H1 as [Hne H1].
    destruct (Nat.eqb_spec (i_addr x) (i_addr it)); [congruence|auto].
Qed.
Lemma nodup_mid_swap l1 it it' l2 : i_addr it' = i_addr it →
  NoDup (i_addr <$> (l1 ++ it :: l2)) → NoDup (i_addr <$> (l1 ++ it' :: l2)).
Proof. rewrite !fmap_app, !fmap_cons. by intros ->. Qed.
Lemma nodup_mid_del l1 it l2 :
  NoDup (i_addr <$> (l1 ++ it :: l2)) → NoDup (i_addr <$> (l1 ++ l2)).
Proof.
  intros Hnd. eapply sublist_NoDup; [exact Hnd|]. rewrite !fmap_app, fmap_cons.
  apply sublist_app; [done|]. by apply sublist_cons.
Qed.
Lemma nodup_addr_inj l x y : NoDup (i_addr <$> l) → x ∈ l → y ∈ l →
  i_addr x = i_addr y → x = y.
Proof.
  intros Hnd (l1 & l2 & ->)%list_elem_of_split Hy Heq.
  apply nodup_mid_notin in Hnd as [H1 H2].
  apply elem_of_app in Hy as [Hy|[->|Hy]%elem_of_cons]; [|done|].
  - destruct H1. rewrite Heq. by apply list_elem_of_fmap_2.
  - destruct H2. rewrite Heq. by apply list_elem_of_fmap_2.
Qed.

(** *** States *)

Lemma with_refcount_id it : with_refcount (i_refcount it) it = it.
Proof. by destruct it. Qed.
Lemma with_refcount_twice r r' it :
  with_refcount r (with_refcount r' it) = with_refcount r it.
Proof. done. Qed.
Lemma set_items_id d : set_items (d_items d) d = d.
Proof. by destruct d. Qed.
Lemma bump_bump v e r p v' e' r' p' d :
  bump v e r p (bump v' e' r' p' d) = bump (v' + v) (e' + e) (r' + r) (p' + p) d.
Proof.
  unfold bump. simpl. rewrite !i32_add, wrap_u_eqm. by rewrite !Z.add_assoc.
Qed.

Record in_range d : Prop := {
  range_version : 0 ≤ d_version d < 2 ^ 32;
  range_entries : i32 (d_entries d) = d_entries d;
  range_referenced : i32 (d_referenced d) = d_referenced d;
  range_pending : i32 (d_pending d) = d_pending d;
}.
Lemma wf_in_range d : wf d → in_range d.
Proof.
  intros [? ? ? ? ? He Hr Hp]. split; [done|..]; rewrite ?He, ?Hr, ?Hp; apply i32_idem.
Qed.
Lemma bump_in_range v e r p d : in_range (bump v e r p d).
Proof. split; simpl; [by apply wrap_u_range|apply i32_idem..]. Qed.
Lemma bump_0 d : in_range d → bump 0 0 0 0 d = d.
Proof.
  intros [Hv He Hr Hp]. unfold bump. rewrite !Z.add_0_r, He, Hr, Hp.
  rewrite wrap_u_id by done. by destruct d.
Qed.

Section at_item.
Context (d : dict) (l1 l2 : list item) (it : item).
Hypothesis Hitems : d_items d = l1 ++ it :: l2.
Hypothesis Hnd : NoDup (i_addr <$> d_items d).

Lemma item_at_mid : item_at (i_addr it) d = Ok (it, d).
Proof using Hitems Hnd.
  unfold item_at. rewrite Hitems in *.
  rewrite find_item_mid; [done|]. by apply nodup_mid_notin in Hnd as [? _].
Qed.
Lemma item_write_mid f :
  item_write (i_addr it) f d = Ok (tt, set_items (l1 ++ f it :: l2) d).
Proof using Hitems Hnd.
  unfold item_write, cmodify. rewrite Hitems in *. by rewrite upd_item_mid.
Qed.
Lemma item_next_mid : item_next (i_addr it) d = Ok (i_addr <$> head l2, d).
Proof using Hitems Hnd.
  unfold item_next. rewrite bind_run, item_at_mid. unfold mbind, cst_bind, cget, mret, cst_ret.
  rewrite Hitems in *. by rewrite next_addr_mid.
Qed.

(** Acquire and release: the effect on the item and on the counters. *)

Lemma check_and_acquire_live :
  0 ≤ i_refcount it < 2 ^ 31 - 1 → i_deleted it = false →
  item_check_and_acquire_advanced (i_addr it) d =
  let d' := set_items (l1 ++ with_refcount (i_refcount it + 1) it :: l2) d in
  Ok (RC_ITEM_OK, if i_refcount it =? 0 then bump 0 0 1 0 d' else d').
Proof using Hitems Hnd.
  intros Hr Hd. unfold item_check_and_acquire_advanced.
  rewrite bind_run, item_at_mid. cbv zeta.
  rewrite (proj2 (Z.ltb_ge _ _)) by lia. rewrite Hd, i32_small by lia.
  rewrite bind_run, item_write_mid.
  destruct (Z.eqb_spec (i_refcount it) 0) as [->|Hne]; [done|].
  by rewrite (proj2 (Z.eqb_neq (i_refcount it + 1) 1)) by lia.
Qed.
Lemma check_and_acquire_deleted :
  0 ≤ i_refcount it → i_deleted it = true →
  item_check_and_acquire_advanced (i_addr it) d = Ok (RC_ITEM_MARKED_FOR_DELETION, d).
Proof using Hitems Hnd.
  intros Hr Hd. unfold item_check_and_acquire_advanced.
  rewrite bind_run, item_at_mid. cbv zeta.
  by rewrite (proj2 (Z.ltb_ge _ _)), Hd by lia.
Qed.
Lemma item_release_mid :
  0 < i_refcount it < 2 ^ 31 →
  item_release (i_addr it) d =
  let d' := set_items (l1 ++ with_refcount (i_refcount it - 1) it :: l2) d in
  Ok (tt, if i_refcount it =? 1
          then bump 0 0 (-1) 0 (if i_deleted it then bump 0 0 0 1 d' else d') else d').
Proof using Hitems Hnd.
  intros Hr. unfold item_release. rewrite bind_run, item_at_mid. cbv zeta.
  rewrite bind_run, item_write_mid, i32_small by lia.
  rewrite (proj2 (Z.ltb_ge _ _)) by lia.
  destruct (Z.eqb_spec (i_refcount it) 1) as [->|Hne].
  - by destruct (i_deleted it).
  - by rewrite (proj2 (Z.eqb_neq (i_refcount it - 1) 0)) by lia.
Qed.
Lemma can_be_removed_unreferenced :
  i_refcount it = 0 → i_being_created it = false →
  item_is_not_referenced_and_can_be_removed_advanced (i_addr it) d =
  Ok (RC_ITEM_OK, set_items (l1 ++ with_refcount REFCOUNT_DELETED it :: l2) d).
Proof using Hitems Hnd.
  intros Hr Hc. unfold item_is_not_referenced_and_can_be_removed_advanced.
  rewrite bind_run, item_at_mid. cbv zeta. rewrite Hr, Hc. simpl.
  by rewrite bind_run, item_write_mid.
Qed.
Lemma can_be_removed_referenced :
  0 < i_refcount it →
  item_is_not_referenced_and_can_be_removed_advanced (i_addr it) d =
  Ok (RC_ITEM_IS_REFERENCED, d).
Proof using Hitems Hnd.
  intros Hr. unfold item_is_not_referenced_and_can_be_removed_advanced.
  rewrite bind_run, item_at_mid. cbv zeta.
  rewrite (proj2 (Z.ltb_ge _ _)) by lia. by rewrite (proj2 (Z.ltb_lt _ _)) by lia.
Qed.
Lemma unlink_mid :
  cmodify (fun d => set_items (del_item (i_addr it) (d_items d)) d) d =
  Ok (tt, set_items (l1 ++ l2) d).
Proof using Hitems Hnd. unfold cmodify. rewrite Hitems in *. by rewrite del_item_mid. Qed.
End at_item.

(** Acquiring and releasing again leaves no trace. *)
Lemma acquire_release_id d l1 it l2 :
  d_items d = l1 ++ it :: l2 → NoDup (i_addr <$> d_items d) → in_range d →
  0 ≤ i_refcount it < 2 ^ 31 - 1 → i_deleted it = false →
  ∃ d', item_check_and_acquire_advanced (i_addr it) d = Ok (RC_ITEM_OK, d') ∧
        item_at (i_addr it) d' = Ok (with_refcount (i_refcount it + 1) it, d') ∧
        item_release (i_addr it) d' = Ok (tt, d).
Proof.
  intros Hitems Hnd Hrng Hr Hdel. eexists. split.
  { by apply check_and_acquire_live. }
  set (it' := with_refcount (i_refcount it + 1) it).
  assert (Hnd' : NoDup (i_addr <$> (l1 ++ it' :: l2))).
  { eapply nodup_mid_swap; [|rewrite <- Hitems; exact Hnd]. done. }
  cbv zeta. set (d' := if _ =? 0 then _ else _).
  assert (Hi : d_items d' = l1 ++ it' :: l2)
    by (unfold d'; by destruct (i_refcount it =? 0)).
  split.
  { apply (item_at_mid d' l1 l2 it'); [done|by rewrite Hi]. }
  change (i_addr it) with (i_addr it').
  rewrite (item_release_mid d' l1 l2 it'); [|done|by rewrite Hi|simpl; lia].
  cbv zeta. simpl. replace (i_refcount it + 1 - 1) with (i_refcount it) by lia.
  unfold it'. rewrite with_refcount_twice, with_refcount_id, Hdel, <- Hitems.
  unfold d'. destruct (Z.eqb_spec (i_refcount it) 0) as [E|E].
  - rewrite E. simpl. f_equal. f_equal.
    change (set_items (d_items d) _) with (bump 0 0 1 0 (set_items (d_items d) d)).
    rewrite bump_bump, set_items_id. by apply bump_0.
  - rewrite (proj2 (Z.eqb_neq (i_refcount it + 1) 1)) by lia.
    f_equal. f_equal. change (set_items (d_items d) _) with (set_items (d_items d) d).
    apply set_items_id.
Qed.

(** *** Garbage collection *)

Definition set_pending (p : Z) d : dict :=
  Dict (d_options d) (d_destroyed d) (d_index d) (d_items d) (d_fresh d) (d_hooks d)
       (d_version d) (d_entries d) (d_referenced d) p.

(** What the collector keeps of a list, and the counter it ends with. *)
Fixpoint gc_keep (p : Z) l : list item * Z :=
  match l with
  | [] => ([], p)
  | it :: t =>
      if is_pending it then
        if i32 (p - 1) =? 0 then (t, 0) else gc_keep (i32 (p - 1)) t
      else (it :: (gc_keep p t).1, (gc_keep p t).2)
  end.

Lemma bump_pending_dec d : in_range d →
  bump 0 0 0 (-1) d = set_pending (i32 (d_pending d - 1)) d.
Proof.
  intros [Hv He Hr Hp]. unfold bump, set_pending. rewrite !Z.add_0_r, He, Hr.
  by rewrite wrap_u_id.
Qed.
Lemma in_range_set_items l d : in_range d → in_range (set_items l d).
Proof. intros []. by split. Qed.
Lemma in_range_set_pending p d : in_range d → in_range (set_pending (i32 p) d).
Proof. intros []. split; try done. apply i32_idem. Qed.

(** One dead item is collected. *)
Lemma gc_step d done it todo :
  d_items d = done ++ it :: todo → NoDup (i_addr <$> d_items d) → in_range d →
  i_being_created it = false → i_refcount it = 0 → i_deleted it = true →
  gc_loop (i_addr <$> (it :: todo)) d =
  let d' := set_pending (i32 (d_pending d - 1)) (set_items (done ++ todo) d) in
  if i32 (d_pending d - 1) =? 0 then Ok (tt, d') else gc_loop (i_addr <$> todo) d'.
Proof.
  intros Hi Hnd Hrng Hc Hr Hd. rewrite fmap_cons. cbn [gc_loop].
  rewrite bind_run, (check_and_acquire_deleted d done todo it) by (done || lia).
  cbn -[item_is_not_referenced_and_can_be_removed_advanced].
  unfold item_is_not_referenced_and_can_be_removed.
  rewrite !bind_run, (can_be_removed_unreferenced d done todo it) by done.
  cbn -[item_at]. set (it' := with_refcount REFCOUNT_DELETED it).
  set (d1 := set_items (done ++ it' :: todo) d).
  assert (Hnd1 : NoDup (i_addr <$> d_items d1)).
  { eapply nodup_mid_swap; [|rewrite <- Hi; exact Hnd]. done. }
  change (i_addr it) with (i_addr it').
  rewrite bind_run, (item_at_mid d1 done todo it') by done.
  rewrite bind_run, (unlink_mid d1 done todo it') by done.
  unfold dict_item_free_with_hooks. simpl (i_deleted it'). rewrite Hd.
  set (d2 := set_items (done ++ todo) d1).
  unfold mbind, cst_bind. cbn -[PENDING_DELETES_MINUS1 item_shared_release_and_check_if_it_can_be_freed d2].
  destruct (item_shared_release_and_check_if_it_can_be_freed it').
  cbn -[bump d2]. unfold PENDING_DELETES_MINUS1. cbv zeta.
  rewrite bump_pending_dec by (repeat apply in_range_set_items; done).
  cbn. by case_match.
Qed.

Lemma gc_loop_eq todo : ∀ done d,
  d_items d = done ++ todo → NoDup (i_addr <$> d_items d) → in_range d →
  Forall item_ok todo →
  gc_loop (i_addr <$> todo) d =
  Ok (tt, set_pending (gc_keep (d_pending d) todo).2
            (set_items (done ++ (gc_keep (d_pending d) todo).1) d)).
Proof.
  induction todo as [|it todo IH]; intros done d Hi Hnd Hrng Hok.
  { simpl. rewrite app_nil_r in *. rewrite <- Hi, set_items_id. by destruct d. }
  apply Forall_cons in Hok as [[Hr Hc Hl Hs] Hok].
  destruct (is_pending it) eqn:Hp.
  - apply andb_prop in Hp as Hp'. destruct Hp' as [Hd Hz]. apply Z.eqb_eq in Hz.
    rewrite (gc_step d done it todo) by done. cbv zeta. cbn [gc_keep]. rewrite Hp.
    destruct (i32 (d_pending d - 1) =? 0) eqn:Hz'.
    { apply Z.eqb_eq in Hz'. by rewrite Hz'. }
    erewrite (IH done); [done|done| |by apply in_range_set_pending, in_range_set_items|done].
    cbn. apply (nodup_mid_del done it todo). by rewrite <- Hi.
  - rewrite fmap_cons. cbn [gc_loop gc_keep]. rewrite Hp, bind_run.
    assert (Hgo : gc_loop (i_addr <$> todo) d =
      Ok (tt, set_pending (gc_keep (d_pending d) todo).2
        (set_items (done ++ it :: (gc_keep (d_pending d) todo).1) d))).
    { specialize (IH (done ++ [it]) d). rewrite <- !app_assoc in IH. by apply IH. }
    destruct (i_deleted it) eqn:Hd.
    + rewrite (check_and_acquire_deleted d done todo it) by (done || lia).
      assert (Hpos : 0 < i_refcount it).
      { unfold is_pending in Hp. rewrite Hd in Hp. apply Z.eqb_neq in Hp. lia. }
      cbn -[item_is_not_referenced_and_can_be_removed gc_loop].
      unfold item_is_not_referenced_and_can_be_removed.
      by rewrite !bind_run, (can_be_removed_referenced d done todo it).
    + destruct (acquire_release_id d done it todo) as (d' & -> & _ & Hrel); [done..|].
      cbn -[gc_loop item_release]. by rewrite bind_run, Hrel.
Qed.

Lemma gc_eq d : wf d →
  garbage_collect_pending_deletes d =
  if 0 <? d_pending d then
    Ok (tt, set_pending (gc_keep (d_pending d) (d_items d)).2
              (set_items (gc_keep (d_pending d) (d_items d)).1 d))
  else Ok (tt, d).
Proof.
  intros Hwf. unfold garbage_collect_pending_deletes, mbind, cst_bind, cget.
  destruct (0 <? d_pending d); [|done].
  by apply (gc_loop_eq (d_items d) []); [| apply Hwf | apply wf_in_range | apply Hwf].
Qed.

(** The collector removes only items that are deleted and unreferenced. *)
Lemma gc_keep_sublist p l : (gc_keep p l).1 `sublist_of` l.
Proof.
  revert p. induction l as [|it l IH]; intros p; simpl; [done|].
  destruct (is_pending it); [|by apply sublist_skip].
  case_match; simpl; [by apply sublist_cons|]. apply sublist_cons, IH.
Qed.
Lemma gc_keep_filter q p l : (∀ it, is_pending it = true → q it = false) →
  List.filter q (gc_keep p l).1 = List.filter q l.
Proof.
  intros Hq. revert p. induction l as [|it l IH]; intros p; simpl; [done|].
  destruct (is_pending it) eqn:Hp.
  - rewrite (Hq it Hp). case_match; simpl; [done|apply IH].
  - simpl. by rewrite IH.
Qed.
Lemma gc_keep_pending n p l : p = i32 (n + countb is_pending l) →
  (gc_keep p l).2 = i32 (n + countb is_pending (gc_keep p l).1).
Proof.
  revert n p. induction l as [|it l IH]; intros n p Hp; simpl; [done|].
  rewrite countb_cons in Hp. destruct (is_pending it) eqn:E.
  - assert (Hp' : i32 (p - 1) = i32 (n + countb is_pending l)).
    { rewrite Hp. replace (_ - 1) with (i32 (n + (1 + countb is_pending l)) + -1) by lia.
      rewrite i32_add. f_equal. lia. }
    destruct (i32 (p - 1) =? 0) eqn:Hz; simpl; [|by apply IH].
    apply Z.eqb_eq in Hz. congruence.
  - simpl. rewrite countb_cons, E. simpl. apply IH. by rewrite Hp.
Qed.
Lemma pending_not_live it : is_pending it = true → is_live it = false.
Proof. unfold is_pending, is_live. by intros [-> _]%andb_prop. Qed.
Lemma pending_not_referenced it : is_pending it = true → is_referenced it = false.
Proof.
  unfold is_pending, is_referenced. intros [_ H%Z.eqb_eq]%andb_prop.
  apply Z.ltb_ge. lia.
Qed.
Lemma gc_keep_elem p l it : is_pending it = false → it ∈ l → it ∈ (gc_keep p l).1.
Proof.
  intros Hp. revert p. induction l as [|x l IH]; intros p Hin; [done|]. simpl.
  apply elem_of_cons in Hin as [<-|Hin].
  - rewrite Hp. simpl. apply elem_of_cons. by left.
  - destruct (is_pending x); [case_match; simpl; auto|].
    simpl. apply elem_of_cons. right. auto.
Qed.

Lemma sublist_forall (P : item → Prop) l l' :
  l' `sublist_of` l → Forall P l → Forall P l'.
Proof. induction 1; intros HF; inv HF; auto. Qed.
Lemma sublist_map {B} (f : item → B) l l' :
  l' `sublist_of` l → (f <$> l') `sublist_of` (f <$> l).
Proof. induction 1; simpl; by constructor. Qed.
Lemma elem_of_filterb (p : item → bool) l it :
  it ∈ List.filter p l ↔ it ∈ l ∧ p it = true.
Proof. rewrite !list_elem_of_In. apply List.filter_In. Qed.

(** The index speaks about live items only. *)
Lemma index_live j l l' :
  List.filter is_live l' = List.filter is_live l →
  (∀ k a, judy_get j k = Some a ↔
    ∃ it, it ∈ l ∧ i_addr it = a ∧ i_name it = k ∧ i_deleted it = false) →
  (∀ k a, judy_get j k = Some a ↔
    ∃ it, it ∈ l' ∧ i_addr it = a ∧ i_name it = k ∧ i_deleted it = false).
Proof.
  intros Hf Hj k a. rewrite Hj.
  assert (Hiff : ∀ it, (it ∈ l ∧ i_deleted it = false) ↔ (it ∈ l' ∧ i_deleted it = false)).
  { intros it. assert (E : i_deleted it = false ↔ is_live it = true)
      by (unfold is_live; by destruct (i_deleted it)).
    rewrite E, <- !elem_of_filterb. by rewrite Hf. }
  split; intros (it & H1 & H2 & H3 & H4); exists it; split; try done; by apply Hiff.
Qed.

(** Two states of one dictionary that differ in counters, dead items and
    reference counts only. *)
Record same_config d d' : Prop := {
  same_options : d_options d' = d_options d;
  same_destroyed : d_destroyed d' = d_destroyed d;
  same_hooks : d_hooks d' = d_hooks d;
}.
#[global] Instance same_config_refl : Reflexive same_config.
Proof. by split. Qed.
#[global] Instance same_config_trans : Transitive same_config.
Proof. intros ??? [] []. split; by etrans. Qed.

Lemma gc_wf d : wf d → ∃ d',
  garbage_collect_pending_deletes d = Ok (tt, d') ∧ wf d' ∧ same_config d d' ∧
  d_fresh d' = d_fresh d ∧ d_index d' = d_index d ∧ d_version d' = d_version d ∧
  List.filter is_live (d_items d') = List.filter is_live (d_items d) ∧
  d_items d' `sublist_of` d_items d ∧
  (∀ it, it ∈ d_items d → is_pending it = false → it ∈ d_items d').
Proof.
  intros Hwf. rewrite (gc_eq d Hwf). destruct (0 <? d_pending d) eqn:Hz.
  2: { exists d. repeat split; (done || apply Hwf || by intros). }
  eexists. split; [done|]. destruct Hwf as [Hnd Hfr Hok Hix Hv He Hr Hp].
  pose proof (gc_keep_sublist (d_pending d) (d_items d)) as Hsub.
  assert (Hl := gc_keep_filter is_live (d_pending d) (d_items d) pending_not_live).
  split; [split; cbn|].
  - eapply sublist_NoDup; [exact Hnd|]. by apply sublist_map.
  - eapply sublist_forall; eauto.
  - eapply sublist_forall; eauto.
  - eapply index_live; eauto.
  - done.
  - unfold countb in *. by rewrite Hl.
  - unfold countb in *. by rewrite gc_keep_filter by apply pending_not_referenced.
  - apply (gc_keep_pending 0). by rewrite Hp.
  - cbn. repeat split; [done..|]. intros it Hin Hpe. by apply gc_keep_elem.
Qed.

(** A collection that had something to do leaves nothing behind. *)
Lemma gc_keep_all p l : 0 < p < 2 ^ 31 → p = countb is_pending l →
  countb is_pending (gc_keep p l).1 = 0.
Proof.
  revert p. induction l as [|it l IH]; intros p Hp Heq; simpl.
  { done. }
  rewrite countb_cons in Heq. destruct (is_pending it) eqn:E.
  - rewrite i32_small by lia. destruct (Z.eqb_spec (p - 1) 0); simpl; [lia|].
    apply IH; lia.
  - simpl. rewrite countb_cons, E. simpl. apply IH; [done|]. lia.
Qed.

(** *** The index against the abstract list *)

Lemma live_mid d l1 it l2 : d_items d = l1 ++ it :: l2 → i_deleted it = false →
  live d = ((fun it => (i_name it, i_value it)) <$> List.filter is_live l1) ++
           (i_name it, i_value it) ::
           ((fun it => (i_name it, i_value it)) <$> List.filter is_live l2).
Proof.
  intros Hi Hd. unfold live. rewrite Hi, List.filter_app, fmap_app. simpl.
  assert (is_live it = true) as -> by (unfold is_live; by rewrite Hd). done.
Qed.
Lemma live_names d : (live d).*1 = i_name <$> List.filter is_live (d_items d).
Proof. unfold live. rewrite <- list_fmap_compose. done. Qed.
Lemma live_nodup d : wf d → NoDup (live d).*1.
Proof.
  intros Hwf. rewrite live_names. apply NoDup_fmap_2_strong.
  - intros x y [Hx Lx]%elem_of_filterb [Hy Ly]%elem_of_filterb Hn.
    apply (nodup_addr_inj (d_items d)); [apply Hwf|done..|].
    assert (Dx : i_deleted x = false) by (by destruct (i_deleted x) eqn:E; [unfold is_live in Lx; rewrite E in Lx|]).
    assert (Dy : i_deleted y = false) by (by destruct (i_deleted y) eqn:E; [unfold is_live in Ly; rewrite E in Ly|]).
    assert (H1 : judy_get (d_index d) (i_name x) = Some (i_addr x))
      by (apply (wf_index d Hwf); eauto 10).
    assert (H2 : judy_get (d_index d) (i_name x) = Some (i_addr y))
      by (apply (wf_index d Hwf); eauto 10).
    congruence.
  - eapply NoDup_fmap_1. eapply sublist_NoDup; [apply (wf_nodup d Hwf)|].
    apply sublist_map. clear. induction (d_items d) as [|x l IH]; simpl; [done|].
    destruct (is_live x); by constructor.
Qed.

(** A name of the index is a live item, the only one of that name. *)
Lemma index_hit d k a : wf d → judy_get (d_index d) k = Some a →
  ∃ l1 it l2, d_items d = l1 ++ it :: l2 ∧ i_addr it = a ∧ i_name it = k ∧
    i_deleted it = false ∧ item_ok it ∧
    (k ∉ ((fun it => (i_name it, i_value it)) <$> List.filter is_live l1).*1) ∧
    (k ∉ ((fun it => (i_name it, i_value it)) <$> List.filter is_live l2).*1).
Proof.
  intros Hwf Hk. apply (wf_index d Hwf) in Hk as (it & Hin & Ha & Hn & Hd).
  pose proof (wf_items d Hwf) as Hok. rewrite Forall_forall in Hok.
  specialize (Hok it Hin).
  apply list_elem_of_split in Hin as (l1 & l2 & Hi). exists l1, it, l2.
  pose proof (live_nodup d Hwf) as Hnd. rewrite (live_mid d l1 it l2 Hi Hd) in Hnd.
  rewrite fmap_app, fmap_cons in Hnd. simpl in Hnd.
  apply NoDup_app in Hnd as (_ & Hx & [Hy _]%NoDup_cons).
  do 5 (split; [done|]). subst k. split; [|done].
  intros H1. apply (Hx _ H1), elem_of_cons. by left.
Qed.
Lemma index_miss d k : wf d → judy_get (d_index d) k = None → k ∉ (live d).*1.
Proof.
  intros Hwf Hk Hin. rewrite live_names in Hin.
  apply list_elem_of_fmap in Hin as (it & -> & [Hin Hl]%elem_of_filterb).
  assert (judy_get (d_index d) (i_name it) = Some (i_addr it)); [|congruence].
  apply (wf_index d Hwf). exists it. unfold is_live in Hl.
  by destruct (i_deleted it).
Qed.
Lemma index_absent d k : wf d → k ∉ (live d).*1 → judy_get (d_index d) k = None.
Proof.
  intros Hwf Hk. destruct (judy_get (d_index d) k) as [a|] eqn:E; [|done]. destruct Hk.
  apply (index_hit d k a Hwf) in E as (l1 & it & l2 & Hi & _ & <- & Hd & _).
  rewrite (live_mid d l1 it l2 Hi Hd), fmap_app. apply elem_of_app. right. left.
Qed.

Lemma name_good k : k ≠ ""%string → String.eqb k "" = false.
Proof. by destruct (String.eqb_spec k ""). Qed.

(** *** get *)

Lemma get_refines d k : wf d → d_destroyed d = false → k ≠ ""%string →
  dictionary_get (Some k) d = Ok (mjoin (al_get k (live d)), d).
Proof.
  intros Hwf Hdes Hk.
  unfold dictionary_get, dictionary_get_and_acquire_item, dict_item_find_and_acquire.
  simpl. rewrite (name_good k Hk). simpl. rewrite (name_good k Hk).
  rewrite bind_run. unfold mbind, cst_bind, cget. rewrite Hdes.
  destruct (judy_get (d_index d) k) as [a|] eqn:Hj.
  - destruct (index_hit d k a Hwf Hj) as (l1 & it & l2 & Hi & <- & Hn & Hd & Hok & H1 & H2).
    destruct (acquire_release_id d l1 it l2) as (d' & Hacq & Hat & Hrel);
      [done|apply Hwf|by apply wf_in_range|apply Hok|done|].
    unfold item_check_and_acquire, mbind, cst_bind. rewrite Hacq. cbn -[item_at item_release].
    rewrite Hat, Hrel. rewrite (live_mid d l1 it l2 Hi Hd), Hn, al_get_mid by done. done.
  - cbn. by rewrite (proj1 (al_get_None k (live d)) (index_miss d k Hwf Hj)).
Qed.
Lemma get_no_name d name : api_is_name_good name = None →
  dictionary_get name d = Ok (None, d).
Proof. intros Hn. unfold dictionary_get, dictionary_get_and_acquire_item. by rewrite Hn. Qed.

(** *** Changing one item *)

Definition b2z (b : bool) : Z := if b then 1 else 0.

Lemma live_filter_swap l1 it it' l2 :
  i_deleted it = true → i_deleted it' = true →
  List.filter is_live (l1 ++ it' :: l2) = List.filter is_live (l1 ++ it :: l2).
Proof.
  intros H1 H2. rewrite !List.filter_app. simpl.
  change (is_live it) with (negb (i_deleted it)).
  change (is_live it') with (negb (i_deleted it')). by rewrite H1, H2.
Qed.

(** Counters follow an item that keeps its name and stays alive (or dead). *)
Lemma wf_swap d l1 it it' l2 v r p :
  wf d → d_items d = l1 ++ it :: l2 →
  i_addr it' = i_addr it → i_name it' = i_name it → i_deleted it' = i_deleted it →
  item_ok it' →
  r = b2z (is_referenced it') - b2z (is_referenced it) →
  p = b2z (is_pending it') - b2z (is_pending it) →
  wf (bump v 0 r p (set_items (l1 ++ it' :: l2) d)).
Proof.
  intros [Hnd Hfr Hok Hix Hv He Hr Hp] Hi Ha Hn Hd Hok' -> ->. rewrite Hi in *. split; cbn.
  - by eapply nodup_mid_swap.
  - apply Forall_app in Hfr as [? [? ?]%Forall_cons].
    apply Forall_app. split; [done|]. apply Forall_cons. by rewrite Ha.
  - apply Forall_app in Hok as [? [? ?]%Forall_cons].
    apply Forall_app. split; [done|]. by apply Forall_cons.
  - intros k a. rewrite Hix. split; intros (x & Hx & Hxa & Hxn & Hxd).
    + apply elem_of_app in Hx as [Hx|[->|Hx]%elem_of_cons].
      * exists x. rewrite elem_of_app. auto.
      * exists it'. rewrite elem_of_app, elem_of_cons. by rewrite Ha, Hn, Hd; auto.
      * exists x. rewrite elem_of_app, elem_of_cons. auto.
    + apply elem_of_app in Hx as [Hx|[->|Hx]%elem_of_cons].
      * exists x. rewrite elem_of_app. auto.
      * exists it. rewrite elem_of_app, elem_of_cons. rewrite <- Ha, <- Hn, <- Hd; auto.
      * exists x. rewrite elem_of_app, elem_of_cons. auto.
  - by apply wrap_u_range.
  - rewrite He, Z.add_0_r, i32_idem, !countb_app, !countb_cons.
    change (is_live it) with (negb (i_deleted it)).
    change (is_live it') with (negb (i_deleted it')). by rewrite Hd.
  - rewrite Hr, i32_add, !countb_app, !countb_cons. f_equal.
    unfold b2z. lia.
  - rewrite Hp, i32_add, !countb_app, !countb_cons. f_equal. unfold b2z. lia.
Qed.

Lemma execute_none d it : d_hooks d = None →
  execute_insert_callback d it = it ∧ execute_react_callback d it = it ∧
  execute_delete_callback d it = it ∧ ∀ v, execute_conflict_callback d it v = (false, it).
Proof.
  intros H. unfold execute_insert_callback, execute_react_callback,
    execute_delete_callback, execute_conflict_callback. by rewrite H.
Qed.

Lemma execute_insert_none d it : d_hooks d = None → execute_insert_callback d it = it.
Proof. intros. by apply execute_none. Qed.

Lemma release_wf d it : wf d → it ∈ d_items d → 0 < i_refcount it → ∃ d',
  item_release (i_addr it) d = Ok (tt, d') ∧ wf d' ∧ same_config d d' ∧
  d_fresh d' = d_fresh d ∧ d_index d' = d_index d ∧ live d' = live d ∧
  d_items d' = upd_item (i_addr it) (with_refcount (i_refcount it - 1)) (d_items d).
Proof.
  intros Hwf Hin Hr. pose proof (wf_items d Hwf) as Hok. rewrite Forall_forall in Hok.
  destruct (Hok it Hin) as [Hb Hc Hl Hs].
  apply list_elem_of_split in Hin as (l1 & l2 & Hi).
  assert (Hnd := wf_nodup d Hwf).
  rewrite (item_release_mid d l1 l2 it) by (done || lia). cbv zeta. eexists. split; [done|].
  set (it' := with_refcount (i_refcount it - 1) it).
  assert (Hok' : item_ok it') by (split; simpl; [lia|done..]).
  assert (Hlive : ∀ d', d_items d' = l1 ++ it' :: l2 → live d' = live d).
  { intros d' Hd'. unfold live. rewrite Hd', Hi, !List.filter_app, !fmap_app. simpl.
    change (is_live it') with (is_live it). by destruct (is_live it). }
  assert (Hupd : upd_item (i_addr it) (with_refcount (i_refcount it - 1)) (d_items d) =
                 l1 ++ it' :: l2) by (rewrite Hi in *; by apply upd_item_mid).
  rewrite Hupd.
  destruct (Z.eqb_spec (i_refcount it) 1) as [E|E].
  - assert (Hrf : is_referenced it = true) by (apply Z.ltb_lt; lia).
    assert (Hrf' : is_referenced it' = false) by (apply Z.ltb_ge; simpl; lia).
    assert (Hpe : is_pending it = false).
    { unfold is_pending. rewrite (proj2 (Z.eqb_neq _ _)) by lia. apply andb_false_r. }
    assert (Hpe' : is_pending it' = i_deleted it).
    { unfold is_pending. simpl. rewrite E. apply andb_true_r. }
    destruct (i_deleted it) eqn:Hdel; rewrite ?bump_bump.
    + split; [|by repeat split; first [done|apply Hlive]].
      eapply wf_swap; eauto; by rewrite ?Hrf, ?Hrf', ?Hpe, ?Hpe'.
    + split; [|by repeat split; first [done|apply Hlive]].
      eapply wf_swap; eauto; by rewrite ?Hrf, ?Hrf', ?Hpe, ?Hpe'.
  - split; [|by repeat split; first [done|apply Hlive]].
    rewrite <- (bump_0 (set_items _ d)) by (by apply in_range_set_items, wf_in_range).
    eapply wf_swap; eauto.
    + unfold is_referenced. simpl. rewrite !(proj2 (Z.ltb_lt _ _)) by lia. done.
    + unfold is_pending. simpl. rewrite !(proj2 (Z.eqb_neq _ _)) by lia.
      by rewrite andb_false_r.
Qed.

(** *** set, on a name that exists *)

Lemma item_write_id a f d : (∀ it, f it = it) → item_write a f d = Ok (tt, d).
Proof.
  intros Hf. unfold item_write, cmodify. f_equal. f_equal.
  assert (upd_item a f (d_items d) = d_items d) as ->; [|apply set_items_id].
  unfold upd_item. induction (d_items d) as [|x l IH]; [done|].
  rewrite fmap_cons, IH, Hf. by destruct (Nat.eqb (i_addr x) a).
Qed.

Lemma reset_value_mid d l1 it l2 v len :
  d_items d = l1 ++ it :: l2 → NoDup (i_addr <$> d_items d) → d_hooks d = None →
  dict_item_reset_value_with_hooks (i_addr it) v len d =
  Ok (tt, bump 1 0 0 0
            (set_items (l1 ++ with_value (stored_value d v len) len it :: l2) d)).
Proof.
  intros Hi Hnd Hh. unfold dict_item_reset_value_with_hooks.
  rewrite !bind_run. set (d1 := bump 1 0 0 0 d). cbn -[item_write d1].
  rewrite !bind_run. cbn -[item_write d1].
  rewrite bind_run, item_write_id by (intros; by apply (execute_none d1)).
  rewrite bind_run, (item_write_mid d1 l1 l2 it) by done.
  rewrite item_write_id by (intros; by apply (execute_none d1)). done.
Qed.

Lemma set_existing d l1 it l2 v len :
  wf d → d_destroyed d = false → d_hooks d = None → i_name it ≠ ""%string →
  d_items d = l1 ++ it :: l2 → judy_get (d_index d) (i_name it) = Some (i_addr it) →
  i_deleted it = false → item_ok it → opt_dont_overwrite (d_options d) = false →
  let it' := with_value (stored_value d v len) len it in
  dictionary_set (Some (i_name it)) v len d =
  Ok ((Some (i_addr it), i_value it'), bump 1 0 0 0 (set_items (l1 ++ it' :: l2) d)).
Proof.
  intros Hwf Hdes Hh Hk Hi Hj Hd Hok Ho it'. assert (Hnd := wf_nodup d Hwf).
  destruct Hok as [Hr _ _ _]. unfold dictionary_set, dictionary_set_and_acquire_item.
  cbn [api_is_name_good]. rewrite name_good by done.
  unfold dict_item_add_or_reset_value_and_acquire. rewrite name_good by done.
  rewrite !bind_run. cbn -[item_write item_at item_release].
  rewrite Hdes, !bind_run, Hj, Ho, !bind_run.
  rewrite (check_and_acquire_live d l1 l2 it) by done. cbv zeta.
  set (it1 := with_refcount (i_refcount it + 1) it).
  set (d1 := if _ =? 0 then _ else _).
  assert (Hi1 : d_items d1 = l1 ++ it1 :: l2) by (unfold d1; by case_match).
  assert (Hh1 : d_hooks d1 = None) by (unfold d1; by case_match).
  assert (Hnd1 : NoDup (i_addr <$> d_items d1)).
  { rewrite Hi1. eapply nodup_mid_swap; [|rewrite <- Hi; exact Hnd]. done. }
  cbn -[dict_item_reset_value_with_hooks item_write item_at item_release d1].
  change (i_addr it) with (i_addr it1).
  rewrite !bind_run, (reset_value_mid d1 l1 it1 l2) by done.
  assert (Hsv : stored_value d1 v len = stored_value d v len)
    by (unfold d1; by case_match).
  rewrite Hsv. set (it2 := with_value (stored_value d v len) len it1).
  set (d2 := bump 1 0 0 0 _).
  assert (Hi2 : d_items d2 = l1 ++ it2 :: l2) by done.
  assert (Hnd2 : NoDup (i_addr <$> d_items d2)).
  { rewrite Hi2. eapply nodup_mid_swap; [|rewrite <- Hi1; exact Hnd1]. done. }
  cbn -[item_write item_at item_release d2].
  rewrite !bind_run. unfold cget at 1.
  rewrite item_write_id by (intros; by apply (execute_none d2)).
  cbn -[item_at item_release d2]. change (i_addr it) with (i_addr it2).
  rewrite !bind_run, (item_at_mid d2 l1 l2 it2) by done.
  rewrite bind_run, (item_release_mid d2 l1 l2 it2) by (done || simpl; lia).
  cbn -[d2]. unfold mret, cst_ret. f_equal. f_equal.
  replace (i_refcount it + 1 - 1) with (i_refcount it) by lia.
  assert (Hit' : with_refcount (i_refcount it) it2 = it') by (by destruct it).
  rewrite Hit', Hd. unfold d2, d1.
  destruct (Z.eqb_spec (i_refcount it) 0) as [E|E].
  - rewrite E. simpl (0 + 1 =? 1). cbv iota.
    change (set_items _ (bump _ _ _ _ _))
      with (bump 1 0 0 0 (bump 0 0 1 0 (set_items (l1 ++ it' :: l2) d))).
    by rewrite !bump_bump.
  - rewrite (proj2 (Z.eqb_neq (i_refcount it + 1) 1)) by lia. done.
Qed.

(** *** set, on a new name *)

Lemma countb_perm p l l' : l ≡ₚ l' → countb p l = countb p l'.
Proof. induction 1; rewrite ?countb_cons in *; lia. Qed.

Lemma wf_insert d L it :
  wf d → judy_get (d_index d) (i_name it) = None → i_addr it = d_fresh d →
  item_ok it → i_deleted it = false → i_refcount it = 1 → L ≡ₚ it :: d_items d →
  wf (bump 1 1 1 0 (set_items L
       (set_index (judy_set (d_index d) (i_name it) (i_addr it))
         (set_fresh (S (d_fresh d)) d)))).
Proof.
  intros [Hnd Hfr Hok Hix Hv He Hr Hp] Hk Ha Hoki Hd Hrc HL.
  assert (Hnew : i_addr it ∉ (i_addr <$> d_items d)).
  { intros (x & Hx & Hin)%list_elem_of_fmap. rewrite Forall_forall in Hfr.
    specialize (Hfr x Hin). simpl in *. lia. }
  split; cbn.
  - rewrite HL, fmap_cons. by apply NoDup_cons.
  - rewrite HL. apply Forall_cons. split; [lia|].
    eapply Forall_impl; [exact Hfr|]. simpl. lia.
  - rewrite HL. by apply Forall_cons.
  - intros k a. rewrite judy_get_set. setoid_rewrite HL. setoid_rewrite elem_of_cons.
    case_decide as E.
    + subst k. split; [intros [= <-]; exists it; auto|].
      intros (x & [->|Hx] & <- & Hn & Hxd); [done|]. exfalso.
      assert (judy_get (d_index d) (i_name it) = Some (i_addr x)); [|congruence].
      apply Hix. exists x. auto.
    + rewrite Hix. split; intros (x & Hx & H1 & H2 & H3); exists x; [auto|].
      destruct Hx as [->|Hx]; [by subst k|auto].
  - by apply wrap_u_range.
  - rewrite He, i32_add, (countb_perm is_live _ _ HL), countb_cons.
    change (is_live it) with (negb (i_deleted it)). rewrite Hd. simpl. f_equal. lia.
  - rewrite Hr, i32_add, (countb_perm is_referenced _ _ HL), countb_cons.
    unfold is_referenced at 2. rewrite Hrc. simpl. f_equal. lia.
  - rewrite Hp, Z.add_0_r, i32_idem, (countb_perm is_pending _ _ HL), countb_cons.
    unfold is_pending at 2. by rewrite Hd.
Qed.

Lemma set_new d k v len :
  wf d → d_destroyed d = false → d_hooks d = None → k ≠ ""%string →
  judy_get (d_index d) k = None → ∃ d',
  dictionary_set (Some k) v len d = Ok ((Some (d_fresh d), stored_value d v len), d') ∧
  wf d' ∧ same_config d d' ∧ judy_get (d_index d') k = Some (d_fresh d) ∧
  live d' = (if opt_add_in_front (d_options d) then (k, stored_value d v len) :: live d
             else live d ++ [(k, stored_value d v len)]) ∧
  (unreferenced d → unreferenced d').
Proof.
  intros Hwf Hdes Hh Hk Hj.
  set (it := Item (d_fresh d) k (Z.of_nat (String.length k)) 1 false false
                  (stored_value d v len) len 1 false).
  set (it0 := Item (d_fresh d) k (Z.of_nat (String.length k)) 1 false true
                  (stored_value d v len) len 1 false).
  set (L it := if opt_add_in_front (d_options d) then it :: d_items d else d_items d ++ [it]).
  set (d2 := bump 1 1 1 0 (set_items (L it)
       (set_index (judy_set (d_index d) k (d_fresh d)) (set_fresh (S (d_fresh d)) d)))).
  assert (HL : ∀ it, L it ≡ₚ it :: d_items d).
  { intros x. unfold L. case_match; [done|]. by rewrite Permutation_app_comm. }
  assert (Hwf2 : wf d2) by (apply (wf_insert d (L it) it); done).
  assert (Hlive2 : live d2 = if opt_add_in_front (d_options d)
            then (k, stored_value d v len) :: live d
            else live d ++ [(k, stored_value d v len)]).
  { unfold live. cbn. unfold L. case_match; [done|].
    by rewrite List.filter_app, fmap_app. }
  destruct (gc_wf d2 Hwf2) as (d3 & Hgc & Hwf3 & Hcfg3 & _ & Hix3 & _ & Hl3 & Hsub3 & Hkeep).
  assert (Hin3 : it ∈ d_items d3).
  { apply Hkeep; [|done]. cbn. rewrite (HL it). apply elem_of_cons. by left. }
  destruct (release_wf d3 it Hwf3 Hin3 ltac:(done))
    as (d4 & Hrel & Hwf4 & Hcfg4 & _ & Hix4 & Hl4 & Hit4).
  exists d4. split.
  - unfold dictionary_set, dictionary_set_and_acquire_item, api_is_name_good.
    rewrite name_good by done.
    unfold dict_item_add_or_reset_value_and_acquire. rewrite name_good by done.
    rewrite !bind_run. cbn -[item_linked_list_add item_write item_at item_release].
    rewrite Hdes, !bind_run, Hj. unfold dict_item_create_with_hooks.
    rewrite !bind_run. cbn -[item_linked_list_add item_write item_at item_release bump].
    rewrite !bind_run. cbn -[item_linked_list_add item_write item_at item_release bump].
    rewrite !execute_insert_none by done.
    change (with_value _ _ _) with it0. unfold item_linked_list_add.
    rewrite !bind_run. cbn -[item_write item_at item_release bump garbage_collect_pending_deletes].
    rewrite bind_modify, bind_run, bind_modify.
    match goal with |- context [mbind _ (item_write _ with_created) ?s] => set (d1 := s) end.
    assert (Hw : item_write (d_fresh d) with_created d1 = Ok (tt, d2)).
    { assert (Hnd : NoDup (i_addr <$> L it0)).
      { assert (Hn := wf_nodup d2 Hwf2). cbn in Hn. rewrite (HL it) in Hn. by rewrite (HL it0). }
      unfold L in Hnd.
      assert (Hi1 : d_items d1 = L it0) by done. unfold L in Hi1. unfold d2, L.
      destruct (opt_add_in_front (d_options d)).
      - rewrite (item_write_mid d1 [] (d_items d) it0) by (done || by rewrite Hi1). done.
      - rewrite (item_write_mid d1 (d_items d) [] it0) by (done || by rewrite Hi1). done. }
    rewrite !bind_run, Hw, Hgc. cbn -[item_write item_at item_release].
    rewrite !bind_run. unfold cget.
    rewrite item_write_id.
    2: { intros x. apply (execute_none d3). by rewrite (same_hooks _ _ Hcfg3). }
    cbn -[item_at item_release].
    apply list_elem_of_split in Hin3 as (m1 & m2 & Hi3).
    change (d_fresh d) with (i_addr it).
    rewrite bind_run, (item_at_mid d3 m1 m2 it Hi3 (wf_nodup d3 Hwf3)).
    by rewrite bind_run, Hrel.
  - split; [done|]. split; [|split; [|split]].
    + transitivity d3; [|done]. by transitivity d2.
    + rewrite Hix4, Hix3. cbn. rewrite judy_get_set. by rewrite decide_True.
    + rewrite Hl4. transitivity (live d2); [|exact Hlive2]. unfold live. by rewrite Hl3.
    + intros Hu. unfold unreferenced. rewrite Hit4. cbn [i_refcount i_addr it].
      assert (Hu3 : Forall (fun x => x = it ∨ i_refcount x = 0) (d_items d3)).
      { eapply sublist_forall; [exact Hsub3|]. cbn. rewrite (HL it). apply Forall_cons.
        split; [by left|]. eapply Forall_impl; [exact Hu|]. by right. }
      unfold upd_item. apply Forall_fmap. eapply Forall_impl; [exact Hu3|].
      intros x [->|Hx]; unfold compose; cbn beta.
      * cbn [i_addr it]. by rewrite Nat.eqb_refl.
      * by destruct (Nat.eqb (i_addr x) (d_fresh d)).
Qed.

(** *** set and writes through the returned pointer *)

Lemma set_refines d k v len :
  wf d → d_destroyed d = false → d_hooks d = None → k ≠ ""%string →
  opt_dont_overwrite (d_options d) = false → ∃ a d',
  dictionary_set (Some k) v len d = Ok ((Some a, stored_value d v len), d') ∧
  wf d' ∧ same_config d d' ∧ judy_get (d_index d') k = Some a ∧
  live d' = al_set (opt_add_in_front (d_options d)) k (stored_value d v len) (live d) ∧
  (unreferenced d → unreferenced d').
Proof.
  intros Hwf Hdes Hh Hk Ho. unfold al_set.
  destruct (judy_get (d_index d) k) as [a|] eqn:Hj.
  - destruct (index_hit d k a Hwf Hj) as (l1 & it & l2 & Hi & <- & <- & Hd & Hok & H1 & H2).
    eexists _, _. split; [by apply (set_existing d l1 it l2)|].
    split; [|split; [|split; [|split]]].
    + eapply wf_swap; eauto; try by rewrite Z.sub_diag. by destruct Hok; split.
    + done.
    + done.
    + rewrite (live_mid d l1 it l2 Hi Hd), al_get_mid by done.
      destruct (al_mid (i_name it) (i_value it) (stored_value d v len) _ _ H1 H2) as [-> _].
      by apply (live_mid _ l1 (with_value (stored_value d v len) len it) l2).
    + unfold unreferenced. rewrite Hi. cbn. by rewrite !Forall_app, !Forall_cons.
  - destruct (set_new d k v len) as (d' & Hset & Hwf' & Hc & Hj' & Hl & Hu); [done..|].
    exists (d_fresh d), d'. rewrite (proj1 (al_get_None k (live d)) (index_miss d k Hwf Hj)).
    done.
Qed.

Lemma value_write_refines d k a x : wf d → judy_get (d_index d) k = Some a → ∃ d',
  value_write a x d = Ok (tt, d') ∧ wf d' ∧ same_config d d' ∧
  d_index d' = d_index d ∧ live d' = al_upd k (Some x) (live d) ∧
  (unreferenced d → unreferenced d').
Proof.
  intros Hwf Hj.
  destruct (index_hit d k a Hwf Hj) as (l1 & it & l2 & Hi & <- & <- & Hd & Hok & H1 & H2).
  assert (Hnd := wf_nodup d Hwf). eexists. split.
  { unfold value_write. rewrite bind_run, (item_at_mid d l1 l2 it) by done.
    by apply (item_write_mid d l1 l2 it). }
  split; [|split; [|split; [|split]]].
  - rewrite <- (bump_0 (set_items _ d)) by (by apply in_range_set_items, wf_in_range).
    eapply wf_swap; eauto; try by rewrite Z.sub_diag. by destruct Hok; split.
  - done.
  - done.
  - rewrite (live_mid d l1 it l2 Hi Hd).
    destruct (al_mid (i_name it) (i_value it) (Some x) _ _ H1 H2) as [-> _].
    by apply (live_mid _ l1 (with_value (Some x) (i_value_len it) it) l2).
  - unfold unreferenced. rewrite Hi. cbn. by rewrite !Forall_app, !Forall_cons.
Qed.

(** *** Deleting *)

Lemma index_del d l1 it l2 : wf d → d_items d = l1 ++ it :: l2 → i_deleted it = false →
  ∀ k a, judy_get (judy_del (d_index d) (i_name it)) k = Some a ↔
    ∃ x, x ∈ l1 ++ l2 ∧ i_addr x = a ∧ i_name x = k ∧ i_deleted x = false.
Proof.
  intros Hwf Hi Hd k a. rewrite judy_get_del.
  assert (Hnd := live_nodup d Hwf). rewrite (live_mid d l1 it l2 Hi Hd) in Hnd.
  rewrite fmap_app, fmap_cons, <- !list_fmap_compose in Hnd. simpl in Hnd.
  apply NoDup_app in Hnd as (_ & Hx & [Hy _]%NoDup_cons).
  assert (Hother : ∀ x, x ∈ l1 ++ l2 → i_deleted x = false → i_name x ≠ i_name it).
  { intros x [H1|H1]%elem_of_app Hxd Hn.
    - apply (Hx (i_name x)); [|rewrite Hn; apply elem_of_cons; by left].
      apply (list_elem_of_fmap_2 (fun it => i_name it)), elem_of_filterb.
      unfold is_live. by rewrite Hxd.
    - apply Hy. rewrite <- Hn.
      apply (list_elem_of_fmap_2 (fun it => i_name it)), elem_of_filterb.
      unfold is_live. by rewrite Hxd. }
  case_decide as E; [split; [done|]|rewrite (wf_index d Hwf k a), Hi; split].
  - intros (x & Hin & _ & Hn & Hxd). subst k. by destruct (Hother x Hin Hxd).
  - intros (x & Hin & H1 & H2 & H3). exists x. split; [|done].
    apply elem_of_app in Hin as [Hin|[->|Hin]%elem_of_cons];
      [apply elem_of_app; by left|congruence|apply elem_of_app; by right].
  - intros (x & Hin & H1 & H2 & H3). exists x. split; [|done].
    apply elem_of_app in Hin as [Hin|Hin]; apply elem_of_app;
      [by left|right; by apply elem_of_cons; right].
Qed.

Lemma wf_unlink d l1 it l2 :
  wf d → d_items d = l1 ++ it :: l2 → i_deleted it = false → i_refcount it = 0 →
  wf (bump 1 (-1) 0 0 (set_items (l1 ++ l2)
       (set_index (judy_del (d_index d) (i_name it)) d))).
Proof.
  intros Hwf Hi Hd Hr0. pose proof (index_del d l1 it l2 Hwf Hi Hd) as Hix'.
  destruct Hwf as [Hnd Hfr Hok Hix Hv He Hr Hp]. rewrite Hi in *.
  rewrite Forall_app, Forall_cons in Hfr, Hok.
  split; cbn.
  - by eapply nodup_mid_del.
  - apply Forall_app. naive_solver.
  - apply Forall_app. naive_solver.
  - done.
  - by apply wrap_u_range.
  - rewrite He, i32_add, !countb_app, countb_cons.
    change (is_live it) with (negb (i_deleted it)). rewrite Hd. simpl. f_equal. lia.
  - rewrite Hr, Z.add_0_r, i32_idem, !countb_app, countb_cons. unfold is_referenced at 2.
    by rewrite Hr0.
  - rewrite Hp, Z.add_0_r, i32_idem, !countb_app, countb_cons. unfold is_pending at 2.
    by rewrite Hd.
Qed.

Lemma wf_mark d l1 it l2 :
  wf d → d_items d = l1 ++ it :: l2 → i_deleted it = false → 0 < i_refcount it →
  wf (bump 1 (-1) 0 0 (set_items (l1 ++ with_deleted (with_shared_deleted it) :: l2)
       (set_index (judy_del (d_index d) (i_name it)) d))).
Proof.
  intros Hwf Hi Hd Hr0. pose proof (index_del d l1 it l2 Hwf Hi Hd) as Hix'.
  destruct Hwf as [Hnd Hfr Hok Hix Hv He Hr Hp]. rewrite Hi in *.
  rewrite Forall_app, Forall_cons in Hfr, Hok. destruct Hok as (? & [] & ?).
  split; cbn.
  - eapply (nodup_mid_swap l1 it); [done|exact Hnd].
  - rewrite Forall_app, Forall_cons. naive_solver.
  - rewrite Forall_app, Forall_cons. split; [done|]. split; [by split|done].
  - intros k a. rewrite Hix'. split; intros (x & Hin & H1 & H2 & H3); exists x;
      (split; [|done]); revert Hin; rewrite !elem_of_app, ?elem_of_cons; [naive_solver|].
    intros [?|[->|?]]; [auto|done|auto].
  - by apply wrap_u_range.
  - rewrite He, i32_add, !countb_app, !countb_cons.
    change (is_live it) with (negb (i_deleted it)). rewrite Hd. simpl. f_equal. lia.
  - by rewrite Hr, Z.add_0_r, i32_idem, !countb_app, !countb_cons.
  - rewrite Hp, Z.add_0_r, i32_idem, !countb_app, !countb_cons. unfold is_pending at 2 5.
    simpl. rewrite Hd, (proj2 (Z.eqb_neq _ _)) by lia. done.
Qed.

(** The collector ignores [version] and [entries]. *)
Lemma gc_keep_range p l : i32 p = p → i32 (gc_keep p l).2 = (gc_keep p l).2.
Proof.
  revert p. induction l as [|it l IH]; intros p Hp; simpl; [done|].
  destruct (is_pending it); [case_match; simpl; [done|apply IH, i32_idem]|].
  simpl. by apply IH.
Qed.
Lemma gc_bump d v e :
  in_range d → NoDup (i_addr <$> d_items d) → Forall item_ok (d_items d) →
  ∃ d', garbage_collect_pending_deletes d = Ok (tt, d') ∧
        garbage_collect_pending_deletes (bump v e 0 0 d) = Ok (tt, bump v e 0 0 d').
Proof.
  intros Hrng Hnd Hok.
  unfold garbage_collect_pending_deletes. rewrite !bind_get.
  assert (Hp : d_pending (bump v e 0 0 d) = d_pending d).
  { simpl. rewrite Z.add_0_r. apply Hrng. }
  rewrite Hp. destruct (0 <? d_pending d); [|by eexists].
  change (d_items (bump v e 0 0 d)) with (d_items d).
  rewrite (gc_loop_eq (d_items d) [] d) by done.
  rewrite (gc_loop_eq (d_items d) [] (bump v e 0 0 d)) by (done || apply bump_in_range).
  rewrite Hp. eexists. split; [done|]. f_equal. f_equal.
  unfold set_pending, set_items, bump. cbn. f_equal.
  by rewrite Z.add_0_r, gc_keep_range by apply Hrng.
Qed.

Lemma del_unreferenced d l1 it l2 :
  wf d → d_hooks d = None → d_items d = l1 ++ it :: l2 →
  judy_get (d_index d) (i_name it) = Some (i_addr it) →
  i_deleted it = false → i_refcount it = 0 →
  ∃ d', dict_item_del (i_name it) d = Ok (true, d') ∧
    garbage_collect_pending_deletes
      (bump 1 (-1) 0 0 (set_items (l1 ++ l2)
         (set_index (judy_del (d_index d) (i_name it)) d))) = Ok (tt, d').
Proof.
  intros Hwf Hh Hi Hj Hd Hr. assert (Hnd := wf_nodup d Hwf).
  assert (Hok := wf_items d Hwf). assert (Hrng := wf_in_range d Hwf).
  rewrite Hi, Forall_app, Forall_cons in Hok. destruct Hok as (Hok1 & [? Hc _ _] & Hok2).
  set (d0 := set_index (judy_del (d_index d) (i_name it)) d).
  set (d2 := set_items (l1 ++ l2) d0).
  destruct (gc_bump d2 1 (-1)) as (d3 & Hgc & Hgcb).
  { by destruct Hrng. }
  { cbn. eapply nodup_mid_del. rewrite <- Hi. exact Hnd. }
  { cbn. by apply Forall_app. }
  exists (bump 1 (-1) 0 0 d3). split; [|exact Hgcb].
  unfold dict_item_del. rewrite bind_get, Hj, bind_modify.
  fold d0. unfold dict_item_free_or_mark_deleted.
  rewrite !bind_run, (can_be_removed_unreferenced d0 l1 l2 it) by done.
  cbn -[dict_item_shared_set_deleted item_linked_list_remove dict_item_free_with_hooks].
  set (it1 := with_refcount REFCOUNT_DELETED it).
  set (d1 := set_items (l1 ++ it1 :: l2) d0).
  assert (Hnd1 : NoDup (i_addr <$> d_items d1)).
  { eapply (nodup_mid_swap l1 it); [done|]. rewrite <- Hi. exact Hnd. }
  change (i_addr it) with (i_addr it1). unfold dict_item_shared_set_deleted.
  rewrite bind_run, (item_write_mid d1 l1 l2 it1) by done.
  set (it2 := with_shared_deleted it1). set (d1' := set_items (l1 ++ it2 :: l2) d1).
  assert (Hnd1' : NoDup (i_addr <$> d_items d1')).
  { eapply (nodup_mid_swap l1 it); [done|]. rewrite <- Hi. exact Hnd. }
  change (i_addr it1) with (i_addr it2). unfold item_linked_list_remove.
  rewrite !bind_run, (item_at_mid d1' l1 l2 it2) by done.
  rewrite bind_run, (unlink_mid d1' l1 l2 it2) by done.
  change (set_items (l1 ++ l2) d1') with d2.
  rewrite bind_run, Hgc. cbn -[dict_item_free_with_hooks]. rewrite bind_run.
  unfold dict_item_free_with_hooks. change (i_deleted it2) with (i_deleted it). rewrite Hd.
  rewrite bind_run. unfold ENTRIES_MINUS1, cmodify. rewrite bind_get.
  by destruct (item_shared_release_and_check_if_it_can_be_freed it2).
Qed.

Lemma del_referenced d l1 it l2 :
  wf d → d_items d = l1 ++ it :: l2 →
  judy_get (d_index d) (i_name it) = Some (i_addr it) →
  i_deleted it = false → 0 < i_refcount it →
  dict_item_del (i_name it) d = Ok (true,
    bump 1 (-1) 0 0 (set_items (l1 ++ with_deleted (with_shared_deleted it) :: l2)
       (set_index (judy_del (d_index d) (i_name it)) d))).
Proof.
  intros Hwf Hi Hj Hd Hr. assert (Hnd := wf_nodup d Hwf).
  set (d0 := set_index (judy_del (d_index d) (i_name it)) d).
  unfold dict_item_del. rewrite bind_get, Hj, bind_modify. fold d0.
  unfold dict_item_free_or_mark_deleted.
  rewrite !bind_run, (can_be_removed_referenced d0 l1 l2 it) by done.
  cbn -[dict_item_shared_set_deleted dict_item_set_deleted].
  unfold dict_item_shared_set_deleted.
  rewrite bind_run, (item_write_mid d0 l1 l2 it) by done.
  set (it2 := with_shared_deleted it). set (d1' := set_items (l1 ++ it2 :: l2) d0).
  assert (Hnd1' : NoDup (i_addr <$> d_items d1')).
  { eapply (nodup_mid_swap l1 it); [done|]. rewrite <- Hi. exact Hnd. }
  change (i_addr it) with (i_addr it2). unfold dict_item_set_deleted.
  rewrite !bind_run, (item_at_mid d1' l1 l2 it2) by done.
  change (i_deleted it2) with (i_deleted it). rewrite Hd.
  by rewrite bind_run, (item_write_mid d1' l1 l2 it2).
Qed.

Lemma del_refines d k :
  wf d → d_destroyed d = false → d_hooks d = None → k ≠ ""%string → ∃ d',
  dictionary_del (Some k) d = Ok (bool_decide (k ∈ (live d).*1), d') ∧
  wf d' ∧ same_config d d' ∧ live d' = al_del k (live d) ∧
  (unreferenced d → unreferenced d').
Proof.
  intros Hwf Hdes Hh Hk. unfold dictionary_del, api_is_name_good.
  rewrite (name_good k Hk), bind_get, Hdes.
  destruct (judy_get (d_index d) k) as [a|] eqn:Hj.
  - destruct (index_hit d k a Hwf Hj) as (l1 & it & l2 & Hi & <- & <- & Hd & Hok & H1 & H2).
    assert (Hlm := live_mid d l1 it l2 Hi Hd).
    rewrite bool_decide_true.
    2: { rewrite Hlm, fmap_app, fmap_cons. apply elem_of_app. right.
         apply elem_of_cons. by left. }
    rewrite Hlm. destruct (al_mid (i_name it) (i_value it) None _ _ H1 H2) as [_ ->].
    destruct (Z.eq_dec (i_refcount it) 0) as [Hr|Hr].
    + destruct (del_unreferenced d l1 it l2) as (d' & -> & Hgc); [done..|].
      destruct (gc_wf _ (wf_unlink d l1 it l2 Hwf Hi Hd Hr))
        as (d'' & Hgc' & Hwf' & Hc & _ & _ & _ & Hl & Hsub & _).
      rewrite Hgc in Hgc'. injection Hgc' as <-. exists d'. split; [done|].
      split; [done|]. split; [by destruct Hc; split|]. split.
      { unfold live. rewrite Hl. cbn. by rewrite List.filter_app, fmap_app. }
      unfold unreferenced. rewrite Hi, Forall_app, Forall_cons. intros (? & _ & ?).
      eapply sublist_forall; [exact Hsub|]. by apply Forall_app.
    + rewrite (del_referenced d l1 it l2) by (done || destruct Hok; lia).
      eexists. split; [done|]. split.
      { apply wf_mark; [done..|]. destruct Hok; lia. }
      split; [done|]. split.
      { unfold live. cbn. by rewrite List.filter_app, fmap_app. }
      unfold unreferenced. rewrite Hi, Forall_app, Forall_cons. intros (_ & ? & _). done.
  - assert (Hmiss := index_miss d k Hwf Hj).
    exists d. unfold dict_item_del. rewrite bind_get, Hj.
    rewrite bool_decide_false, al_del_notin by done. done.
Qed.

(** *** Traversal *)

(** Nothing but reference counts and dead items may differ. *)
Record same_but_items d d' : Prop := {
  sbi_config : same_config d d';
  sbi_index : d_index d' = d_index d;
  sbi_fresh : d_fresh d' = d_fresh d;
  sbi_version : d_version d' = d_version d;
}.
#[global] Instance same_but_items_refl : Reflexive same_but_items.
Proof. by split. Qed.
#[global] Instance same_but_items_trans : Transitive same_but_items.
Proof. intros ??? [] []. split; by etrans. Qed.

(** Under the invariant the counters are determined by the items. *)
Lemma wf_ext d d' : wf d → wf d' → same_but_items d d' → d_items d' = d_items d → d' = d.
Proof.
  intros [_ _ _ _ _ He Hr Hp] [_ _ _ _ _ He' Hr' Hp'] [[Ho Hd Hh] Hi Hf Hv] Hit.
  rewrite Hit in *. destruct d, d'; cbn in *. congruence.
Qed.

(** Changing a reference count, as [item_release] and
    [item_check_and_acquire] do. *)
Lemma wf_refcount d l1 it l2 n :
  wf d → d_items d = l1 ++ it :: l2 → 0 ≤ n < 2 ^ 31 - 1 →
  let it' := with_refcount n it in
  let d' := bump 0 0 (b2z (is_referenced it') - b2z (is_referenced it))
                     (b2z (is_pending it') - b2z (is_pending it))
              (set_items (l1 ++ it' :: l2) d) in
  wf d' ∧ same_but_items d d' ∧ live d' = live d.
Proof.
  intros Hwf Hi Hn it' d'. assert (Hok := wf_items d Hwf).
  rewrite Hi, Forall_app, Forall_cons in Hok. destruct Hok as (_ & [? ? ? ?] & _).
  split; [|split].
  - eapply wf_swap; eauto. by split.
  - split; [done|done|done|]. cbn. rewrite Z.add_0_r. apply wrap_u_id, Hwf.
  - unfold live. cbn. rewrite Hi, !List.filter_app, !fmap_app. simpl.
    change (is_live it') with (is_live it). by destruct (is_live it).
Qed.
Lemma bump_id_if d r p : wf d → r = 0 → p = 0 → bump 0 0 r p d = d.
Proof. intros Hwf -> ->. by apply bump_0, wf_in_range. Qed.

Lemma release_at d l1 it l2 :
  wf d → d_items d = l1 ++ it :: l2 → 0 < i_refcount it → ∃ d',
  item_release (i_addr it) d = Ok (tt, d') ∧ wf d' ∧ same_but_items d d' ∧
  live d' = live d ∧ d_items d' = l1 ++ with_refcount (i_refcount it - 1) it :: l2.
Proof.
  intros Hwf Hi Hr. assert (Hnd := wf_nodup d Hwf). assert (Hok := wf_items d Hwf).
  rewrite Hi, Forall_app, Forall_cons in Hok. destruct Hok as (_ & [Hb _ _ _] & _).
  destruct (wf_refcount d l1 it l2 (i_refcount it - 1)) as (H1 & H2 & H3); [done..|lia|].
  eexists. split; [|split; [exact H1|split; [exact H2|split; [exact H3|done]]]].
  rewrite (item_release_mid d l1 l2 it) by (done || lia). cbv zeta. f_equal. f_equal.
  set (d1 := set_items _ d). unfold is_referenced, is_pending. simpl.
  assert (Hrng : in_range d1) by (by apply in_range_set_items, wf_in_range).
  rewrite (proj2 (Z.ltb_lt 0 (i_refcount it)) Hr), (proj2 (Z.eqb_neq (i_refcount it) 0)) by lia.
  rewrite andb_false_r.
  destruct (Z.eqb_spec (i_refcount it) 1) as [->|E].
  - simpl. destruct (i_deleted it); [by rewrite bump_bump|done].
  - rewrite (proj2 (Z.ltb_lt _ _)), (proj2 (Z.eqb_neq _ _)), andb_false_r by lia.
    by rewrite bump_0.
Qed.

Lemma acquire_at d l1 it l2 :
  wf d → d_items d = l1 ++ it :: l2 → i_deleted it = false → i_refcount it < 2 ^ 31 - 2 →
  ∃ d', item_check_and_acquire (i_addr it) d = Ok (true, d') ∧ wf d' ∧
    same_but_items d d' ∧ live d' = live d ∧
    d_items d' = l1 ++ with_refcount (i_refcount it + 1) it :: l2.
Proof.
  intros Hwf Hi Hd Hr. assert (Hnd := wf_nodup d Hwf). assert (Hok := wf_items d Hwf).
  rewrite Hi, Forall_app, Forall_cons in Hok. destruct Hok as (_ & [Hb _ _ _] & _).
  destruct (wf_refcount d l1 it l2 (i_refcount it + 1)) as (H1 & H2 & H3); [done..|lia|].
  eexists. split; [|split; [exact H1|split; [exact H2|split; [exact H3|done]]]].
  unfold item_check_and_acquire.
  rewrite bind_run, (check_and_acquire_live d l1 l2 it) by (done || lia).
  cbn -[bump]. unfold mret, cst_ret. f_equal. f_equal.
  set (d1 := set_items _ d). unfold is_referenced, is_pending. simpl. rewrite Hd. simpl.
  assert (Hrng : in_range d1) by (by apply in_range_set_items, wf_in_range).
  destruct (Z.eqb_spec (i_refcount it) 0) as [->|E]; [done|].
  rewrite !(proj2 (Z.ltb_lt _ _)) by lia. by rewrite bump_0.
Qed.

Lemma check_and_acquire_dead d l1 it l2 :
  wf d → d_items d = l1 ++ it :: l2 → i_deleted it = true →
  item_check_and_acquire (i_addr it) d = Ok (false, d).
Proof.
  intros Hwf Hi Hd. assert (Hok := wf_items d Hwf).
  rewrite Hi, Forall_app, Forall_cons in Hok. destruct Hok as (_ & [Hb _ _ _] & _).
  unfold item_check_and_acquire. rewrite bind_run.
  rewrite (check_and_acquire_deleted d l1 l2 it) by (done || apply Hwf || lia). done.
Qed.

(** Room for the references a traversal takes. *)
Definition refs_small l : Prop := Forall (fun it => i_refcount it < 2 ^ 31 - 2) l.

Lemma skip_deleted_spec l2 : ∀ d l1 fuel,
  wf d → d_items d = l1 ++ l2 → (length l2 ≤ fuel)%nat → refs_small l2 →
  (List.filter is_live l2 = [] ∧ skip_deleted fuel (i_addr <$> head l2) d = Ok (None, d)) ∨
  (∃ m1 it m2 d', l2 = m1 ++ it :: m2 ∧ List.filter is_live m1 = [] ∧
     i_deleted it = false ∧
     skip_deleted fuel (i_addr <$> head l2) d = Ok (Some (i_addr it), d') ∧
     wf d' ∧ same_but_items d d' ∧ live d' = live d ∧
     d_items d' = l1 ++ m1 ++ with_refcount (i_refcount it + 1) it :: m2).
Proof.
  induction l2 as [|it l2 IH]; intros d l1 fuel Hwf Hi Hf Hs.
  { left. by destruct fuel. }
  destruct fuel as [|fuel]; [simpl in Hf; lia|]. apply Forall_cons in Hs as [Hs1 Hs].
  cbn [head fmap option_fmap option_map skip_deleted]. rewrite bind_run.
  destruct (i_deleted it) eqn:Hd.
  - rewrite (check_and_acquire_dead d l1 it l2) by done. rewrite bind_run.
    rewrite (item_next_mid d l1 l2 it Hi (wf_nodup d Hwf)).
    destruct (IH d (l1 ++ [it]) fuel) as [[H1 H2]|(m1 & x & m2 & d' & H1 & H2 & H3 & H4 & H5)];
      [done|by rewrite <- app_assoc|simpl in Hf; lia|done|left|right].
    + simpl. change (is_live it) with (negb (i_deleted it)). by rewrite Hd.
    + exists (it :: m1), x, m2, d'. simpl.
      change (is_live it) with (negb (i_deleted it)). rewrite Hd. simpl.
      rewrite <- !app_assoc in H5. simpl in H5. split; [by f_equal|done].
  - right. destruct (acquire_at d l1 it l2) as (d' & -> & H); [done..|].
    exists [], it, l2, d'. done.
Qed.

Section traversal.
(** A larger state [P] that holds the dictionary. *)
Context {P : Type} (getd : P → option dict) (putd : dict → P → P).
Hypothesis get_put : ∀ d p, getd (putd d p) = Some d.
Hypothesis put_put : ∀ d d' p, putd d (putd d' p) = putd d p.
Hypothesis put_get : ∀ d p, getd p = Some d → putd d p = p.

Definition put_res {A} (d : dict) (r : cres (A * P)) : cres (A * P) :=
  match r with Ok (a, p) => Ok (a, putd d p) | UB k => UB k | NoFuel => NoFuel end.

Fixpoint for_each (body : option V → cst P unit) (l : list (option V)) : cst P unit :=
  match l with
  | [] => mret tt
  | v :: l => _ ← body v; for_each body l
  end.

Lemma run_in_put {A} (m : cst dict A) d d' p a : m d = Ok (a, d') →
  run_in getd putd m (putd d p) = Ok (a, putd d' p).
Proof using get_put put_put. intros Hm. unfold run_in. by rewrite get_put, Hm, put_put. Qed.

Lemma foreach_next_read d l1 it l2 name v c :
  wf d → d_destroyed d = false → d_items d = l1 ++ it :: l2 → 0 < i_refcount it →
  refs_small l2 →
  ∃ dfe d', dictionary_foreach_next LOCK_READ (Dictfe true (Some (i_addr it)) name v c) d =
      Ok (dfe, d') ∧
    wf d' ∧ same_but_items d d' ∧ live d' = live d ∧ dfe_dict dfe = true ∧
    let it' := with_refcount (i_refcount it - 1) it in
    ((List.filter is_live l2 = [] ∧ dfe_item dfe = None ∧ dfe_value dfe = None ∧
      d_items d' = l1 ++ it' :: l2) ∨
     (∃ m1 x m2, l2 = m1 ++ x :: m2 ∧ List.filter is_live m1 = [] ∧
      i_deleted x = false ∧ dfe_item dfe = Some (i_addr x) ∧ dfe_value dfe = i_value x ∧
      d_items d' = l1 ++ it' :: m1 ++ with_refcount (i_refcount x + 1) x :: m2)).
Proof.
  intros Hwf Hdes Hi Hr Hs. unfold dictionary_foreach_next. cbn [dfe_dict negb].
  rewrite bind_get, Hdes. cbn [dfe_item].
  rewrite bind_run, (item_next_mid d l1 l2 it Hi (wf_nodup d Hwf)).
  destruct (skip_deleted_spec l2 d (l1 ++ [it]) (S (length (d_items d))))
    as [[H1 H2]|(m1 & x & m2 & d1 & H1 & H2 & H3 & H4 & H5 & H6 & H7 & H8)];
    [done|by rewrite <- app_assoc|rewrite Hi, length_app; simpl; lia|done|..].
  - rewrite bind_run, H2. simpl dict_item_release_and_check. rewrite bind_run.
    destruct (release_at d l1 it l2) as (d2 & -> & H4 & H5 & H6 & H7); [done..|].
    eexists _, d2. split; [done|]. do 4 (split; [done|]). left. done.
  - rewrite bind_run, H4. simpl dict_item_release_and_check. rewrite bind_run.
    rewrite <- app_assoc in H8.
    destruct (release_at d1 l1 it _ H5 H8 Hr) as (d2 & -> & G1 & G2 & G3 & G4).
    set (x' := with_refcount (i_refcount x + 1) x) in *.
    change (i_addr x) with (i_addr x').
    cbn [dfe_at]. rewrite bind_run.
    rewrite (item_at_mid d2 (l1 ++ with_refcount (i_refcount it - 1) it :: m1) m2 x');
      [|by rewrite G4, <- app_assoc|apply G1].
    eexists _, d2. split; [done|].
    split; [done|]. split; [by etrans|]. split; [congruence|]. split; [done|].
    right. exists m1, x, m2. done.
Qed.

(** A body that neither reads nor writes the dictionary it runs under. *)
Section independent_body.
Context (body : option V → cst P unit).

Lemma dfe_loop_end d dfe fuel p :
  dfe_item dfe = None → dfe_value dfe = None →
  dfe_loop (run_in getd putd) LOCK_READ body fuel dfe (putd d p) = Ok (tt, putd d p).
Proof using get_put put_put.
  intros Hi Hv. destruct fuel; cbn [dfe_loop]; rewrite Hi, Hv, bind_run;
    unfold dictionary_foreach_done; rewrite Hi; destruct (dfe_dict dfe); cbn [negb];
    by erewrite run_in_put.
Qed.

(** [d] is the dictionary before the walk; the body does not look at what the
    walk does to [d], in the states it is run in. *)
Context (d : dict) (I : P → Prop).
Hypothesis Hbody : ∀ v dc p, I p → v ∈ (snd <$> live d) → same_but_items d dc →
  body v (putd dc p) = put_res dc (body v p).
Hypothesis HI : ∀ v p p', I p → v ∈ (snd <$> live d) → body v p = Ok (tt, p') → I p'.

Lemma dfe_loop_read : wf d → d_destroyed d = false → refs_small (d_items d) →
  ∀ fuel l1 it l2 dc p name c,
  d_items d = l1 ++ it :: l2 → wf dc → same_but_items d dc →
  d_items dc = l1 ++ with_refcount (i_refcount it + 1) it :: l2 →
  (length (List.filter is_live l2) < fuel)%nat → I p → i_deleted it = false →
  dfe_loop (run_in getd putd) LOCK_READ body fuel
    (Dictfe true (Some (i_addr it)) name (i_value it) c) (putd dc p) =
  put_res d (for_each body (i_value it :: (i_value <$> List.filter is_live l2)) p).
Proof using get_put put_put Hbody HI.
  intros Hwf Hdes Hs. assert (Hok := wf_items d Hwf).
  induction fuel as [|fuel IH]; intros l1 it l2 dc p name c Hi Hwfc Hsame Hic Hf Hp Hlv; [lia|].
  assert (Hin : i_value it ∈ (snd <$> live d)).
  { rewrite (live_mid d l1 it l2), fmap_app by done. apply elem_of_app. right. left. }
  cbn [dfe_loop dfe_item dfe_value for_each]. rewrite !bind_run, Hbody by done.
  destruct (body (i_value it) p) as [[[] p1]|k|] eqn:Eb; cbn [put_res]; [|done..].
  apply HI in Eb; [|done..].
  rewrite bind_run. rewrite Hi in Hok, Hs.
  apply Forall_app in Hs as [_ [_ Hs2]%Forall_cons].
  apply Forall_app in Hok as [_ [[Hb _ _ _] _]%Forall_cons].
  set (it1 := with_refcount (i_refcount it + 1) it) in *.
  assert (Hback : with_refcount (i_refcount it1 - 1) it1 = it).
  { unfold it1. simpl. replace (i_refcount it + 1 - 1) with (i_refcount it) by lia.
    apply (with_refcount_id it). }
  destruct (foreach_next_read dc l1 it1 l2 name (i_value it) c)
    as (dfe & d2 & Hnext & Hwf2 & Hsame2 & Hl2 & Hdd & Hcase);
    [done|by rewrite (same_destroyed _ _ (sbi_config _ _ Hsame))|done|simpl; lia|done|].
  change (i_addr it) with (i_addr it1). erewrite run_in_put by exact Hnext.
  cbv zeta in Hcase. rewrite Hback in Hcase.
  destruct Hcase as [(H1 & H2 & H3 & H4)|(m1 & x & m2 & H1 & H2 & H3 & H4 & H5 & H6)].
  - rewrite dfe_loop_end by done. rewrite H1. simpl.
    assert (d2 = d) as ->; [|done].
    apply wf_ext; [done|done|by transitivity dc|congruence].
  - assert (Hlive : List.filter is_live l2 = x :: List.filter is_live m2).
    { rewrite H1, List.filter_app, H2. simpl.
      change (is_live x) with (negb (i_deleted x)). by rewrite H3. }
    rewrite Hlive in *. simpl in Hf.
    destruct dfe as [dd di dn dv dc']. simpl in H4, H5, Hdd. subst dd di dv.
    rewrite (IH (l1 ++ it :: m1) x m2) by
      (done || (by rewrite Hi, H1, <- app_assoc) || (by etrans) ||
       (by rewrite H6, <- app_assoc) || lia).
    done.
Qed.

Lemma dfe_foreach_read_in p fuel :
  getd p = Some d → wf d → d_destroyed d = false → refs_small (d_items d) →
  (length (live d) ≤ fuel)%nat → I p →
  dfe_foreach (run_in getd putd) LOCK_READ body fuel p = put_res d (for_each body (snd <$> live d) p).
Proof using get_put put_put put_get Hbody HI.
  intros Hg Hwf Hdes Hs Hf Hp. rewrite <- (put_get d p Hg) at 1.
  unfold dfe_foreach. rewrite bind_run.
  assert (Hv : snd <$> live d = i_value <$> List.filter is_live (d_items d)).
  { unfold live. by rewrite <- list_fmap_compose. }
  rewrite Hv. unfold live in Hf. rewrite length_fmap in Hf.
  destruct (skip_deleted_spec (d_items d) d [] (S (length (d_items d))))
    as [[H1 H2]|(m1 & x & m2 & d1 & H1 & H2 & H3 & H4 & H5 & H6 & H7 & H8)];
    [done|done|lia|done|..].
  - assert (Hst : dictionary_foreach_start_rw d = Ok (Dictfe true None None None 0, d)).
    { unfold dictionary_foreach_start_rw. by rewrite bind_get, Hdes, bind_run, H2. }
    erewrite run_in_put by exact Hst. rewrite dfe_loop_end by done. by rewrite H1.
  - assert (Hst : dictionary_foreach_start_rw d =
        Ok (Dictfe true (Some (i_addr x)) (Some (i_name x)) (i_value x) 0, d1)).
    { unfold dictionary_foreach_start_rw. rewrite bind_get, Hdes, bind_run, H4.
      cbn [dfe_at]. rewrite bind_run.
      set (x' := with_refcount (i_refcount x + 1) x) in *.
      change (i_addr x) with (i_addr x').
      by rewrite (item_at_mid d1 m1 m2 x' H8 (wf_nodup d1 H5)). }
    assert (Hlive : List.filter is_live (d_items d) = x :: List.filter is_live m2).
    { rewrite H1, List.filter_app, H2. simpl.
      change (is_live x) with (negb (i_deleted x)). by rewrite H3. }
    erewrite run_in_put by exact Hst. rewrite Hlive in *. simpl in Hf.
    by apply (dfe_loop_read Hwf Hdes Hs fuel m1 x m2).
Qed.
End independent_body.

Lemma dfe_foreach_read (body : option V → cst P unit)
    (Hbody : ∀ v d p, body v (putd d p) = put_res d (body v p)) d p fuel :
  getd p = Some d → wf d → d_destroyed d = false → refs_small (d_items d) →
  (length (live d) ≤ fuel)%nat →
  dfe_foreach (run_in getd putd) LOCK_READ body fuel p = put_res d (for_each body (snd <$> live d) p).
Proof using get_put put_put put_get.
  intros. by apply (dfe_foreach_read_in body d (λ _, True)).
Qed.
End traversal.
End spec.
