(* ===== verification/DictionaryThms.v ===== *)
(** * What the dictionary promises its callers

    The theorems about whole runs of the dictionary: every sequence of get,
    set and delete behaves as on an ordered association list and returns; a
    traversal visits each live item once, in order, and leaves the dictionary
    as it was; what a collection does; and the one way [dictionary_flush()]
    can touch freed memory. *)

From S2P Require Import Prelude Dictionary DictionarySpec.
#[local] Open Scope string_scope.
#[local] Open Scope Z_scope.

(** ** Traces *)

Section traces.
Context {V : Type} `{!CVal V} {J : Type} `{!JudyHS J}.
Abbreviation dict := (dict V J).
Implicit Types (d : dict).

Inductive dict_op : Type :=
| OpGet (name : option string)
| OpSet (name : option string) (value : option V) (value_len : Z)
| OpDel (name : option string).

Inductive dict_answer : Type :=
| AnsValue (v : option V)
| AnsBool (b : bool).

Definition op_run (o : dict_op) : cst dict dict_answer :=
  match o with
  | OpGet name => v ← dictionary_get name; mret (AnsValue v)
  | OpSet name value len => r ← dictionary_set name value len; mret (AnsValue (snd r))
  | OpDel name => b ← dictionary_del name; mret (AnsBool b)
  end.

Fixpoint ops_run (ops : list dict_op) : cst dict (list dict_answer) :=
  match ops with
  | [] => mret []
  | o :: ops => a ← op_run o; l ← ops_run ops; mret (a :: l)
  end.

(** The abstract machine: [store] is how a value is kept (linked or copied). *)
Definition op_spec (front : bool) (store : option V → Z → option V) (o : dict_op)
    (l : list (string * option V)) : dict_answer * list (string * option V) :=
  match o with
  | OpGet name =>
      match api_is_name_good name with
      | Some k => (AnsValue (mjoin (al_get k l)), l)
      | None => (AnsValue None, l)
      end
  | OpSet name v len =>
      match api_is_name_good name with
      | Some k => (AnsValue (store v len), al_set front k (store v len) l)
      | None => (AnsValue None, l)
      end
  | OpDel name =>
      match api_is_name_good name with
      | Some k => (AnsBool (bool_decide (k ∈ l.*1)), al_del k l)
      | None => (AnsBool false, l)
      end
  end.

Fixpoint ops_spec (front : bool) (store : option V → Z → option V) (ops : list dict_op)
    (l : list (string * option V)) : list dict_answer * list (string * option V) :=
  match ops with
  | [] => ([], l)
  | o :: ops =>
      let '(a, l) := op_spec front store o l in
      let '(r, l) := ops_spec front store ops l in
      (a :: r, l)
  end.

Lemma good_name name k : api_is_name_good name = Some k → name = Some k ∧ k ≠ "".
Proof.
  destruct name as [s|]; simpl; [|done].
  destruct (String.eqb_spec s ""); naive_solver.
Qed.

Lemma stored_value_config d d' v len : same_config d d' →
  stored_value d' v len = stored_value d v len.
Proof. intros [Ho _ _]. unfold stored_value. by rewrite Ho. Qed.

Lemma op_refines d o :
  wf d → d_destroyed d = false → d_hooks d = None →
  opt_dont_overwrite (d_options d) = false →
  let '(a, l) := op_spec (opt_add_in_front (d_options d)) (stored_value d) o (live d) in
  ∃ d', op_run o d = Ok (a, d') ∧ wf d' ∧ same_config d d' ∧ live d' = l.
Proof.
  intros Hwf Hdes Hh Ho. destruct o as [name|name v len|name]; cbn [op_spec op_run];
    destruct (api_is_name_good name) as [k|] eqn:Hn.
  - apply good_name in Hn as [-> Hk]. exists d.
    by rewrite bind_run, get_refines.
  - exists d. by rewrite bind_run, get_no_name.
  - apply good_name in Hn as [-> Hk].
    destruct (set_refines d k v len) as (a & d' & H1 & H2 & H3 & H4 & H5 & _); [done..|].
    exists d'. by rewrite bind_run, H1.
  - exists d. rewrite bind_run. unfold dictionary_set, dictionary_set_and_acquire_item.
    by rewrite Hn.
  - apply good_name in Hn as [-> Hk].
    destruct (del_refines d k) as (d' & H1 & H2 & H3 & H4 & _); [done..|].
    exists d'. by rewrite bind_run, H1.
  - exists d. rewrite bind_run. unfold dictionary_del. by rewrite Hn.
Qed.

Lemma ops_refines ops : ∀ d,
  wf d → d_destroyed d = false → d_hooks d = None →
  opt_dont_overwrite (d_options d) = false →
  let '(a, l) := ops_spec (opt_add_in_front (d_options d)) (stored_value d) ops (live d) in
  ∃ d', ops_run ops d = Ok (a, d') ∧ wf d' ∧ same_config d d' ∧ live d' = l.
Proof.
  induction ops as [|o ops IH]; intros d Hwf Hdes Hh Ho; cbn [ops_spec ops_run].
  { exists d. done. }
  pose proof (op_refines d o Hwf Hdes Hh Ho) as Hop.
  destruct (op_spec _ _ o (live d)) as [a l]. destruct Hop as (d1 & H1 & H2 & H3 & <-).
  assert (Hst : ∀ front l, ops_spec front (stored_value d) ops l =
                           ops_spec front (stored_value d1) ops l).
  { assert (He : ∀ v len, stored_value d v len = stored_value d1 v len)
      by (intros; symmetry; by apply stored_value_config).
    clear -He. induction ops as [|o ops IH]; intros front l; cbn [ops_spec]; [done|].
    assert (op_spec front (stored_value d) o l = op_spec front (stored_value d1) o l) as ->.
    { destruct o; cbn; [done| |done]. by rewrite He. }
    destruct (op_spec _ _ o l). by rewrite IH. }
  destruct H3 as [Ho1 Hd1 Hh1].
  specialize (IH d1 H2). rewrite Hd1, Hh1, Ho1 in IH. specialize (IH Hdes Hh Ho).
  rewrite Hst. destruct (ops_spec _ _ ops (live d1)) as [r l'].
  destruct IH as (d2 & G1 & G2 & [] & G4). exists d2.
  rewrite bind_run, H1, bind_run, G1. split; [done|]. split; [done|]. split; [|done].
  split; congruence.
Qed.

(** A dictionary just created. *)
Definition dict_new (o : dict_options) : dict := Dict o false judy_empty [] 0 None 0 0 0 0.

Lemma wf_new o : wf (dict_new o).
Proof.
  split; cbn; try done; try by constructor. intros k a. rewrite judy_get_empty.
  split; [done|]. intros (it & Hin & _). by apply not_elem_of_nil in Hin.
Qed.

Lemma create_advanced_new o fixed (s : store V J) :
  s_waiting s = [] →
  dictionary_create_advanced o fixed s =
  Ok (s_fresh s, Store (<[s_fresh s := dict_new
    (DictOptions (opt_single_threaded o) (opt_value_link o) (opt_name_link o)
       (opt_dont_overwrite o) (opt_add_in_front o) (negb (fixed =? 0)))]> (s_dicts s))
    [] (S (s_fresh s))).
Proof.
  intros Hw. unfold dictionary_create_advanced, cleanup_destroyed_dictionaries.
  rewrite bind_run, bind_get, Hw. cbn. unfold mbind, cst_bind, cget, cput, cmodify. done.
Qed.
End traces.
Arguments dict_op : clear implicits.
Arguments dict_answer : clear implicits.

(** ** The claims *)

Section claims.
Context {V : Type} `{!CVal V} {J : Type} `{!JudyHS J}.
Abbreviation dict := (dict V J).
Implicit Types (d : dict).

(** C3. Every sequence of get, set and delete on a dictionary that satisfies
    the invariant runs to completion without undefined behaviour, returns
    exactly what the same sequence returns on an ordered association list of
    names and values, and ends in a dictionary that satisfies the invariant
    and represents the list the abstract run ended with. *)
Theorem dictionary_refines_alist ops d :
  wf d → d_destroyed d = false → d_hooks d = None →
  opt_dont_overwrite (d_options d) = false →
  ∃ d', ops_run ops d =
          Ok ((ops_spec (opt_add_in_front (d_options d)) (stored_value d) ops (live d)).1, d') ∧
        wf d' ∧
        live d' = (ops_spec (opt_add_in_front (d_options d)) (stored_value d) ops (live d)).2.
Proof.
  intros Hwf Hdes Hh Ho. pose proof (ops_refines ops d Hwf Hdes Hh Ho) as H.
  destruct (ops_spec _ _ ops (live d)). naive_solver.
Qed.

(** C10. The garbage collector frees every item that is deleted and
    unreferenced, and nothing else: afterwards no such item is linked, the
    live items are the same, in the same order, and every item somebody still
    references is still there. *)
Theorem gc_frees_exactly_the_dead d :
  wf d → Z.of_nat (length (d_items d)) < 2 ^ 31 →
  ∃ d', garbage_collect_pending_deletes d = Ok (tt, d') ∧ wf d' ∧
    (∀ it, it ∈ d_items d' ↔ it ∈ d_items d ∧ is_pending it = false) ∧
    live d' = live d.
Proof.
  intros Hwf Hlen.
  destruct (gc_wf d Hwf) as (d' & Hgc & Hwf' & _ & _ & _ & _ & Hl & Hsub & Hkeep).
  exists d'. split; [done|]. split; [done|]. split; [|unfold live; by rewrite Hl].
  assert (Hp := wf_pending d Hwf). pose proof (countb_nonneg is_pending (d_items d)).
  pose proof (countb_le is_pending (d_items d)). rewrite i32_small in Hp by lia.
  assert (Hzero : countb is_pending (d_items d') = 0).
  { rewrite (gc_eq d Hwf) in Hgc. destruct (0 <? d_pending d) eqn:E.
    - injection Hgc as <-. cbn. apply Z.ltb_lt in E. by apply gc_keep_all; [lia|].
    - injection Hgc as <-. apply Z.ltb_ge in E. lia. }
  intros it. split.
  - intros Hin. split; [by eapply elem_of_sublist|].
    destruct (is_pending it) eqn:E; [|done].
    assert (Hf : it ∈ List.filter is_pending (d_items d')) by (by apply elem_of_filterb).
    unfold countb in Hzero. destruct (List.filter is_pending (d_items d')); [|done].
    by apply not_elem_of_nil in Hf.
  - intros [Hin Hpe]. by apply Hkeep.
Qed.

(** C8. Traversing a dictionary for reading, with a body that does not touch
    that dictionary, runs the body once on the value of each live item, in the
    order of the list, and leaves the dictionary exactly as it was, reference
    counts and counters included, for any number of deleted items in between. *)
Theorem traversal_visits_live_items {P : Type} (getd : P → option dict)
    (putd : dict → P → P) (body : option V → cst P unit) d p fuel :
  (∀ d p, getd (putd d p) = Some d) →
  (∀ d d' p, putd d (putd d' p) = putd d p) →
  (∀ d p, getd p = Some d → putd d p = p) →
  (∀ v d p, body v (putd d p) = put_res putd d (body v p)) →
  getd p = Some d → wf d → d_destroyed d = false → refs_small (d_items d) →
  (length (live d) ≤ fuel)%nat →
  dfe_foreach (run_in getd putd) LOCK_READ body fuel p =
  put_res putd d (for_each body (snd <$> live d) p).
Proof. intros. by apply dfe_foreach_read. Qed.

Lemma find_item_notin (l : list (item V)) a : a ∉ (i_addr <$> l) → find_item l a = None.
Proof.
  unfold find_item. induction l as [|x l IH]; intros Hn; [done|].
  rewrite fmap_cons in Hn. apply not_elem_of_cons in Hn as [Hne Hn]. simpl.
  destruct (Nat.eqb_spec (i_addr x) a); [congruence|auto].
Qed.
Lemma gc_keep_first p (y : item V) l :
  is_pending y = true → NoDup (i_addr <$> (y :: l)) →
  i_addr y ∉ (i_addr <$> (gc_keep p (y :: l)).1).
Proof.
  intros Hy [Hn _]%NoDup_cons Hin. apply Hn.
  assert (Hs : (gc_keep p (y :: l)).1 `sublist_of` l).
  { simpl. rewrite Hy. case_match; [done|apply gc_keep_sublist]. }
  eapply elem_of_sublist; [exact Hin|]. by apply sublist_map.
Qed.

(** C40. [dictionary_flush()] keeps a pointer to the next item across the
    deletion of the current one, and that deletion runs the garbage collector.
    Whenever the first item of the list is live and unreferenced and the second
    is deleted and waits to be collected, the second is freed by the deletion
    of the first, and the flush then reads freed memory. *)
Theorem flush_reads_freed_item d (x y : item V) l :
  wf d → d_hooks d = None → d_items d = x :: y :: l →
  Z.of_nat (length (d_items d)) < 2 ^ 31 →
  i_deleted x = false → i_refcount x = 0 → is_pending y = true →
  dictionary_flush d = UB UB_oob.
Proof.
  intros Hwf Hh Hi Hlen Hx Hr Hy. assert (Hnd := wf_nodup d Hwf).
  assert (Hj : judy_get (d_index d) (i_name x) = Some (i_addr x)).
  { apply (wf_index d Hwf). exists x. rewrite Hi, elem_of_cons. auto. }
  destruct (del_unreferenced d [] x (y :: l)) as (d' & Hdel & Hgc); [done..|].
  assert (Hwf' := wf_unlink d [] x (y :: l) Hwf Hi Hx Hr).
  rewrite (gc_eq _ Hwf') in Hgc.
  assert (Hpos : (0 <? d_pending (bump 1 (-1) 0 0 (set_items ([] ++ y :: l)
             (set_index (judy_del (d_index d) (i_name x)) d)))) = true).
  { apply Z.ltb_lt. rewrite (wf_pending _ Hwf'). cbn [app set_items bump d_items].
    pose proof (countb_le is_pending (y :: l)). rewrite Hi in Hlen. simpl in Hlen.
    rewrite i32_small; rewrite countb_cons, Hy in *;
      pose proof (countb_nonneg is_pending l); simpl in *; lia. }
  rewrite Hpos in Hgc. injection Hgc as Hd'.
  unfold dictionary_flush. rewrite bind_get, bind_run, Hi.
  cbn [head fmap option_fmap option_map length flush_loop].
  rewrite bind_run, (item_at_mid d [] (y :: l) x Hi Hnd).
  rewrite bind_run, (item_next_mid d [] (y :: l) x Hi Hnd).
  rewrite bind_run, Hdel. cbn [head fmap option_fmap option_map flush_loop].
  rewrite bind_run. unfold item_at. rewrite find_item_notin; [done|].
  rewrite <- Hd'. cbn [set_pending set_items d_items app bump].
  apply gc_keep_first; [done|]. rewrite Hi, fmap_cons in Hnd. by apply NoDup_cons in Hnd as [_ ?].
Qed.
End claims.

(** ** Witnesses and concrete runs *)

#[global] Instance cval_Z : CVal Z := {| cv_copy v _ := v; cv_zero _ := 0 |}.

Definition ex_options : dict_options := DictOptions true false false false false false.
Definition ex_dict : dict Z (gmap string nat) := dict_new ex_options.
Definition ex_ops : list (dict_op Z) :=
  [OpSet (Some "a") (Some 1) 8; OpSet (Some "b") (Some 2) 8; OpSet (Some "a") (Some 3) 8;
   OpGet (Some "a"); OpDel (Some "a"); OpDel (Some "a"); OpGet (Some "a"); OpGet None].

Lemma dictionary_refines_alist_witness :
  ∃ d', ops_run ex_ops ex_dict =
    Ok ([AnsValue (Some 1); AnsValue (Some 2); AnsValue (Some 3); AnsValue (Some 3);
         AnsBool true; AnsBool false; AnsValue None; AnsValue None], d') ∧
    wf d' ∧ live d' = [("b", Some 2)].
Proof.
  exact (dictionary_refines_alist ex_ops ex_dict (wf_new _) eq_refl eq_refl eq_refl).
Defined.

(** A dictionary with a deleted item nobody references any more. *)
Definition ex_pending : cst (dict Z (gmap string nat)) unit :=
  _ ← dictionary_set (Some "a") (Some 1) 8;
  _ ← dictionary_set (Some "b") (Some 2) 8;
  r ← dictionary_get_and_acquire_item (Some "b");
  _ ← dictionary_del (Some "b");
  dictionary_acquired_item_release r.
Definition ex_pending_dict : dict Z (gmap string nat) :=
  Dict ex_options false {["a" := 0%nat]}
    [Item 0 "a" 1 0 false false (Some 1) 8 1 false;
     Item 1 "b" 1 0 true false (Some 2) 8 1 true] 2 None 3 1 0 1.

Lemma ex_pending_run : ex_pending ex_dict = Ok (tt, ex_pending_dict).
Proof. vm_compute. reflexivity. Qed.

Lemma ex_pending_wf : wf ex_pending_dict.
Proof.
  split; cbn; try done.
  - repeat constructor; set_solver.
  - repeat constructor; lia.
  - repeat constructor; cbn; lia.
  - intros k a. split.
    + intros [<- <-]%lookup_singleton_Some. eexists. split; [apply elem_of_cons; by left|done].
    + intros (it & [->|[->|Hin%not_elem_of_nil]%elem_of_cons]%elem_of_cons & <- & <- & Hd);
        [apply lookup_singleton_eq|done|done].
Qed.

Lemma gc_frees_exactly_the_dead_witness :
  ∃ d', garbage_collect_pending_deletes ex_pending_dict = Ok (tt, d') ∧ wf d' ∧
    (∀ it, it ∈ d_items d' ↔ it ∈ d_items ex_pending_dict ∧ is_pending it = false) ∧
    live d' = [("a", Some 1)].
Proof. exact (gc_frees_exactly_the_dead ex_pending_dict ex_pending_wf eq_refl). Defined.

(** A traversal that collects the values it is given. *)
Abbreviation ex_state := (dict Z (gmap string nat) * list (option Z))%type.
Definition ex_body (v : option Z) : cst ex_state unit :=
  cmodify (fun p => (p.1, app p.2 [v])).

Lemma traversal_visits_live_items_witness :
  dfe_foreach (run_in (fun p : ex_state => Some p.1) (fun d p => (d, p.2))) LOCK_READ
    ex_body 5 (ex_pending_dict, []) = Ok (tt, (ex_pending_dict, [Some 1])).
Proof.
  rewrite (traversal_visits_live_items (fun p : ex_state => Some p.1)
             (fun d p => (d, p.2)) ex_body ex_pending_dict (ex_pending_dict, []) 5);
    [reflexivity|done|done| |done|done|apply ex_pending_wf|done| |cbn; lia].
  - intros d [d' l] [= <-]. done.
  - repeat constructor; cbn; lia.
Defined.

Lemma flush_reads_freed_item_witness : dictionary_flush ex_pending_dict = UB UB_oob.
Proof.
  apply (flush_reads_freed_item ex_pending_dict
           (Item 0 "a" 1 0 false false (Some 1) 8 1 false)
           (Item 1 "b" 1 0 true false (Some 2) 8 1 true) []);
    [apply ex_pending_wf|done|done|cbn; lia|done|done|done].
Defined.
