(* ===== verification/Plugin.v ===== *)
(** * upsd_plugin.c

    The whole program: command line, the conversation with upsd, the three
    dictionaries, the lines printed for netdata, the main loop, the eviction
    of UPSes that disappeared and the clean-up.

    The NUT client library, the kernel and the signals are parameters (record
    [nut_client], [kernel] of Clocks.v, and the functions of [world]); [pow] is
    the C library's.  Standard output is the list of the lines printed. *)

From S2P Require Import Prelude CString Double Inlined Status Charts Clocks Dictionary.
#[local] Open Scope string_scope.
#[local] Open Scope Z_scope.

Definition PLUGIN_UPSD_NAME : string := "upsd.plugin".
Definition NETDATA_PLUGIN_EXIT_AND_RESTART : Z := 0.
Definition NETDATA_PLUGIN_EXIT_AND_DISABLE : Z := 1.
Definition NETDATA_CLABEL_SOURCE_AUTO : Z := 1.
Definition NETDATA_PLUGIN_PRECISION : Z := 100.
Definition EXIT_SUCCESS : Z := 0.
Definition EXIT_FAILURE : Z := 1.

(** libupsclient: a return code of -1, or the words of the answer.  The plugin
    lists on one connection, [ups1], and asks on another, [ups2].  Listings are by
    the number of calls made on [ups1] before, values by the number of calls made
    on [ups1] and on [ups2]. *)
Record nut_client := NutClient {
  upscli_init : Z;
  upscli_connect : nat → Z;
  upscli_list_start : nat → Z;
  upscli_list_next : nat → option (list string);
  upscli_get : nat → nat → string → string → option (list string);
}.

(** What the process cannot know in advance: [exit_initiated_get()] and a
    broken pipe on stdout, by the number of times they were tested. *)
Record world := World {
  w_nut : nut_client;
  w_kernel : kernel;
  w_exit : nat → bool;
  w_epipe : nat → bool;
}.

(** The [void *] values of the dictionaries. *)
Inductive pval : Type :=
| VStr (s : string)          (** a string the dictionary owns *)
| VVars (h : nat)            (** a [DICTIONARY *] *)
| VSeen                      (** [(void * )true] *)
| VChart (c : nd_chart).     (** a pointer into [nd_charts] *)

#[global] Instance cval_pval : CVal pval := {|
  cv_copy v n := match v with VStr s => VStr (String.substring 0 (Z.to_nat n) s) | v => v end;
  cv_zero n := VStr "";
|}.

(** ** Command line *)

(** The first call of [getopt(argc, argv, "hv")]: the option it finds, or the
    operands.  glibc looks past operands for options ([permute]), POSIX and
    musl stop at the first operand. *)
Inductive opt_result : Type := OptH | OptV | OptOther | OptEnd (operands : list string).
Fixpoint getopt_first (permute : bool) (seen args : list string) : opt_result :=
  match args with
  | [] => OptEnd seen
  | a :: rest =>
      match a with
      | String "-" (String "-" EmptyString) => OptEnd (app seen rest)
      | String "-" (String "h" _) => OptH
      | String "-" (String "v" _) => OptV
      | String "-" (String _ _) => OptOther
      | _ => if permute then getopt_first permute (app seen [a]) rest
             else OptEnd (app seen args)
      end
  end%char.

(** Every option leads to [exit()], so [getopt] runs once.  [inl]: the exit
    status; [inr]: the collection frequency, an [unsigned long]. *)
Definition parse_command_line (permute : bool) (args : list string) : cres (Z + Z) :=
  match getopt_first permute [] args with
  | OptH => Ok (inl EXIT_SUCCESS)
  | OptV => Ok (inl EXIT_SUCCESS)
  | OptOther => Ok (inl EXIT_FAILURE)
  | OptEnd [] => Ok (inr 1)
  | OptEnd (a :: _) =>
      match a with
      | EmptyString => Ok (inl EXIT_FAILURE)
      | String c _ =>
          if negb (isdigit c) then Ok (inl EXIT_FAILURE)
          else
            n ← str2i a;
            let netdata_update_every := u64 n in
            if (netdata_update_every <=? 0) || (86400 <=? netdata_update_every)
            then Ok (inl EXIT_FAILURE)
            else Ok (inr netdata_update_every)
      end
  end.

(** ** Output lines *)

Definition clean_char (c : ascii) : ascii :=
  if Ascii.eqb c " " || Ascii.eqb c "." then "_"%char else c.
Definition clean_name (name : string) : string := str_map clean_char name.

Definition BEGIN_line (type name : string) (usec : Z) : string :=
  "BEGIN upsd_" +:+ type +:+ "." +:+ name +:+ " " +:+ print_u usec.
Definition SET_line (name : string) (value : Z) : string :=
  "SET " +:+ name +:+ " = " +:+ print_d value.
Definition END_line : string := "END".

Section plugin.
Context {J : Type} `{!JudyHS J} (pow : dbl → dbl → dbl) (W : world).

Record pstate := PState {
  p_store : store pval J;
  p_ups_vars : nat;                   (** [nd_ups_vars] *)
  p_ups_seen : nat;                   (** [nd_ups_seen] *)
  p_ups_name : nat;                   (** [nd_ups_name] *)
  p_update_every : Z;
  p_lists : nat;                      (** calls on [ups1] so far *)
  p_calls : nat;                      (** calls on [ups2] so far *)
  p_tests : nat;                      (** tests of [w_exit] and [w_epipe] so far *)
  p_clocks : clocks;
  p_out : list string;
}.

Definition with_store (s : store pval J) (p : pstate) : pstate :=
  PState s (p_ups_vars p) (p_ups_seen p) (p_ups_name p) (p_update_every p) (p_lists p) (p_calls p)
    (p_tests p) (p_clocks p) (p_out p).
Definition with_calls (n : nat) (p : pstate) : pstate :=
  PState (p_store p) (p_ups_vars p) (p_ups_seen p) (p_ups_name p) (p_update_every p) (p_lists p) n
    (p_tests p) (p_clocks p) (p_out p).
Definition with_lists (n : nat) (p : pstate) : pstate :=
  PState (p_store p) (p_ups_vars p) (p_ups_seen p) (p_ups_name p) (p_update_every p) n (p_calls p)
    (p_tests p) (p_clocks p) (p_out p).
Definition with_tests (n : nat) (p : pstate) : pstate :=
  PState (p_store p) (p_ups_vars p) (p_ups_seen p) (p_ups_name p) (p_update_every p)
    (p_lists p) (p_calls p) n (p_clocks p) (p_out p).
Definition with_clocks (c : clocks) (p : pstate) : pstate :=
  PState (p_store p) (p_ups_vars p) (p_ups_seen p) (p_ups_name p) (p_update_every p)
    (p_lists p) (p_calls p) (p_tests p) c (p_out p).
Definition with_out (o : list string) (p : pstate) : pstate :=
  PState (p_store p) (p_ups_vars p) (p_ups_seen p) (p_ups_name p) (p_update_every p)
    (p_lists p) (p_calls p) (p_tests p) (p_clocks p) o.

(** Reaching the parts of the state. *)
Definition p_getd (h : nat) (p : pstate) : option (dict pval J) := store_get h (p_store p).
Definition p_putd (h : nat) (d : dict pval J) (p : pstate) : pstate :=
  with_store (store_put h d (p_store p)) p.
Definition on {A} (h : nat) (m : cst (dict pval J) A) : cst pstate A :=
  run_in (p_getd h) (p_putd h) m.
Definition on_store {A} (m : cst (store pval J) A) : cst pstate A := fun p =>
  match m (p_store p) with
  | Ok (a, s) => Ok (a, with_store s p)
  | UB k => UB k
  | NoFuel => NoFuel
  end.
Definition on_clocks {A} (m : cst clocks A) : cst pstate A := fun p =>
  match m (p_clocks p) with
  | Ok (a, c) => Ok (a, with_clocks c p)
  | UB k => UB k
  | NoFuel => NoFuel
  end.
Definition puts (line : string) : cst pstate unit :=
  cmodify (fun p => with_out (app (p_out p) [line]) p).
Definition list_call {A} (f : nat → A) : cst pstate A := fun p =>
  Ok (f (p_lists p), with_lists (S (p_lists p)) p).
Definition nut_call {A} (f : nat → nat → A) : cst pstate A := fun p =>
  Ok (f (p_lists p) (p_calls p), with_calls (S (p_calls p)) p).
Definition world_test (f : nat → bool) : cst pstate bool := fun p =>
  Ok (f (p_tests p), with_tests (S (p_tests p)) p).

(** [answer[0][i]] *)
Definition answer_at (l : list string) (i : nat) : cst pstate string :=
  match l !! i with Some s => mret s | None => cfail UB_oob end.

(** ** Small functions *)

Definition nut_get_var (ups_name var_name : string) : cst pstate (option string) :=
  r ← nut_call (fun i n => upscli_get (w_nut W) i n ups_name var_name);
  match r with
  | None => mret None
  | Some answer => v ← answer_at answer 3; mret (Some v)
  end.

Definition send_BEGIN (type name : string) (usec : Z) : cst pstate unit :=
  puts (BEGIN_line type name usec).
Definition send_SET (name : string) (value : Z) : cst pstate unit :=
  puts (SET_line name value).
Definition send_END : cst pstate unit := puts END_line.

(** [send_SET(name, x)] with a floating [x]: the conversion to [int64_t]. *)
Definition send_SET_double (name : string) (x : dbl) : cst pstate unit :=
  v ← clift (d_to_i64 x); send_SET name v.

Definition set_seen (ups_name : option string) (b : bool) : cst pstate unit :=
  p ← cget;
  _ ← on (p_ups_seen p) (dictionary_set ups_name (if b then Some VSeen else None) 0);
  mret tt.
Definition was_seen (ups_name : option string) : cst pstate bool :=
  p ← cget;
  v ← on (p_ups_seen p) (dictionary_get ups_name);
  mret (match v with Some _ => true | None => false end).

(** [str2ndd(value, NULL)] of a pointer that may be null. *)
Definition str2ndd_ptr (value : option string) : cst pstate dbl :=
  match value with
  | Some s => mret (fst (str2ndd pow s))
  | None => cfail UB_null
  end.
Definition precision : dbl := d_of_Z NETDATA_PLUGIN_PRECISION.

(** ** Metrics *)

Definition status_dimensions : list (string * flag) :=
  [("on_line", OL); ("on_battery", OB); ("low_battery", LB); ("high_battery", HB);
   ("replace_battery", RB); ("charging", CHRG); ("discharging", DISCHRG);
   ("bypass", BYPASS); ("calibration", CAL); ("offline", OFF); ("overloaded", OVER);
   ("trim_input_voltage", TRIM); ("boost_input_voltage", BOOST);
   ("forced_shutdown", FSD); ("other", OTHER)].

Fixpoint send_status_dimensions (st : nut_ups_status) (l : list (string * flag))
  : cst pstate unit :=
  match l with
  | [] => mret tt
  | (name, f) :: l =>
      _ ← send_SET name (if st_get st f then 1 else 0);
      send_status_dimensions st l
  end.

Definition send_metric_ups_status (ups_name clean_ups_name : string) (dt : Z)
  : cst pstate unit :=
  ups_status_string ← nut_get_var ups_name "ups.status";
  status ← clift (parse_status ups_status_string);
  _ ← send_BEGIN clean_ups_name "status" dt;
  _ ← send_status_dimensions status status_dimensions;
  send_END.

Definition send_metric_ups_realpower (ups_name clean_ups_name : string) (dt : Z)
  : cst pstate unit :=
  let send realpower :=
    _ ← send_BEGIN clean_ups_name "load_usage" dt;
    _ ← send_SET_double "load_usage" realpower;
    send_END in
  value ← nut_get_var ups_name "ups.realpower";
  match value with
  | Some v =>
      x ← str2ndd_ptr (Some v);
      send (d_mul x precision)
  | None =>
      value ← nut_get_var ups_name "ups.load";
      match value with
      | None => mret tt
      | Some load =>
          x ← str2ndd_ptr (Some load);
          let realpower := d_div x (d_of_Z 100) in
          value ← nut_get_var ups_name "ups.realpower.nominal";
          match value with
          | None => mret tt
          | Some nominal =>
              y ← str2ndd_ptr (Some nominal);
              send (d_mul realpower (d_mul y precision))
          end
      end
  end.

(** The body of the loop over the charts of a UPS. *)
Definition send_metric_chart (ups_name clean_ups_name : string) (dt : Z) (chart : option pval)
  : cst pstate unit :=
  match chart with
  | Some (VChart chart) =>
      value ← nut_get_var ups_name (nut_variable chart);
      x ← str2ndd_ptr value;
      let nut_value_as_num := d_mul x precision in
      _ ← send_BEGIN clean_ups_name (chart_id chart) dt;
      _ ← send_SET_double (chart_dimension chart) nut_value_as_num;
      send_END
  | _ => cfail UB_null
  end.

(** ** Registration *)

(** The first block quotes nothing but the value, the second quotes all. *)
Definition label_sources : list (string * string) :=
  [("battery.type", "battery_type"); ("device.model", "device_model");
   ("device.serial", "device_serial"); ("device.mfr", "device_manufacturer");
   ("device.type", "device_type")].

Fixpoint send_labels (ups_name : string) (line : string → string → string)
    (l : list (string * string)) : cst pstate unit :=
  match l with
  | [] => mret tt
  | (variable, label) :: l =>
      nut_value ← nut_get_var ups_name variable;
      _ ← match nut_value with
          | Some v => puts (line label v)
          | None => mret tt
          end;
      send_labels ups_name line l
  end.
Definition status_label_line (label v : string) : string :=
  "CLABEL " +:+ label +:+ " '" +:+ v +:+ "' " +:+ print_u NETDATA_CLABEL_SOURCE_AUTO.
Definition chart_label_line (label v : string) : string :=
  "CLABEL '" +:+ label +:+ "' '" +:+ v +:+ "' '" +:+ print_u NETDATA_CLABEL_SOURCE_AUTO +:+ "'".

Definition status_chart_line (clean_ups_name : string) (update_every : Z) : string :=
  "CHART 'upsd_" +:+ clean_ups_name +:+
  ".status' '' 'UPS status' 'status' 'ups' 'upsd.ups_status' 'line' " +:+
  print_u NETDATA_CHART_PRIO_UPSD_UPS_STATUS +:+ " " +:+ print_u update_every.
Definition chart_line (clean_ups_name : string) (chart : nd_chart) (update_every : Z) : string :=
  "CHART 'upsd_" +:+ clean_ups_name +:+ "." +:+ chart_id chart +:+ "' '' '" +:+
  chart_title chart +:+ "' '" +:+ chart_units chart +:+ "' '" +:+ chart_family chart +:+
  "' '" +:+ chart_context chart +:+ "' '" +:+ chart_type chart +:+ "' '" +:+
  print_u (chart_priority chart) +:+ "' '" +:+ print_u update_every +:+ "' '' '" +:+
  PLUGIN_UPSD_NAME +:+ "'".
Definition status_dimension_line (name : string) : string :=
  "DIMENSION " +:+ name +:+ " '' '' '' " +:+ print_u NETDATA_PLUGIN_PRECISION.
Definition chart_dimension_line (chart : nd_chart) : string :=
  "DIMENSION '" +:+ chart_dimension chart +:+ "' '' '' '' " +:+
  print_u NETDATA_PLUGIN_PRECISION.

Fixpoint puts_all (l : list string) : cst pstate unit :=
  match l with
  | [] => mret tt
  | line :: l => _ ← puts line; puts_all l
  end.

(** Is the chart collected for this UPS?  A null variable other than
    'ups.realpower' is not; 'ups.realpower' is when it can be calculated. *)
Definition chart_available (ups_name : string) (chart : nd_chart) : cst pstate bool :=
  nut_value ← nut_get_var ups_name (nut_variable chart);
  match nut_value with
  | Some _ => mret true
  | None =>
      if negb (streq (Some (nut_variable chart)) (Some "ups.realpower")) then mret false
      else
        load ← nut_get_var ups_name "ups.load";
        match load with
        | None => mret false
        | Some _ =>
            nominal ← nut_get_var ups_name "ups.realpower.nominal";
            mret (match nominal with None => false | Some _ => true end)
        end
  end.

Fixpoint register_charts (ups_name clean_ups_name : string) (ups_vars : nat)
    (charts : list nd_chart) : cst pstate unit :=
  match charts with
  | [] => mret tt
  | chart :: charts =>
      b ← chart_available ups_name chart;
      _ ← (if (b : bool) then
             p ← cget;
             _ ← puts (chart_line clean_ups_name chart (p_update_every p));
             _ ← send_labels ups_name chart_label_line label_sources;
             _ ← puts ("CLABEL 'ups_name' '" +:+ ups_name +:+ "' " +:+
                       print_u NETDATA_CLABEL_SOURCE_AUTO);
             _ ← puts "CLABEL_COMMIT";
             _ ← puts (chart_dimension_line chart);
             _ ← on ups_vars (dictionary_set (Some (nut_variable chart)) (Some (VChart chart)) 0);
             mret tt
           else mret tt);
      register_charts ups_name clean_ups_name ups_vars charts
  end.

Definition vars_options : dict_options := DictOptions true true true false false true.
Definition register_ups (ups_name : string) : cst pstate unit :=
  p ← cget;
  r ← on (p_ups_name p) (dictionary_set (Some ups_name) (Some (VStr ups_name))
           (Z.of_nat (String.length ups_name) + 1));
  match r with
  | (Some a, Some (VStr s)) =>
      let clean_ups_name := clean_name s in
      _ ← on (p_ups_name p) (value_write a (VStr clean_ups_name));
      _ ← puts (status_chart_line clean_ups_name (p_update_every p));
      _ ← send_labels ups_name status_label_line label_sources;
      _ ← puts ("CLABEL ups_name '" +:+ ups_name +:+ "' " +:+
                print_u NETDATA_CLABEL_SOURCE_AUTO);
      _ ← puts "CLABEL_COMMIT";
      _ ← puts_all (status_dimension_line <$> (fst <$> status_dimensions));
      ups_vars ← on_store (dictionary_create_advanced vars_options 0);
      _ ← register_charts ups_name clean_ups_name ups_vars nd_charts;
      _ ← on (p_ups_vars p) (dictionary_set (Some ups_name) (Some (VVars ups_vars)) 0);
      mret tt
  | _ => cfail UB_null
  end.

(** ** Loops over dictionaries *)

(** One more than the items of the dictionary bounds its traversals here. *)
Definition dfe_read (h : nat) (body : option pval → cst pstate unit) : cst pstate unit :=
  p ← cget;
  let n := match p_getd h p with Some d => S (length (d_items d)) | None => 0%nat end in
  dfe_foreach (on h) LOCK_READ body n.

(** ** One UPS of the list *)

Definition collect_ups (ups_name : string) (dt : Z) : cst pstate unit :=
  p ← cget;
  clean ← on (p_ups_name p) (dictionary_get (Some ups_name));
  clean ← match clean with
          | Some v => mret (Some v)
          | None =>
              _ ← register_ups ups_name;
              on (p_ups_name p) (dictionary_get (Some ups_name))
          end;
  _ ← set_seen (Some ups_name) true;
  match clean with
  | Some (VStr clean_ups_name) =>
      _ ← send_metric_ups_status ups_name clean_ups_name dt;
      _ ← send_metric_ups_realpower ups_name clean_ups_name dt;
      ups_vars ← on (p_ups_vars p) (dictionary_get (Some ups_name));
      match ups_vars with
      | Some (VVars h) => dfe_read h (send_metric_chart ups_name clean_ups_name dt)
      | _ => mret tt
      end
  | _ => cfail UB_null
  end.

(** The [for (;;)] over [upscli_list_next()]: [Some code] when [main] returns. *)
Fixpoint list_loop (fuel : nat) (act : string → cst pstate unit) : cst pstate (option Z) :=
  match fuel with
  | O => fun _ => NoFuel
  | S fuel =>
      r ← list_call (upscli_list_next (w_nut W));
      match r with
      | None => mret (Some NETDATA_PLUGIN_EXIT_AND_DISABLE)
      | Some answer =>
          a0 ← answer_at answer 0;
          if streq (Some "END") (Some a0) then mret None
          else
            ups_name ← answer_at answer 1;
            _ ← act ups_name;
            list_loop fuel act
      end
  end.

(** ** Eviction *)

Definition str_of (v : option pval) : option string :=
  match v with Some (VStr s) => Some s | _ => None end.

Definition forget_ups (ups_name : option string) : cst pstate unit :=
  p ← cget;
  ups_vars ← on (p_ups_vars p) (dictionary_get ups_name);
  _ ← on_store (dictionary_destroy
        (match ups_vars with Some (VVars h) => Some h | _ => None end));
  _ ← on (p_ups_vars p) (dictionary_del ups_name);
  _ ← on (p_ups_seen p) (dictionary_del ups_name);
  _ ← on (p_ups_name p) (dictionary_del ups_name);
  mret tt.

Definition evict_body (v : option pval) : cst pstate unit :=
  let ups_name := str_of v in
  b ← was_seen ups_name;
  if (b : bool) then set_seen ups_name false else forget_ups ups_name.

Definition evict_unseen : cst pstate unit :=
  p ← cget; dfe_read (p_ups_name p) evict_body.

Definition cleanup : cst pstate Z :=
  p ← cget;
  _ ← dfe_read (p_ups_name p) (fun v => forget_ups (str_of v));
  _ ← on_store (dictionary_destroy (Some (p_ups_vars p)));
  _ ← on_store (dictionary_destroy (Some (p_ups_seen p)));
  _ ← on_store (dictionary_destroy (Some (p_ups_name p)));
  mret NETDATA_PLUGIN_EXIT_AND_RESTART.

(** ** The main loop *)

Definition RESTART_AFTER : Z := 14400.

(** One turn of the loop: [None] to go on, [Some None] to [break],
    [Some (Some code)] to return. *)
Definition main_turn (fuel : nat) (started_t : Z) (hb : heartbeat)
  : cst pstate (option (option Z) * heartbeat) :=
  r ← on_clocks (heartbeat_next (w_kernel W) fuel hb);
  let '(dt, hb) := r in
  e ← world_test (w_exit W);
  if (e : bool) then mret (Some None, hb)
  else
    rc ← list_call (upscli_list_start (w_nut W));
    if rc =? -1 then mret (Some (Some NETDATA_PLUGIN_EXIT_AND_DISABLE), hb)
    else
      r ← list_loop fuel (fun ups_name => collect_ups ups_name dt);
      match r with
      | Some code => mret (Some (Some code), hb)
      | None =>
          epipe ← world_test (w_epipe W);
          if (epipe : bool) then mret (Some (Some NETDATA_PLUGIN_EXIT_AND_DISABLE), hb)
          else
            e ← world_test (w_exit W);
            if (e : bool) then mret (Some None, hb)
            else
              now ← on_clocks (now_monotonic_sec (w_kernel W));
              if RESTART_AFTER <? i64 (now - started_t) then mret (Some None, hb)
              else
                _ ← evict_unseen;
                mret (None, hb)
      end.

Fixpoint main_loop (turns fuel : nat) (started_t : Z) (hb : heartbeat)
  : cst pstate (option Z) :=
  match turns with
  | O => fun _ => NoFuel
  | S turns =>
      r ← main_turn fuel started_t hb;
      match r with
      | (Some r, _) => mret r
      | (None, hb) => main_loop turns fuel started_t hb
      end
  end.

Definition main_options : dict_options := DictOptions true true false false false true.
Definition name_options : dict_options := DictOptions true false false false false false.

(** The state [main()] works in, once the library constructor
    [clocks_init()] has run and the three dictionaries are created. *)
Definition create_dictionaries : cst (store pval J) (nat * nat * nat) :=
  vars ← dictionary_create_advanced main_options 0;
  seen ← dictionary_create_advanced main_options 0;
  names ← dictionary_create_advanced name_options 0;
  mret (vars, seen, names).
Definition main_init (update_every : Z) : cres (pstate) :=
  r ← create_dictionaries store_empty;
  c ← clocks_init (w_kernel W) clocks_start;
  let '(vars, seen, names, s) := r in
  Ok (PState s vars seen names update_every 0 0 0 (snd c) []).

Definition main_body (turns fuel : nat) : cst pstate Z :=
  if upscli_init (w_nut W) =? -1 then mret NETDATA_PLUGIN_EXIT_AND_DISABLE
  else if upscli_connect (w_nut W) 0 =? -1 then mret NETDATA_PLUGIN_EXIT_AND_DISABLE
  else if upscli_connect (w_nut W) 1 =? -1 then mret NETDATA_PLUGIN_EXIT_AND_DISABLE
  else
    rc ← list_call (upscli_list_start (w_nut W));
    if rc =? -1 then mret NETDATA_PLUGIN_EXIT_AND_DISABLE
    else
      r ← list_loop fuel register_ups;
      match r with
      | Some code => mret code
      | None =>
          started_t ← on_clocks (now_monotonic_sec (w_kernel W));
          p ← cget;
          hb ← on_clocks (heartbeat_init (w_kernel W) (u64 (p_update_every p * USEC_PER_SEC)));
          r ← main_loop turns fuel started_t hb;
          match r with
          | Some code => mret code
          | None => cleanup
          end
      end.

(** The program: exit status and standard output. *)
Definition main (permute : bool) (turns fuel : nat) (args : list string)
  : cres (Z * list string) :=
  r ← parse_command_line permute args;
  match r with
  | inl code => Ok (code, [])
  | inr update_every =>
      p ← main_init update_every;
      r ← main_body turns fuel p;
      Ok (fst r, p_out (snd r))
  end.

End plugin.
Arguments pstate : clear implicits.
