(* ===== verification/PluginSpec.v ===== *)
(** * Invariants of upsd.plugin

    What the three dictionaries of the plugin contain between two steps of
    [main()], and that registration, collection and eviction keep it. *)

From S2P Require Import Prelude CString Double Inlined Status Charts Clocks.
From S2P Require Import Dictionary DictionarySpec DictionaryThms Plugin.
#[local] Open Scope string_scope.
#[local] Open Scope list_scope.
#[local] Open Scope Z_scope.

(** ** Total correctness *)

(** [m] returns from every state of [P], in a state of [Q]. *)
Definition hoare {S A} (P : S → Prop) (m : cst S A) (Q : A → S → Prop) : Prop :=
  ∀ s, P s → ∃ a s', m s = Ok (a, s') ∧ Q a s'.

Lemma hoare_bind {S A B} (P : S → Prop) (m : cst S A) (f : A → cst S B) Q R :
  hoare P m Q → (∀ a, hoare (Q a) (f a) R) → hoare P (m ≫= f) R.
Proof.
  intros Hm Hf s Hs. destruct (Hm s Hs) as (a & s1 & H1 & H2).
  destruct (Hf a s1 H2) as (b & s2 & H3 & H4). exists b, s2.
  split; [|done]. by rewrite bind_run, H1.
Qed.
Lemma hoare_ret {S A} (P : S → Prop) (a : A) (Q : A → S → Prop) :
  (∀ s, P s → Q a s) → hoare P (mret a) Q.
Proof. intros H s Hs. exists a, s. auto. Qed.
Lemma hoare_get {S A} (P : S → Prop) (f : S → cst S A) Q :
  (∀ s, P s → hoare (fun s' => s' = s) (f s) Q) → hoare P (cget ≫= f) Q.
Proof. intros H s Hs. rewrite bind_get. by apply (H s Hs). Qed.
Lemma hoare_pre {S A} (P P' : S → Prop) (m : cst S A) Q :
  hoare P m Q → (∀ s, P' s → P s) → hoare P' m Q.
Proof. intros H Hp s Hs. apply H, Hp, Hs. Qed.
Lemma hoare_post {S A} (P : S → Prop) (m : cst S A) (Q Q' : A → S → Prop) :
  hoare P m Q → (∀ a s, Q a s → Q' a s) → hoare P m Q'.
Proof. intros H Hq s Hs. destruct (H s Hs) as (a & s' & H1 & H2). eauto. Qed.

Ltac mem := rewrite ?elem_of_cons in *; first [solve [auto 8] | tauto].

(** ** Names *)

Lemma clean_name_idem s : clean_name (clean_name s) = clean_name s.
Proof.
  unfold clean_name. induction s as [|c s IH]; simpl; [done|].
  f_equal; [|exact IH]. unfold clean_char.
  destruct (Ascii.eqb c " " || Ascii.eqb c ".") eqn:E; [done|]. by rewrite E.
Qed.
Lemma clean_name_nonempty s : s ≠ "" → clean_name s ≠ "".
Proof. by destruct s. Qed.
Lemma substring_all s n : (String.length s ≤ n)%nat → String.substring 0 n s = s.
Proof.
  revert n. induction s as [|c s IH]; intros [|n] Hn; simpl in *; try done; [lia|].
  f_equal. apply IH. lia.
Qed.

(** A property of the charts of each UPS that the invariant carries; that they
    are some of the table unless more is said. *)
Class charts_pred : Type := charts_ok : string → list nd_chart → Prop.
Definition table_charts : charts_pred := fun _ cs => cs `sublist_of` nd_charts.

Section spec.
Context {J : Type} `{!JudyHS J} (pow : dbl → dbl → dbl) (W : world).
Abbreviation pstate := (pstate J).
Abbreviation dict := (dict pval J).
Implicit Types (p : pstate) (d : dict).

(** *** Steps that leave the dictionaries alone *)

Record same_store p p' : Prop := {
  ss_store : p_store p' = p_store p;
  ss_vars : p_ups_vars p' = p_ups_vars p;
  ss_seen : p_ups_seen p' = p_ups_seen p;
  ss_name : p_ups_name p' = p_ups_name p;
  ss_every : p_update_every p' = p_update_every p;
  ss_lists : p_lists p' = p_lists p;
}.
#[local] Instance same_store_refl : Reflexive same_store.
Proof. by split. Qed.
#[local] Instance same_store_trans : Transitive same_store.
Proof. intros ??? [] []. split; by etrans. Qed.

(** [m] returns, without touching a dictionary, whatever the state. *)
Definition storeless {A} (m : cst pstate A) : Prop :=
  ∀ p, ∃ a p', m p = Ok (a, p') ∧ same_store p p'.

Lemma storeless_bind {A B} (m : cst pstate A) (f : A → cst pstate B) :
  storeless m → (∀ a, storeless (f a)) → storeless (m ≫= f).
Proof.
  intros Hm Hf p. destruct (Hm p) as (a & p1 & H1 & H2).
  destruct (Hf a p1) as (b & p2 & H3 & H4). exists b, p2.
  rewrite bind_run, H1. split; [done|by etrans].
Qed.
Lemma storeless_ret {A} (a : A) : storeless (mret a).
Proof. intros p. by exists a, p. Qed.
Lemma bind_puts {A} line (f : unit → cst pstate A) p :
  (puts line ≫= f) p = f tt (with_out (p_out p ++ [line]) p).
Proof. done. Qed.
Lemma storeless_puts line : storeless (puts line).
Proof. intros p. eexists _, _. split; [done|]. by split. Qed.
Lemma storeless_puts_all l : storeless (puts_all l).
Proof.
  induction l as [|x l IH]; cbn [puts_all]; [apply storeless_ret|].
  apply storeless_bind; [apply storeless_puts|done].
Qed.

(** Every answer of [upscli_get()] has the value as its fourth word. *)
Definition answers_complete : Prop :=
  ∀ i n u v l, upscli_get (w_nut W) i n u v = Some l → (4 ≤ length l)%nat.

Section complete.
Hypothesis Hcomplete : answers_complete.

Lemma nut_get_var_eq u v p :
  nut_get_var W u v p =
  Ok (upscli_get (w_nut W) (p_lists p) (p_calls p) u v ≫= (fun l => l !! 3%nat),
      with_calls (S (p_calls p)) p).
Proof using Hcomplete.
  unfold nut_get_var. rewrite bind_run. cbn.
  destruct (upscli_get (w_nut W) (p_lists p) (p_calls p) u v) as [l|] eqn:E; [|done].
  assert (Hl := Hcomplete _ _ _ _ _ E). unfold answer_at.
  destruct (l !! 3%nat) as [x|] eqn:Hx; [by rewrite bind_run; cbn; rewrite Hx|].
  apply lookup_ge_None in Hx. lia.
Qed.
Lemma storeless_get_var u v : storeless (nut_get_var W u v).
Proof using Hcomplete. intros p. rewrite nut_get_var_eq. eexists _, _. split; [done|]. by split. Qed.
Lemma storeless_labels u line l : storeless (send_labels W u line l).
Proof using Hcomplete.
  induction l as [|[a b] l IH]; cbn [send_labels]; [apply storeless_ret|].
  apply storeless_bind; [apply storeless_get_var|]. intros [v|].
  - apply storeless_bind; [apply storeless_puts|done].
  - by apply storeless_bind; [apply storeless_ret|].
Qed.
Lemma storeless_available u c : storeless (chart_available W u c).
Proof using Hcomplete.
  apply storeless_bind; [apply storeless_get_var|]. intros [v|]; [apply storeless_ret|].
  destruct (negb _); [apply storeless_ret|].
  apply storeless_bind; [apply storeless_get_var|]. intros [v|]; [|apply storeless_ret].
  apply storeless_bind; [apply storeless_get_var|]. intros. apply storeless_ret.
Qed.
End complete.

(** *** A dictionary of the store and its contents *)

Record fine (o : dict_options) (l : list (string * option pval)) d : Prop := {
  fine_wf : wf d;
  fine_alive : d_destroyed d = false;
  fine_hooks : d_hooks d = None;
  fine_options : d_options d = o;
  fine_overwrite : opt_dont_overwrite o = false;
  fine_append : opt_add_in_front o = false;
  fine_unreferenced : unreferenced d;
  fine_live : live d = l;
}.

Definition holds (h : nat) (o : dict_options) (l : list (string * option pval)) p : Prop :=
  ∃ d, p_getd h p = Some d ∧ fine o l d.

Lemma p_get_put h d p : p_getd h (p_putd h d p) = Some d.
Proof. unfold p_getd, p_putd, store_get. cbn. apply lookup_insert_eq. Qed.
Lemma p_get_put_ne h h' d p : h' ≠ h → p_getd h' (p_putd h d p) = p_getd h' p.
Proof. intros. unfold p_getd, p_putd, store_get. cbn. by apply lookup_insert_ne. Qed.
Lemma p_put_put h d d' p : p_putd h d (p_putd h d' p) = p_putd h d p.
Proof.
  unfold p_putd, with_store, store_put. cbn. by rewrite insert_insert_eq.
Qed.
Lemma p_put_get h d p : p_getd h p = Some d → p_putd h d p = p.
Proof.
  unfold p_getd, store_get, p_putd, with_store, store_put. intros H.
  rewrite insert_id by done. destruct p as [[]]. done.
Qed.

(** Only the dictionaries of [hs] may have changed. *)
Record frame (hs : list nat) p p' : Prop := {
  fr_vars : p_ups_vars p' = p_ups_vars p;
  fr_seen : p_ups_seen p' = p_ups_seen p;
  fr_name : p_ups_name p' = p_ups_name p;
  fr_every : p_update_every p' = p_update_every p;
  fr_lists : p_lists p' = p_lists p;
  fr_waiting : s_waiting (p_store p') = s_waiting (p_store p);
  fr_fresh : s_fresh (p_store p') = s_fresh (p_store p);
  fr_other : ∀ h, h ∉ hs → p_getd h p' = p_getd h p;
}.
Lemma frame_refl hs p : frame hs p p.
Proof. by split. Qed.
Lemma frame_trans hs p1 p2 p3 : frame hs p1 p2 → frame hs p2 p3 → frame hs p1 p3.
Proof.
  intros [] []. split; try congruence. intros h Hh. etrans; [auto|]. auto.
Qed.
Lemma frame_weaken hs hs' p p' : hs ⊆ hs' → frame hs p p' → frame hs' p p'.
Proof. intros Hs []. split; auto. Qed.
Lemma frame_put h d p : frame [h] p (p_putd h d p).
Proof.
  split; try done. intros h' Hh. apply p_get_put_ne. set_solver.
Qed.
Lemma frame_same p p' : same_store p p' → frame [] p p'.
Proof.
  intros []. split; try congruence. intros. unfold p_getd. congruence.
Qed.
Lemma holds_frame hs h o l p p' : frame hs p p' → h ∉ hs → holds h o l p → holds h o l p'.
Proof. intros Hf Hh (d & H1 & H2). exists d. split; [|done]. by rewrite (fr_other _ _ _ Hf). Qed.

(** *** The operations of a dictionary, through the store *)

Lemma on_get h o l k p : holds h o l p → k ≠ "" →
  on h (dictionary_get (Some k)) p = Ok (mjoin (al_get k l), p).
Proof.
  intros (d & Hd & [Hwf Hal Hh Ho _ _ _ <-]) Hk. unfold on, run_in.
  rewrite Hd, get_refines by done. by rewrite p_put_get.
Qed.

Definition store_of (o : dict_options) (v : option pval) (len : Z) : option pval :=
  if opt_value_link o then v else dict_item_value_create v len.

Lemma on_set h o l k v len p : holds h o l p → k ≠ "" → ∃ a p',
  on h (dictionary_set (Some k) v len) p = Ok ((Some a, store_of o v len), p') ∧
  holds h o (al_set false k (store_of o v len) l) p' ∧ frame [h] p p' ∧
  (∃ d, p_getd h p' = Some d ∧ judy_get (d_index d) k = Some a) ∧ p_out p' = p_out p ∧ p_calls p' = p_calls p.
Proof.
  intros (d & Hd & [Hwf Hal Hh Ho Hov Hap Hu <-]) Hk. subst o.
  destruct (set_refines d k v len) as (a & d' & H1 & H2 & [] & H4 & H5 & H6); [done..|].
  exists a, (p_putd h d' p). split; [|split; [|split; [apply frame_put|split; [|done]]]].
  - unfold on, run_in. by rewrite Hd, H1.
  - exists d'. split; [apply p_get_put|]. rewrite Hap in H5. split; try congruence; auto.
  - exists d'. split; [apply p_get_put|done].
Qed.

Lemma on_write h o l k a x p : holds h o l p →
  (∃ d, p_getd h p = Some d ∧ judy_get (d_index d) k = Some a) → ∃ p',
  on h (value_write a x) p = Ok (tt, p') ∧ holds h o (al_upd k (Some x) l) p' ∧
  frame [h] p p' ∧ p_out p' = p_out p ∧ p_calls p' = p_calls p.
Proof.
  intros (d & Hd & [Hwf Hal Hh Ho Hov Hap Hu <-]) (d0 & Hd0 & Hj). rewrite Hd in Hd0.
  injection Hd0 as <-.
  destruct (value_write_refines d k a x Hwf Hj) as (d' & H1 & H2 & [] & H4 & H5 & H6).
  exists (p_putd h d' p). split; [|split; [|split; [apply frame_put|done]]].
  - unfold on, run_in. by rewrite Hd, H1.
  - exists d'. split; [apply p_get_put|]. split; try congruence; auto.
Qed.

Lemma on_del h o l k p : holds h o l p → k ≠ "" → ∃ b p',
  on h (dictionary_del (Some k)) p = Ok (b, p') ∧ holds h o (al_del k l) p' ∧
  frame [h] p p' ∧ p_out p' = p_out p ∧ p_calls p' = p_calls p.
Proof.
  intros (d & Hd & [Hwf Hal Hh Ho Hov Hap Hu <-]) Hk.
  destruct (del_refines d k) as (d' & H1 & H2 & [] & H4 & H5); [done..|].
  eexists _, (p_putd h d' p). split; [|split; [|split; [apply frame_put|done]]].
  - unfold on, run_in. by rewrite Hd, H1.
  - exists d'. split; [apply p_get_put|]. split; try congruence; auto.
Qed.

Lemma on_create o p : s_waiting (p_store p) = [] →
  opt_dont_overwrite o = false → opt_add_in_front o = false → ∃ p',
  on_store (dictionary_create_advanced o 0) p = Ok (s_fresh (p_store p), p') ∧
  holds (s_fresh (p_store p)) (DictOptions (opt_single_threaded o) (opt_value_link o)
    (opt_name_link o) (opt_dont_overwrite o) (opt_add_in_front o) false) [] p' ∧
  s_fresh (p_store p') = S (s_fresh (p_store p)) ∧ s_waiting (p_store p') = [] ∧
  p_ups_vars p' = p_ups_vars p ∧ p_ups_seen p' = p_ups_seen p ∧
  p_ups_name p' = p_ups_name p ∧ p_update_every p' = p_update_every p ∧ p_lists p' = p_lists p ∧
  p_out p' = p_out p ∧ p_calls p' = p_calls p ∧
  (∀ h, h ≠ s_fresh (p_store p) → p_getd h p' = p_getd h p).
Proof.
  intros Hw Ho1 Ho2. unfold on_store. rewrite create_advanced_new by done.
  eexists. split; [done|]. split.
  - eexists. split; [unfold p_getd, store_get; cbn; apply lookup_insert_eq|].
    split; try done; [apply wf_new|]. by constructor.
  - repeat (split; [done|]). intros h Hh. unfold p_getd, store_get. cbn.
    by apply lookup_insert_ne.
Qed.

(** *** The invariant *)

Definition made (o : dict_options) : dict_options :=
  DictOptions (opt_single_threaded o) (opt_value_link o) (opt_name_link o)
    (opt_dont_overwrite o) (opt_add_in_front o) false.

Definition chart_entries (cs : list nd_chart) : list (string * option pval) :=
  (fun c => (nut_variable c, Some (VChart c))) <$> cs.
Definition vars_entries : list (string * nat) → list (string * option pval) :=
  al_map (fun _ h => Some (VVars h)).
Definition name_entries : list (string * nat) → list (string * option pval) :=
  al_map (fun k _ => Some (VStr (clean_name k))).

(** [reg] maps each registered UPS to its dictionary of charts; [seen] is the
    contents of [nd_ups_seen]; [charts_ok] is what is known of the charts of a
    UPS. *)
Context {Q : charts_pred}.
Record Inv (reg : list (string * nat)) (seen : list (string * option pval)) p : Prop := {
  inv_vars : holds (p_ups_vars p) (made main_options) (vars_entries reg) p;
  inv_seen : holds (p_ups_seen p) (made main_options) seen p;
  inv_name : holds (p_ups_name p) (made name_options) (name_entries reg) p;
  inv_each : ∀ k h, (k, h) ∈ reg → ∃ cs, charts_ok k cs ∧
    holds h (made vars_options) (chart_entries cs) p;
  inv_handles : NoDup (p_ups_vars p :: p_ups_seen p :: p_ups_name p :: reg.*2);
  inv_fresh : Forall (fun h => (h < s_fresh (p_store p))%nat)
    (p_ups_vars p :: p_ups_seen p :: p_ups_name p :: reg.*2);
  inv_waiting : s_waiting (p_store p) = [];
  inv_nonempty : Forall (fun k => k ≠ "") reg.*1;
  inv_nodup : NoDup reg.*1;
}.

Lemma Inv_frame reg seen p p' : frame [] p p' → Inv reg seen p → Inv reg seen p'.
Proof.
  intros Hf [H1 H2 H3 H4 H5 H6 H7 H8 H9].
  split; rewrite ?(fr_vars _ _ _ Hf), ?(fr_seen _ _ _ Hf), ?(fr_name _ _ _ Hf),
    ?(fr_fresh _ _ _ Hf), ?(fr_waiting _ _ _ Hf); try done.
  1-3: eapply holds_frame; [exact Hf|apply not_elem_of_nil|done].
  intros k h Hk. destruct (H4 k h Hk) as (cs & Hs & Hh). exists cs. split; [done|].
  eapply holds_frame; [exact Hf|apply not_elem_of_nil|done].
Qed.
Lemma Inv_same reg seen p p' : same_store p p' → Inv reg seen p → Inv reg seen p'.
Proof. intros H. by apply Inv_frame, frame_same. Qed.

Lemma notin_singleton {A} (x y : A) : x ≠ y → x ∉ [y].
Proof. rewrite elem_of_cons. intros Hne [->|Hin%not_elem_of_nil]; done. Qed.

(** *** Registration *)

Section registration.
Hypothesis Hcomplete : answers_complete.

Lemma register_charts_spec u cn h charts : ∀ ds p,
  holds h (made vars_options) (chart_entries ds) p →
  NoDup (nut_variable <$> (ds ++ charts)) →
  Forall (fun c => nut_variable c ≠ "") charts →
  ∃ sel p', register_charts W u cn h charts p = Ok (tt, p') ∧
    sel `sublist_of` charts ∧
    holds h (made vars_options) (chart_entries (ds ++ sel)) p' ∧ frame [h] p p' ∧
    (∀ av : nd_chart → bool,
       (∀ c (q : pstate) a q', c ∈ charts → p_lists q = p_lists p → chart_available W u c q = Ok (a, q') → a = av c) →
       sel = List.filter av charts).
Proof using Hcomplete.
  induction charts as [|c charts IH]; intros ds p Hh Hnd Hne.
  { exists [], p. rewrite app_nil_r. repeat split; done. }
  apply Forall_cons in Hne as [Hne1 Hne]. cbn [register_charts].
  destruct (storeless_available Hcomplete u c p) as (b & p1 & Hav & Hs1).
  assert (Hh1 : holds h (made vars_options) (chart_entries ds) p1)
    by (eapply holds_frame; [apply frame_same, Hs1|apply not_elem_of_nil|done]).
  rewrite bind_run, Hav. destruct b.
  - set (m := cget ≫= _).
    assert (Hm : ∃ p2, m p1 = Ok (tt, p2) ∧ frame [h] p1 p2 ∧
      holds h (made vars_options) (chart_entries (ds ++ [c])) p2).
    { unfold m. rewrite bind_get.
      destruct (storeless_bind _ (fun _ => send_labels W u chart_label_line label_sources)
        (storeless_puts (chart_line cn c (p_update_every p1)))
        (fun _ => storeless_labels Hcomplete u chart_label_line label_sources) p1)
        as ([] & p2 & H2 & S2).
      rewrite bind_puts in H2. rewrite bind_puts, bind_run, H2, !bind_puts, bind_run.
      match goal with |- context [on h ?o ?q] => set (q3 := q) end.
      assert (S3 : same_store p1 q3) by (destruct S2; by split).
      assert (Hh3 : holds h (made vars_options) (chart_entries ds) q3)
        by (eapply holds_frame; [apply frame_same, S3|apply not_elem_of_nil|done]).
      destruct (on_set h _ _ (nut_variable c) (Some (VChart c)) 0 q3 Hh3 Hne1)
        as (a & p4 & H4 & G4 & F4 & _).
      rewrite H4. exists p4. split; [done|]. split.
      - eapply frame_trans; [|exact F4]. eapply frame_weaken; [|by apply frame_same].
        apply list_subseteq_nil.
      - assert (Hget : al_get (nut_variable c) (chart_entries ds) = None).
        { apply al_get_None. unfold chart_entries. rewrite <- list_fmap_compose.
          rewrite fmap_app, fmap_cons in Hnd.
          apply NoDup_app in Hnd as (_ & Hx & _). intros Hin.
          apply (Hx (nut_variable c)); [exact Hin|]. apply elem_of_cons. by left. }
        unfold al_set in G4. rewrite Hget in G4. unfold chart_entries in *.
        rewrite fmap_app. exact G4. }
    destruct Hm as (p2 & Hm & F2 & H2). rewrite bind_run, Hm.
    destruct (IH (ds ++ [c]) p2 H2) as (sel & p3 & H3 & S3 & G3 & F3 & A3);
      [by rewrite <- app_assoc|done|].
    exists (c :: sel), p3. rewrite <- app_assoc in G3.
    split; [done|]. split; [by apply sublist_skip|]. split; [done|]. split.
    + eapply frame_trans; [|exact F3]. eapply frame_trans; [|exact F2].
      eapply frame_weaken; [apply list_subseteq_nil|by apply frame_same].
    + intros av Hall. simpl. rewrite <- (Hall c p true p1) by (done || by left).
      f_equal. apply A3. intros x q a q' Hx Hq. apply (Hall x q); [by right|].
      by rewrite Hq, (fr_lists _ _ _ F2), (ss_lists _ _ Hs1).
  - rewrite bind_run. cbn [mret cst_ret].
    destruct (IH ds p1 Hh1) as (sel & p3 & H3 & S3 & G3 & F3 & A3); [|done|].
    { eapply sublist_NoDup; [exact Hnd|]. rewrite !fmap_app, fmap_cons.
      apply sublist_app; [done|]. by apply sublist_cons. }
    exists sel, p3. split; [done|]. split; [by apply sublist_cons|]. split; [done|]. split.
    + eapply frame_trans; [|exact F3].
      eapply frame_weaken; [apply list_subseteq_nil|by apply frame_same].
    + intros av Hall. simpl. rewrite <- (Hall c p false p1) by (done || by left).
      apply A3. intros x q a q' Hx Hq. apply (Hall x q); [by right|]. by rewrite Hq, (ss_lists _ _ Hs1).
Qed.

Lemma charts_nonempty : Forall (fun c => nut_variable c ≠ "") nd_charts.
Proof. apply (bool_decide_unpack _). vm_compute. done. Qed.
Lemma charts_nodup : NoDup (nut_variable <$> nd_charts).
Proof. apply (bool_decide_unpack _). vm_compute. done. Qed.

Lemma stored_name k :
  store_of (made name_options) (Some (VStr k)) (Z.of_nat (String.length k) + 1) =
  Some (VStr k).
Proof.
  unfold store_of, dict_item_value_create. cbn [made opt_value_link name_options].
  rewrite (proj2 (Z.eqb_neq _ _)) by lia. cbn [cv_copy cval_pval].
  rewrite substring_all by lia. done.
Qed.

(** The part of [register_ups] that prints. *)
Lemma register_prints_storeless u cn e :
  storeless (puts (status_chart_line cn e) ≫= fun _ =>
    send_labels W u status_label_line label_sources ≫= fun _ =>
    puts ("CLABEL ups_name '" +:+ u +:+ "' " +:+ print_u NETDATA_CLABEL_SOURCE_AUTO) ≫= fun _ =>
    puts "CLABEL_COMMIT" ≫= fun _ =>
    puts_all (status_dimension_line <$> (fst <$> status_dimensions))).
Proof using Hcomplete.
  do 4 (apply storeless_bind; [first [apply storeless_puts|by apply storeless_labels]|intros _]).
  apply storeless_puts_all.
Qed.

(** What is known of the charts that are selected for [u]. *)
Definition selects (i : nat) (u : string) (sel : list nd_chart) : Prop :=
  sel `sublist_of` nd_charts ∧
  ∀ av : nd_chart → bool,
    (∀ c p a p', c ∈ nd_charts → p_lists p = i → chart_available W u c p = Ok (a, p') → a = av c) →
    sel = List.filter av nd_charts.
Definition selection_ok (i : nat) (u : string) : Prop := ∀ sel, selects i u sel → charts_ok u sel.

Lemma register_ups_spec reg seen u p : Inv reg seen p → u ≠ "" → selection_ok (p_lists p) u →
  ∃ h sel p', register_ups W u p = Ok (tt, p') ∧ Inv (al_set false u h reg) seen p' ∧
    (p_ups_vars p' = p_ups_vars p ∧ p_ups_seen p' = p_ups_seen p ∧
     p_ups_name p' = p_ups_name p) ∧ p_lists p' = p_lists p ∧
    selects (p_lists p) u sel ∧ holds h (made vars_options) (chart_entries sel) p'.
Proof using Hcomplete.
  intros [Hv Hs Hn Heach Hnd Hfr Hw Hne Hkeys] Hu HQ.
  destruct (on_set _ _ _ u (Some (VStr u)) (Z.of_nat (String.length u) + 1) p Hn Hu)
    as (a & p1 & H1 & Hn1 & F1 & Hj1 & _).
  rewrite stored_name in H1, Hn1. rewrite <- (fr_name _ _ _ F1) in Hn1, Hj1.
  destruct (on_write _ _ _ u a (VStr (clean_name u)) p1 Hn1 Hj1) as (p2 & H2 & Hn2 & F2 & _).
  rewrite al_upd_set in Hn2.
  destruct (register_prints_storeless u (clean_name u) (p_update_every p) p2)
    as ([] & p3 & H3 & S3).
  assert (F13 : frame [p_ups_name p] p p3).
  { eapply frame_trans; [exact F1|]. rewrite <- (fr_name _ _ _ F1).
    eapply frame_trans; [exact F2|].
    eapply frame_weaken; [apply list_subseteq_nil|by apply frame_same]. }
  destruct (on_create vars_options p3) as (p4 & H4 & Hh4 & Hf4 & Hw4 & Ev & Es & En & Ee & El & _ & _ & Ho4);
    [by rewrite (fr_waiting _ _ _ F13)|done|done|].
  set (h := s_fresh (p_store p3)) in *.
  assert (Hfresh : h = s_fresh (p_store p)) by (by rewrite <- (fr_fresh _ _ _ F13)).
  destruct (register_charts_spec u (clean_name u) h nd_charts [] p4 Hh4 charts_nodup charts_nonempty)
    as (sel & p5 & H5 & Hsub & Hh5 & F5 & Hav).
  assert (Hlt : ∀ x, x ∈ (p_ups_vars p :: p_ups_seen p :: p_ups_name p :: reg.*2) → x ≠ h).
  { intros x Hx. rewrite Forall_forall in Hfr. specialize (Hfr x Hx). simpl in Hfr. lia. }
  assert (Hother : ∀ x, x ∈ (p_ups_vars p :: p_ups_seen p :: p_ups_name p :: reg.*2) →
                        x ≠ p_ups_name p → p_getd x p5 = p_getd x p).
  { intros x Hx Hxn. rewrite (fr_other _ _ _ F5) by (by apply notin_singleton, Hlt).
    rewrite Ho4 by auto. apply (fr_other _ _ _ F13). by apply notin_singleton. }
  pose proof Hnd as Hnd'. apply NoDup_cons in Hnd' as [Nv [Ns [Nn Nr]%NoDup_cons]%NoDup_cons].
  assert (Hv5 : holds (p_ups_vars p) (made main_options) (vars_entries reg) p5).
  { destruct Hv as (d & Hd & Hfine). exists d. split; [|done]. rewrite Hother; [done|mem|].
    intros E. apply Nv. rewrite E. mem. }
  destruct (on_set _ _ _ u (Some (VVars h)) 0 p5 Hv5 Hu) as (a6 & p6 & H6 & Hv6 & F6 & _).
  change (store_of _ _ _) with (Some (VVars h)) in Hv6.
  unfold vars_entries in Hv6. rewrite (al_set_map (fun _ h => Some (VVars h)) false u h) in Hv6.
  assert (Evars : p_ups_vars p6 = p_ups_vars p)
    by (rewrite (fr_vars _ _ _ F6), (fr_vars _ _ _ F5), Ev; apply F13).
  assert (Eseen : p_ups_seen p6 = p_ups_seen p)
    by (rewrite (fr_seen _ _ _ F6), (fr_seen _ _ _ F5), Es; apply F13).
  assert (Ename : p_ups_name p6 = p_ups_name p)
    by (rewrite (fr_name _ _ _ F6), (fr_name _ _ _ F5), En; apply F13).
  assert (Hoth6 : ∀ x, x ∈ (p_ups_seen p :: reg.*2) → p_getd x p6 = p_getd x p).
  { intros x Hx. rewrite (fr_other _ _ _ F6).
    - apply Hother; [mem|]. intros ->. apply elem_of_cons in Hx as [E|Hx]; [|by apply Nn].
      apply Ns. rewrite E. mem.
    - apply notin_singleton. intros ->. apply Nv. mem. }
  assert (Hh6 : holds h (made vars_options) (chart_entries sel) p6).
  { eapply holds_frame; [exact F6| |exact Hh5].
    apply notin_singleton. intros E. apply (Hlt (p_ups_vars p)); [mem|done]. }
  assert (E4 : p_lists p4 = p_lists p) by (rewrite El; apply F13).
  assert (Hsel : selects (p_lists p) u sel).
  { split; [done|]. intros av Hall. apply Hav. intros x q b q' Hx Hq. apply (Hall x q); [done|]. by rewrite Hq. }
  assert (E6 : p_lists p6 = p_lists p) by (rewrite (fr_lists _ _ _ F6), (fr_lists _ _ _ F5); exact E4).
  exists h, sel, p6. split; [|split; [|split; [done|split; [done|split; done]]]].
  { unfold register_ups. rewrite bind_get, bind_run, H1.
    rewrite bind_run, <- (fr_name _ _ _ F1), H2.
    rewrite bind_puts, bind_run in H3. rewrite bind_puts, bind_run.
    destruct (send_labels _ _ _ _ _) as [[[] q2]|k|]; [|done..].
    rewrite !bind_puts in H3. rewrite !bind_puts, bind_run, H3, bind_run, H4.
    by rewrite bind_run, H5, bind_run, H6. }
  destruct (al_set_shape u h reg Hkeys) as (l1 & l2 & Hset & Hk1 & Hk2 & Hreg).
  assert (Hl12 : ∀ x, x ∈ (l1 ++ l2).*2 → x ∈ reg.*2).
  { intros x. destruct Hreg as [->|[w ->]]; [done|].
    rewrite !fmap_app, fmap_cons, !elem_of_app, elem_of_cons. tauto. }
  assert (Hnd12 : NoDup (l1 ++ l2).*2).
  { destruct Hreg as [<-|[w ->]]; [done|]. eapply sublist_NoDup; [exact Nr|].
    rewrite !fmap_app, fmap_cons. apply sublist_app; [done|]. by apply sublist_cons. }
  assert (Hmem : ∀ x, x ∈ (al_set false u h reg).*2 ↔ x = h ∨ x ∈ (l1 ++ l2).*2).
  { intros x. rewrite Hset, !fmap_app, fmap_cons, !elem_of_app, elem_of_cons. simpl. tauto. }
  split; rewrite ?Evars, ?Eseen, ?Ename.
  - exact Hv6.
  - destruct Hs as (d & Hd & Hfine). exists d. split; [|done]. rewrite Hoth6; [done|mem].
  - rewrite (fr_name _ _ _ F1) in Hn2. unfold name_entries in *.
    rewrite <- (al_set_map (fun k _ => Some (VStr (clean_name k))) false u h reg).
    destruct Hn2 as (d & Hd & Hfine). exists d. split; [|done]. rewrite <- Hd.
    assert (Hnh : p_ups_name p ≠ h) by (apply Hlt; mem).
    rewrite (fr_other _ _ _ F6), (fr_other _ _ _ F5), Ho4; [|done|by apply notin_singleton|].
    2: { apply notin_singleton. intros E. apply Nv. rewrite <- E. mem. }
    unfold p_getd. by rewrite (ss_store _ _ S3).
  - intros k x Hin. rewrite Hset in Hin.
    assert (Hc : (k = u ∧ x = h) ∨ (k, x) ∈ reg).
    { apply elem_of_app in Hin as [Hin|[[= -> ->]|Hin]%elem_of_cons]; [right|by left|right];
        destruct Hreg as [->|[w ->]]; rewrite !elem_of_app, ?elem_of_cons; tauto. }
    destruct Hc as [[-> ->]|Hin']; [exists sel; split; [by apply HQ|done]|].
    destruct (Heach k x Hin') as (cs & Hcs & d & Hd & Hfine). exists cs. split; [done|].
    exists d. split; [|done]. rewrite Hoth6; [done|]. apply elem_of_cons. right.
    by apply (list_elem_of_fmap_2 snd _ (k, x)).
  - assert (Lv := Hlt (p_ups_vars p) ltac:(mem)). assert (Ls := Hlt (p_ups_seen p) ltac:(mem)).
    assert (Ln := Hlt (p_ups_name p) ltac:(mem)).
    assert (NoDup (al_set false u h reg).*2).
    { rewrite Hset, fmap_app, fmap_cons. simpl. rewrite fmap_app in Hnd12.
      apply NoDup_app in Hnd12 as (D1 & D2 & D3).
      assert (h ∉ (l1 ++ l2).*2) as Hh.
      { intros Hin%Hl12. apply (Hlt h); [mem|done]. }
      rewrite fmap_app in Hh. apply NoDup_app. split; [done|]. rewrite elem_of_app in Hh.
      split; [|apply NoDup_cons; tauto].
      intros x Hx [->|Hin]%elem_of_cons; [tauto|by eapply D2]. }
    repeat apply NoDup_cons_2; rewrite ?elem_of_cons, ?Hmem; [..|done].
    + intros [E|[E|[E|E%Hl12]]]; [apply Nv; mem|apply Nv; mem|done|apply Nv; mem].
    + intros [E|[E|E%Hl12]]; [apply Ns; mem|done|apply Ns; mem].
    + intros [E|E%Hl12]; [done|by apply Nn].
  - rewrite (fr_fresh _ _ _ F6), (fr_fresh _ _ _ F5), Hf4. apply Forall_forall.
    intros x Hx. rewrite Forall_forall in Hfr. rewrite !elem_of_cons, Hmem in Hx.
    destruct (decide (x = h)) as [->|Hxh]; [lia|].
    enough (x ∈ p_ups_vars p :: p_ups_seen p :: p_ups_name p :: reg.*2) as Hin
      by (specialize (Hfr x Hin); simpl in Hfr; lia).
    rewrite !elem_of_cons. destruct Hx as [?|[?|[?|[?|?%Hl12]]]]; tauto.
  - rewrite (fr_waiting _ _ _ F6), (fr_waiting _ _ _ F5). done.
  - rewrite Hset, fmap_app, fmap_cons. apply Forall_app.
    assert (Forall (λ k, k ≠ "") (l1 ++ l2).*1) as HF.
    { destruct Hreg as [<-|[w ->]]; [done|]. rewrite fmap_app, fmap_cons, Forall_app, Forall_cons in Hne.
      rewrite fmap_app, Forall_app. tauto. }
    rewrite fmap_app, Forall_app in HF. split; [apply HF|]. apply Forall_cons. split; [done|apply HF].
  - by apply al_set_keys_nodup.
Qed.
End registration.

(** *** Collection from a UPS whose answers agree while it is read *)

Section collection.
Hypothesis Hcomplete : answers_complete.
(** [u] answers [f v] to the variable [v], from the call [i] on [ups1] to the next. *)
Context (i : nat) (u : string) (f : string → option string).
Definition answers : Prop :=
  ∀ n v, upscli_get (w_nut W) i n u v ≫= (fun l => l !! 3%nat) = f v.
Hypothesis Hf : answers.

Definition emit (lines : list string) (n : nat) p : pstate :=
  with_out (p_out p ++ lines) (with_calls (n + p_calls p) p).
(** [m] prints [lines] and changes nothing else but the number of queries. *)
Definition outputs (m : cst pstate unit) (lines : list string) : Prop :=
  ∃ n, ∀ p, p_lists p = i → m p = Ok (tt, emit lines n p).

Lemma emit_emit l1 n1 l2 n2 p : emit l2 n2 (emit l1 n1 p) = emit (l1 ++ l2) (n2 + n1) p.
Proof. unfold emit, with_out, with_calls. cbn. by rewrite app_assoc, Nat.add_assoc. Qed.
Lemma emit_0 p : emit [] 0 p = p.
Proof. unfold emit. rewrite app_nil_r. by destruct p. Qed.
Lemma emit_same lines n p : same_store p (emit lines n p).
Proof. by split. Qed.

Lemma outputs_bind m1 m2 l1 l2 :
  outputs m1 l1 → outputs m2 l2 → outputs (m1 ≫= fun _ => m2) (l1 ++ l2).
Proof.
  intros [n1 H1] [n2 H2]. exists (n2 + n1)%nat. intros p Hp.
  by rewrite bind_run, H1, H2, emit_emit.
Qed.
Lemma outputs_ret : outputs (mret tt) [].
Proof. exists 0%nat. intros p _. by rewrite emit_0. Qed.
Lemma outputs_puts line : outputs (puts line) [line].
Proof. exists 0%nat. intros p _. unfold puts, cmodify, emit. cbn. by destruct p. Qed.
Lemma outputs_get v (k : option string → cst pstate unit) lines :
  outputs (k (f v)) lines → outputs (nut_get_var W u v ≫= k) lines.
Proof using Hcomplete Hf.
  intros [n Hk]. exists (S n). intros p Hp. rewrite bind_run, nut_get_var_eq by done.
  rewrite Hp, Hf, Hk by done. unfold emit, with_out, with_calls. cbn. do 3 f_equal. lia.
Qed.

(** The lines of one reading. *)
Definition status_lines (cn : string) (dt : Z) (st : nut_ups_status) : list string :=
  BEGIN_line cn "status" dt ::
  ((fun x => SET_line (fst x) (if st_get st (snd x) then 1 else 0)) <$> status_dimensions)
  ++ [END_line].
Definition metric_lines (cn id dim : string) (dt z : Z) : list string :=
  [BEGIN_line cn id dt; SET_line dim z; END_line].

Lemma outputs_status cn dt st : parse_status (f "ups.status") = Ok st →
  outputs (send_metric_ups_status W u cn dt) (status_lines cn dt st).
Proof using Hcomplete Hf.
  intros Hst. apply outputs_get. rewrite Hst.
  assert (Hd : ∀ l, outputs (send_status_dimensions st l)
    ((fun x => SET_line (fst x) (if st_get st (snd x) then 1 else 0)) <$> l)).
  { induction l as [|[n fl] l IH]; cbn [send_status_dimensions]; [apply outputs_ret|].
    apply (outputs_bind _ _ [_]); [apply outputs_puts|exact IH]. }
  change (clift (Ok st) ≫= ?k) with (fun p => k st p).
  apply (outputs_bind _ _ [_]); [apply outputs_puts|].
  apply outputs_bind; [apply Hd|apply outputs_puts].
Qed.

(** The real power: measured, or calculated from the load and the nominal. *)
Definition realpower_of : option dbl :=
  match f "ups.realpower" with
  | Some v => Some (d_mul (fst (str2ndd pow v)) precision)
  | None =>
      match f "ups.load", f "ups.realpower.nominal" with
      | Some load, Some nominal =>
          Some (d_mul (d_div (fst (str2ndd pow load)) (d_of_Z 100))
                      (d_mul (fst (str2ndd pow nominal)) precision))
      | _, _ => None
      end
  end.

Lemma outputs_metric cn id dim dt x z : d_to_i64 x = Ok z →
  outputs (send_BEGIN cn id dt ≫= fun _ => send_SET_double dim x ≫= fun _ => send_END)
    (metric_lines cn id dim dt z).
Proof.
  intros Hz. apply (outputs_bind _ _ [_]); [apply outputs_puts|].
  apply (outputs_bind _ _ [_]); [|apply outputs_puts].
  exists 0%nat. intros p _. unfold send_SET_double. rewrite Hz, bind_run. cbn.
  unfold emit. by destruct p.
Qed.

Lemma outputs_realpower cn dt :
  match realpower_of with
  | None => outputs (send_metric_ups_realpower pow W u cn dt) []
  | Some x => ∀ z, d_to_i64 x = Ok z →
      outputs (send_metric_ups_realpower pow W u cn dt)
        (metric_lines cn "load_usage" "load_usage" dt z)
  end.
Proof using Hcomplete Hf.
  unfold realpower_of.
  destruct (f "ups.realpower") as [v|] eqn:E1.
  { intros z Hz. apply outputs_get. rewrite E1. by apply outputs_metric. }
  destruct (f "ups.load") as [load|] eqn:E2.
  2: { apply outputs_get. rewrite E1. apply outputs_get. rewrite E2. apply outputs_ret. }
  destruct (f "ups.realpower.nominal") as [nominal|] eqn:E3.
  - intros z Hz. apply outputs_get. rewrite E1. apply outputs_get. rewrite E2.
    change (str2ndd_ptr pow (Some load) ≫= ?k) with (fun p => k (fst (str2ndd pow load)) p).
    apply outputs_get. rewrite E3. by apply outputs_metric.
  - apply outputs_get. rewrite E1. apply outputs_get. rewrite E2.
    change (str2ndd_ptr pow (Some load) ≫= ?k) with (fun p => k (fst (str2ndd pow load)) p).
    apply outputs_get. rewrite E3. apply outputs_ret.
Qed.

Lemma outputs_chart cn dt c s z :
  f (nut_variable c) = Some s → d_to_i64 (d_mul (fst (str2ndd pow s)) precision) = Ok z →
  outputs (send_metric_chart pow W u cn dt (Some (VChart c)))
    (metric_lines cn (chart_id c) (chart_dimension c) dt z).
Proof using Hcomplete Hf.
  intros Hs Hz. apply outputs_get. rewrite Hs. by apply outputs_metric.
Qed.

(** Printing and querying commute with a write to the store. *)
Definition commutes {A} (m : cst pstate A) : Prop :=
  ∀ h d p, m (p_putd h d p) = put_res (p_putd h) d (m p).
Lemma commutes_bind {A B} (m : cst pstate A) (k : A → cst pstate B) :
  commutes m → (∀ a, commutes (k a)) → commutes (m ≫= k).
Proof.
  intros Hm Hk h d p. rewrite !bind_run, Hm. destruct (m p) as [[a p1]|x|]; cbn; [|done..].
  apply Hk.
Qed.
Lemma commutes_get_var v x : commutes (nut_get_var W v x).
Proof.
  intros h d p. unfold nut_get_var. rewrite !bind_run. cbn.
  destruct (upscli_get _ _ _ _ _) as [l|]; [|done]. unfold answer_at.
  by destruct (l !! 3%nat).
Qed.
Lemma commutes_chart cn dt v : commutes (send_metric_chart pow W u cn dt v).
Proof.
  destruct v as [[]|]; try done. apply commutes_bind; [apply commutes_get_var|].
  intros [s|]; [|done]. apply commutes_bind; [done|]. intros x.
  apply commutes_bind; [done|]. intros _. apply commutes_bind; [|done].
  intros h d p. unfold send_SET_double. rewrite !bind_run. by destruct (d_to_i64 _).
Qed.

Lemma holds_emit h o l lines n p : holds h o l p → holds h o l (emit lines n p).
Proof. done. Qed.

(** The loop over the charts of a UPS prints one reading per chart. *)
Lemma charts_loop h cs cn dt (value : nd_chart → Z) p : p_lists p = i →
  holds h (made vars_options) (chart_entries cs) p →
  Forall (fun c => ∃ s, f (nut_variable c) = Some s ∧
    d_to_i64 (d_mul (fst (str2ndd pow s)) precision) = Ok (value c)) cs →
  ∃ n, dfe_read h (send_metric_chart pow W u cn dt) p =
    Ok (tt, emit (cs ≫= fun c =>
      metric_lines cn (chart_id c) (chart_dimension c) dt (value c)) n p).
Proof using Hcomplete Hf.
  intros Hp (d & Hd & [Hwf Hal Hh Ho _ _ Hu Hl]) Hcs. unfold dfe_read. rewrite bind_get, Hd.
  cbv zeta. unfold on.
  rewrite (dfe_foreach_read (p_getd h) (p_putd h) (p_get_put h) (p_put_put h) (p_put_get h)
    (send_metric_chart pow W u cn dt)) with (d := d); try done.
  - assert (Hvals : snd <$> live d = (fun c => Some (VChart c)) <$> cs).
    { rewrite Hl. unfold chart_entries. rewrite <- list_fmap_compose. done. }
    rewrite Hvals.
    assert (Hout : outputs (for_each (send_metric_chart pow W u cn dt)
        ((fun c => Some (VChart c)) <$> cs))
        (cs ≫= fun c => metric_lines cn (chart_id c) (chart_dimension c) dt (value c))).
    { clear -Hcs Hcomplete Hf. induction cs as [|c cs IH]; [apply outputs_ret|].
      apply Forall_cons in Hcs as [(s & Hs & Hz) Hcs]. rewrite fmap_cons. cbn [for_each].
      apply (outputs_bind _ _ (metric_lines cn (chart_id c) (chart_dimension c) dt (value c)));
        [by eapply outputs_chart|by apply IH]. }
    destruct Hout as [n Hout]. exists n. rewrite Hout by done. cbn [put_res]. do 2 f_equal.
    by apply p_put_get.
  - intros v d' p'. apply commutes_chart.
  - unfold refs_small. eapply Forall_impl; [exact Hu|]. intros x Hx. simpl in Hx. lia.
  - unfold live. rewrite length_fmap. clear. induction (d_items d) as [|x l IH]; simpl; [lia|].
    destruct (is_live x); simpl; lia.
Qed.

(** Everything [collect_ups] prints about a registered UPS. *)
Definition reading (cn : string) (dt : Z) (st : nut_ups_status) (rp : option Z)
    (cs : list nd_chart) (value : nd_chart → Z) : list string :=
  status_lines cn dt st ++
  (match rp with Some z => metric_lines cn "load_usage" "load_usage" dt z | None => [] end) ++
  (cs ≫= fun c => metric_lines cn (chart_id c) (chart_dimension c) dt (value c)).

Definition readable_realpower (rp : option Z) : Prop :=
  match realpower_of with
  | None => rp = None
  | Some x => ∃ z, rp = Some z ∧ d_to_i64 x = Ok z
  end.
Definition readable_chart (value : nd_chart → Z) (c : nd_chart) : Prop :=
  ∃ s, f (nut_variable c) = Some s ∧
    d_to_i64 (d_mul (fst (str2ndd pow s)) precision) = Ok (value c).

(** Up to the loop over its charts. *)
Lemma collect_prefix reg seen h cs dt st rp p : p_lists p = i →
  Inv reg seen p → u ≠ "" → al_get u reg = Some h →
  holds h (made vars_options) (chart_entries cs) p →
  parse_status (f "ups.status") = Ok st → readable_realpower rp →
  ∃ p', collect_ups pow W u dt p = dfe_read h (send_metric_chart pow W u (clean_name u) dt) p' ∧
    Inv reg (al_set false u (Some VSeen) seen) p' ∧ p_lists p' = i ∧
    holds h (made vars_options) (chart_entries cs) p' ∧
    p_out p' = p_out p ++ status_lines (clean_name u) dt st ++
      (match rp with
       | Some z => metric_lines (clean_name u) "load_usage" "load_usage" dt z
       | None => []
       end).
Proof using Hcomplete Hf.
  intros Hi HI Hu Hreg Hh Hst Hrp. pose proof HI as [Hv Hs Hn Heach Hnd Hfr Hw Hne Hkeys].
  unfold collect_ups. rewrite bind_get, bind_run, (on_get _ _ _ u p Hn Hu).
  unfold name_entries. rewrite al_get_map, Hreg. cbn [fmap option_fmap option_map mjoin option_join].
  rewrite bind_run. cbn [mret cst_ret].
  destruct (on_set _ _ _ u (Some VSeen) 0 p Hs Hu) as (a & p1 & H1 & Hs1 & F1 & _ & Ho1 & Hc1).
  change (store_of _ _ _) with (Some VSeen) in Hs1.
  rewrite bind_run. unfold set_seen. rewrite bind_get, bind_run, H1. cbn [mret cst_ret].
  (* the dictionaries after [set_seen] *)
  pose proof Hnd as Hnd'. apply NoDup_cons in Hnd' as [Nv [Ns [Nn Nr]%NoDup_cons]%NoDup_cons].
  assert (Hin : h ∈ reg.*2).
  { apply al_get_elem in Hreg. by apply (list_elem_of_fmap_2 snd _ (u, h)). }
  assert (HI1 : Inv reg (al_set false u (Some VSeen) seen) p1).
  { split; rewrite ?(fr_vars _ _ _ F1), ?(fr_seen _ _ _ F1), ?(fr_name _ _ _ F1),
      ?(fr_fresh _ _ _ F1), ?(fr_waiting _ _ _ F1); try done.
    - eapply holds_frame; [exact F1| |done]. apply notin_singleton. intros E. apply Nv. rewrite E. mem.
    - eapply holds_frame; [exact F1| |done]. apply notin_singleton. intros E. apply Ns. rewrite <- E. mem.
    - intros k x Hk. destruct (Heach k x Hk) as (cs' & Hsub & Hx). exists cs'. split; [done|].
      eapply holds_frame; [exact F1| |done]. apply notin_singleton. intros ->. apply Ns.
      apply elem_of_cons. right. by apply (list_elem_of_fmap_2 snd _ (k, p_ups_seen p)). }
  assert (Hh1 : holds h (made vars_options) (chart_entries cs) p1).
  { eapply holds_frame; [exact F1| |done]. apply notin_singleton. intros ->. apply Ns. mem. }
  assert (Hi1 : p_lists p1 = i) by (by rewrite (fr_lists _ _ _ F1)).
  destruct (outputs_status (clean_name u) dt st Hst) as [n2 H2]. rewrite bind_run, H2 by done.
  set (p2 := emit _ n2 p1).
  assert (H3 : ∃ n3, send_metric_ups_realpower pow W u (clean_name u) dt p2 =
    Ok (tt, emit (match rp with Some z => metric_lines (clean_name u) "load_usage" "load_usage" dt z
                              | None => [] end) n3 p2)).
  { pose proof (outputs_realpower (clean_name u) dt) as Ho.
    unfold readable_realpower in Hrp. destruct realpower_of as [x|].
    - destruct Hrp as (z & -> & Hz). destruct (Ho z Hz) as [n3 H3]. exists n3. by apply H3.
    - subst rp. destruct Ho as [n3 H3]. exists n3. by apply H3. }
  destruct H3 as [n3 H3]. rewrite bind_run, H3. set (p3 := emit _ n3 p2).
  assert (HI3 : Inv reg (al_set false u (Some VSeen) seen) p3)
    by (by apply (Inv_same _ _ p1); [split|]).
  assert (Ev : p_ups_vars p = p_ups_vars p3) by (symmetry; apply (fr_vars _ _ _ F1)).
  rewrite bind_run, Ev, (on_get _ _ _ u p3 (inv_vars _ _ _ HI3) Hu).
  unfold vars_entries. rewrite al_get_map, Hreg. cbn [fmap option_fmap option_map mjoin option_join].
  exists p3. split; [done|]. split; [done|]. split; [done|]. split; [exact Hh1|].
  unfold p3, p2. rewrite emit_emit. unfold emit. cbn [p_out with_out]. by rewrite Ho1.
Qed.

Lemma collect_registered reg seen h cs dt st rp value p : p_lists p = i →
  Inv reg seen p → u ≠ "" → al_get u reg = Some h →
  holds h (made vars_options) (chart_entries cs) p →
  parse_status (f "ups.status") = Ok st → readable_realpower rp →
  Forall (readable_chart value) cs →
  ∃ p', collect_ups pow W u dt p = Ok (tt, p') ∧
    Inv reg (al_set false u (Some VSeen) seen) p' ∧
    holds h (made vars_options) (chart_entries cs) p' ∧
    p_out p' = p_out p ++ reading (clean_name u) dt st rp cs value.
Proof using Hcomplete Hf.
  intros Hi HI Hu Hreg Hh Hst Hrp Hcs.
  destruct (collect_prefix reg seen h cs dt st rp p) as (p3 & H3 & HI3 & Hi3 & Hh3 & Ho3); [done..|].
  destruct (charts_loop h cs (clean_name u) dt value p3 Hi3 Hh3 Hcs) as [n4 H4].
  rewrite H3, H4. eexists. split; [done|]. split; [by apply (Inv_same _ _ p3); [split|]|].
  split; [exact Hh3|]. unfold emit, reading. cbn [p_out with_out]. by rewrite Ho3, !app_assoc.
Qed.

(** Collecting from an unregistered UPS registers it first. *)
Lemma collect_unregistered reg seen dt p :
  Inv reg seen p → u ≠ "" → selection_ok (p_lists p) u → al_get u reg = None →
  ∃ h p', register_ups W u p = Ok (tt, p') ∧
    collect_ups pow W u dt p = collect_ups pow W u dt p' ∧
    Inv (al_set false u h reg) seen p' ∧ p_lists p' = p_lists p ∧ al_get u (al_set false u h reg) = Some h ∧
    ∃ sel, selects (p_lists p) u sel ∧ holds h (made vars_options) (chart_entries sel) p'.
Proof using Hcomplete.
  intros HI Hu HQ Hnone.
  destruct (register_ups_spec Hcomplete reg seen u p HI Hu HQ)
    as (h & sel & p' & H1 & HI' & (E2 & _ & E1) & El & Hsel & Hh).
  assert (Hget : al_get u (al_set false u h reg) = Some h)
    by (by rewrite al_get_set, decide_True).
  exists h, p'. split; [done|]. split; [|split; [done|split; [done|split; [done|by exists sel]]]].
  unfold collect_ups. rewrite !bind_get, !bind_run.
  rewrite (on_get _ _ _ u p (inv_name _ _ _ HI) Hu), (on_get _ _ _ u p' (inv_name _ _ _ HI') Hu).
  unfold name_entries. rewrite !al_get_map, Hnone, Hget.
  cbn [fmap option_fmap option_map mjoin option_join]. rewrite !bind_run, H1. cbn [mret cst_ret].
  rewrite <- E1, (on_get _ _ _ u p' (inv_name _ _ _ HI') Hu).
  unfold name_entries. rewrite al_get_map, Hget, E2. done.
Qed.
End collection.
End spec.
