(* ===== verification/EvictSpec.v ===== *)
(** * Eviction

    [main()] walks [nd_ups_name] after each reading of the list: a UPS that was
    seen is marked unseen for the next round, one that was not is forgotten.
    The walk deletes the item it stands on, and it looks for the cleaned name; this
    file proves that exactly the unseen UPSes whose name [clean_name()] leaves
    alone disappear, and that the walk does nothing to the others. *)

From S2P Require Import Prelude CString Double Inlined Status Charts Clocks.
From S2P Require Import Dictionary DictionarySpec DictionaryThms Plugin PluginSpec.
#[local] Open Scope string_scope.
#[local] Open Scope list_scope.
#[local] Open Scope Z_scope.

Create HintDb keeps.

Section evict.
Context {J : Type} `{!JudyHS J} {Q : charts_pred} (pow : dbl → dbl → dbl) (W : world).
Abbreviation pstate := (pstate J).
Abbreviation dict := (dict pval J).
Implicit Types (p : pstate) (d : dict).

(** *** Destroying a dictionary nobody references *)

Lemma free_items_ok l : ∀ n d, ∃ m d', free_items_loop l n d = Ok (m, d').
Proof.
  induction l as [|it l IH]; intros n d; [by eexists _, _|]. cbn [free_items_loop].
  assert (Hf : ∃ m d', dict_item_free_with_hooks it d = Ok (m, d')).
  { unfold dict_item_free_with_hooks. destruct (i_deleted it);
      rewrite bind_run; cbn; destruct (item_shared_release_and_check_if_it_can_be_freed it);
      by eexists _, _. }
  destruct Hf as (m & d' & Hf). rewrite bind_run, Hf. apply IH.
Qed.

Lemma countb_zero (q : item pval → bool) l : Forall (fun it => q it = false) l → countb q l = 0.
Proof. induction 1 as [|it l Hq _ IH]; [done|]. rewrite countb_cons, Hq. lia. Qed.

Lemma referenced_zero o l d : fine o l d → d_referenced d = 0.
Proof.
  intros [Hwf _ _ _ _ _ Hu _]. rewrite (wf_referenced d Hwf), countb_zero; [done|].
  eapply Forall_impl; [exact Hu|]. intros it Hr. unfold is_referenced. simpl in Hr. by rewrite Hr.
Qed.

Lemma cleanup_nothing (s : store pval J) : s_waiting s = [] →
  cleanup_destroyed_dictionaries s = Ok (0, s).
Proof.
  intros Hw. unfold cleanup_destroyed_dictionaries. rewrite bind_get, Hw. cbn.
  destruct s; cbn in *. by subst.
Qed.

Lemma on_destroy h o l p : holds h o l p → s_waiting (p_store p) = [] → ∃ p',
  on_store (dictionary_destroy (Some h)) p = Ok (tt, p') ∧ frame [h] p p' ∧
  p_out p' = p_out p.
Proof.
  intros (d & Hd & Hfine) Hw. unfold on_store, dictionary_destroy.
  rewrite bind_run, cleanup_nothing by done.
  assert (Hd' : s_dicts (p_store p) !! h = Some d) by exact Hd.
  assert (Hr : on_dict h dictionary_referenced_items (p_store p) = Ok (0, p_store p)).
  { unfold on_dict, run_in, store_get. rewrite Hd'. unfold dictionary_referenced_items.
    rewrite (referenced_zero o l d Hfine). cbn. unfold store_put.
    rewrite insert_id by done. by destruct (p_store p). }
  rewrite bind_run, Hr. cbn -[on_dict dictionary_free_all_resources]. rewrite bind_run.
  unfold dictionary_free_all_resources. rewrite bind_run.
  cbn -[on_dict free_items_loop]. rewrite bind_run. unfold on_dict, run_in, store_get.
  rewrite Hd', bind_modify, bind_get.
  destruct (free_items_ok (d_items (set_index judy_empty d)) 0 (set_index judy_empty d))
    as (m & d1 & Hfree).
  rewrite bind_run, Hfree. cbn. eexists. split; [done|]. split; [|done].
  split; try done. intros x Hx. rewrite elem_of_cons in Hx. unfold p_getd, store_get. cbn.
  rewrite lookup_delete_ne by naive_solver. by rewrite lookup_insert_ne by naive_solver.
Qed.
Lemma on_destroy_null p : s_waiting (p_store p) = [] →
  on_store (dictionary_destroy None) p = Ok (tt, p).
Proof.
  intros Hw. unfold on_store, dictionary_destroy. rewrite bind_run, cleanup_nothing by done.
  cbn. by destruct p.
Qed.

(** *** The state during the walk *)

Record Rest (reg : list (string * nat)) (seen : list (string * option pval)) p : Prop := {
  rest_vars : holds (p_ups_vars p) (made main_options) (vars_entries reg) p;
  rest_seen : holds (p_ups_seen p) (made main_options) seen p;
  rest_each : ∀ k h, (k, h) ∈ reg → ∃ cs, charts_ok k cs ∧
    holds h (made vars_options) (chart_entries cs) p;
  rest_handles : NoDup (p_ups_vars p :: p_ups_seen p :: p_ups_name p :: reg.*2);
  rest_fresh : Forall (fun h => (h < s_fresh (p_store p))%nat)
    (p_ups_vars p :: p_ups_seen p :: p_ups_name p :: reg.*2);
  rest_waiting : s_waiting (p_store p) = [];
  rest_nonempty : Forall (fun k => k ≠ "") reg.*1;
  rest_nodup : NoDup reg.*1;
}.
Lemma Inv_Rest reg seen p :
  Inv reg seen p ↔ Rest reg seen p ∧ holds (p_ups_name p) (made name_options) (name_entries reg) p.
Proof. split; [by intros []|]. by intros [[] ?]. Qed.

Lemma Rest_frame reg seen p p' : frame [p_ups_name p] p p' → Rest reg seen p → Rest reg seen p'.
Proof.
  intros Hf [Hv Hs Heach Hnd Hfr Hw Hne Hk].
  pose proof Hnd as Hnd'. apply NoDup_cons in Hnd' as [Nv [Ns [Nn Nr]%NoDup_cons]%NoDup_cons].
  split; rewrite ?(fr_vars _ _ _ Hf), ?(fr_seen _ _ _ Hf), ?(fr_name _ _ _ Hf),
    ?(fr_fresh _ _ _ Hf), ?(fr_waiting _ _ _ Hf); try done.
  - eapply holds_frame; [exact Hf| |done]. apply notin_singleton. intros E. apply Nv. rewrite E. mem.
  - eapply holds_frame; [exact Hf| |done]. apply notin_singleton. intros E. apply Ns. rewrite E. mem.
  - intros k h Hin. destruct (Heach k h Hin) as (cs & Hs' & Hh). exists cs. split; [done|].
    eapply holds_frame; [exact Hf| |done]. apply notin_singleton. intros ->. apply Nn.
    by apply (list_elem_of_fmap_2 snd _ (k, p_ups_name p)).
Qed.

(** The walk stands on [it]. *)
Record At (l1 : list (item pval)) (it : item pval) (l2 : list (item pval)) d p : Prop := {
  at_get : p_getd (p_ups_name p) p = Some d;
  at_wf : wf d;
  at_alive : d_destroyed d = false;
  at_hooks : d_hooks d = None;
  at_options : d_options d = made name_options;
  at_items : d_items d = l1 ++ it :: l2;
  at_ref : i_refcount it = 1;
  at_unref : Forall (fun x => i_refcount x = 0) (l1 ++ l2);
}.
Lemma At_frame l1 it l2 d hs p p' : frame hs p p' → p_ups_name p ∉ hs →
  At l1 it l2 d p → At l1 it l2 d p'.
Proof.
  intros Hf Hh []. split; try done.
  by rewrite (fr_name _ _ _ Hf), (fr_other _ _ _ Hf).
Qed.

Definition is_seen (seen : list (string * option pval)) (k : string) : bool :=
  match al_get k seen with Some (Some _) => true | _ => false end.

Lemma al_del_sublist {A} k (l : list (string * A)) : al_del k l `sublist_of` l.
Proof.
  unfold al_del. induction l as [|x l IH]; simpl; [done|].
  destruct (negb _); by constructor.
Qed.
Lemma al_del_elem {A} k k' (v : A) l : (k', v) ∈ al_del k l ↔ (k', v) ∈ l ∧ k' ≠ k.
Proof.
  unfold al_del. rewrite !list_elem_of_In, List.filter_In. simpl.
  destruct (String.eqb_spec k' k); simpl; naive_solver.
Qed.
Lemma fmap_sublist {A B} (g : A → B) l l' : l `sublist_of` l' → (g <$> l) `sublist_of` (g <$> l').
Proof. induction 1; simpl; by constructor. Qed.
Lemma forall_sublist {A} (P : A → Prop) l l' : l `sublist_of` l' → Forall P l' → Forall P l.
Proof. induction 1; intros HF; inv HF; auto. Qed.

(** Marking a UPS seen or unseen. *)
Lemma set_seen_rest reg seen k b p : Rest reg seen p → k ≠ "" → ∃ p',
  set_seen (Some k) b p = Ok (tt, p') ∧ Rest reg (al_set false k (if b then Some VSeen else None) seen) p' ∧
  frame [p_ups_seen p] p p' ∧ p_out p' = p_out p.
Proof.
  intros [Hv Hs Heach Hnd Hfr Hw Hne Hk] Hk0.
  pose proof Hnd as Hnd'. apply NoDup_cons in Hnd' as [Nv [Ns [Nn Nr]%NoDup_cons]%NoDup_cons].
  destruct (on_set _ _ _ k (if b then Some VSeen else None) 0 p Hs Hk0) as (a & p1 & H1 & Hs1 & F1 & _ & Ho1 & _).
  assert (store_of (made main_options) (if b then Some VSeen else None) 0 = if b then Some VSeen else None) as E
    by (by destruct b). rewrite E in Hs1. clear E.
  exists p1. split; [|split; [|done]].
  { unfold set_seen. by rewrite bind_get, bind_run, H1. }
  split; rewrite ?(fr_vars _ _ _ F1), ?(fr_seen _ _ _ F1), ?(fr_name _ _ _ F1),
    ?(fr_fresh _ _ _ F1), ?(fr_waiting _ _ _ F1); try done.
  - eapply holds_frame; [exact F1| |done]. apply notin_singleton. intros E. apply Nv. rewrite E. mem.
  - intros k' h Hin. destruct (Heach k' h Hin) as (cs & Hs' & Hh). exists cs. split; [done|].
    eapply holds_frame; [exact F1| |done]. apply notin_singleton. intros ->. apply Ns.
    apply elem_of_cons. right. by apply (list_elem_of_fmap_2 snd _ (k', p_ups_seen p)).
Qed.

(** Forgetting a registered UPS, in the two dictionaries that are not walked. *)
Lemma forget_rest reg seen k h p : Rest reg seen p → k ≠ "" → al_get k reg = Some h → ∃ p',
  Rest (al_del k reg) (al_del k seen) p' ∧
  frame [h; p_ups_vars p; p_ups_seen p] p p' ∧ p_out p' = p_out p ∧
  forget_ups (Some k) p =
    (on (p_ups_name p) (dictionary_del (Some k)) ≫= fun _ => mret tt) p'.
Proof.
  intros [Hv Hs Heach Hnd Hfr Hw Hne Hk] Hk0 Hreg.
  pose proof Hnd as Hnd'. apply NoDup_cons in Hnd' as [Nv [Ns [Nn Nr]%NoDup_cons]%NoDup_cons].
  assert (Hin : (k, h) ∈ reg) by (by apply al_get_elem).
  assert (Hin2 : h ∈ reg.*2) by (by apply (list_elem_of_fmap_2 snd _ (k, h))).
  destruct (Heach k h Hin) as (cs0 & _ & Hh).
  destruct (on_destroy h _ _ p Hh Hw) as (p1 & H1 & F1 & O1).
  assert (Hv1 : holds (p_ups_vars p) (made main_options) (vars_entries reg) p1).
  { eapply holds_frame; [exact F1| |done]. apply notin_singleton. intros E. apply Nv. rewrite E. mem. }
  destruct (on_del _ _ _ k p1 Hv1 Hk0) as (b2 & p2 & H2 & Hv2 & F2 & O2 & _).
  assert (Hs2 : holds (p_ups_seen p) (made main_options) seen p2).
  { eapply holds_frame; [exact F2| |].
    { apply notin_singleton. intros E. apply Nv. rewrite <- E. mem. }
    eapply holds_frame; [exact F1| |done]. apply notin_singleton. intros E. apply Ns. rewrite E. mem. }
  destruct (on_del _ _ _ k p2 Hs2 Hk0) as (b3 & p3 & H3 & Hs3 & F3 & O3 & _).
  assert (F : frame [h; p_ups_vars p; p_ups_seen p] p p3).
  { eapply frame_trans; [|eapply frame_trans].
    - eapply frame_weaken; [|exact F1]. intros x. mem.
    - eapply frame_weaken; [|exact F2]. intros x. mem.
    - eapply frame_weaken; [|exact F3]. intros x. mem. }
  exists p3. split; [|split; [done|split; [congruence|]]].
  - assert (Hsub := al_del_sublist k reg).
    split; rewrite ?(fr_vars _ _ _ F), ?(fr_seen _ _ _ F), ?(fr_name _ _ _ F),
      ?(fr_fresh _ _ _ F), ?(fr_waiting _ _ _ F); try done.
    + unfold vars_entries in *. rewrite al_del_map in Hv2.
      eapply holds_frame; [exact F3| |exact Hv2].
      apply notin_singleton. intros E. apply Nv. rewrite E. mem.
    + intros k' h' [Hin' Hne']%al_del_elem.
      destruct (Heach k' h' Hin') as (cs & Hs' & Hh'). exists cs. split; [done|].
      assert (Hin2' : h' ∈ reg.*2) by (by apply (list_elem_of_fmap_2 snd _ (k', h'))).
      eapply holds_frame; [exact F| |done]. rewrite !elem_of_cons.
      intros [->|[->|[->|Hx%not_elem_of_nil]]]; [|apply Nv; mem|apply Ns; mem|done].
      apply Hne'. clear -Nr Hin Hin'. apply list_elem_of_split in Hin as (r1 & r2 & ->).
      rewrite fmap_app, fmap_cons in Nr. simpl in Nr.
      apply NoDup_app in Nr as (_ & Hx & [Hy _]%NoDup_cons).
      apply elem_of_app in Hin' as [Hin'|[[= ->]|Hin']%elem_of_cons]; [|done|].
      * exfalso. apply (Hx h); [by apply (list_elem_of_fmap_2 snd _ (k', h))|].
        apply elem_of_cons. by left.
      * exfalso. apply Hy. by apply (list_elem_of_fmap_2 snd _ (k', h)).
    + eapply sublist_NoDup; [exact Hnd|]. do 3 apply sublist_skip. by apply fmap_sublist.
    + eapply forall_sublist; [|exact Hfr]. do 3 apply sublist_skip. by apply fmap_sublist.
    + eapply forall_sublist; [|exact Hne]. by apply fmap_sublist.
    + eapply sublist_NoDup; [exact Hk|]. by apply fmap_sublist.
  - unfold forget_ups. rewrite bind_get, bind_run, (on_get _ _ _ k p Hv Hk0).
    unfold vars_entries. rewrite al_get_map, Hreg. cbn [fmap option_fmap option_map mjoin option_join].
    by rewrite bind_run, H1, bind_run, H2, bind_run, H3.
Qed.

Lemma del_at l1 it l2 d p k : At l1 it l2 d p → k = i_name it → k ≠ "" → i_deleted it = false →
  let it' := with_deleted (with_shared_deleted it) in
  ∃ d' p', (on (p_ups_name p) (dictionary_del (Some k)) ≫= fun _ => mret tt) p = Ok (tt, p') ∧
    At l1 it' l2 d' p' ∧ frame [p_ups_name p] p p' ∧ p_out p' = p_out p ∧
    live d' = al_del k (live d).
Proof.
  intros [Hg Hwf Hal Hh Ho Hi Hr Hu] -> Hk Hd it'.
  assert (Hj : judy_get (d_index d) (i_name it) = Some (i_addr it)).
  { apply (wf_index d Hwf). exists it. rewrite Hi, elem_of_app, elem_of_cons. auto. }
  assert (Hpos : 0 < i_refcount it) by lia.
  set (d' := bump 1 (-1) 0 0 (set_items (l1 ++ it' :: l2)
       (set_index (judy_del (d_index d) (i_name it)) d))).
  assert (Hdel : dictionary_del (Some (i_name it)) d = Ok (true, d')).
  { unfold dictionary_del, api_is_name_good. rewrite name_good, bind_get, Hal by done.
    by apply del_referenced. }
  exists d', (p_putd (p_ups_name p) d' p).
  split; [unfold on; rewrite bind_run; unfold run_in; by rewrite Hg, Hdel|].
  split; [split; try done|].
  - apply p_get_put.
  - by apply wf_mark.
  - split; [apply frame_put|]. split; [done|].
    destruct (index_hit d (i_name it) (i_addr it) Hwf Hj)
      as (m1 & x & m2 & Hm & Hxa & Hxn & Hxd & _ & H1 & H2).
    assert (x = it).
    { apply (nodup_addr_inj (d_items d)); [apply Hwf|rewrite Hm|rewrite Hi|done];
        rewrite elem_of_app, elem_of_cons; auto. }
    subst x. destruct (al_mid (i_name it) (i_value it) None _ _ H1 H2) as [_ Hdm].
    rewrite (live_mid d m1 it m2 Hm Hxd), Hdm.
    assert (m1 = l1 ∧ m2 = l2) as [-> ->].
    { assert (Hnd := wf_nodup d Hwf). rewrite Hi in Hm, Hnd. clear -Hm Hnd.
      revert m1 Hm. induction l1 as [|y l1 IH]; intros [|z m1] Hm; simpl in *.
      - by injection Hm as ->.
      - injection Hm as -> ->. apply NoDup_cons in Hnd as [Hn _]. destruct Hn.
        apply (list_elem_of_fmap_2 i_addr), elem_of_app. right. apply elem_of_cons. by left.
      - injection Hm as -> <-. apply NoDup_cons in Hnd as [Hn _]. destruct Hn.
        apply (list_elem_of_fmap_2 i_addr), elem_of_app. right. apply elem_of_cons. by left.
      - injection Hm as -> Hm. apply NoDup_cons in Hnd as [_ Hnd].
        destruct (IH Hnd m1 Hm) as [-> ->]. done. }
    unfold live. cbn. by rewrite List.filter_app, fmap_app.
Qed.

(** *** One step of the walk *)

Lemma al_del_mid {A} k (v : A) r1 r2 : NoDup (r1 ++ (k, v) :: r2).*1 →
  al_del k (r1 ++ (k, v) :: r2) = r1 ++ r2 ∧ al_get k (r1 ++ (k, v) :: r2) = Some v.
Proof.
  rewrite fmap_app, fmap_cons. intros (_ & Hx & [Hy _]%NoDup_cons)%NoDup_app.
  assert (k ∉ r1.*1) by (intros H; apply (Hx k H), elem_of_cons; by left).
  split; [by apply (al_mid k v v)|by apply al_get_mid].
Qed.

(** The UPS was not seen: it leaves the dictionaries, the walk its item marked. *)
Lemma evict_forgets l1 it l2 d p reg seen r1 h r2 :
  Rest reg seen p → At l1 it l2 d p → live d = name_entries reg →
  i_deleted it = false → reg = r1 ++ (i_name it, h) :: r2 →
  ∃ d' p', forget_ups (Some (i_name it)) p = Ok (tt, p') ∧
    Rest (r1 ++ r2) (al_del (i_name it) seen) p' ∧
    At l1 (with_deleted (with_shared_deleted it)) l2 d' p' ∧
    live d' = name_entries (r1 ++ r2) ∧
    p_ups_name p' = p_ups_name p ∧ p_out p' = p_out p.
Proof.
  intros HR HA Hl Hd Hreg. pose proof HR as [Hv0 Hs Heach Hnd Hfr Hw Hne Hk].
  pose proof Hnd as Hnd'. apply NoDup_cons in Hnd' as [Nv [Ns [Nn Nr]%NoDup_cons]%NoDup_cons].
  assert (Hk0 : i_name it ≠ "").
  { rewrite Hreg, fmap_app, fmap_cons, Forall_app, Forall_cons in Hne. apply Hne. }
  destruct (al_del_mid (i_name it) h r1 r2) as [Hdm Hgm]; [by rewrite <- Hreg|].
  rewrite <- Hreg in Hdm, Hgm.
  destruct (forget_rest reg seen (i_name it) h p HR Hk0 Hgm) as (p1 & HR1 & F1 & O1 & Hfor).
  assert (Hnn : p_ups_name p ∉ [h; p_ups_vars p; p_ups_seen p]).
  { rewrite !elem_of_cons. intros [E|[E|[E|E%not_elem_of_nil]]];
      [|apply Nv; rewrite <- E; mem|apply Ns; rewrite <- E; mem|done].
    apply Nn. rewrite E. apply (list_elem_of_fmap_2 snd _ (i_name it, h)).
    rewrite Hreg, elem_of_app, elem_of_cons. auto. }
  destruct (del_at l1 it l2 d p1 (i_name it)) as (d' & p2 & H2 & HA2 & F2 & O2 & L2);
    [by eapply At_frame|done|done|done|].
  rewrite (fr_name _ _ _ F1) in H2. exists d', p2.
  split; [rewrite Hfor; exact H2|]. rewrite <- Hdm.
  split; [by eapply Rest_frame|]. split; [exact HA2|].
  split; [rewrite L2, Hl; apply al_del_map|].
  split; [by rewrite (fr_name _ _ _ F2), (fr_name _ _ _ F1)|congruence].
Qed.

(** *** Names the walk does not find *)

Lemma on_del_absent h d k p : p_getd h p = Some d → d_destroyed d = false →
  judy_get (d_index d) k = None → k ≠ "" → on h (dictionary_del (Some k)) p = Ok (false, p).
Proof.
  intros Hd Hal Hj Hk. unfold on, run_in. rewrite Hd. unfold dictionary_del, api_is_name_good.
  rewrite (name_good k Hk), bind_get, Hal. unfold dict_item_del. rewrite bind_get, Hj.
  cbn. by rewrite p_put_get.
Qed.
Lemma on_del_missing h o l k p : holds h o l p → al_get k l = None → k ≠ "" →
  on h (dictionary_del (Some k)) p = Ok (false, p).
Proof.
  intros (d & Hd & [Hwf Hal _ _ _ _ _ <-]) Hk%al_get_None Hne.
  apply (on_del_absent h d); try done. by apply index_absent.
Qed.

(** Forgetting a name that no dictionary has. *)
Lemma forget_absent l1 it l2 d k reg seen p : Rest reg seen p → At l1 it l2 d p → live d = name_entries reg →
  k ≠ "" → k ∉ reg.*1 → al_get k seen = None → forget_ups (Some k) p = Ok (tt, p).
Proof.
  intros HR HA Hl Hk Hr%al_get_None Hs. pose proof (rest_vars _ _ _ HR) as Hv.
  assert (Nv : al_get k (vars_entries reg) = None) by (unfold vars_entries; by rewrite al_get_map, Hr).
  assert (Hj : judy_get (d_index d) k = None).
  { apply (index_absent d _ (at_wf _ _ _ _ _ HA)). rewrite Hl. apply al_get_None.
    unfold name_entries. by rewrite al_get_map, Hr. }
  unfold forget_ups. rewrite bind_get, bind_run, (on_get _ _ _ k p Hv Hk), Nv.
  cbn [mjoin option_join]. rewrite bind_run, on_destroy_null by apply HR.
  rewrite bind_run, (on_del_missing _ _ _ k p Hv Nv Hk).
  rewrite bind_run, (on_del_missing _ _ _ k p (rest_seen _ _ _ HR) Hs Hk).
  by rewrite bind_run, (on_del_absent _ d k p (at_get _ _ _ _ _ HA) (at_alive _ _ _ _ _ HA) Hj Hk).
Qed.

(** *** The whole walk

    The walk finds the names that [clean_name()] leaves alone.  Of a name that it
    changes, the cleaned form must be the name of no other UPS. *)

Definition clean (k : string) : bool := bool_decide (clean_name k = k).
Definition no_clash (reg : list (string * nat)) (seen : list (string * option pval)) : Prop :=
  ∀ k, k ∈ reg.*1 → clean k = false → (clean_name k ∉ reg.*1) ∧ al_get (clean_name k) seen = None.
Lemma no_clash_clean reg seen : Forall (fun k => clean_name k = k) reg.*1 → no_clash reg seen.
Proof. intros H k Hk. rewrite Forall_forall in H. unfold clean. by rewrite bool_decide_true by (by apply H). Qed.

(** [stays seen k]: the body leaves the UPS [k], which it finds, where it is. *)
Section walk.
Context (stays : list (string * option pval) → string → bool).

Definition remains (seen : list (string * option pval)) (k : string) : bool :=
  negb (clean k) || stays seen k.
Definition keep (seen : list (string * option pval)) (k : string) (h : nat)
  : list (string * nat) := if remains seen k then [(k, h)] else [].
Definition mark (seen : list (string * option pval)) (k : string)
  : list (string * option pval) :=
  if clean k then if stays seen k then al_set false k None seen else al_del k seen else seen.

Definition survivors (seen : list (string * option pval)) (r : list (string * nat))
  : list (string * nat) := List.filter (fun x => remains seen (fst x)) r.
Lemma survivors_clean seen r : Forall (fun k => clean_name k = k) r.*1 →
  survivors seen r = List.filter (fun x => stays seen (fst x)) r.
Proof.
  unfold survivors, remains, clean. induction r as [|[k h] r IH]; [done|]. rewrite fmap_cons.
  intros [Hk Hr]%Forall_cons. cbn in *. rewrite bool_decide_true by done. cbn. by rewrite IH.
Qed.

Lemma al_get_survivors seen r k h : remains seen k = true → al_get k r = Some h → al_get k (survivors seen r) = Some h.
Proof.
  intros Hk. unfold survivors, al_get. induction r as [|[k' h'] r IH]; [done|]. cbn [List.find List.filter fst].
  destruct (String.eqb_spec k' k) as [->|Hne].
  - intros H. rewrite Hk. cbn [List.find fst]. by rewrite String.eqb_refl.
  - intros H. destruct (remains seen k'); cbn [List.find fst]; rewrite ?(proj2 (String.eqb_neq _ _) Hne); by apply IH.
Qed.
Lemma mark_get seen k x : al_get x (mark seen k) =
  if bool_decide (x = k) && clean k then (if stays seen k then Some None else None) else al_get x seen.
Proof.
  unfold mark. destruct (clean k); [|by rewrite andb_false_r]. rewrite andb_true_r.
  destruct (stays seen k); [rewrite al_get_set|rewrite al_get_del]; by repeat case_decide || case_bool_decide.
Qed.
Lemma no_clash_step r1 k h r2 seen : no_clash (r1 ++ (k, h) :: r2) seen →
  no_clash (r1 ++ keep seen k h ++ r2) (mark seen k).
Proof.
  intros H.
  assert (Hsub : ∀ x, x ∈ (r1 ++ keep seen k h ++ r2).*1 → x ∈ (r1 ++ (k, h) :: r2).*1).
  { intros x. rewrite !fmap_app, fmap_cons, !elem_of_app, elem_of_cons. unfold keep.
    destruct (remains seen k); cbn; rewrite ?elem_of_cons; pose proof (not_elem_of_nil x); tauto. }
  intros x Hx Hc. destruct (H x (Hsub x Hx) Hc) as [H1 H2]. split; [by intros ?%Hsub|].
  rewrite mark_get, bool_decide_false; [done|]. intros E. apply H1. rewrite E, fmap_app, fmap_cons.
  apply elem_of_app. right. by left.
Qed.

Hypothesis stays_mark : ∀ seen k k', k' ≠ k → stays (mark seen k) k' = stays seen k'.
Lemma survivors_mark seen k r : k ∉ r.*1 → survivors (mark seen k) r = survivors seen r.
Proof using stays_mark.
  unfold survivors, remains. induction r as [|[k' h] r IH]; intros Hk; [done|].
  rewrite fmap_cons in Hk. apply not_elem_of_cons in Hk as [Hne Hk]. simpl.
  rewrite stays_mark by done. by rewrite IH.
Qed.

(** What [nd_ups_seen] says of the names the walk went over. *)
Definition all_marked (seen seen' : list (string * option pval)) (ks : list string) : Prop :=
  ∀ k, al_get k seen' =
    if bool_decide (k ∈ ks) && clean k then (if stays seen k then Some None else None)
    else al_get k seen.

Lemma all_marked_nil seen : all_marked seen seen [].
Proof. intros k. by rewrite bool_decide_false by apply not_elem_of_nil. Qed.
Lemma all_marked_cons seen seen' k ks : k ∉ ks →
  all_marked (mark seen k) seen' ks → all_marked seen seen' (k :: ks).
Proof using stays_mark.
  intros Hk Hm x. rewrite (Hm x), mark_get. destruct (decide (x = k)) as [->|Hne].
  - rewrite (bool_decide_false (k ∈ ks)), (bool_decide_true (k ∈ _)) by (done || apply elem_of_cons; by left).
    rewrite bool_decide_true by done. done.
  - rewrite stays_mark, (bool_decide_false (x = k)) by done. cbn [andb].
    destruct (decide (x ∈ ks)) as [Hin|Hin].
    + by rewrite !bool_decide_true by (try apply elem_of_cons; auto).
    + rewrite !bool_decide_false; [done| |done]. intros [?|?]%elem_of_cons; done.
Qed.

Definition clean_item (it : item pval) : Prop :=
  i_deleted it = false → i_value it = Some (VStr (clean_name (i_name it))).
Definition item_keys (l : list (item pval)) : list string := i_name <$> List.filter is_live l.

(** One turn of the walk. *)
Definition walk_step (body : option pval → cst pstate unit) : Prop :=
  ∀ l1 it l2 d p reg seen r1 h r2,
  Rest reg seen p → At l1 it l2 d p → live d = name_entries reg → no_clash reg seen →
  i_deleted it = false → i_value it = Some (VStr (clean_name (i_name it))) →
  reg = r1 ++ (i_name it, h) :: r2 →
  ∃ it' d' p', body (i_value it) p = Ok (tt, p') ∧
    let reg' := r1 ++ keep seen (i_name it) h ++ r2 in
    Rest reg' (mark seen (i_name it)) p' ∧ At l1 it' l2 d' p' ∧
    live d' = name_entries reg' ∧ i_addr it' = i_addr it ∧
    p_ups_name p' = p_ups_name p ∧ p_out p' = p_out p.
Context (body : option pval → cst pstate unit).
Hypothesis Hstep : walk_step body.

Lemma walk_loop fuel : ∀ l1 it l2 d p reg seen r1 h r2 nm c,
  Rest reg seen p → At l1 it l2 d p → live d = name_entries reg → no_clash reg seen →
  i_deleted it = false → i_value it = Some (VStr (clean_name (i_name it))) → Forall clean_item l2 →
  reg = r1 ++ (i_name it, h) :: r2 → r2.*1 = item_keys l2 →
  (length (List.filter is_live l2) < fuel)%nat →
  ∃ p' seen', dfe_loop (on (p_ups_name p)) LOCK_READ body fuel
      (Dictfe true (Some (i_addr it)) nm (i_value it) c) p = Ok (tt, p') ∧
    Inv (r1 ++ survivors seen ((i_name it, h) :: r2)) seen' p' ∧
    all_marked seen seen' (i_name it :: r2.*1) ∧ p_out p' = p_out p.
Proof using stays_mark Hstep.
  induction fuel as [|fuel IH];
    intros l1 it l2 d p reg seen r1 h r2 nm c HR HA Hl Hcl Hd Hv Hc Hreg Hk2 Hf; [lia|].
  destruct (Hstep l1 it l2 d p reg seen r1 h r2)
    as (it1 & d1 & p1 & H1 & HR1 & HA1 & Hl1 & Ha1 & N1 & O1); [done..|].
  cbn [dfe_loop dfe_item dfe_value]. rewrite bind_run, H1.
  pose proof HA1 as [Hg1 Hwf1 Hal1 Hh1 Ho1 Hi1 Hr1 Hu1].
  apply Forall_app in Hu1 as [Hu1 Hu2].
  destruct (foreach_next_read d1 l1 it1 l2 nm (i_value it) c)
    as (dfe & d2 & Hnext & Hwf2 & [Hcfg2 Hix2 Hfr2 Hv2] & Hl2 & Hdd & Hcase); [done|done|done|lia| |].
  { eapply Forall_impl; [exact Hu2|]. intros x Hx. simpl in Hx. lia. }
  set (nmh := p_ups_name p) in *. set (p2 := p_putd nmh d2 p1).
  assert (Hrun : on nmh (dictionary_foreach_next LOCK_READ
    (Dictfe true (Some (i_addr it)) nm (i_value it) c)) p1 = Ok (dfe, p2)).
  { unfold on, run_in. rewrite <- N1, Hg1, <- Ha1, Hnext. unfold p2. by rewrite <- N1. }
  rewrite bind_run, Hrun.
  assert (F2 : frame [nmh] p1 p2) by apply frame_put.
  assert (HR2 : Rest (r1 ++ keep seen (i_name it) h ++ r2) (mark seen (i_name it)) p2).
  { eapply Rest_frame; [|exact HR1]. by rewrite N1. }
  assert (Hnk : i_name it ∉ r2.*1).
  { pose proof (rest_nodup _ _ _ HR) as Hnd. rewrite Hreg, fmap_app, fmap_cons in Hnd.
    by apply NoDup_app in Hnd as (_ & _ & [? _]%NoDup_cons). }
  assert (Hsv : survivors seen ((i_name it, h) :: r2) =
                keep seen (i_name it) h ++ survivors (mark seen (i_name it)) r2).
  { rewrite survivors_mark by done. unfold survivors, keep. simpl.
    by destruct (remains seen (i_name it)). }
  destruct Hcfg2 as [Hopt2 Hdes2 Hhk2].
  destruct Hcase as [(G1 & G2 & G3 & G4)|(m1 & x & m2 & G1 & G2 & G3 & G4 & G5 & G6)].
  - assert (r2 = []) as ->.
    { unfold item_keys in Hk2. rewrite G1 in Hk2. by destruct r2. }
    exists p2, (mark seen (i_name it)). split; [|split; [|split; [|done]]].
    + unfold p2. apply (dfe_loop_end (p_getd nmh) (p_putd nmh));
        [apply p_get_put|apply p_put_put|done|done].
    + rewrite Hsv. cbn [survivors List.filter]. apply Inv_Rest. split; [exact HR2|].
      exists d2. split; [unfold p2; cbn; rewrite N1; apply p_get_put|].
      split; try congruence; try done.
      unfold unreferenced. rewrite G4, Forall_app, Forall_cons. split; [done|]. split; [|done].
      simpl. lia.
    + apply all_marked_cons; [done|]. apply all_marked_nil.
  - assert (Hx : i_value x = Some (VStr (clean_name (i_name x)))).
    { rewrite G1, Forall_app, Forall_cons in Hc. by apply Hc. }
    assert (Hlx : List.filter is_live l2 = x :: List.filter is_live m2).
    { rewrite G1, List.filter_app, G2. simpl.
      change (is_live x) with (negb (i_deleted x)). by rewrite G3. }
    unfold item_keys in Hk2. rewrite Hlx in Hk2, Hf. simpl in Hf.
    destruct r2 as [|[kx hx] r2]; [done|]. rewrite !fmap_cons in Hk2. injection Hk2 as Hkx Hk2.
    simpl in Hkx. subst kx.
    set (x' := with_refcount (i_refcount x + 1) x) in *.
    set (l1' := l1 ++ with_refcount (i_refcount it1 - 1) it1 :: m1) in *.
    rewrite G1, Forall_app, Forall_cons in Hu2. destruct Hu2 as (Hm1 & Hx0 & Hm2).
    assert (HA2 : At l1' x' m2 d2 p2).
    { split; try congruence; [unfold p2; cbn; rewrite N1; apply p_get_put| |simpl; lia|].
      - rewrite G6. unfold l1'. by rewrite <- app_assoc.
      - unfold l1'. rewrite !Forall_app, Forall_cons. repeat split; try done. simpl. lia. }
    destruct dfe as [dd di dn dv dc]. simpl in G4, G5, Hdd. subst dd di dv.
    destruct (IH l1' x' m2 d2 p2 (r1 ++ keep seen (i_name it) h ++ (i_name x, hx) :: r2)
      (mark seen (i_name it)) (r1 ++ keep seen (i_name it) h) hx r2 dn dc)
      as (p' & seen' & K1 & K2 & K3 & K4).
    { exact HR2. } { exact HA2. } { congruence. } { apply no_clash_step. by rewrite <- Hreg. }
    { exact G3. } { exact Hx. }
    { rewrite G1, Forall_app, Forall_cons in Hc. apply Hc. }
    { by rewrite app_assoc. } { exact Hk2. } { lia. }
    exists p', seen'. split; [|split; [|split]].
    + assert (En : p_ups_name p2 = nmh) by (unfold p2; cbn; exact N1). rewrite En in K1. exact K1.
    + rewrite Hsv, app_assoc. exact K2.
    + rewrite fmap_cons. apply all_marked_cons; [|exact K3]. by rewrite fmap_cons in Hnk.
    + rewrite K4. unfold p2. cbn. exact O1.
Qed.

Lemma walk_spec reg seen p : Inv reg seen p → no_clash reg seen →
  ∃ p' seen', dfe_read (p_ups_name p) body p = Ok (tt, p') ∧ Inv (survivors seen reg) seen' p' ∧
    all_marked seen seen' reg.*1 ∧ p_out p' = p_out p.
Proof using stays_mark Hstep.
  intros HI Hcl. pose proof HI as [HR Hn]%Inv_Rest.
  destruct Hn as (d & Hg & [Hwf Hal Hh Ho _ _ Hu Hl]).
  unfold dfe_read. rewrite bind_get, Hg. cbv zeta.
  unfold dfe_foreach. rewrite bind_run.
  destruct (skip_deleted_spec (d_items d) d [] (S (length (d_items d))))
    as [[G1 G2]|(m1 & x & m2 & d1 & G1 & G2 & G3 & G4 & G5 & [[Hopt1 Hdes1 Hhk1] Hix1 Hfr1 Hv1] & G7 & G8)];
    [done|done|lia|eapply Forall_impl; [exact Hu|]; intros y Hy; simpl in Hy; lia|..].
  - assert (Hst : dictionary_foreach_start_rw d = Ok (Dictfe true None None None 0, d)).
    { unfold dictionary_foreach_start_rw. by rewrite bind_get, Hal, bind_run, G2. }
    assert (reg = []) as ->.
    { unfold live in Hl. rewrite G1 in Hl. unfold name_entries, al_map in Hl. by destruct reg. }
    assert (Hrun : on (p_ups_name p) dictionary_foreach_start_rw p =
      Ok (Dictfe true None None None 0, p_putd (p_ups_name p) d p))
      by (unfold on, run_in; by rewrite Hg, Hst).
    rewrite Hrun. exists p, seen. split.
    + transitivity (Ok (tt, p_putd (p_ups_name p) d p)); [|by rewrite p_put_get].
      apply (dfe_loop_end (p_getd (p_ups_name p)) (p_putd (p_ups_name p)));
        [apply p_get_put|apply p_put_put|done|done].
    + split; [done|]. split; [apply all_marked_nil|done].
  - set (x' := with_refcount (i_refcount x + 1) x) in *.
    assert (Hst : dictionary_foreach_start_rw d =
        Ok (Dictfe true (Some (i_addr x)) (Some (i_name x)) (i_value x) 0, d1)).
    { unfold dictionary_foreach_start_rw. rewrite bind_get, Hal, bind_run, G4.
      cbn [dfe_at]. rewrite bind_run. change (i_addr x) with (i_addr x').
      by rewrite (item_at_mid d1 m1 m2 x' G8 (wf_nodup d1 G5)). }
    assert (Hrun : on (p_ups_name p) dictionary_foreach_start_rw p =
      Ok (Dictfe true (Some (i_addr x)) (Some (i_name x)) (i_value x) 0,
          p_putd (p_ups_name p) d1 p)) by (unfold on, run_in; by rewrite Hg, Hst).
    rewrite Hrun. set (p1 := p_putd (p_ups_name p) d1 p).
    assert (Hlive : List.filter is_live (d_items d) = x :: List.filter is_live m2).
    { rewrite G1, List.filter_app, G2. simpl.
      change (is_live x) with (negb (i_deleted x)). by rewrite G3. }
    assert (Hvals : ∀ y, y ∈ List.filter is_live (d_items d) →
              i_value y = Some (VStr (clean_name (i_name y))) ∧ i_name y ∈ reg.*1).
    { intros y Hy. assert (Hin : (i_name y, i_value y) ∈ name_entries reg).
      { rewrite <- Hl. unfold live. by apply (list_elem_of_fmap_2 (fun it => (i_name it, i_value it))). }
      unfold name_entries, al_map in Hin. apply list_elem_of_fmap in Hin as ([k h] & [= E1 E2] & Hin).
      rewrite E1, E2. split; [done|]. by apply (list_elem_of_fmap_2 fst _ (k, h)). }
    assert (Hkeys : reg.*1 = item_keys (d_items d)).
    { unfold item_keys. rewrite <- live_names, Hl. unfold name_entries. by rewrite al_map_keys. }
    unfold item_keys in Hkeys. rewrite Hlive in Hkeys.
    destruct reg as [|[kx hx] r2]; [done|]. rewrite !fmap_cons in Hkeys.
    injection Hkeys as Hkx Hkeys. simpl in Hkx. subst kx.
    unfold unreferenced in Hu. rewrite G1 in Hu. apply Forall_app in Hu as [Hu1 [Hux Hu2]%Forall_cons].
    destruct (walk_loop (S (length (d_items d))) m1 x' m2 d1 p1 ((i_name x, hx) :: r2) seen [] hx r2
      (Some (i_name x)) 0) as (p' & seen' & K1 & K2 & K3 & K4).
    { eapply Rest_frame; [apply frame_put|exact HR]. }
    { split; try congruence; [apply p_get_put|exact G8|simpl; simpl in Hux; lia|by apply Forall_app]. }
    { congruence. } { exact Hcl. } { exact G3. }
    { destruct (Hvals x) as [Hxv Hxin]; [rewrite Hlive; apply elem_of_cons; by left|].
      exact Hxv. }
    { apply Forall_forall. intros y Hy Hyd.
      destruct (Hvals y) as [Hyv Hyin].
      { rewrite Hlive. apply elem_of_cons. right. apply elem_of_filterb. unfold is_live. by rewrite Hyd. }
      exact Hyv. }
    { done. } { exact Hkeys. }
    { assert (Hle : ∀ l : list (item pval), (length (List.filter is_live l) ≤ length l)%nat).
      { induction l as [|y l IHl]; simpl; [lia|]. destruct (is_live y); simpl; lia. }
      pose proof (Hle m2). rewrite G1, length_app. simpl. lia. }
    exists p', seen'. split; [exact K1|]. split; [exact K2|]. split; [exact K3|exact K4].
Qed.

End walk.

(** *** Two walks *)

Lemma is_seen_mark seen k k' : k' ≠ k → is_seen (mark is_seen seen k) k' = is_seen seen k'.
Proof. intros Hne. unfold is_seen at 1. by rewrite mark_get, bool_decide_false. Qed.

(** A body that forgets a name no dictionary has leaves everything as it is. *)
Lemma idle_step stays (body : option pval → cst pstate unit) l1 it l2 d p reg seen r1 h r2 : At l1 it l2 d p →
  live d = name_entries reg → reg = r1 ++ (i_name it, h) :: r2 → clean (i_name it) = false → Rest reg seen p →
  body (i_value it) p = Ok (tt, p) →
  ∃ it' d' p', body (i_value it) p = Ok (tt, p') ∧
    let reg' := r1 ++ keep stays seen (i_name it) h ++ r2 in
    Rest reg' (mark stays seen (i_name it)) p' ∧ At l1 it' l2 d' p' ∧
    live d' = name_entries reg' ∧ i_addr it' = i_addr it ∧
    p_ups_name p' = p_ups_name p ∧ p_out p' = p_out p.
Proof.
  intros HA Hl Hreg Hc HR Hb. exists it, d, p. unfold keep, remains, mark. rewrite Hc. cbv zeta. cbn [negb orb app].
  rewrite <- Hreg. by repeat (split; [done|]).
Qed.
Lemma rest_name_nonempty reg seen p k h r1 r2 : Rest reg seen p → reg = r1 ++ (k, h) :: r2 → k ≠ "" ∧ k ∈ reg.*1.
Proof.
  intros HR ->. pose proof (rest_nonempty _ _ _ HR) as Hne. rewrite fmap_app, fmap_cons in *.
  rewrite Forall_app, Forall_cons in Hne. split; [apply Hne|]. apply elem_of_app. right. by left.
Qed.

Lemma evict_step : walk_step is_seen evict_body.
Proof.
  intros l1 it l2 d p reg seen r1 h r2 HR HA Hl Hcl Hd Hv Hreg.
  destruct (rest_name_nonempty _ _ _ _ _ _ _ HR Hreg) as [Hk0 Hin].
  assert (Hseen : ∀ k, k ≠ "" → was_seen (Some k) p = Ok (is_seen seen k, p)).
  { intros k Hk. unfold was_seen. rewrite bind_get, bind_run, (on_get _ _ _ _ p (rest_seen _ _ _ HR) Hk).
    unfold is_seen. by destruct (al_get k seen) as [[]|]. }
  assert (Hk1 := clean_name_nonempty _ Hk0). destruct (clean (i_name it)) eqn:Ec.
  2: { destruct (Hcl _ Hin Ec) as [C1 C2]. eapply idle_step; [done..|]. rewrite Hv. unfold evict_body. cbn [str_of].
       rewrite bind_run, Hseen by done. unfold is_seen. rewrite C2. by eapply forget_absent. }
  assert (Hcn : clean_name (i_name it) = i_name it) by (by apply bool_decide_eq_true in Ec).
  rewrite Hv, Hcn. unfold evict_body. cbn [str_of]. rewrite bind_run, Hseen by done.
  unfold keep, remains, mark. rewrite Ec. cbn [negb orb]. destruct (is_seen seen (i_name it)).
  - destruct (set_seen_rest reg seen (i_name it) false p HR Hk0) as (p1 & H1 & HR1 & F1 & O1).
    exists it, d, p1. split; [exact H1|]. cbv zeta. cbn [app]. rewrite <- Hreg.
    assert (Hnn : p_ups_name p ∉ [p_ups_seen p]).
    { apply notin_singleton. intros E. pose proof (rest_handles _ _ _ HR) as Hnd.
      apply NoDup_cons in Hnd as [_ [Ns _]%NoDup_cons]. apply Ns. rewrite <- E. mem. }
    split; [done|]. split; [by eapply At_frame|]. split; [done|]. split; [done|].
    split; [apply F1|done].
  - destruct (evict_forgets l1 it l2 d p reg seen r1 h r2)
      as (d' & p1 & H1 & HR1 & HA1 & HL1 & N1 & O1); [done..|].
    eexists _, d', p1. split; [exact H1|]. cbv zeta. cbn [app].
    do 3 (split; [done|]). done.
Qed.

(** The walk of every round, in any fleet without clashes and in one of clean names. *)
Lemma evict_unseen_walk reg seen p : Inv reg seen p → no_clash reg seen →
  ∃ p' seen', evict_unseen p = Ok (tt, p') ∧ Inv (survivors is_seen seen reg) seen' p' ∧
    all_marked is_seen seen seen' reg.*1 ∧ p_out p' = p_out p.
Proof. apply (walk_spec is_seen is_seen_mark evict_body evict_step). Qed.
Lemma evict_unseen_spec reg seen p : Inv reg seen p → Forall (fun k => clean_name k = k) reg.*1 →
  ∃ p' seen', evict_unseen p = Ok (tt, p') ∧ Inv (List.filter (fun x => is_seen seen (fst x)) reg) seen' p' ∧
    (∀ k, al_get k seen' = if bool_decide (k ∈ reg.*1) then (if is_seen seen k then Some None else None)
                           else al_get k seen) ∧ p_out p' = p_out p.
Proof.
  intros HI Hc. destruct (evict_unseen_walk reg seen p HI (no_clash_clean _ _ Hc)) as (p' & seen' & H1 & H2 & H3 & H4).
  exists p', seen'. rewrite survivors_clean in H2 by done. split; [done|]. split; [done|]. split; [|done].
  intros k. rewrite (H3 k). case_bool_decide as Hk; [|done]. rewrite Forall_forall in Hc.
  unfold clean. by rewrite bool_decide_true by (by apply Hc).
Qed.

(** The walk of the clean-up forgets every UPS. *)
Definition nobody (seen : list (string * option pval)) (k : string) : bool := false.
Lemma forget_step : walk_step nobody (fun v => forget_ups (str_of v)).
Proof.
  intros l1 it l2 d p reg seen r1 h r2 HR HA Hl Hcl Hd Hv Hreg.
  destruct (rest_name_nonempty _ _ _ _ _ _ _ HR Hreg) as [Hk0 Hin]. destruct (clean (i_name it)) eqn:Ec.
  2: { destruct (Hcl _ Hin Ec) as [C1 C2]. eapply (idle_step nobody (fun v => forget_ups (str_of v))); [done..|]. rewrite Hv. cbn [str_of].
       eapply forget_absent; try done. by apply clean_name_nonempty. }
  assert (Hcn : clean_name (i_name it) = i_name it) by (by apply bool_decide_eq_true in Ec). rewrite Hv, Hcn.
  destruct (evict_forgets l1 it l2 d p reg seen r1 h r2)
    as (d' & p1 & H1 & HR1 & HA1 & HL1 & N1 & O1); [done..|].
  eexists _, d', p1. split; [exact H1|]. unfold keep, remains, mark. rewrite Ec. cbv zeta. cbn [negb orb nobody app].
  do 3 (split; [done|]). done.
Qed.
Lemma forget_all_spec reg seen p : Inv reg seen p → Forall (fun k => clean_name k = k) reg.*1 →
  ∃ p' seen', dfe_read (p_ups_name p) (fun v => forget_ups (str_of v)) p = Ok (tt, p') ∧
    Inv [] seen' p' ∧ p_out p' = p_out p.
Proof.
  intros HI Hc.
  destruct (walk_spec nobody (fun _ _ _ _ => eq_refl) _ forget_step reg seen p HI (no_clash_clean _ _ Hc))
    as (p' & seen' & H1 & H2 & _ & H4).
  exists p', seen'. split; [exact H1|]. split; [|exact H4]. rewrite survivors_clean in H2 by done.
  assert (List.filter (fun x => nobody seen (fst x)) reg = []) as E; [|by rewrite E in H2].
  clear. by induction reg.
Qed.

(** *** A reading, whatever is read *)

(** When [m] returns, the dictionaries are as they were. *)
Definition keeps_store {A} (m : cst pstate A) : Prop := ∀ p a p', m p = Ok (a, p') → same_store p p'.
Lemma keeps_bind {A B} (m : cst pstate A) (k : A → cst pstate B) :
  keeps_store m → (∀ a, keeps_store (k a)) → keeps_store (m ≫= k).
Proof.
  intros Hm Hk p b p'' H. apply cst_bind_inv in H as (a & p' & H1 & H2).
  eapply same_store_trans; [by eapply Hm|by eapply Hk].
Qed.
Lemma keeps_ret {A} (a : A) : keeps_store (mret a).
Proof. intros p b p' [= <- <-]. apply same_store_refl. Qed.
Lemma keeps_fail {A} k : keeps_store (cfail (A := A) k).
Proof. done. Qed.
Lemma keeps_puts line : keeps_store (puts line).
Proof. intros p b p' [= <- <-]. by split. Qed.
Lemma keeps_lift {A} (r : cres A) : keeps_store (clift r).
Proof. intros p b p'. destruct r; [|done..]. intros [= <- <-]. apply same_store_refl. Qed.
Lemma keeps_get_var u v : keeps_store (nut_get_var W u v).
Proof.
  unfold nut_get_var. apply keeps_bind; [intros p b p' [= <- <-]; by split|].
  intros [l|]; [|apply keeps_ret]. unfold answer_at. apply keeps_bind; [|intros; apply keeps_ret].
  destruct (l !! 3%nat); [apply keeps_ret|done].
Qed.
#[local] Hint Resolve keeps_bind keeps_ret keeps_fail keeps_puts keeps_lift keeps_get_var : keeps.
#[local] Ltac keeps := repeat first [apply keeps_bind; [solve [eauto with keeps]|intros ?] | progress case_match | solve [eauto with keeps]].

Lemma keeps_status u cn dt : keeps_store (send_metric_ups_status W u cn dt).
Proof.
  unfold send_metric_ups_status, send_BEGIN, send_END. keeps. apply keeps_bind; [|keeps].
  induction status_dimensions as [|[n f] l IH]; cbn [send_status_dimensions]; unfold send_SET; keeps.
Qed.
Lemma keeps_realpower u cn dt : keeps_store (send_metric_ups_realpower pow W u cn dt).
Proof. unfold send_metric_ups_realpower, str2ndd_ptr, send_BEGIN, send_SET_double, send_SET, send_END. keeps. Qed.
Lemma keeps_chart u cn dt v : keeps_store (send_metric_chart pow W u cn dt v).
Proof. unfold send_metric_chart, str2ndd_ptr, send_BEGIN, send_SET_double, send_SET, send_END. keeps. Qed.
Lemma keeps_charts u cn dt h o l p p' : holds h o l p →
  dfe_read h (send_metric_chart pow W u cn dt) p = Ok (tt, p') → same_store p p'.
Proof.
  intros (d & Hd & [Hwf Hal Hh Ho _ _ Hu Hl]) H. unfold dfe_read in H. rewrite bind_get, Hd in H. cbv zeta in H. unfold on in H.
  rewrite (dfe_foreach_read (p_getd h) (p_putd h) (p_get_put h) (p_put_put h) (p_put_get h)
    _ (λ v, commutes_chart pow W u cn dt v h)) with (d := d) in H; try done.
  - destruct (for_each _ _ p) as [[[] q]| |] eqn:E; [|done..]. injection H as <-.
    assert (Hk : keeps_store (for_each (send_metric_chart pow W u cn dt) (snd <$> live d))).
    { generalize (snd <$> live d) as vs. induction vs as [|v vs IH]; cbn [for_each]; [apply keeps_ret|].
      apply keeps_bind; [apply keeps_chart|done]. }
    pose proof (Hk p tt q E) as [S1 S2 S3 S4 S5 S6].
    assert (Hq : p_getd h q = Some d) by (unfold p_getd in *; by rewrite S1). rewrite (p_put_get _ _ _ Hq). by split.
  - eapply Forall_impl; [exact Hu|]. intros x Hx. simpl in Hx. lia.
  - unfold live. rewrite length_fmap. etrans; [apply List.filter_length_le|lia].
Qed.

(** A reading that returns has marked the UPS, which is registered, and changed nothing else. *)
Lemma collect_keeps_registered reg seen u h dt p p' : Inv reg seen p → u ≠ "" → al_get u reg = Some h →
  collect_ups pow W u dt p = Ok (tt, p') → Inv reg (al_set false u (Some VSeen) seen) p'.
Proof.
  intros HI Hu Hreg. pose proof HI as [HR Hn]%Inv_Rest. unfold collect_ups.
  rewrite bind_get, bind_run, (on_get _ _ _ u p Hn Hu). unfold name_entries. rewrite al_get_map, Hreg.
  cbn [fmap option_fmap option_map mjoin option_join]. rewrite bind_run. cbn [mret cst_ret].
  destruct (set_seen_rest reg seen u true p HR Hu) as (p1 & H1 & HR1 & F1 & _). rewrite bind_run, H1.
  assert (HI1 : Inv reg (al_set false u (Some VSeen) seen) p1).
  { apply Inv_Rest. split; [done|]. rewrite (fr_name _ _ _ F1). eapply holds_frame; [exact F1| |done].
    apply notin_singleton. intros E. pose proof (rest_handles _ _ _ HR) as Hnd.
    apply NoDup_cons in Hnd as [_ [Ns _]%NoDup_cons]. apply Ns. rewrite <- E. mem. }
  intros ([] & p2 & H2 & H)%cst_bind_inv. apply cst_bind_inv in H as ([] & p3 & H3 & H).
  pose proof (same_store_trans _ _ _ (keeps_status _ _ _ _ _ _ H2) (keeps_realpower _ _ _ _ _ _ H3)) as S3.
  assert (HI3 := Inv_same _ _ _ _ S3 HI1).
  assert (Ev : p_ups_vars p = p_ups_vars p3) by (rewrite (ss_vars _ _ S3); symmetry; apply (fr_vars _ _ _ F1)).
  rewrite bind_run, Ev, (on_get _ _ _ u p3 (inv_vars _ _ _ HI3) Hu) in H. unfold vars_entries in H.
  rewrite al_get_map, Hreg in H. cbn [fmap option_fmap option_map mjoin option_join] in H.
  destruct (inv_each _ _ _ HI3 u h (al_get_elem _ _ _ Hreg)) as (cs & _ & Hh).
  by eapply Inv_same; [eapply keeps_charts|].
Qed.
Lemma collect_keeps reg seen u dt p p' : answers_complete W → Inv reg seen p → u ≠ "" → selection_ok (J := J) W (p_lists p) u →
  collect_ups pow W u dt p = Ok (tt, p') → ∃ reg', Inv reg' (al_set false u (Some VSeen) seen) p' ∧
  (∀ k h, al_get k reg = Some h → al_get k reg' = Some h) ∧ (∀ k, k ∈ reg'.*1 → k = u ∨ k ∈ reg.*1).
Proof.
  intros Hc HI Hu HQ H. destruct (al_get u reg) as [h|] eqn:Hreg.
  { exists reg. split; [by eapply collect_keeps_registered|]. auto. }
  destruct (collect_unregistered pow W Hc u reg seen dt p HI Hu HQ Hreg) as (h & p1 & _ & E & HI1 & _ & Hreg1 & _).
  rewrite E in H. exists (al_set false u h reg). split; [by eapply collect_keeps_registered|]. split.
  - intros k x Hk. rewrite al_get_set, decide_False; [done|]. congruence.
  - intros k Hk. destruct (decide (k = u)) as [|Hne]; [by left|right].
    destruct (al_get k reg) as [x|] eqn:Ek; [apply al_get_elem in Ek; by apply (list_elem_of_fmap_2 fst _ (k, x))|].
    exfalso. assert (En : al_get k (al_set false u h reg) = None) by (by rewrite al_get_set, decide_False).
    by apply al_get_None in En.
Qed.
End evict.
