(* ===== verification/PluginThms.v ===== *)
(** * What upsd.plugin does

    The theorems about the program: the command line, what is registered and
    printed for a UPS, which UPSes are forgotten, and the inputs on which the
    program goes wrong. *)

From S2P Require Import Prelude CString Double Inlined Status Charts Clocks.
From S2P Require Import Dictionary DictionarySpec DictionaryThms Plugin PluginSpec EvictSpec.
#[local] Open Scope string_scope.
#[local] Open Scope list_scope.
#[local] Open Scope Z_scope.

(** ** The command line *)

Lemma digits_value_nonneg s : ∀ n, 0 ≤ n → 0 ≤ digits_value s n.
Proof. intros n Hn. pose proof (digits_value_ge s n Hn). lia. Qed.

Lemma str2i_print n : 0 ≤ n < 2 ^ 64 → str2i (print_u n) = Ok (i32 (u32 n)).
Proof.
  intros Hn. unfold str2i, str2u. rewrite skip_spaces_print.
  destruct (print_u_head n) as (d & s & Hd & Hp).
  assert (Hdig : isdigit (digit_char d) = true) by (by apply isdigit_digit_char).
  assert (Hgoal : Ok (i32 (fst (digits_loop 32 (skip_spaces (print_u n)) 0))) = Ok (i32 (u32 n))).
  { rewrite skip_spaces_print, digits_loop_spec. destruct (digits_value_print n Hn) as [-> _]. done. }
  rewrite Hp in *. destruct (digit_char d) as [[] [] [] [] [] [] [] []]; done.
Qed.

Lemma parse_number permute n : 0 ≤ n < 2 ^ 64 →
  parse_command_line permute [print_u n] =
  Ok (let v := u64 (i32 (u32 n)) in
      if (v <=? 0) || (86400 <=? v) then inl EXIT_FAILURE else inr v).
Proof.
  intros Hn. pose proof (str2i_print n Hn) as Hs.
  destruct (print_u_head n) as (d & s & Hd & Hp).
  assert (Hdig : isdigit (digit_char d) = true) by (by apply isdigit_digit_char).
  assert (Hopt : getopt_first permute [] [print_u n] = OptEnd [print_u n]).
  { rewrite Hp. destruct permute; cbn [getopt_first];
      destruct (digit_char d) as [[] [] [] [] [] [] [] []]; done. }
  unfold parse_command_line. rewrite Hopt, Hp, Hdig. cbn [negb].
  rewrite <- Hp, Hs. cbn -[u64 wrap_s]. by case_match.
Qed.

(** A collection frequency that is accepted is between 1 and 86399
    seconds, whatever the command line. *)
Theorem command_line_frequency permute args n :
  parse_command_line permute args = Ok (inr n) → 1 ≤ n < 86400.
Proof.
  unfold parse_command_line. destruct (getopt_first permute [] args) as [| | |[|a l]];
    [done..|intros [= <-]; lia|].
  destruct a as [|c a]; [done|]. destruct (negb (isdigit c)); [done|].
  destruct (str2i _) as [m|k|]; cbn -[u64]; [|done..].
  destruct (Z.leb_spec (u64 m) 0), (Z.leb_spec 86400 (u64 m)); cbn -[u64]; try done.
  intros [= <-]. lia.
Qed.
Lemma command_line_frequency_witness : 1 ≤ 10 < 86400.
Proof. exact (command_line_frequency true ["10"] 10 eq_refl). Defined.

(** A number from 1 to 86399 on the command line is the frequency used;
    one from 86400 to 2^31-1, and 0, is refused with exit status 1; and a number
    is taken modulo 2^32, so 4294967297 is accepted as 1. *)
Theorem command_line_number permute n :
  (1 ≤ n < 86400 → parse_command_line permute [print_u n] = Ok (inr n)) ∧
  (n = 0 ∨ 86400 ≤ n < 2 ^ 31 → parse_command_line permute [print_u n] = Ok (inl 1)) ∧
  (1 ≤ n < 86400 → parse_command_line permute [print_u (2 ^ 32 + n)] = Ok (inr n)).
Proof.
  assert (Hid : ∀ m, 0 ≤ m < 2 ^ 31 → u64 (i32 (u32 m)) = m).
  { intros m Hm. rewrite (wrap_u_id 32) by lia. rewrite i32_small by lia. apply wrap_u_id. lia. }
  split; [|split]; intros Hn.
  - rewrite parse_number by lia. cbv zeta. rewrite Hid by lia.
    destruct (Z.leb_spec n 0), (Z.leb_spec 86400 n); (done || lia).
  - rewrite parse_number by lia. cbv zeta. rewrite Hid by lia.
    destruct (Z.leb_spec n 0), (Z.leb_spec 86400 n); (done || lia).
  - rewrite parse_number by lia. cbv zeta.
    assert (u32 (2 ^ 32 + n) = n) as ->.
    { unfold wrap_u. rewrite Z.add_comm, <- (Z.mul_1_l (2 ^ 32)) at 1.
      rewrite Z.mod_add by lia. apply Z.mod_small. lia. }
    pose proof (Hid n ltac:(lia)) as E. rewrite (wrap_u_id 32 n) in E by lia. rewrite E.
    destruct (Z.leb_spec n 0), (Z.leb_spec 86400 n); (done || lia).
Qed.
Lemma command_line_number_witness :
  parse_command_line true ["86399"] = Ok (inr 86399) ∧
  parse_command_line false ["86400"] = Ok (inl 1) ∧
  parse_command_line true ["4294967297"] = Ok (inr 1).
Proof.
  split; [exact (proj1 (command_line_number true 86399) ltac:(lia))|].
  split; [exact (proj1 (proj2 (command_line_number false 86400)) ltac:(lia))|].
  exact (proj2 (proj2 (command_line_number true 1)) ltac:(lia)).
Defined.

(** ** The start of the program *)

(** The charts of a UPS are some of the table. *)
#[local] Existing Instance table_charts.
Lemma table_selection {J} `{!JudyHS J} W i u : selection_ok (J := J) W i u.
Proof. by intros sel [H _]. Qed.

Section claims.
Context {J : Type} `{!JudyHS J} (pow : dbl → dbl → dbl) (W : world).

Lemma init_inv {Q : charts_pred} every : ∃ p : pstate J, main_init W every = Ok p ∧ Inv [] [] p ∧
  p_out p = [] ∧ p_lists p = 0%nat ∧ p_tests p = 0%nat ∧ p_update_every p = every.
Proof.
  assert (Hc : ∃ c, clocks_init (w_kernel W) clocks_start = Ok (tt, c)) by (by eexists).
  destruct Hc as [c Hc]. unfold main_init, create_dictionaries.
  rewrite bind_run, create_advanced_new by done.
  rewrite bind_run, create_advanced_new by done.
  rewrite bind_run, create_advanced_new by done.
  cbn [mret cst_ret mbind cres_bind]. rewrite Hc. cbn [mbind cres_bind snd].
  eexists. split; [done|]. split; [|done].
  assert (Hnew : ∀ o, opt_dont_overwrite o = false → opt_add_in_front o = false →
    fine (J := J) o [] (dict_new o)).
  { intros o H1 H2. split; try done; [apply wf_new|by constructor]. }
  split; cbn; try (by constructor); try done;
    try (eexists; split; [reflexivity|by apply Hnew]).
  - intros k h Hin. by apply not_elem_of_nil in Hin.
  - apply (bool_decide_unpack _). done.
  - repeat constructor.
Qed.

(** C35. When the client library cannot be initialised, when either of the two
    connections to upsd fails, or when the first listing cannot be started, the
    program prints nothing and exits with the status that disables it. *)
Theorem startup_failure_disables permute turns fuel args every :
  parse_command_line permute args = Ok (inr every) →
  upscli_init (w_nut W) = -1 ∨ upscli_connect (w_nut W) 0 = -1 ∨
  upscli_connect (w_nut W) 1 = -1 ∨ upscli_list_start (w_nut W) 0 = -1 →
  main (J := J) pow W permute turns fuel args = Ok (NETDATA_PLUGIN_EXIT_AND_DISABLE, []).
Proof.
  intros Hargs Hfail. unfold main. rewrite Hargs. cbn [mbind cres_bind].
  destruct (init_inv every) as (p & -> & _ & Hout & Hcalls & _). cbn [mbind cres_bind].
  unfold main_body.
  destruct (upscli_init _ =? -1) eqn:E1; [by cbn; rewrite Hout|].
  destruct (upscli_connect (w_nut W) 0 =? -1) eqn:E2; [by cbn; rewrite Hout|].
  destruct (upscli_connect (w_nut W) 1 =? -1) eqn:E3; [by cbn; rewrite Hout|].
  apply Z.eqb_neq in E1, E2, E3. destruct Hfail as [?|[?|[?|Hl]]]; [done..|].
  rewrite bind_run. cbn -[list_loop main_loop cleanup]. rewrite Hcalls, Hl. cbn. by rewrite Hout.
Qed.

(** ** Registration *)

Section one_ups.
Context (i : nat) (u : string) (f : string → option string).

(** The charts registered for a UPS that answers [f]. *)
Definition available (c : nd_chart) : bool :=
  match f (nut_variable c) with
  | Some _ => true
  | None =>
      bool_decide (nut_variable c = "ups.realpower") &&
      bool_decide (is_Some (f "ups.load")) && bool_decide (is_Some (f "ups.realpower.nominal"))
  end.

Lemma chart_available_eq c (p : pstate J) : answers_complete W → answers W i u f → p_lists p = i →
  ∃ n, chart_available W u c p = Ok (available c, with_calls n p).
Proof.
  intros Hc Hf Hp. unfold chart_available, available.
  rewrite bind_run, nut_get_var_eq, Hp, Hf by done.
  destruct (f (nut_variable c)) as [v|]; [by eexists|].
  assert (Hs : streq (Some (nut_variable c)) (Some "ups.realpower") =
    bool_decide (nut_variable c = "ups.realpower")).
  { unfold streq. case_bool_decide as E; [by rewrite E|]. by apply String.eqb_neq. }
  rewrite Hs. case_bool_decide as E; cbn [negb andb]; [|by eexists].
  rewrite bind_run, nut_get_var_eq by done. cbn [p_lists with_calls]. rewrite Hp, Hf.
  destruct (f "ups.load") as [v|]; [|by eexists].
  rewrite bind_run, nut_get_var_eq by done. cbn [p_lists with_calls]. rewrite Hp, Hf.
  by destruct (f "ups.realpower.nominal"); eexists.
Qed.

Lemma available_selected (sel : list nd_chart) : answers_complete W → answers W i u f →
  selects (J := J) W i u sel → sel = List.filter available nd_charts.
Proof.
  intros Hc Hf [_ Hav]. apply Hav. intros c p a p' _ Hp Ha.
  destruct (chart_available_eq c p Hc Hf Hp) as [n E]. congruence.
Qed.

(** C4. Registering a UPS with a non-empty name, in any state the program
    reaches, succeeds and keeps the invariant of the three dictionaries; the
    dictionary it creates holds, in the order of the table, exactly the charts
    whose variable the UPS answers, and the real power also when the load and
    the nominal power are answered. *)
Theorem register_ups_registers reg seen (p : pstate J) :
  answers_complete W → answers W i u f → p_lists p = i → Inv reg seen p → u ≠ "" →
  ∃ h p', register_ups W u p = Ok (tt, p') ∧ Inv (al_set false u h reg) seen p' ∧
    holds h (made vars_options) (chart_entries (List.filter available nd_charts)) p'.
Proof.
  intros Hc Hf Hp HI Hu.
  destruct (register_ups_spec W Hc reg seen u p HI Hu (table_selection W _ u))
    as (h & sel & p' & H1 & HI' & _ & _ & Hsel & Hh).
  exists h, p'. rewrite Hp in Hsel. by rewrite <- (available_selected sel Hc Hf Hsel).
Qed.

(** ** Collection *)

(** The real power that is sent: measured, if the UPS measures it. *)
Definition reads_realpower (rp : option Z) : Prop :=
  match f "ups.realpower" with
  | Some s => ∃ n, s = print_d n ∧ Z.abs (100 * n) < 2 ^ 53 ∧ rp = Some (100 * n)
  | None => (f "ups.load" = None ∨ f "ups.realpower.nominal" = None) ∧ rp = None
  end.

Lemma value_times_100 n : pow10_exact pow → Z.abs (100 * n) < 2 ^ 53 →
  d_to_i64 (d_mul (fst (str2ndd pow (print_d n))) precision) = Ok (100 * n).
Proof.
  intros Hp Hn. destruct (str2ndd_print pow Hp n) as (x & -> & Hx); [lia|]. cbn [fst].
  apply d_to_i64_exact; [|lia]. rewrite Z.mul_comm. apply d_mul_exact; [done| |lia].
  apply d_of_Z_exact. unfold NETDATA_PLUGIN_PRECISION. lia.
Qed.

Lemma readable_realpower_100 rp : pow10_exact pow → reads_realpower rp →
  readable_realpower pow f rp.
Proof.
  intros Hp. unfold reads_realpower, readable_realpower, realpower_of.
  destruct (f "ups.realpower") as [s|].
  - intros (n & -> & Hn & ->). eexists. split; [done|]. by apply value_times_100.
  - intros [[->| ->] ->]; [done|]. by destruct (f "ups.load").
Qed.

(** C2. A reading of a registered UPS whose answers the program can read prints, in
    this order: the status chart with the bits of the status text, the real power,
    and for each registered chart one BEGIN/SET/END group.  A value is the number of
    the text, multiplied by 100 as a double and truncated; for a whole number that
    is exactly 100 times the number.  For a list of status words other than OFF the
    bits are exactly those of the words. *)
Theorem collect_prints_reading reg seen h cs st rp value dt (p : pstate J) :
  answers_complete W → answers W i u f → p_lists p = i →
  Inv reg seen p → u ≠ "" → al_get u reg = Some h →
  holds h (made vars_options) (chart_entries cs) p →
  parse_status (f "ups.status") = Ok st → readable_realpower pow f rp →
  Forall (readable_chart pow f value) cs →
  (∃ p', collect_ups pow W u dt p = Ok (tt, p') ∧ Inv reg (al_set false u (Some VSeen) seen) p' ∧
    p_out p' = p_out p ++ reading (clean_name u) dt st rp cs value) ∧
  (pow10_exact pow → ∀ c n, c ∈ cs → f (nut_variable c) = Some (print_d n) →
    Z.abs (100 * n) < 2 ^ 53 → value c = 100 * n) ∧
  (∀ fs, f "ups.status" = Some (join_tokens fs) → Forall (λ x, x ≠ OFF ∧ x ≠ OTHER) fs →
    ∀ x, st_get st x = true ↔ x ∈ fs).
Proof.
  intros Hc Hf Hi HI Hu Hreg Hh Hst Hrp Hcs. split; [|split].
  - destruct (collect_registered pow W Hc i u f Hf reg seen h cs dt st rp value p)
      as (p' & H1 & H2 & _ & H4); [done..|]. by exists p'.
  - intros Hp c n Hin Hn Hlt. rewrite Forall_forall in Hcs. destruct (Hcs c Hin) as (s & Hs & Hz).
    rewrite Hn in Hs. injection Hs as <-. rewrite value_times_100 in Hz by done. congruence.
  - intros fs Hfs Hok. destruct (parse_join fs Hok) as (st' & Hst' & Hx). rewrite Hfs in Hst.
    rewrite Hst' in Hst. by injection Hst as <-.
Qed.

(** The chart of the real power is the second of the table. *)
Lemma nd_charts_head : ∃ load realpower rest, nd_charts = load :: realpower :: rest ∧
  nut_variable load = "ups.load" ∧ nut_variable realpower = "ups.realpower" ∧
  chart_id realpower = "load_usage" ∧ chart_dimension realpower = "load_usage".
Proof. by eexists _, _, _. Qed.

(** When a UPS reports its real power, one reading sends the group of
    lines of that chart twice. *)
Theorem realpower_sent_twice reg seen h st n value dt (p : pstate J) :
  answers_complete W → answers W i u f → p_lists p = i → pow10_exact pow →
  Inv reg seen p → u ≠ "" → al_get u reg = Some h →
  holds h (made vars_options) (chart_entries (List.filter available nd_charts)) p →
  parse_status (f "ups.status") = Ok st →
  f "ups.realpower" = Some (print_d n) → Z.abs (100 * n) < 2 ^ 53 →
  Forall (readable_chart pow f value) (List.filter available nd_charts) →
  ∃ p' l1 l2 l3, collect_ups pow W u dt p = Ok (tt, p') ∧
    let group := metric_lines (clean_name u) "load_usage" "load_usage" dt (100 * n) in
    p_out p' = p_out p ++ l1 ++ group ++ l2 ++ group ++ l3.
Proof.
  intros Hc Hf Hi Hp HI Hu Hreg Hh Hst Hrp Hn Hcs.
  destruct (collect_registered pow W Hc i u f Hf reg seen h (List.filter available nd_charts)
    dt st (Some (100 * n)) value p) as (p' & H1 & _ & _ & H4); [done..| |done|].
  { apply readable_realpower_100; [done|]. unfold reads_realpower. rewrite Hrp. by exists n. }
  rewrite H1. unfold reading in H4. clear H1. revert H4.
  destruct nd_charts_head as (load & rp & rest & E0 & E1 & E2 & E3 & E4).
  rewrite E0. assert (Hrpa : available rp = true) by (unfold available; by rewrite E2, Hrp).
  assert (Hv : value rp = 100 * n).
  { rewrite Forall_forall in Hcs. destruct (Hcs rp) as (s & Es & Hs).
    - apply list_elem_of_In, List.filter_In. rewrite E0. split; [right; by left|done].
    - rewrite E2, Hrp in Es. injection Es as <-. rewrite value_times_100 in Hs by done. congruence. }
  cbn [List.filter]. rewrite Hrpa.
  destruct (available load); rewrite ?bind_cons, E3, E4, Hv; intros H4.
  - eexists p', (status_lines _ _ _), (metric_lines _ _ _ _ _), _. by split.
  - eexists p', (status_lines _ _ _), [], _. by split.
Qed.

(** C37. A UPS that does not report its real power but reports its load and
    its nominal real power is registered with the chart of the real power, and
    then, in its first reading, the value of the variable it does not report is
    parsed: the program dereferences a null pointer. *)
Theorem calculated_realpower_crashes reg seen st z n nominal dt (p : pstate J) :
  answers_complete W → answers W i u f → p_lists p = i → pow10_exact pow →
  Inv reg seen p → u ≠ "" → al_get u reg = None →
  parse_status (f "ups.status") = Ok st → readable_realpower pow f (Some z) →
  f "ups.realpower" = None → f "ups.load" = Some (print_d n) → Z.abs (100 * n) < 2 ^ 53 →
  f "ups.realpower.nominal" = Some nominal →
  collect_ups pow W u dt p = UB UB_null.
Proof.
  intros Hc Hf Hi Hp HI Hu Hreg Hst Hrp Hnone Hload Hn Hnom.
  destruct (collect_unregistered pow W Hc u reg seen dt p HI Hu (table_selection W _ u) Hreg)
    as (h & p1 & _ & -> & HI1 & E1 & Hreg1 & sel & Hsel & Hh1). rewrite Hi in E1, Hsel.
  rewrite (available_selected sel Hc Hf Hsel) in Hh1.
  destruct (collect_prefix pow W Hc i u f Hf _ seen h _ dt st (Some z) p1 E1 HI1 Hu Hreg1 Hh1 Hst Hrp)
    as (p2 & -> & _ & Hi2 & (d & Hd & [Hwf Hal _ _ _ _ Hur Hl]) & _).
  unfold dfe_read. rewrite bind_get, Hd. cbv zeta. unfold on.
  rewrite (dfe_foreach_read (p_getd h) (p_putd h) (p_get_put h) (p_put_put h) (p_put_get h)
    _ (λ v, commutes_chart pow W u (clean_name u) dt v h)) with (d := d); try done.
  - clear E1. rewrite Hl. destruct nd_charts_head as (load & rp & rest & -> & E1 & E2 & _).
    assert (available load = true ∧ available rp = true) as [A1 A2].
    { unfold available. rewrite E1, E2, Hload, Hnone, Hnom.
      rewrite !bool_decide_true by (by try eexists). done. }
    cbn [List.filter]. rewrite A1, A2. cbn [chart_entries fmap list_fmap snd for_each].
    destruct (outputs_chart (J := J) pow W Hc i u f Hf (clean_name u) dt load (print_d n) (100 * n))
      as [k Hk]; [by rewrite E1|by apply value_times_100|].
    rewrite bind_run, Hk, bind_run by done. unfold send_metric_chart.
    rewrite bind_run, nut_get_var_eq by done. cbn [p_lists emit with_out with_calls]. by rewrite Hi2, Hf, E2, Hnone.
  - eapply Forall_impl; [exact Hur|]. intros x Hx. simpl in Hx. lia.
  - unfold live. rewrite length_fmap. etrans; [apply List.filter_length_le|lia].
Qed.
End one_ups.

(** ** Eviction *)

(** C5. After each round the UPSes that were not seen are forgotten, in all
    three dictionaries and with their charts, and only those; every other one is
    marked unseen for the next round.  The names must be ones that
    [clean_name()] leaves alone. *)
Theorem eviction_forgets_unseen reg seen (p : pstate J) :
  Inv reg seen p → Forall (λ k, clean_name k = k) reg.*1 →
  ∃ p' seen', evict_unseen p = Ok (tt, p') ∧
    Inv (List.filter (λ kh, is_seen seen kh.1) reg) seen' p' ∧
    Forall (λ k, is_seen seen' k = false) reg.*1 ∧ p_out p' = p_out p.
Proof.
  intros HI Hc. destruct (evict_unseen_spec reg seen p HI Hc) as (p' & seen' & H1 & H2 & H3 & H4).
  exists p', seen'. split; [done|]. split; [exact H2|]. split; [|done].
  apply Forall_forall. intros k Hk. unfold is_seen at 1. rewrite (H3 k), bool_decide_true by done.
  by destruct (is_seen seen k).
Qed.

(** A step of a round: a listed UPS is read, or the walk forgets. *)
Inductive round_step (names : list string) (p p' : pstate J) : Prop :=
| step_collect u dt : u ∈ names → collect_ups pow W u dt p = Ok (tt, p') → round_step names p p'
| step_walk : evict_unseen p = Ok (tt, p') → round_step names p p'.
(** Of a name that [clean_name()] changes, the cleaned form is not a name. *)
Definition names_apart (names : list string) : Prop :=
  ∀ k, k ∈ names → k ≠ "" ∧ (clean k = false → clean_name k ∉ names).

(** What the steps keep: all the names are of [names], and [u] is registered. *)
Record stuck (names : list string) (u : string) (h : nat) reg seen (p : pstate J) : Prop := {
  st_inv : Inv reg seen p;
  st_reg : reg.*1 ⊆ names;
  st_seen : ∀ k, is_Some (al_get k seen) → k ∈ names;
  st_here : al_get u reg = Some h;
}.
Lemma stuck_no_clash names u h reg seen p : names_apart names → stuck names u h reg seen p → no_clash reg seen.
Proof.
  intros Hn [_ Hr Hs _] k Hk Hc. destruct (Hn k (Hr k Hk)) as [_ Hk']. specialize (Hk' Hc).
  split; [by intros ?%Hr|]. destruct (al_get (clean_name k) seen) eqn:E; [|done]. by destruct Hk'; apply Hs.
Qed.
Lemma stuck_step names u h p p' : answers_complete W → names_apart names → clean u = false →
  (∃ reg seen, stuck names u h reg seen p) → round_step names p p' → ∃ reg seen, stuck names u h reg seen p'.
Proof.
  intros Hc Hn Hu (reg & seen & HS) [v dt Hv H|H]; pose proof HS as [HI Hr Hs Hh].
  - destruct (Hn v Hv) as [Hne _].
    destruct (collect_keeps pow W reg seen v dt p p' Hc HI Hne (table_selection W _ v) H) as (reg' & HI' & K1 & K2).
    exists reg', (al_set false v (Some VSeen) seen). split; [done| | |by apply K1].
    + intros k [-> | Hk]%K2; [done|by apply Hr].
    + intros k. rewrite al_get_set. case_decide as E; [by rewrite E|apply Hs].
  - destruct (evict_unseen_walk reg seen p HI (stuck_no_clash _ _ _ _ _ _ Hn HS)) as (q & seen' & H1 & H2 & H3 & _).
    rewrite H in H1. injection H1 as <-. exists (survivors is_seen seen reg), seen'. split; [done| | |].
    + intros k (x & -> & Hx)%list_elem_of_fmap. apply Hr, list_elem_of_fmap_2. unfold survivors in Hx.
      by apply list_elem_of_In, List.filter_In in Hx as [Hx%list_elem_of_In _].
    + intros k. rewrite (H3 k). case_bool_decide as Hk; [intros _; by apply Hr|apply Hs].
    + apply al_get_survivors; [|done]. unfold remains. by rewrite Hu.
Qed.

(** C39. A UPS whose name has a space or a dot is never forgotten.  In a fleet where no
    UPS has the cleaned name of another, once it is registered it stays so with the
    same charts, whichever UPSes of the fleet are read and however often the walk
    runs, even if it is never listed again: the walk returns, and keeps every UPS whose name
    [clean_name()] changes besides the ones that were seen. *)
Theorem unclean_names_never_evicted names u h reg seen (p p' : pstate J) :
  answers_complete W → names_apart names → Inv reg seen p → reg.*1 ⊆ names →
  (∀ k, is_Some (al_get k seen) → k ∈ names) → al_get u reg = Some h → clean_name u ≠ u →
  rtc (round_step names) p p' →
  ∃ reg' seen', Inv reg' seen' p' ∧ al_get u reg' = Some h ∧
    ∃ p'' seen'', evict_unseen p' = Ok (tt, p'') ∧
      Inv (List.filter (λ kh, negb (bool_decide (clean_name kh.1 = kh.1)) || is_seen seen' kh.1) reg') seen'' p''.
Proof.
  intros Hc Hn HI Hr Hs Hu Hcl Hsteps.
  assert (Hcu : clean u = false) by (by apply bool_decide_false).
  assert (HS : ∃ reg seen, stuck names u h reg seen p') .
  { assert (H0 : ∃ reg seen, stuck names u h reg seen p) by (by exists reg, seen).
    clear HI Hr Hs Hu. induction Hsteps as [|p q p' H _ IH]; [done|]. by apply IH; eapply stuck_step. }
  destruct HS as (reg' & seen' & HS). exists reg', seen'. split; [apply HS|]. split; [apply HS|].
  destruct (evict_unseen_walk reg' seen' p' (st_inv _ _ _ _ _ _ HS) (stuck_no_clash _ _ _ _ _ _ Hn HS))
    as (p'' & seen'' & H1 & H2 & _). by exists p'', seen''.
Qed.
End claims.

(** ** Witnesses *)

(** One UPS, whose answers are given by an association list. *)
Definition ex_client (answers : list (string * string)) : nut_client := NutClient 0 (λ _, 0)
  (λ _, 0) (λ _, Some ["END"])
  (λ _ _ _ v, (λ s, ["VAR"; "ups"; v; s]) <$> al_get v answers).
Definition ex_world (answers : list (string * string)) : world :=
  World (ex_client answers) ex_kernel (λ _, true) (λ _, false).
Definition ex_answer (l : list (string * string)) (v : string) : option string := al_get v l.

Lemma ex_complete l : answers_complete (ex_world l).
Proof. intros i n u v x. cbn. destruct (al_get v l); [|done]. intros [= <-]. cbn. lia. Qed.
Lemma ex_answers l i u : answers (ex_world l) i u (ex_answer l).
Proof. intros n v. cbn. unfold ex_answer. by destruct (al_get v l). Qed.

Abbreviation ex_pstate := (pstate (gmap string nat)).

Lemma startup_failure_disables_witness :
  main (J := gmap string nat) pow_table
    (World (NutClient (-1) (λ _, 0) (λ _, 0) (λ _, None) (λ _ _ _ _, None)) ex_kernel
      (λ _, false) (λ _, false)) true 3 3 ["5"] = Ok (1, []).
Proof.
  apply (startup_failure_disables pow_table _ true 3 3 ["5"] 5); [done|]. by left.
Defined.

Definition ex_measured : list (string * string) :=
  [("ups.status", "OL CHRG"); ("ups.load", "42"); ("ups.realpower", "300")].
Definition ex_calculated : list (string * string) :=
  [("ups.status", "OL"); ("ups.load", "50"); ("ups.realpower.nominal", "600")].
Definition ex_value (c : nd_chart) : Z :=
  if String.eqb (nut_variable c) "ups.load" then 42 else 300.

(** A state in which one UPS is registered. *)
Lemma ex_registered u l : u ≠ "" → ∃ (p : ex_pstate) h, Inv [(u, h)] [] p ∧
  holds h (made vars_options)
    (chart_entries (List.filter (available (ex_answer l)) nd_charts)) p.
Proof.
  intros Hu. destruct (init_inv (J := gmap string nat) (ex_world l) 1) as (p & _ & HI & _).
  destruct (register_ups_spec (ex_world l) (ex_complete l) [] [] u p HI Hu (table_selection _ _ _))
    as (h & sel & p' & _ & HI' & _ & _ & Hsel & Hh).
  exists p', h. split; [exact HI'|].
  by rewrite <- (available_selected (ex_world l) _ u (ex_answer l) sel (ex_complete l) (ex_answers l _ u) Hsel).
Qed.

Lemma ex_charts : List.filter (available (ex_answer ex_measured)) nd_charts = take 2 nd_charts.
Proof. vm_compute. reflexivity. Qed.
Lemma ex_charts_readable : Forall (λ c, ex_answer ex_measured (nut_variable c) =
    Some (print_d (ex_value c)) ∧ Z.abs (100 * ex_value c) < 2 ^ 53) (take 2 nd_charts).
Proof. do 2 (apply Forall_cons; split; [by vm_compute|]). constructor. Qed.

Lemma register_ups_registers_witness : ∃ (p p' : ex_pstate) h,
  register_ups (ex_world ex_measured) "ups" p = Ok (tt, p') ∧ Inv [("ups", h)] [] p'.
Proof.
  destruct (init_inv (J := gmap string nat) (ex_world ex_measured) 1) as (p & _ & HI & _).
  destruct (register_ups_registers (ex_world ex_measured) (p_lists p) "ups" (ex_answer ex_measured) [] [] p
    (ex_complete _) (ex_answers _ _ _) eq_refl HI) as (h & p' & H1 & H2 & _); [done|].
  by exists p, p', h.
Defined.

Lemma ex_charts_values : Forall (readable_chart pow_table (ex_answer ex_measured) (λ c, 100 * ex_value c))
  (List.filter (available (ex_answer ex_measured)) nd_charts).
Proof.
  rewrite ex_charts. eapply Forall_impl; [exact ex_charts_readable|].
  intros c [E Hn]. eexists. split; [exact E|]. apply value_times_100; [apply pow_table_exact|done].
Qed.
Lemma collect_prints_reading_witness : ∃ (p p' : ex_pstate),
  collect_ups pow_table (ex_world ex_measured) "ups" 1000000 p = Ok (tt, p') ∧
  p_out p' = p_out p ++ status_lines "ups" 1000000 (st_set CHRG (st_set OL status_zero)) ++
    metric_lines "ups" "load_usage" "load_usage" 1000000 30000 ++
    metric_lines "ups" "load_percentage" "load" 1000000 4200 ++
    metric_lines "ups" "load_usage" "load_usage" 1000000 30000.
Proof.
  destruct (ex_registered "ups" ex_measured) as (p & h & HI & Hh); [done|].
  destruct (collect_prints_reading pow_table (ex_world ex_measured) (p_lists p) "ups" (ex_answer ex_measured)
    [("ups", h)] [] h (List.filter (available (ex_answer ex_measured)) nd_charts)
    (st_set CHRG (st_set OL status_zero)) (Some 30000) (λ c, 100 * ex_value c) 1000000 p) as [(p' & H1 & _ & H2) _].
  - apply ex_complete.
  - apply ex_answers.
  - reflexivity.
  - exact HI.
  - done.
  - done.
  - exact Hh.
  - reflexivity.
  - eexists. split; [reflexivity|vm_compute; reflexivity].
  - exact ex_charts_values.
  - exists p, p'. split; [exact H1|]. rewrite H2. f_equal.
Defined.

Lemma realpower_sent_twice_witness : ∃ (p p' : ex_pstate) l1 l2 l3,
  collect_ups pow_table (ex_world ex_measured) "ups" 1000000 p = Ok (tt, p') ∧
  p_out p' = p_out p ++ l1 ++ ["BEGIN upsd_ups.load_usage 1000000"; "SET load_usage = 30000"; "END"]
    ++ l2 ++ ["BEGIN upsd_ups.load_usage 1000000"; "SET load_usage = 30000"; "END"] ++ l3.
Proof.
  destruct (ex_registered "ups" ex_measured) as (p & h & HI & Hh); [done|].
  destruct (realpower_sent_twice pow_table (ex_world ex_measured) (p_lists p) "ups" (ex_answer ex_measured)
    [("ups", h)] [] h (st_set CHRG (st_set OL status_zero)) 300 (λ c, 100 * ex_value c) 1000000 p)
    as (p' & l1 & l2 & l3 & H1 & H2).
  - apply ex_complete.
  - apply ex_answers.
  - reflexivity.
  - apply pow_table_exact.
  - exact HI.
  - done.
  - done.
  - exact Hh.
  - reflexivity.
  - reflexivity.
  - lia.
  - exact ex_charts_values.
  - by exists p, p', l1, l2, l3.
Defined.

Lemma calculated_realpower_crashes_witness : ∃ p : ex_pstate,
  collect_ups pow_table (ex_world ex_calculated) "ups" 1000000 p = UB UB_null.
Proof.
  destruct (init_inv (J := gmap string nat) (ex_world ex_calculated) 1) as (p & _ & HI & _).
  exists p. apply (calculated_realpower_crashes pow_table (ex_world ex_calculated) (p_lists p) "ups"
    (ex_answer ex_calculated) [] [] (st_set OL status_zero) 30000 50 "600").
  - apply ex_complete.
  - apply ex_answers.
  - reflexivity.
  - apply pow_table_exact.
  - exact HI.
  - done.
  - done.
  - reflexivity.
  - eexists. split; [reflexivity|vm_compute; reflexivity].
  - reflexivity.
  - reflexivity.
  - lia.
  - reflexivity.
Defined.

Lemma eviction_forgets_unseen_witness : ∃ (p p' : ex_pstate) seen',
  evict_unseen p = Ok (tt, p') ∧ Inv [] seen' p'.
Proof.
  destruct (ex_registered "ups" ex_measured) as (p & h & HI & _); [done|].
  destruct (eviction_forgets_unseen [("ups", h)] [] p HI) as (p' & seen' & H1 & H2 & _).
  - by repeat constructor.
  - by exists p, p', seen'.
Defined.

(** A fleet of two: one is read, and forgotten after two walks; the other is not. *)
Definition ex_rounds : cst ex_pstate unit :=
  _ ← collect_ups pow_table (ex_world ex_measured) "ups" 1000000; _ ← evict_unseen; evict_unseen.
Lemma ex_rounds_return : match (p ← main_init (J := gmap string nat) (ex_world ex_measured) 1;
    r ← register_ups (ex_world ex_measured) "rack.1" p; ex_rounds (snd r)) with Ok _ => True | _ => False end.
Proof. vm_compute. exact I. Qed.
Lemma unclean_names_never_evicted_witness : ∃ (p p' : ex_pstate) h reg' seen',
  Inv [("rack.1", h)] [] p ∧ ex_rounds p = Ok (tt, p') ∧ Inv reg' seen' p' ∧ al_get "rack.1" reg' = Some h.
Proof.
  destruct (init_inv (J := gmap string nat) (ex_world ex_measured) 1) as (p0 & E0 & HI0 & _).
  destruct (register_ups_spec (ex_world ex_measured) (ex_complete _) [] [] "rack.1" p0 HI0)
    as (h & sel & p & H0 & HI & _); [done|apply table_selection|].
  assert (He : ∃ p', ex_rounds p = Ok (tt, p')).
  { pose proof ex_rounds_return as Hr. rewrite E0 in Hr. cbn [mbind cres_bind] in Hr. rewrite H0 in Hr.
    cbn [mbind cres_bind snd] in Hr. destruct (ex_rounds p) as [[[] p']| |]; [by exists p'|done..]. }
  destruct He as [p' He]. pose proof He as ([] & p1 & S1 & He1)%cst_bind_inv.
  apply cst_bind_inv in He1 as ([] & p2 & S2 & S3).
  destruct (unclean_names_never_evicted pow_table (ex_world ex_measured) ["rack.1"; "ups"] "rack.1" h
    [("rack.1", h)] [] p p') as (reg' & seen' & R1 & R2 & _).
  - apply ex_complete.
  - intros k Hk. apply (bool_decide_unpack _). revert k Hk. apply Forall_forall. by repeat constructor.
  - exact HI.
  - intros k Hk. cbn in Hk. apply list_elem_of_singleton in Hk as ->. by left.
  - by intros k [].
  - reflexivity.
  - by apply (bool_decide_unpack _).
  - eapply rtc_l; [by eapply step_collect; [right; left|]|]. eapply rtc_l; [by eapply step_walk|]. apply rtc_once. by eapply step_walk.
  - by exists p, p', h, reg', seen'.
Defined.

(** Fractions are truncated after the multiplication: 0.29 is sent as 28. *)
Example fraction_truncated :
  d_to_i64 (d_mul (fst (str2ndd pow_table "0.29")) precision) = Ok 28.
Proof. vm_compute. reflexivity. Qed.
