(* ===== verification/Fleet.v ===== *)
(** * Whole runs of upsd.plugin

    What [main()] prints for a fleet of UPSes, from the registration of the
    first listing to the exit status: [registration] and [reading_of] are the
    lines of one UPS; [listing] is what upsd answers to a listing; [rounds] is the
    abstract machine of the main loop, whose state is the list of the registered
    names, and which is told by upsd, the clocks, the signals and the pipe what
    happens next.  The machine leaves nothing open, and the program refines it. *)

From S2P Require Import Prelude CString Double Inlined Status Charts Clocks.
From S2P Require Import Dictionary DictionarySpec DictionaryThms Plugin PluginSpec EvictSpec PluginThms.
#[local] Open Scope string_scope.
#[local] Open Scope list_scope.
#[local] Open Scope Z_scope.

Section fleet.
Context {J : Type} `{!JudyHS J} (pow : dbl → dbl → dbl) (W : world).
Abbreviation pstate := (pstate J).
Implicit Types (p : pstate).

(** ** What the operations on dictionaries and on the output leave alone *)

(** The clocks, the tests of the signals, the update interval, the three handles
    and the number of calls on [ups1] stay. *)
Record quiet_step p p' : Prop := {
  qs_every : p_update_every p' = p_update_every p;
  qs_tests : p_tests p' = p_tests p;
  qs_clocks : p_clocks p' = p_clocks p;
  qs_lists : p_lists p' = p_lists p;
  qs_vars : p_ups_vars p' = p_ups_vars p;
  qs_seen : p_ups_seen p' = p_ups_seen p;
  qs_name : p_ups_name p' = p_ups_name p;
}.
#[local] Instance quiet_step_preorder : PreOrder quiet_step.
Proof.
  split; [by split|]. intros p1 p2 p3 [] []. split; congruence.
Qed.
Definition quiet {A} (m : cst pstate A) : Prop := ∀ p a p', m p = Ok (a, p') → quiet_step p p'.

Lemma quiet_bind {A B} (m : cst pstate A) (k : A → cst pstate B) :
  quiet m → (∀ a, quiet (k a)) → quiet (m ≫= k).
Proof.
  intros Hm Hk p b p'' H. apply cst_bind_inv in H as (a & p' & H1 & H2).
  etrans; [by eapply Hm|by eapply Hk].
Qed.
Lemma quiet_ret {A} (a : A) : quiet (mret a).
Proof. by intros p b p' [= -> ->]. Qed.
Lemma quiet_get : quiet cget.
Proof. by intros p b p' [= -> ->]. Qed.
Lemma quiet_fail {A} k : quiet (cfail (A := A) k).
Proof. done. Qed.
Lemma quiet_lift {A} (r : cres A) : quiet (clift r).
Proof. intros p b p'. destruct r; intros [= -> ->]. done. Qed.
Lemma quiet_puts line : quiet (puts line).
Proof. intros p b p' [= <- <-]. by split. Qed.
Lemma quiet_call {A} (f : nat → nat → A) : quiet (nut_call f).
Proof. intros p b p' [= <- <-]. by split. Qed.
Lemma quiet_on {A} h (m : cst (dict pval J) A) : quiet (on h m).
Proof.
  intros p b p'. unfold on, run_in. destruct (p_getd h p); [|done].
  destruct (m _) as [[]| |]; intros [= <- <-]. by split.
Qed.
Lemma quiet_on_store {A} (m : cst (store pval J) A) : quiet (on_store m).
Proof. intros p b p'. unfold on_store. destruct (m _) as [[]| |]; intros [= <- <-]. by split. Qed.
Lemma quiet_answer l i : quiet (answer_at l i).
Proof. unfold answer_at. destruct (l !! i); [apply quiet_ret|apply quiet_fail]. Qed.

Create HintDb quiet.
#[local] Hint Resolve quiet_ret quiet_get quiet_fail quiet_lift quiet_puts quiet_call quiet_on
  quiet_on_store quiet_answer : quiet.
(** Goes through the binds and the cases of a program. *)
Ltac quiet :=
  repeat first
    [ progress intros
    | solve [eauto with quiet]
    | apply quiet_bind
    | match goal with
      | |- quiet (match ?x with _ => _ end) => destruct x
      | |- quiet (if ?x then _ else _) => destruct x
      end ].

Lemma quiet_get_var u v : quiet (nut_get_var W u v).
Proof. unfold nut_get_var. quiet. Qed.
#[local] Hint Resolve quiet_get_var : quiet.
Lemma quiet_send_labels u line l : quiet (send_labels W u line l).
Proof. induction l as [|[v n] l IH]; cbn [send_labels]; quiet. Qed.
Lemma quiet_puts_all l : quiet (puts_all l).
Proof. induction l as [|x l IH]; cbn [puts_all]; quiet. Qed.
#[local] Hint Resolve quiet_send_labels quiet_puts_all : quiet.
Lemma quiet_register_charts u cn h cs : quiet (register_charts W u cn h cs).
Proof.
  induction cs as [|c cs IH]; cbn [register_charts]; [quiet|].
  apply quiet_bind; [unfold chart_available; quiet|]. quiet.
Qed.
#[local] Hint Resolve quiet_register_charts : quiet.
Lemma quiet_register u : quiet (register_ups W u).
Proof. unfold register_ups. quiet. Qed.

Lemma quiet_dfe h (body : option pval → cst pstate unit) :
  (∀ v, quiet (body v)) → quiet (dfe_read h body).
Proof.
  intros Hb. unfold dfe_read. apply quiet_bind; [apply quiet_get|]. intros p.
  unfold dfe_foreach. apply quiet_bind; [apply quiet_on|]. generalize (match p_getd h p with
    Some d => S (length (d_items d)) | None => 0%nat end) as fuel.
  induction fuel as [|fuel IH]; intros dfe; cbn [dfe_loop];
    destruct (dfe_item dfe), (dfe_value dfe); quiet; done.
Qed.
#[local] Hint Resolve quiet_register quiet_dfe : quiet.

Lemma quiet_status u cn dt : quiet (send_metric_ups_status W u cn dt).
Proof.
  unfold send_metric_ups_status. apply quiet_bind; [quiet|]. intros s.
  apply quiet_bind; [quiet|]. intros st. apply quiet_bind; [quiet|]. intros _.
  apply quiet_bind; [|quiet].
  induction status_dimensions as [|[n f] l IH]; cbn [send_status_dimensions]; quiet.
Qed.
Lemma quiet_realpower u cn dt : quiet (send_metric_ups_realpower pow W u cn dt).
Proof. unfold send_metric_ups_realpower, str2ndd_ptr, send_SET_double. quiet. Qed.
Lemma quiet_chart u cn dt v : quiet (send_metric_chart pow W u cn dt v).
Proof. unfold send_metric_chart, str2ndd_ptr, send_SET_double. quiet. Qed.
#[local] Hint Resolve quiet_status quiet_realpower quiet_chart : quiet.
Lemma quiet_collect u dt : quiet (collect_ups pow W u dt).
Proof. unfold collect_ups, set_seen. quiet. Qed.
Lemma quiet_forget u : quiet (forget_ups u).
Proof. unfold forget_ups. quiet. Qed.
#[local] Hint Resolve quiet_forget : quiet.
Lemma quiet_evict : quiet evict_unseen.
Proof.
  apply quiet_bind; [quiet|]. intros p. apply quiet_dfe. unfold evict_body, was_seen, set_seen. quiet.
Qed.
(** ** The lines of a registration *)

Section registration_lines.
Hypothesis Hcomplete : answers_complete W.
(** The UPS answers [f v] to the variable [v]. *)
Context (i : nat) (u : string) (f : string → option string) (every : Z).
Hypothesis Hf : answers W i u f.

Definition label_lines (line : string → string → string) : list string :=
  omap (λ s, line (snd s) <$> f (fst s)) label_sources.
Definition chart_registration (c : nd_chart) : list string :=
  [chart_line (clean_name u) c every] ++ label_lines chart_label_line ++
  ["CLABEL 'ups_name' '" +:+ u +:+ "' " +:+ print_u NETDATA_CLABEL_SOURCE_AUTO;
   "CLABEL_COMMIT"; chart_dimension_line c].
Definition registration : list string :=
  [status_chart_line (clean_name u) every] ++ label_lines status_label_line ++
  ["CLABEL ups_name '" +:+ u +:+ "' " +:+ print_u NETDATA_CLABEL_SOURCE_AUTO; "CLABEL_COMMIT"] ++
  (status_dimension_line <$> (fst <$> status_dimensions)) ++
  (List.filter (available f) nd_charts ≫= chart_registration).

(** When [m] returns it has printed [lines], and its value is as [R] says. *)
Definition prints {A} (m : cst pstate A) (lines : list string) (R : A → Prop) : Prop :=
  ∀ p a p', p_update_every p = every ∧ p_lists p = i → m p = Ok (a, p') →
    p_out p' = p_out p ++ lines ∧ (p_update_every p' = every ∧ p_lists p' = i) ∧ R a.

Lemma prints_bind {A B} (m : cst pstate A) (k : A → cst pstate B) l1 l2 R T :
  prints m l1 R → (∀ a, R a → prints (k a) l2 T) → prints (m ≫= k) (l1 ++ l2) T.
Proof.
  intros Hm Hk p b p'' He H. apply cst_bind_inv in H as (a & p' & H1 & H2).
  destruct (Hm p a p' He H1) as (O1 & E1 & Ra). destruct (Hk a Ra p' b p'' E1 H2) as (O2 & E2 & Tb).
  split; [|done]. by rewrite O2, O1, app_assoc.
Qed.
(** Nothing is printed before the rest. *)
Lemma prints_silent {A B} (m : cst pstate A) (k : A → cst pstate B) l R T :
  prints m [] R → (∀ a, R a → prints (k a) l T) → prints (m ≫= k) l T.
Proof. apply (prints_bind m k [] l). Qed.
Lemma prints_ret {A} (a : A) (R : A → Prop) : R a → prints (mret a) [] R.
Proof. intros Ha p b p' He [= <- <-]. by rewrite app_nil_r. Qed.
Lemma prints_puts line : prints (puts line) [line] (λ _, True).
Proof. by intros p b p' He [= <- <-]. Qed.
Lemma prints_cons {B} line (k : unit → cst pstate B) l T : prints (k tt) l T → prints (puts line ≫= k) (line :: l) T.
Proof. intros H. apply (prints_bind _ _ [line] l _ _ (prints_puts line)). by intros [] _. Qed.
Lemma prints_get : prints cget [] (λ p, p_update_every p = every).
Proof. intros p b p' He [= <- <-]. rewrite app_nil_r. by destruct He. Qed.
Lemma prints_get_var v : prints (nut_get_var W u v) [] (λ x, x = f v).
Proof using Hcomplete Hf.
  intros p b p' He. rewrite nut_get_var_eq, (proj2 He), Hf by done. intros [= <- <-]. by rewrite app_nil_r.
Qed.
Lemma prints_on {A} h (m : cst (dict pval J) A) : prints (on h m) [] (λ _, True).
Proof.
  intros p b p' He. unfold on, run_in. destruct (p_getd h p); [|done].
  destruct (m _) as [[]| |]; intros [= <- <-]. by rewrite app_nil_r.
Qed.
Lemma prints_on_store {A} (m : cst (store pval J) A) : prints (on_store m) [] (λ _, True).
Proof.
  intros p b p' He. unfold on_store. destruct (m _) as [[]| |]; intros [= <- <-].
  by rewrite app_nil_r.
Qed.
Lemma prints_puts_all l : prints (puts_all l) l (λ _, True).
Proof.
  induction l as [|x l IH]; cbn [puts_all]; [by apply prints_ret|].
  apply (prints_bind _ _ [x] l _ _ (prints_puts x)). done.
Qed.
Lemma prints_available c : prints (chart_available W u c) [] (λ b, b = available f c).
Proof using Hcomplete Hf.
  intros p b p' He H. destruct (chart_available_eq W i u f c p Hcomplete Hf (proj2 He)) as [n E].
  rewrite E in H. injection H as <- <-. by rewrite app_nil_r.
Qed.
Lemma prints_labels line : prints (send_labels W u line label_sources) (label_lines line) (λ _, True).
Proof using Hcomplete Hf.
  unfold label_lines. induction label_sources as [|[v n] l IH]; cbn [send_labels]; [by apply prints_ret|].
  eapply prints_silent; [apply prints_get_var|]. intros x ->. cbn [omap list_omap fst snd].
  destruct (f v) as [s|]; cbn [fmap option_fmap option_map].
  - by apply (prints_bind _ _ [_] _ _ _ (prints_puts _)).
  - by apply (prints_silent _ _ _ (λ _, True)); [apply prints_ret|].
Qed.

Lemma prints_chart c h : prints
  (p ← cget;
   _ ← puts (chart_line (clean_name u) c (p_update_every p));
   _ ← send_labels W u chart_label_line label_sources;
   _ ← puts ("CLABEL 'ups_name' '" +:+ u +:+ "' " +:+ print_u NETDATA_CLABEL_SOURCE_AUTO);
   _ ← puts "CLABEL_COMMIT";
   _ ← puts (chart_dimension_line c);
   _ ← on h (dictionary_set (Some (nut_variable c)) (Some (VChart c)) 0);
   mret tt) (chart_registration c) (λ _, True).
Proof using Hcomplete Hf.
  eapply prints_silent; [apply prints_get|]. intros p ->. unfold chart_registration.
  apply (prints_bind _ _ _ _ _ _ (prints_puts _)). intros _ _.
  apply (prints_bind _ _ _ _ _ _ (prints_labels _)). intros _ _.
  apply (prints_bind _ _ [_] [_; _] _ _ (prints_puts _)). intros _ _.
  apply (prints_bind _ _ [_] [_] _ _ (prints_puts _)). intros _ _.
  apply (prints_bind _ _ [_] [] _ _ (prints_puts _)). intros _ _.
  by eapply prints_silent; [apply prints_on|]; intros _ _; apply prints_ret.
Qed.
Lemma prints_charts h cs : prints (register_charts W u (clean_name u) h cs)
  (List.filter (available f) cs ≫= chart_registration) (λ _, True).
Proof using Hcomplete Hf.
  induction cs as [|c cs IH]; cbn [register_charts List.filter]; [by apply prints_ret|].
  eapply prints_silent; [apply prints_available|]. intros b ->. destruct (available f c).
  - rewrite bind_cons. by apply (prints_bind _ _ _ _ _ _ (prints_chart c h)).
  - by apply (prints_silent _ _ _ (λ _, True)); [apply prints_ret|].
Qed.

Lemma prints_registered hn hv a : prints
  (_ ← on hn (value_write a (VStr (clean_name u)));
   _ ← puts (status_chart_line (clean_name u) every);
   _ ← send_labels W u status_label_line label_sources;
   _ ← puts ("CLABEL ups_name '" +:+ u +:+ "' " +:+ print_u NETDATA_CLABEL_SOURCE_AUTO);
   _ ← puts "CLABEL_COMMIT";
   _ ← puts_all (status_dimension_line <$> (fst <$> status_dimensions));
   h ← on_store (dictionary_create_advanced vars_options 0);
   _ ← register_charts W u (clean_name u) h nd_charts;
   _ ← on hv (dictionary_set (Some u) (Some (VVars h)) 0);
   mret tt) registration (λ _, True).
Proof using Hcomplete Hf.
  unfold registration. eapply prints_silent; [apply prints_on|]. intros _ _.
  apply (prints_bind _ _ _ _ _ _ (prints_puts _)). intros _ _.
  apply (prints_bind _ _ _ _ _ _ (prints_labels _)). intros _ _.
  cbn [app]. apply prints_cons, prints_cons.
  apply (prints_bind _ _ _ _ _ _ (prints_puts_all _)). intros _ _.
  eapply prints_silent; [apply prints_on_store|]. intros h _.
  rewrite <- (app_nil_r (_ ≫= _)).
  apply (prints_bind _ _ _ _ _ _ (prints_charts h _)). intros _ _.
  by eapply prints_silent; [apply prints_on|]; intros _ _; apply prints_ret.
Qed.
Lemma register_prints {Q : charts_pred} reg seen p p' : Inv reg seen p → u ≠ "" →
  p_update_every p = every → p_lists p = i → register_ups W u p = Ok (tt, p') →
  p_out p' = p_out p ++ registration.
Proof using Hcomplete Hf.
  intros HI Hu He Hi. pose proof (inv_name _ _ _ HI) as Hn.
  destruct (on_set _ _ _ u (Some (VStr u)) (Z.of_nat (String.length u) + 1) p Hn Hu)
    as (a & p1 & H1 & _ & F1 & _ & O1 & _).
  rewrite stored_name in H1. unfold register_ups. intros H. rewrite bind_get in H.
  erewrite cst_bind_Ok in H by exact H1. cbv beta iota zeta in H. rewrite He in H. rewrite <- O1.
  assert (E1 : p_update_every p1 = every ∧ p_lists p1 = i) by (rewrite <- He, <- Hi; split; apply F1).
  exact (proj1 (prints_registered _ _ a p1 tt p' E1 H)).
Qed.
End registration_lines.

(** ** A fleet of UPSes *)

Section run.
Hypothesis Hcomplete : answers_complete W.
(** [fleet i u v] is what the UPS [u] answers to the variable [v] while the answer
    to the call [i] on [ups1] is handled.  The values change from one listing to the
    next; which charts a UPS can feed does not. *)
Context (fleet : nat → string → string → option string) (charts_of : string → list nd_chart).
Hypothesis Hfleet : ∀ i u, answers W i u (fleet i u).
Hypothesis Hcharts : ∀ i u, List.filter (available (fleet i u)) nd_charts = charts_of u.
#[local] Instance fleet_charts : charts_pred := λ u cs, cs = charts_of u.

(** The number that is sent for a value. *)
Definition sent (x : dbl) : cres Z := d_to_i64 (d_mul x precision).
Definition chart_value (i : nat) (u : string) (c : nd_chart) : cres Z :=
  match fleet i u (nut_variable c) with
  | Some s => sent (fst (str2ndd pow s))
  | None => UB UB_null
  end.
Definition number (r : cres Z) : Z := match r with Ok z => z | _ => 0 end.

(** A name that [clean_name()] keeps, and a UPS whose answers can be read. *)
Definition good_name (u : string) : bool := negb (String.eqb u "") && String.eqb (clean_name u) u.
Definition good (i : nat) (u : string) : bool :=
  good_name u && is_ok (parse_status (fleet i u "ups.status")) &&
  match realpower_of pow (fleet i u) with Some x => is_ok (d_to_i64 x) | None => true end &&
  forallb (λ c, is_ok (chart_value i u c)) (charts_of u).

(** The lines of one reading of [u]. *)
Definition reading_of (i : nat) (u : string) (dt : Z) : list string :=
  match parse_status (fleet i u "ups.status") with
  | Ok st =>
      reading (clean_name u) dt st
        ((λ x, number (d_to_i64 x)) <$> realpower_of pow (fleet i u))
        (charts_of u) (λ c, number (chart_value i u c))
  | _ => []
  end.

Record goodness (i : nat) (u : string) : Prop := {
  good_status : ∃ st, parse_status (fleet i u "ups.status") = Ok st;
  good_power : readable_realpower pow (fleet i u)
    ((λ x, number (d_to_i64 x)) <$> realpower_of pow (fleet i u));
  good_charts : Forall (readable_chart pow (fleet i u) (λ c, number (chart_value i u c))) (charts_of u);
}.
Lemma is_ok_number (r : cres Z) : is_ok r = true → r = Ok (number r).
Proof. by destruct r. Qed.
Lemma good_name_ok u : good_name u = true → u ≠ "" ∧ clean_name u = u.
Proof. unfold good_name. rewrite andb_true_iff. intros [H1 H2%String.eqb_eq]. split; [by intros ->|done]. Qed.
Lemma good_goodness i u : good i u = true → good_name u = true ∧ goodness i u.
Proof.
  unfold good. rewrite !andb_true_iff. intros (((H1 & H3) & H4) & H5). split; [done|]. split.
  - destruct (parse_status _) as [st| |]; try done. by exists st.
  - unfold readable_realpower. destruct (realpower_of pow (fleet i u)) as [x|]; [|done].
    cbn. eexists. split; [done|]. by apply is_ok_number.
  - apply Forall_forall. intros c Hc%list_elem_of_In. rewrite forallb_forall in H5.
    pose proof (H5 c Hc) as Hv. apply is_ok_number in Hv. unfold readable_chart.
    unfold chart_value in *. destruct (fleet i u (nut_variable c)) as [v|]; [|done].
    exists v. split; [done|exact Hv].
Qed.

(** The state of the abstract machine: the registered UPSes, and those read in
    this round. *)
Record tracks (R S : list string) p : Prop := {
  tr_good : Forall (λ u, good_name u = true) R;
  tr_read : S ⊆ R;
  tr_inv : ∃ reg seen, Inv reg seen p ∧ reg.*1 = R ∧ ∀ k, is_seen seen k = bool_decide (k ∈ S);
}.
Definition add (u : string) (R : list string) : list string :=
  if bool_decide (u ∈ R) then R else R ++ [u].

Lemma add_elem u R k : k ∈ add u R ↔ k = u ∨ k ∈ R.
Proof.
  unfold add. case_bool_decide; [split; [by right|by intros [-> |]]|]. rewrite elem_of_app, list_elem_of_singleton. tauto.
Qed.
Lemma add_keys u (h : nat) reg : (al_set false u h reg).*1 = add u reg.*1.
Proof.
  unfold add, al_set. destruct (al_get u reg) as [x|] eqn:E.
  - rewrite bool_decide_true; [|apply al_get_elem in E; by apply (list_elem_of_fmap_2 fst _ (u, x))].
    clear. induction reg as [|[k x] reg IH]; [done|].
    cbn. f_equal; [by destruct (String.eqb k u)|exact IH].
  - rewrite bool_decide_false by (by apply al_get_None). by rewrite fmap_app.
Qed.
Lemma tracks_same R S p p' : same_store p p' → tracks R S p → tracks R S p'.
Proof.
  intros Hs [HG HS (reg & seen & HI & HR & Hk)]. split; [done..|].
  exists reg, seen. split; [by eapply Inv_same|done].
Qed.
(** [p] but for the number of calls on [ups1]. *)
Lemma tracks_lists R S n p : tracks R S p → tracks R S (with_lists n p).
Proof.
  intros [HG HS (reg & seen & HI & HR & Hk)]. split; [done..|]. exists reg, seen. split; [|done].
  destruct HI as [H1 H2 H3 H4 H5 H6 H7 H8 H9]. by split.
Qed.
Lemma fleet_selection i u : selection_ok (J := J) W i u.
Proof using Hcomplete Hfleet Hcharts.
  intros sel Hsel. unfold charts_ok, fleet_charts. rewrite <- (Hcharts i u).
  by apply (available_selected (J := J) W i u).
Qed.

(** *** One UPS *)

Definition registration_of (i : nat) (u : string) (every : Z) : list string :=
  registration u (fleet i u) every.

Lemma register_tracks R S i u p : tracks R S p → p_lists p = i → good_name u = true → ∃ p',
  register_ups W u p = Ok (tt, p') ∧ tracks (add u R) S p' ∧
  p_out p' = p_out p ++ registration_of i u (p_update_every p).
Proof using Hcomplete Hfleet Hcharts.
  intros [HG HS (reg & seen & HI & HR & Hk)] Hi Hu. destruct (good_name_ok u Hu) as [Hn _].
  destruct (register_ups_spec W Hcomplete reg seen u p HI Hn (fleet_selection _ u))
    as (h & sel & p' & H1 & HI' & _).
  exists p'. split; [done|]. split.
  - split.
    + apply Forall_forall. intros k [->|Hin]%add_elem; [done|]. rewrite Forall_forall in HG. auto.
    + intros k Hin. apply add_elem. right. by apply HS.
    + exists (al_set false u h reg), seen. split; [done|]. split; [by rewrite add_keys, HR|done].
  - by apply (register_prints Hcomplete i u (fleet i u) (p_update_every p) (Hfleet i u) reg seen).
Qed.

Lemma collect_tracks_in R S i u dt p : tracks R S p → p_lists p = i → good i u = true → u ∈ R → ∃ p',
  collect_ups pow W u dt p = Ok (tt, p') ∧ tracks R (u :: S) p' ∧
  p_out p' = p_out p ++ reading_of i u dt.
Proof using Hcomplete Hfleet.
  intros [HG HS (reg & seen & HI & HR & Hk)] Hi Hu Hin.
  destruct (good_goodness i u Hu) as [[Hn _]%good_name_ok [[st Hst] Hp Hc]].
  destruct (al_get u reg) as [h|] eqn:Hget; [|by apply al_get_None in Hget; rewrite HR in Hget].
  destruct (inv_each _ _ _ HI u h (al_get_elem _ _ _ Hget)) as (cs & -> & Hh).
  destruct (collect_registered pow W Hcomplete i u (fleet i u) (Hfleet i u) reg seen h (charts_of u) dt st
    _ _ p Hi HI Hn Hget Hh Hst Hp Hc) as (p' & H1 & HI' & _ & Ho).
  exists p'. split; [done|]. split; [|unfold reading_of; by rewrite Hst].
  split; [done|by intros k [->|Hx]%elem_of_cons; [|apply HS]|].
  eexists reg, _. split; [done|]. split; [done|]. intros k. unfold is_seen. rewrite al_get_set.
  case_decide as E; [subst k; rewrite bool_decide_true by (apply elem_of_cons; auto); done|].
  fold (is_seen seen k). rewrite Hk. apply bool_decide_ext. rewrite elem_of_cons. split; [by right|by intros [|]].
Qed.

Definition collect_lines (every dt : Z) (R : list string) (row : nat * string) : list string :=
  (if bool_decide (row.2 ∈ R) then [] else registration_of row.1 row.2 every) ++ reading_of row.1 row.2 dt.

Lemma collect_tracks R S i u dt p : tracks R S p → p_lists p = i → good i u = true → ∃ p',
  collect_ups pow W u dt p = Ok (tt, p') ∧ tracks (add u R) (u :: S) p' ∧
  p_out p' = p_out p ++ collect_lines (p_update_every p) dt R (i, u).
Proof using Hcomplete Hfleet Hcharts.
  intros HT Hi Hu. unfold add, collect_lines. cbn [fst snd]. case_bool_decide as Hin.
  { by apply collect_tracks_in. }
  pose proof HT as [HG HS (reg & seen & HI & HR & Hk)].
  assert (Hget : al_get u reg = None) by (apply al_get_None; by rewrite HR).
  destruct (good_goodness i u Hu) as [Hn _]. destruct (good_name_ok u Hn) as [Hne _].
  destruct (collect_unregistered pow W Hcomplete u reg seen dt p HI Hne (fleet_selection _ u) Hget)
    as (h & p1 & H1 & H2 & _ & El & _).
  destruct (register_tracks R S i u p HT Hi Hn) as (p2 & H3 & HT2 & O2).
  rewrite H1 in H3. injection H3 as <-. unfold add in HT2. rewrite bool_decide_false in HT2 by done.
  destruct (collect_tracks_in (R ++ [u]) S i u dt p1 HT2) as (p3 & H4 & HT3 & O3); [by rewrite El|done| |].
  { apply elem_of_app. right. by apply list_elem_of_singleton. }
  exists p3. split; [by rewrite H2|]. split; [done|]. by rewrite O3, O2, app_assoc.
Qed.

(** *** Eviction and clean-up *)

Lemma evict_tracks R S p : tracks R S p → ∃ p', evict_unseen p = Ok (tt, p') ∧
  tracks (List.filter (λ u, bool_decide (u ∈ S)) R) [] p' ∧ p_out p' = p_out p.
Proof.
  intros [HG HS (reg & seen & HI & HR & Hk)].
  assert (Hclean : Forall (λ k, clean_name k = k) reg.*1).
  { rewrite HR. eapply Forall_impl; [exact HG|]. intros k Hu. apply (good_name_ok k Hu). }
  destruct (evict_unseen_spec reg seen p HI Hclean) as (p' & seen' & H1 & HI' & Hm & Ho).
  exists p'. split; [done|]. split; [|done].
  assert (Hsv : (List.filter (λ x, is_seen seen x.1) reg).*1 = List.filter (λ u, bool_decide (u ∈ S)) R).
  { rewrite <- HR. clear -Hk. induction reg as [|[k h] reg IH]; [done|].
    cbn. rewrite Hk. case_bool_decide; cbn; congruence. }
  split.
  - apply Forall_forall. intros k [Hin _]%list_elem_of_In%List.filter_In.
    rewrite Forall_forall in HG. apply HG. by apply list_elem_of_In.
  - intros k Hin. by apply not_elem_of_nil in Hin.
  - eexists _, seen'. split; [exact HI'|]. split; [done|]. intros k.
    rewrite bool_decide_false by apply not_elem_of_nil. unfold is_seen. rewrite (Hm k).
    case_bool_decide as Hin; [by destruct (is_seen seen k)|].
    fold (is_seen seen k). rewrite Hk. apply bool_decide_false. intros Hs. apply Hin.
    rewrite HR. by apply HS.
Qed.

Lemma cleanup_tracks R S p : tracks R S p → ∃ p',
  cleanup p = Ok (NETDATA_PLUGIN_EXIT_AND_RESTART, p') ∧ p_out p' = p_out p.
Proof.
  intros [HG HS (reg & seen & HI & HR & Hk)].
  assert (Hclean : Forall (λ k, clean_name k = k) reg.*1).
  { rewrite HR. eapply Forall_impl; [exact HG|]. intros k Hu. apply (good_name_ok k Hu). }
  destruct (forget_all_spec reg seen p HI Hclean) as (p1 & seen1 & H1 & HI1 & O1).
  assert (Hq : quiet_step p p1).
  { eapply quiet_dfe; [|exact H1]. intros v. apply quiet_forget. }
  destruct Hq as [_ _ _ _ E1 E2 E3].
  pose proof HI1 as [Hv Hs Hn _ Hnd _ Hw _ _]. apply NoDup_cons in Hnd as [Nv [Ns _]%NoDup_cons].
  unfold cleanup. rewrite bind_get, bind_run, H1, <- E1, <- E2, <- E3.
  destruct (on_destroy _ _ _ p1 Hv Hw) as (p2 & H2 & F2 & O2). rewrite bind_run, H2.
  destruct (on_destroy (p_ups_seen p1) (made main_options) seen1 p2) as (p3 & H3 & F3 & O3).
  { eapply holds_frame; [exact F2| |exact Hs]. apply notin_singleton. intros E. apply Nv. rewrite <- E. mem. }
  { by rewrite (fr_waiting _ _ _ F2). }
  rewrite bind_run, H3.
  destruct (on_destroy (p_ups_name p1) (made name_options) (name_entries []) p3) as (p4 & H4 & F4 & O4).
  { eapply holds_frame; [exact F3| |].
    - apply notin_singleton. intros E. apply Ns. rewrite <- E. mem.
    - eapply holds_frame; [exact F2| |exact Hn]. apply notin_singleton. intros E. apply Nv. rewrite <- E. mem. }
  { by rewrite (fr_waiting _ _ _ F3), (fr_waiting _ _ _ F2). }
  rewrite bind_run, H4. exists p4. split; [done|]. congruence.
Qed.

(** *** A listing *)

(** [listing n rows ok n']: after [n] calls on [ups1], upsd answers with [rows], the
    number of calls made and the name of a UPS, and then with "END" ([ok]) or not at
    all; [n'] calls have been made then. *)
Inductive listing : nat → list (nat * string) → bool → nat → Prop :=
| listing_failed n : upscli_list_next (w_nut W) n = None → listing n [] false (S n)
| listing_end n l : upscli_list_next (w_nut W) n = Some l → l !! 0%nat = Some "END" → listing n [] true (S n)
| listing_row n l a u rows ok n' : upscli_list_next (w_nut W) n = Some l → l !! 0%nat = Some a → a ≠ "END" →
    l !! 1%nat = Some u → listing (S n) rows ok n' → listing n ((S n, u) :: rows) ok n'.
Lemma listing_unique n rows ok n' : listing n rows ok n' → ∀ rows2 ok2 n2, listing n rows2 ok2 n2 →
  rows2 = rows ∧ ok2 = ok ∧ n2 = n'.
Proof.
  induction 1 as [n H|n l H H0|n l a u rows ok n' H H0 Ha H1 Hl IH]; intros rows2 ok2 n2 H2; inversion H2; subst; try congruence.
  - done.
  - done.
  - assert (l0 = l) as -> by congruence. assert (u0 = u) as -> by congruence.
    match goal with K : listing (S n) _ _ _ |- _ => destruct (IH _ _ _ K) as (-> & -> & ->) end. done.
Qed.

(** upsd answers a listing with rows that name a UPS, at most [N] of them, and ends
    it. *)
Context (N : nat).
Hypothesis Hrows : ∀ n l, upscli_list_next (w_nut W) n = Some l → l !! 0%nat = Some "END" ∨
  ∃ a u, l !! 0%nat = Some a ∧ l !! 1%nat = Some u ∧ good (S n) u = true.
Definition listing_over (n : nat) : Prop :=
  match upscli_list_next (w_nut W) n with Some l => l !! 0%nat = Some "END" | None => True end.
Hypothesis Hend : ∀ n, ∃ k, (k ≤ N)%nat ∧ listing_over (n + k).
Abbreviation all_good rows := (Forall (λ row, good row.1 row.2 = true) rows).

Lemma listing_total n : ∃ rows ok n', listing n rows ok n' ∧ all_good rows ∧ (length rows ≤ N)%nat.
Proof using Hrows Hend.
  destruct (Hend n) as (k & Hk & Hover).
  cut (∃ rows ok n', listing n rows ok n' ∧ all_good rows ∧ (length rows ≤ k)%nat).
  { intros (rows & ok & n' & H1 & H2 & H3). exists rows, ok, n'. split; [done|]. split; [done|lia]. }
  clear Hk. revert n Hover. induction k as [|k IH]; intros n Hover; unfold listing_over in Hover.
  - rewrite Nat.add_0_r in Hover. destruct (upscli_list_next (w_nut W) n) as [l|] eqn:El.
    + exists [], true, (S n). split; [by eapply listing_end|]. by split; [constructor|cbn; lia].
    + exists [], false, (S n). split; [by apply listing_failed|]. by split; [constructor|cbn; lia].
  - destruct (upscli_list_next (w_nut W) n) as [l|] eqn:El.
    2: { exists [], false, (S n). split; [by apply listing_failed|]. by split; [constructor|cbn; lia]. }
    destruct (Hrows n l El) as [H0|(a & u & H0 & H1 & Hu)].
    { exists [], true, (S n). split; [by eapply listing_end|]. by split; [constructor|cbn; lia]. }
    destruct (decide (a = "END")) as [->|Ha].
    { exists [], true, (S n). split; [by eapply listing_end|]. by split; [constructor|cbn; lia]. }
    destruct (IH (S n)) as (rows & ok & n' & L1 & L2 & L3).
    { unfold listing_over. by replace (S n + k)%nat with (n + S k)%nat by lia. }
    exists ((S n, u) :: rows), ok, n'. split; [by eapply listing_row|]. split; [by constructor|cbn; lia].
Qed.

Fixpoint run_lines {T} (next : T → nat * string → T) (lines : T → nat * string → list string) (t : T)
    (rows : list (nat * string)) : list string :=
  match rows with
  | [] => []
  | row :: rows => lines t row ++ run_lines next lines (next t row) rows
  end.
Definition list_result (ok : bool) : option Z := if ok then None else Some NETDATA_PLUGIN_EXIT_AND_DISABLE.

Section over_listing.
Context {T : Type} (next : T → nat * string → T) (lines : T → nat * string → list string).
Context (inv : T → pstate → Prop) (act : string → cst pstate unit) (every : Z).
Hypothesis inv_lists : ∀ t n p, inv t p → inv t (with_lists n p).
Hypothesis Hquiet : ∀ u, quiet (act u).
Hypothesis Hact : ∀ t i u p, inv t p → p_lists p = i → good i u = true → p_update_every p = every → ∃ p',
  act u p = Ok (tt, p') ∧ inv (next t (i, u)) p' ∧ p_out p' = p_out p ++ lines t (i, u).

Lemma list_loop_spec n rows ok n' : listing n rows ok n' → all_good rows → ∀ fuel t p, inv t p →
  p_update_every p = every → p_lists p = n → (length rows < fuel)%nat → ∃ p',
  list_loop W fuel act p = Ok (list_result ok, p') ∧ inv (foldl next t rows) p' ∧ p_lists p' = n' ∧
  quiet_step p (with_lists (p_lists p) p') ∧ p_out p' = p_out p ++ run_lines next lines t rows.
Proof using inv_lists Hquiet Hact.
  induction 1 as [n H|n l H H0|n l a u rows ok n' H H0 Ha H1 Hl IH]; intros Hgood fuel t p Ht He Hn Hf;
    (destruct fuel as [|fuel]; [cbn in Hf; lia|]); cbn [list_loop]; rewrite bind_run; unfold list_call at 1; rewrite Hn, H.
  - eexists. split; [done|]. split; [by apply inv_lists|]. split; [done|]. split; [by split|cbn; by rewrite app_nil_r].
  - rewrite bind_run. unfold answer_at at 1. rewrite H0. cbn [mret cst_ret]. cbn [streq]. rewrite String.eqb_refl.
    eexists. split; [done|]. split; [by apply inv_lists|]. split; [done|]. split; [by split|cbn; by rewrite app_nil_r].
  - rewrite bind_run. unfold answer_at at 1. rewrite H0. cbn [mret cst_ret].
    assert (Hs : streq (Some "END") (Some a) = false) by (unfold streq; apply String.eqb_neq; congruence).
    rewrite Hs, bind_run. unfold answer_at. rewrite H1. cbn [mret cst_ret].
    apply Forall_cons in Hgood as [Hu Hgood]. set (p1 := with_lists (S n) p).
    destruct (Hact t (S n) u p1 (inv_lists _ _ _ Ht) eq_refl Hu He) as (p2 & H2 & Ht2 & O2). rewrite bind_run, H2.
    pose proof (Hquiet u p1 tt p2 H2) as [Q1 Q2 Q3 Q4 Q5 Q6 Q7].
    destruct (IH Hgood fuel (next t (S n, u)) p2 Ht2) as (p3 & H3 & Ht3 & N3 & [R1 R2 R3 R4 R5 R6 R7] & O3);
      [by rewrite Q1|by rewrite Q4|cbn in Hf; lia|].
    exists p3. split; [done|]. split; [done|]. split; [done|]. split.
    + cbn [p_update_every p_tests p_clocks p_ups_vars p_ups_seen p_ups_name with_lists p1] in *.
      split; cbn [p_update_every p_tests p_clocks p_ups_vars p_ups_seen p_ups_name with_lists p_lists]; try done; etrans; eassumption.
    + cbn [run_lines]. by rewrite O3, O2, app_assoc.
Qed.
End over_listing.

(** *** The abstract machine of the main loop *)

Definition round_lines (every dt : Z) : list string → list (nat * string) → list string :=
  run_lines (λ R row, add row.2 R) (collect_lines every dt).
Definition registered (R : list string) (rows : list (nat * string)) : list string :=
  foldl (λ R row, add row.2 R) R rows.
Definition registrations (every : Z) (rows : list (nat * string)) : list string :=
  rows ≫= λ row, registration_of row.1 row.2 every.

(** What the [n]-th call of the clocks reads: microseconds of the real time, seconds
    of the monotonic clock that [clocks_init()] chose. *)
Definition realtime (n : nat) : Z :=
  match k_gettime (w_kernel W) CLOCK_REALTIME n with
  | GtOk ts => u64 (u64 (ts_sec ts * USEC_PER_SEC) + (u64 (ts_nsec ts) mod NSEC_PER_SEC) / NSEC_PER_USEC)
  | _ => 0
  end.
Definition monotonic_clock : clockid :=
  match k_gettime (w_kernel W) CLOCK_MONOTONIC_RAW 0 with GtEINVAL => CLOCK_MONOTONIC | _ => CLOCK_MONOTONIC_RAW end.
Definition monotonic (n : nat) : Z :=
  match k_gettime (w_kernel W) monotonic_clock n with GtOk ts => ts_sec ts | _ => 0 end.

(** Between two rounds: the calls made on [ups1], the tests of the signals and of the
    pipe, the calls of the clocks, and the time of the last beat, zero before the
    first. *)
Record moment := Moment { m_lists : nat; m_tests : nat; m_clock : nat; m_beat : Z }.
(** A round reads the clock, sleeps, reads the clock. *)
Definition beat (m : moment) : Z := realtime (S (S (m_clock m))).
Definition since (m : moment) : Z := if m_beat m =? 0 then 0 else u64 (beat m - m_beat m).
Definition after (m : moment) (n' : nat) : moment :=
  Moment n' (S (S (S (m_tests m)))) (S (S (S (S (m_clock m))))) (beat m).
(** No exit is asked for, and upsd lists [rows]. *)
Definition listed (m : moment) (rows : list (nat * string)) (ok : bool) (n' : nat) : Prop :=
  w_exit W (m_tests m) = false ∧ upscli_list_start (w_nut W) (m_lists m) ≠ -1 ∧ listing (S (m_lists m)) rows ok n'.
Definition too_old (started : Z) (m : moment) : bool :=
  4 * 3600 <? i64 (monotonic (S (S (S (m_clock m)))) - started).

(** [rounds every started m R out r]: from the moment [m] on, with the UPSes of [R]
    registered, the loop prints [out] and ends with [r], [None] for a [break] and the
    exit status for a [return]. *)
Inductive rounds (every started : Z) : moment → list string → list string → option Z → Prop :=
| rounds_exit m R : w_exit W (m_tests m) = true → rounds every started m R [] None
| rounds_no_list m R : w_exit W (m_tests m) = false → upscli_list_start (w_nut W) (m_lists m) = -1 →
    rounds every started m R [] (Some NETDATA_PLUGIN_EXIT_AND_DISABLE)
| rounds_cut m R rows n' : listed m rows false n' →
    rounds every started m R (round_lines every (since m) R rows) (Some NETDATA_PLUGIN_EXIT_AND_DISABLE)
| rounds_pipe m R rows n' : listed m rows true n' → w_epipe W (S (m_tests m)) = true →
    rounds every started m R (round_lines every (since m) R rows) (Some NETDATA_PLUGIN_EXIT_AND_DISABLE)
| rounds_asked m R rows n' : listed m rows true n' → w_epipe W (S (m_tests m)) = false →
    w_exit W (S (S (m_tests m))) = true → rounds every started m R (round_lines every (since m) R rows) None
| rounds_old m R rows n' : listed m rows true n' → w_epipe W (S (m_tests m)) = false →
    w_exit W (S (S (m_tests m))) = false → too_old started m = true →
    rounds every started m R (round_lines every (since m) R rows) None
| rounds_next m R rows n' out r : listed m rows true n' → w_epipe W (S (m_tests m)) = false →
    w_exit W (S (S (m_tests m))) = false → too_old started m = false →
    rounds every started (after m n') (List.filter (λ u, bool_decide (u ∈ rows.*2)) (registered R rows)) out r →
    rounds every started m R (round_lines every (since m) R rows ++ out) r.
(** The whole run: the first listing, and the rounds. *)
Inductive whole_run (every : Z) : Z → list string → Prop :=
| run_cut rows n' : listing 1 rows false n' →
    whole_run every NETDATA_PLUGIN_EXIT_AND_DISABLE (registrations every rows)
| run_rounds rows n' out r : listing 1 rows true n' →
    rounds every (monotonic 2) (Moment n' 0 4 0) (registered [] rows) out r →
    whole_run every (default NETDATA_PLUGIN_EXIT_AND_RESTART r) (registrations every rows ++ out).

(** Nothing is left open. *)
Lemma listed_unique m rows ok n' rows2 ok2 n2 : listed m rows ok n' → listed m rows2 ok2 n2 →
  rows2 = rows ∧ ok2 = ok ∧ n2 = n'.
Proof. intros (_ & _ & H1) (_ & _ & H2). by eapply listing_unique. Qed.
Lemma rounds_unique every started m R out r : rounds every started m R out r → ∀ out2 r2,
  rounds every started m R out2 r2 → out2 = out ∧ r2 = r.
Proof.
  induction 1 as [m R H|m R H H0|m R rows n' H|m R rows n' H H0|m R rows n' H H0 H1|m R rows n' H H0 H1 H3|
    m R rows n' out r H H0 H1 H3 Hr IH]; intros out2 r2 H2; inversion H2; subst;
    try match goal with K : listed m ?rows2 _ _ |- _ =>
      first [ destruct (listed_unique _ _ _ _ _ _ _ H K) as (-> & E & ->); try discriminate E
            | pose proof (proj1 K); pose proof (proj1 (proj2 K)) ] end;
    try (pose proof (proj1 H); pose proof (proj1 (proj2 H))); try congruence; try done.
  match goal with K : rounds _ _ (after m n') _ _ _ |- _ => destruct (IH _ _ K) as [-> ->] end. done.
Qed.
Lemma whole_run_unique every code out : whole_run every code out → ∀ code2 out2,
  whole_run every code2 out2 → code2 = code ∧ out2 = out.
Proof.
  intros [rows n' H|rows n' o r H Hr] code2 out2 [rows2 n2 H2|rows2 n2 o2 r2 H2 Hr2];
    destruct (listing_unique _ _ _ _ H _ _ _ H2) as (-> & E & ->); try discriminate E; [done|].
  destruct (rounds_unique _ _ _ _ _ _ Hr _ _ Hr2) as [-> ->]. done.
Qed.

(** *** The clocks *)

Context (X : nat).
(** A clock that ticks and sleeps that are not interrupted; from the test [X]
    on, the exit was requested. *)
Hypothesis Hres : get_clock_resolution (w_kernel W) CLOCK_REALTIME ≠ 0.
Hypothesis Hhz : 1 ≤ k_hz (w_kernel W) ≤ USEC_PER_SEC.
Hypothesis Hclock : ∀ n, realtime n ≠ 0.
Hypothesis Hsleep : ∀ n req rem, k_nanosleep (w_kernel W) n req ≠ NsEINTR rem.
Hypothesis Hexit : ∀ n, (X ≤ n)%nat → w_exit W n = true.

Lemma now_realtime_at c : now_realtime_usec (w_kernel W) c = Ok (realtime (ck_calls c), set_calls (S (ck_calls c)) c).
Proof. done. Qed.
Lemma now_monotonic_at c : ck_monotonic c = monotonic_clock →
  now_monotonic_sec (w_kernel W) c = Ok (monotonic (ck_calls c), set_calls (S (ck_calls c)) c).
Proof. intros E. unfold now_monotonic_sec. rewrite bind_get, E. done. Qed.
Lemma sleep_returns fuel usec started end_ut req c : (0 < fuel)%nat →
  sleep_loop (w_kernel W) fuel usec started end_ut req c = Ok (tt, set_calls (S (ck_calls c)) c).
Proof using Hsleep.
  intros Hf. destruct fuel as [|fuel]; [lia|]. cbn [sleep_loop]. rewrite bind_get, bind_run.
  cbn [cput]. destruct (k_nanosleep _ _ _) as [|rem|] eqn:E; [done|by apply Hsleep in E|done].
Qed.
(** The clocks after a step: what the program keeps of them, and the calls made. *)
Record clocks_step (c : clocks) (n : nat) (c' : clocks) : Prop := {
  cs_calls : ck_calls c' = (n + ck_calls c)%nat;
  cs_monotonic : ck_monotonic c' = ck_monotonic c;
  cs_resolution : ck_realtime_resolution c' = ck_realtime_resolution c;
}.
Lemma heartbeat_next_returns fuel hb c : (0 < fuel)%nat → hb_step hb ≠ 0 → ck_realtime_resolution c ≠ 0 → ∃ hb' c',
  heartbeat_next (w_kernel W) fuel hb c =
    Ok ((if hb_realtime hb =? 0 then 0 else u64 (realtime (S (S (ck_calls c))) - hb_realtime hb), hb'), c') ∧
  hb_step hb' = hb_step hb ∧ hb_realtime hb' = realtime (S (S (ck_calls c))) ∧ clocks_step c 3 c'.
Proof using Hsleep Hclock.
  intros Hf Hs Hr. unfold heartbeat_next. erewrite cst_bind_Ok by apply now_realtime_at. rewrite bind_get.
  cbn [ck_realtime_resolution set_calls].
  rewrite (proj2 (Z.eqb_neq (hb_step hb) 0) Hs), (proj2 (Z.eqb_neq _ 0) Hr). cbn [orb].
  erewrite cst_bind_Ok.
  2: { unfold sleep_usec_with_now. rewrite (proj2 (Z.eqb_neq _ 0) (Hclock _)).
       erewrite cst_bind_Ok by reflexivity. by apply sleep_returns. }
  erewrite cst_bind_Ok by apply now_realtime_at. cbn [ck_calls set_calls]. unfold stats_write.
  erewrite cst_bind_Ok by reflexivity. eexists _, _. split; [reflexivity|]. split; [done|]. split; [done|].
  by split; case_match.
Qed.
Lemma heartbeat_init_returns step c : ∃ hb c', heartbeat_init (w_kernel W) step c = Ok (hb, c') ∧
  hb_step hb ≠ 0 ∧ hb_realtime hb = 0 ∧ clocks_step c 1 c'.
Proof using Hhz.
  unfold heartbeat_init. rewrite bind_get. erewrite cst_bind_Ok by reflexivity.
  erewrite cst_bind_Ok by reflexivity. rewrite bind_run.
  assert (Hr : ∀ h, ∃ r, heartbeat_randomness (w_kernel W) h = Ok r).
  { intros h. unfold heartbeat_randomness, scheduler_step_ut.
    rewrite (proj2 (Z.eqb_neq (k_hz _) 0)) by lia. cbn [mbind cres_bind].
    assert (1 ≤ USEC_PER_SEC / k_hz (w_kernel W)) by (apply Z.div_le_lower_bound; lia).
    rewrite (proj2 (Z.eqb_neq _ 0)); [by eexists|].
    unfold USEC_PER_MS. destruct (Z.ltb_spec (10 * 1000) (USEC_PER_SEC / k_hz (w_kernel W))); lia. }
  destruct (Hr (u64 (k_hash (w_kernel W) (S (ck_calls c))))) as [r Hr'].
  cbn [ck_calls set_calls set_alignment_id]. rewrite Hr'. cbn [clift].
  unfold stats_write. erewrite cst_bind_Ok by reflexivity. eexists _, _. split; [done|].
  cbn [hb_step hb_realtime]. split; [destruct (Z.eqb_spec step 0); [done|lia]|]. split; [done|]. by split; case_match.
Qed.

(** *** The main loop *)

Definition next_read (t : list string * list string) (row : nat * string) : list string * list string :=
  (add row.2 (fst t), row.2 :: snd t).
Lemma next_read_fold rows : ∀ R S, foldl next_read (R, S) rows = (registered R rows, rev rows.*2 ++ S).
Proof.
  induction rows as [|row rows IH]; intros R S; [done|]. cbn [foldl registered]. unfold next_read at 2.
  rewrite IH, fmap_cons. cbn [fst snd rev]. by rewrite <- app_assoc.
Qed.
Lemma next_read_lines every dt rows : ∀ R S,
  run_lines next_read (λ t, collect_lines every dt (fst t)) (R, S) rows = round_lines every dt R rows.
Proof. induction rows as [|row rows IH]; intros R S; [done|]. cbn. f_equal. apply IH. Qed.
Lemma tracks_ext R S S' p : (∀ k, k ∈ S ↔ k ∈ S') → tracks R S p → tracks R S' p.
Proof.
  intros HSS [HG HS (reg & seen & HI & HR & Hk)]. split; [done| |].
  - intros k Hin. by apply HS, HSS.
  - exists reg, seen. split; [done|]. split; [done|]. intros k. rewrite Hk. by apply bool_decide_ext.
Qed.

Lemma collect_round n rows ok n' fuel dt R p : listing n rows ok n' → all_good rows → (length rows < fuel)%nat →
  tracks R [] p → p_lists p = n → ∃ p', list_loop W fuel (λ u, collect_ups pow W u dt) p = Ok (list_result ok, p') ∧
  tracks (registered R rows) rows.*2 p' ∧ p_lists p' = n' ∧ quiet_step p (with_lists (p_lists p) p') ∧
  p_out p' = p_out p ++ round_lines (p_update_every p) dt R rows.
Proof using Hcomplete Hfleet Hcharts.
  intros Hl Hg Hf HT Hn.
  destruct (list_loop_spec next_read (λ t, collect_lines (p_update_every p) dt (fst t))
    (λ t, tracks (fst t) (snd t)) (λ u, collect_ups pow W u dt) (p_update_every p)) with
    (n := n) (rows := rows) (ok := ok) (n' := n') (fuel := fuel) (t := (R, @nil string)) (p := p)
    as (p' & H1 & HT' & N' & Q' & Ho); try done.
  - intros t m q. apply tracks_lists.
  - intros u. apply quiet_collect.
  - intros [R' S'] i u q HT' Hi Hu <-. by apply collect_tracks.
  - exists p'. split; [done|]. rewrite next_read_fold in HT'. rewrite next_read_lines in Ho.
    split; [|by split; [|split]].
    eapply tracks_ext; [|exact HT']. intros k. cbn. rewrite app_nil_r.
    rewrite !list_elem_of_In. symmetry. apply in_rev.
Qed.

Lemma tests_tracks R S p n : tracks R S p → tracks R S (with_tests n p).
Proof. apply tracks_same. by split. Qed.
Lemma clocks_tracks R S p c : tracks R S p → tracks R S (with_clocks c p).
Proof. apply tracks_same. by split. Qed.

(** The program between two turns, at the moment [m] of the machine. *)
Record between (every : Z) (m : moment) (R : list string) (hb : heartbeat) p : Prop := {
  bt_tracks : tracks R [] p;
  bt_every : p_update_every p = every;
  bt_lists : p_lists p = m_lists m;
  bt_tests : p_tests p = m_tests m;
  bt_clock : ck_calls (p_clocks p) = m_clock m;
  bt_monotonic : ck_monotonic (p_clocks p) = monotonic_clock;
  bt_resolution : ck_realtime_resolution (p_clocks p) ≠ 0;
  bt_step : hb_step hb ≠ 0;
  bt_beat : hb_realtime hb = m_beat m;
}.
(** What one turn is to the machine. *)
Definition turn_result (every started : Z) (m : moment) (R : list string) (out : list string)
    (r : option (option Z)) (hb' : heartbeat) p' : Prop :=
  match r with
  | Some r => rounds every started m R out r
  | None => ∃ m' R', between every m' R' hb' p' ∧ (m_tests m < m_tests m')%nat ∧ (m_tests m < X)%nat ∧
      ∀ out' r', rounds every started m' R' out' r' → rounds every started m R (out ++ out') r'
  end.

Lemma turn_refines every fuel started m R hb p : between every m R hb p → (N < fuel)%nat →
  ∃ r hb' p' out R' S, main_turn pow W fuel started hb p = Ok ((r, hb'), p') ∧ p_out p' = p_out p ++ out ∧
  tracks R' S p' ∧ turn_result every started m R out r hb' p'.
Proof using Hcomplete Hfleet Hcharts Hrows Hend Hsleep Hclock Hexit.
  intros [HT He Hl Ht Hc Hm Hr Hs Hb] Hf. unfold main_turn.
  destruct (heartbeat_next_returns fuel hb (p_clocks p)) as (hb' & c' & Hh & Hs' & Hb' & [C1 C2 C3]); [lia|done|done|].
  rewrite Hc, Hb in Hh. rewrite Hc in Hb', C1. fold (beat m) in Hh, Hb'. fold (since m) in Hh.
  assert (on_clocks (heartbeat_next (w_kernel W) fuel hb) p = Ok ((since m, hb'), with_clocks c' p)) as E1
    by (unfold on_clocks; by rewrite Hh).
  rewrite bind_run, E1, bind_run. unfold world_test at 1. cbn [p_tests with_clocks]. rewrite Ht.
  set (p1 := with_tests _ _). assert (HT1 : tracks R [] p1) by (by apply tests_tracks, clocks_tracks).
  destruct (w_exit W (m_tests m)) eqn:Ex1.
  { exists (Some None), hb', p1, [], R, []. split; [done|]. split; [by rewrite app_nil_r|]. split; [done|by constructor]. }
  rewrite bind_run. unfold list_call at 1. change (p_lists p1) with (p_lists p). rewrite Hl.
  set (p2 := with_lists _ p1). assert (HT2 : tracks R [] p2) by (by apply tracks_lists).
  destruct (Z.eqb_spec (upscli_list_start (w_nut W) (m_lists m)) (-1)) as [Es|Es].
  { eexists _, hb', p2, [], R, []. split; [done|]. split; [by rewrite app_nil_r|]. split; [done|by constructor]. }
  destruct (listing_total (S (m_lists m))) as (rows & ok & n' & HL & HG & HN).
  destruct (collect_round _ rows ok n' fuel (since m) R p2 HL HG ltac:(lia) HT2 eq_refl)
    as (p3 & H3 & HT3 & N3 & [Q1 Q2 Q3 Q4 _ _ _] & O3).
  cbn in Q1, Q2, Q3. change (p_update_every p2) with (p_update_every p) in O3. rewrite He in O3, Q1.
  change (p_out p2) with (p_out p) in O3. rewrite bind_run, H3.
  assert (Hlisted : listed m rows ok n') by done.
  destruct ok; cbn [list_result].
  2: { eexists _, hb', p3, _, _, _. split; [done|]. split; [done|]. split; [done|by eapply rounds_cut]. }
  rewrite bind_run. unfold world_test at 1. rewrite Q2. set (p4 := with_tests _ p3).
  assert (HT4 : tracks (registered R rows) rows.*2 p4) by (by apply tests_tracks).
  destruct (w_epipe W (S (m_tests m))) eqn:Ep.
  { eexists _, hb', p4, _, _, _. split; [done|]. split; [done|]. split; [done|by eapply rounds_pipe]. }
  rewrite bind_run. unfold world_test at 1. cbn [p_tests p4 with_tests]. set (p5 := with_tests _ p4).
  assert (HT5 : tracks (registered R rows) rows.*2 p5) by (by apply tests_tracks).
  destruct (w_exit W (S (S (m_tests m)))) eqn:Ex2.
  { exists (Some None), hb', p5. eexists _, _, _. split; [done|]. split; [done|]. split; [done|by eapply rounds_asked]. }
  assert (C5 : p_clocks p5 = c') by (cbn; exact Q3).
  assert (on_clocks (now_monotonic_sec (w_kernel W)) p5 = Ok (monotonic (S (S (S (m_clock m)))),
    with_clocks (set_calls (S (S (S (S (m_clock m))))) c') p5)) as Hnow.
  { unfold on_clocks. rewrite C5, now_monotonic_at by congruence. by rewrite C1. }
  rewrite bind_run, Hnow. set (p6 := with_clocks _ p5).
  change (RESTART_AFTER <? i64 (monotonic _ - started)) with (too_old started m).
  assert (HT6 : tracks (registered R rows) rows.*2 p6) by (by apply clocks_tracks).
  destruct (too_old started m) eqn:Eo.
  { exists (Some None), hb', p6. eexists _, _, _. split; [done|]. split; [done|]. split; [done|by eapply rounds_old]. }
  destruct (evict_tracks _ _ p6 HT6) as (p7 & H7 & HT7 & O7). rewrite bind_run, H7.
  pose proof (quiet_evict p6 tt p7 H7) as [V1 V2 V3 V4 _ _ _]. cbn in V1, V2, V3, V4.
  eexists None, hb', p7, _, _, []. split; [done|]. split; [rewrite O7; exact O3|]. split; [exact HT7|].
  exists (after m n'), (List.filter (λ u, bool_decide (u ∈ rows.*2)) (registered R rows)).
  split; [|split; [cbn; lia|split]].
  - split; [exact HT7|by rewrite V1|by rewrite V4|exact V2|by rewrite V3|by rewrite V3; cbn; rewrite C2|
      by rewrite V3; cbn; rewrite C3|by rewrite Hs'|exact Hb'].
  - destruct (Nat.lt_ge_cases (m_tests m) X) as [|Hge]; [done|]. by rewrite Hexit in Ex1.
  - intros out' r' Hrounds. by eapply rounds_next.
Qed.

Lemma main_loop_refines every fuel started turns : ∀ m R hb p, between every m R hb p → (N < fuel)%nat →
  (X - m_tests m < turns)%nat → ∃ r p' out R' S, main_loop pow W turns fuel started hb p = Ok (r, p') ∧
  p_out p' = p_out p ++ out ∧ tracks R' S p' ∧ rounds every started m R out r.
Proof using Hcomplete Hfleet Hcharts Hrows Hend Hsleep Hclock Hexit.
  induction turns as [|turns IH]; intros m R hb p Hb Hf Ht; [lia|]. cbn [main_loop].
  destruct (turn_refines every fuel started m R hb p Hb Hf) as (r & hb' & p1 & out & R1 & S1 & H1 & O1 & HT1 & Hr).
  rewrite bind_run, H1. destruct r as [r|].
  { exists r, p1, out, R1, S1. done. }
  destruct Hr as (m' & R' & Hb' & Hlt & HX & Hr).
  destruct (IH m' R' hb' p1 Hb' Hf) as (r & p2 & out2 & R2 & S2 & H2 & O2 & HT2 & Hr2); [lia|].
  exists r, p2, (out ++ out2), R2, S2. split; [done|].
  split; [by rewrite O2, O1, app_assoc|]. split; [done|]. by apply Hr.
Qed.

(** *** The program *)

Lemma register_listing n rows ok n' fuel p : listing n rows ok n' → all_good rows → (length rows < fuel)%nat →
  tracks [] [] p → p_lists p = n → ∃ p', list_loop W fuel (register_ups W) p = Ok (list_result ok, p') ∧
  tracks (registered [] rows) [] p' ∧ p_lists p' = n' ∧ quiet_step p (with_lists (p_lists p) p') ∧
  p_out p' = p_out p ++ registrations (p_update_every p) rows.
Proof using Hcomplete Hfleet Hcharts.
  intros Hl Hg Hf HT Hn.
  destruct (list_loop_spec (λ R row, add row.2 R) (λ _ row, registration_of row.1 row.2 (p_update_every p))
    (λ R, tracks R []) (register_ups W) (p_update_every p)) with
    (n := n) (rows := rows) (ok := ok) (n' := n') (fuel := fuel) (t := @nil string) (p := p)
    as (p' & H1 & HT' & N' & Q' & Ho); try done.
  - intros t m q. apply tracks_lists.
  - apply quiet_register.
  - intros R' i u q HT' Hi Hu <-. apply register_tracks; [done|done|]. apply (good_goodness i u Hu).
  - exists p'. split; [done|]. split; [exact HT'|]. split; [done|]. split; [done|].
    rewrite Ho. f_equal. unfold registrations. clear. generalize (@nil string) as R.
    induction rows as [|row rows IH]; intros R; [done|]. cbn [run_lines]. by rewrite bind_cons, IH.
Qed.

Lemma init_tracks every : ∃ p, main_init W every = Ok p ∧ tracks [] [] p ∧ p_out p = [] ∧
  p_lists p = 0%nat ∧ p_tests p = 0%nat ∧ p_update_every p = every ∧
  ck_calls (p_clocks p) = 2%nat ∧ ck_monotonic (p_clocks p) = monotonic_clock ∧
  ck_realtime_resolution (p_clocks p) = get_clock_resolution (w_kernel W) CLOCK_REALTIME.
Proof.
  destruct (init_inv (J := J) W every) as (p & H1 & HI & Ho & Hc & Ht & He).
  exists p. split; [done|]. split.
  { split; [constructor|done|]. exists [], []. split; [done|]. split; [done|]. intros k.
    by rewrite bool_decide_false by apply not_elem_of_nil. }
  do 4 (split; [done|]). revert H1. unfold main_init.
  destruct (create_dictionaries store_empty) as [[[[a b] c] st]| |]; [|done..].
  cbn [mbind cres_bind].
  destruct (clocks_init (w_kernel W) clocks_start) as [[[] ck]| |] eqn:E; [|done..].
  cbn [mbind cres_bind snd]. intros [= <-]. cbn [p_clocks]. revert E.
  unfold clocks_init, test_clock_monotonic_raw, test_clock_boottime.
  unfold mbind, cst_bind, clock_gettime, cmodify. cbn -[get_clock_resolution]. by intros [= <-].
Qed.

Lemma body_refines every turns fuel p : tracks [] [] p → p_lists p = 0%nat → p_tests p = 0%nat → p_update_every p = every →
  ck_calls (p_clocks p) = 2%nat → ck_monotonic (p_clocks p) = monotonic_clock →
  ck_realtime_resolution (p_clocks p) ≠ 0 → (N < fuel)%nat → (X < turns)%nat →
  upscli_init (w_nut W) ≠ -1 → upscli_connect (w_nut W) 0 ≠ -1 → upscli_connect (w_nut W) 1 ≠ -1 →
  upscli_list_start (w_nut W) 0 ≠ -1 →
  ∃ code out p', main_body pow W turns fuel p = Ok (code, p') ∧ p_out p' = p_out p ++ out ∧ whole_run every code out.
Proof using Hcomplete Hfleet Hcharts Hrows Hend Hhz Hsleep Hclock Hexit.
  intros HT Hl Ht He Hc Hm Hr Hf Hx I1 I2 I3 I4. unfold main_body.
  rewrite (proj2 (Z.eqb_neq _ _) I1), (proj2 (Z.eqb_neq _ _) I2), (proj2 (Z.eqb_neq _ _) I3).
  rewrite bind_run. unfold list_call at 1. rewrite Hl, (proj2 (Z.eqb_neq _ _) I4).
  set (p1 := with_lists _ p). assert (HT1 : tracks [] [] p1) by (by apply tracks_lists).
  destruct (listing_total 1) as (rows & ok & n' & HL & HG & HN).
  destruct (register_listing 1 rows ok n' fuel p1 HL HG ltac:(lia) HT1 eq_refl)
    as (p2 & H2 & HT2 & N2 & [Q1 Q2 Q3 _ _ _ _] & O2).
  cbn in Q1, Q2, Q3. rewrite bind_run, H2. change (p_update_every p1) with (p_update_every p) in O2.
  rewrite He in O2, Q1. change (p_out p1) with (p_out p) in O2.
  destruct ok; cbn [list_result].
  2: { eexists _, _, p2. split; [done|]. split; [exact O2|by eapply run_cut]. }
  assert (on_clocks (now_monotonic_sec (w_kernel W)) p2 =
    Ok (monotonic 2, with_clocks (set_calls 3 (p_clocks p2)) p2)) as Hnow.
  { unfold on_clocks. rewrite now_monotonic_at by congruence. by rewrite Q3, Hc. }
  rewrite bind_run, Hnow. set (p3 := with_clocks _ p2). rewrite bind_get, bind_run.
  destruct (heartbeat_init_returns (u64 (p_update_every p3 * USEC_PER_SEC)) (p_clocks p3))
    as (hb & c4 & H4 & Hs & Hb & [C1 C2 C3]).
  assert (on_clocks (heartbeat_init (w_kernel W) (u64 (p_update_every p3 * USEC_PER_SEC))) p3 =
    Ok (hb, with_clocks c4 p3)) as -> by (unfold on_clocks; by rewrite H4).
  set (p4 := with_clocks c4 p3). cbn in C1, C2, C3.
  destruct (main_loop_refines every fuel (monotonic 2) turns (Moment n' 0 4 0) (registered [] rows) hb p4)
    as (r & p5 & out & R' & S' & H5 & O5 & HT5 & Hrounds).
  { split; cbn; try congruence. by apply clocks_tracks, clocks_tracks. }
  { done. } { cbn. lia. }
  rewrite bind_run, H5. change (p_out p4) with (p_out p2) in O5. rewrite O2, <- app_assoc in O5.
  pose proof (run_rounds every rows n' out r HL Hrounds) as Hrun.
  destruct r as [code|].
  - eexists _, _, p5. split; [done|]. split; [exact O5|exact Hrun].
  - destruct (cleanup_tracks R' S' p5 HT5) as (p6 & H6 & O6).
    eexists _, _, p6. split; [exact H6|]. split; [by rewrite O6|exact Hrun].
Qed.
End run.

(** ** The environment of a run *)

(** upsd and the kernel as documented: every answer to a query has its value; while a
    row of a listing is handled the UPS answers the same, in a form the plugin reads,
    and the charts it can feed are the same all along; a listing has at most [N] rows
    and an end; a clock has a resolution, a frequency and does not read zero; sleeps are
    not interrupted; from the test [X] of the signals on the plugin is asked to exit. *)
Record environment (fleet : nat → string → string → option string) (charts_of : string → list nd_chart)
    (N X : nat) : Prop := {
  env_complete : answers_complete W;
  env_fleet : ∀ i u, answers W i u (fleet i u);
  env_charts : ∀ i u, List.filter (available (fleet i u)) nd_charts = charts_of u;
  env_rows : ∀ n l, upscli_list_next (w_nut W) n = Some l → l !! 0%nat = Some "END" ∨
    ∃ a u, l !! 0%nat = Some a ∧ l !! 1%nat = Some u ∧ good fleet charts_of (S n) u = true;
  env_end : ∀ n, ∃ k, (k ≤ N)%nat ∧ listing_over (n + k);
  env_resolution : get_clock_resolution (w_kernel W) CLOCK_REALTIME ≠ 0;
  env_hz : 1 ≤ k_hz (w_kernel W) ≤ USEC_PER_SEC;
  env_clock : ∀ n, realtime n ≠ 0;
  env_sleep : ∀ n req rem, k_nanosleep (w_kernel W) n req ≠ NsEINTR rem;
  env_exit : ∀ n, (X ≤ n)%nat → w_exit W n = true;
}.

(** C1. A whole run, from the command line to the exit status.  In an
    environment as documented, the program returns, without ever touching
    memory it must not, and prints exactly what the abstract machine prints, with
    the exit status of the machine: the registrations of the UPSes of the first
    listing; then in every round, for each UPS that upsd lists, its registration if it
    is new and its reading with the microseconds since the last round, while a UPS that
    is not listed is forgotten; until the exit is asked for or four hours have passed
    (exit status 0), or the listing fails or the pipe is broken (the exit status that
    disables the plugin).  The machine has no choice: its run is unique. *)
Theorem main_refines_rounds fleet charts_of N X permute turns fuel args every :
  environment fleet charts_of N X → parse_command_line permute args = Ok (inr every) →
  upscli_init (w_nut W) ≠ -1 → upscli_connect (w_nut W) 0 ≠ -1 → upscli_connect (w_nut W) 1 ≠ -1 →
  upscli_list_start (w_nut W) 0 ≠ -1 → (X < turns)%nat → (N < fuel)%nat →
  ∃ code out, main (J := J) pow W permute turns fuel args = Ok (code, out) ∧
    ∀ code' out', whole_run fleet charts_of every code' out' ↔ code' = code ∧ out' = out.
Proof.
  intros [E1 E2 Ec E3 E4 E5 E6 Ek E7 E8] Hargs I1 I2 I3 I4 Ht Hf.
  destruct (init_tracks charts_of every) as (p & H1 & HT & Ho & Hl & Htests & He & Hcalls & Hmono & Hres).
  destruct (body_refines E1 fleet charts_of E2 Ec N E3 E4 X E6 Ek E7 E8 every turns fuel p)
    as (code & out & p' & H2 & O2 & Hrun); try done.
  { by rewrite Hres. }
  exists code, out. split.
  - unfold main. rewrite Hargs. cbn [mbind cres_bind].
    rewrite H1. cbn [mbind cres_bind]. rewrite H2. cbn [mbind cres_bind fst snd]. by rewrite O2, Ho.
  - intros code' out'. split; [|by intros [-> ->]]. intros H. by eapply whole_run_unique.
Qed.
End fleet.

(** ** A run *)

(** One UPS, in the first two listings, whose load changes; the exit is requested in
    the third round. *)
Definition ex_values (i : nat) : list (string * string) :=
  [("ups.status", "OL CHRG"); ("ups.load", if (i <? 4)%nat then "42" else "43"); ("ups.realpower", "300")].
Definition ex_fleet (i : nat) (u v : string) : option string := al_get v (ex_values i).
(** A clock that advances one second with each call, for a while. *)
Definition ex_run_kernel : kernel := Kernel
  (λ _ n, GtOk (Timespec (1000 + Z.of_nat (Nat.min n 100)) 0)) (λ _, Some (Timespec 0 1))
  (λ _ _, NsDone) (λ n, 12345) 100.
Definition ex_run_world : world := World
  (NutClient 0 (λ _, 0) (λ _, 0)
    (λ n, Some (if (n =? 1)%nat || (n =? 4)%nat then ["UPS"; "ups"; "a UPS"] else ["END"]))
    (λ i _ _ v, (λ s, ["VAR"; "ups"; v; s]) <$> al_get v (ex_values i)))
  ex_run_kernel (λ n, (6 <=? n)%nat) (λ _, false).
Definition ex_charts_of (u : string) : list nd_chart := take 2 nd_charts.

Lemma ex_environment : environment pow_table ex_run_world ex_fleet ex_charts_of 1 6.
Proof.
  split.
  - intros i n u v x. cbn [upscli_get w_nut ex_run_world]. destruct (al_get v (ex_values i)) as [s|]; cbn; [|discriminate].
    intros [= <-]. cbn. lia.
  - intros i u n v. cbn [upscli_get w_nut ex_run_world]. unfold ex_fleet. destruct (al_get v (ex_values i)) as [s|]; cbn; done.
  - intros i u. unfold ex_fleet, ex_values. destruct (i <? 4)%nat; vm_compute; reflexivity.
  - intros n l [= <-]. destruct (_ || _); [right|by left]. exists "UPS", "ups".
    split; [done|]. split; [done|]. unfold good, chart_value, ex_fleet, ex_values.
    destruct (S n <? 4)%nat; vm_compute; reflexivity.
  - intros n. destruct (decide (n = 1 ∨ n = 4)%nat) as [[-> | ->]|Hn].
    + exists 1%nat. split; [lia|reflexivity].
    + exists 1%nat. split; [lia|reflexivity].
    + exists 0%nat. split; [lia|]. rewrite Nat.add_0_r. unfold listing_over. cbn [upscli_list_next w_nut ex_run_world].
      by rewrite (proj2 (Nat.eqb_neq n 1)), (proj2 (Nat.eqb_neq n 4)) by lia.
  - done.
  - unfold USEC_PER_SEC. cbn. lia.
  - intros n. unfold realtime. cbn [k_gettime w_kernel ex_run_world ex_run_kernel ts_sec ts_nsec].
    rewrite (wrap_u_id 64 (_ * _)) by (unfold USEC_PER_SEC; lia). change ((u64 0 mod NSEC_PER_SEC) / NSEC_PER_USEC) with 0.
    rewrite wrap_u_id; unfold USEC_PER_SEC; lia.
  - done.
  - intros n Hn. by apply Nat.leb_le.
Qed.

Lemma main_refines_rounds_witness : ∃ code out,
  main (J := gmap string nat) pow_table ex_run_world true 7 2 ["5"] = Ok (code, out) ∧
  ∀ code' out', whole_run pow_table ex_run_world ex_fleet ex_charts_of 5 code' out' ↔ code' = code ∧ out' = out.
Proof.
  apply (main_refines_rounds pow_table ex_run_world ex_fleet ex_charts_of 1 6 true 7 2 ["5"] 5 ex_environment);
    (reflexivity || (cbn; lia)).
Defined.

(** What it prints: the registration, and one reading. *)
Example ex_run : ∃ l,
  main (J := gmap string nat) pow_table ex_run_world true 7 2 ["5"] = Ok (0, l) ∧
  l = registration_of ex_fleet 2 "ups" 5 ++ reading_of pow_table ex_fleet ex_charts_of 5 "ups" 0 ∧
  drop 26 l = status_lines "ups" 0 (st_set CHRG (st_set OL status_zero)) ++
    metric_lines "ups" "load_usage" "load_usage" 0 30000 ++
    metric_lines "ups" "load_percentage" "load" 0 4300 ++
    metric_lines "ups" "load_usage" "load_usage" 0 30000.
Proof. eexists. split; [vm_compute; reflexivity|]. split; vm_compute; reflexivity. Qed.
