(* ===== verification/Splitter.v ===== *)
(** * line_splitter.c, line_splitter.h

    The agent's side of the pipe: [quoted_strings_splitter()] cuts a line in
    place, [line_splitter_reconstruct_line()] prints the words back.  The
    theorems say that the cut is safe on every line and that the two functions
    are inverse; [Protocol] uses them on the lines of upsd.plugin. *)

From S2P Require Import Prelude CString Charts Plugin.
#[local] Open Scope string_scope.
#[local] Open Scope list_scope.
#[local] Open Scope Z_scope.

(** ** Separator maps *)

Definition isspace_whitespace (c : ascii) : bool :=
  existsb (Ascii.eqb c) [" "; "009"; "013"; "010"; "012"; "011"]%char.
Definition isspace_pluginsd (c : ascii) : bool :=
  existsb (Ascii.eqb c) [" "; "009"; "013"; "010"; "012"; "011"; "="]%char.
Definition isspace_config (c : ascii) : bool :=
  existsb (Ascii.eqb c) [" "; "009"; "013"; "010"; "012"; "011"; ","]%char.
Definition isspace_group_by_label (c : ascii) : bool :=
  Ascii.eqb c "," || Ascii.eqb c "|".
Definition isspace_dyncfg_id (c : ascii) : bool := Ascii.eqb c ":".

(** The [bool isspace_map_x[256]] that the constructor fills. *)
Definition fill_space_map (f : ascii → bool) : list bool := (λ c, f (chr c)) <$> seqZ 0 256.
Definition isspace_map_whitespace : list bool := fill_space_map isspace_whitespace.
Definition isspace_map_pluginsd : list bool := fill_space_map isspace_pluginsd.
Definition isspace_map_config : list bool := fill_space_map isspace_config.
Definition isspace_map_group_by_label : list bool := fill_space_map isspace_group_by_label.
Definition isspace_dyncfg_id_map : list bool := fill_space_map isspace_dyncfg_id.
Definition initialize_is_space_arrays : list (list bool) :=
  [isspace_map_whitespace; isspace_map_pluginsd; isspace_map_config;
   isspace_map_group_by_label; isspace_dyncfg_id_map].

(** [isspace_map[(uint8_t)c]] *)
Definition in_map (map : list bool) (c : ascii) : bool :=
  match map !! Z.to_nat (code c) with Some b => b | None => false end.

(** ** The splitter *)

(** The buffer is cut at the pointer [s]: [before] has been passed, [rest] goes
    up to the terminator.  A word is the index of its first byte. *)
Fixpoint skip_map (map : list bool) (before rest : list ascii) : list ascii * list ascii :=
  match rest with
  | c :: rest' => if in_map map c then skip_map map (before ++ [c]) rest' else (before, rest)
  | [] => (before, rest)
  end.

(** Is [*s] a quote?  Then it is remembered and passed. *)
Definition QUOTE : ascii := "039".
Definition DQUOTE : ascii := "034".
Definition BACKSLASH : ascii := "092".
Definition open_quote (quote : ascii) (before rest : list ascii)
  : ascii * list ascii * list ascii :=
  match rest with
  | c :: rest' =>
      if Ascii.eqb c QUOTE || Ascii.eqb c DQUOTE then (c, before ++ [c], rest')
      else (quote, before, rest)
  | [] => (quote, before, rest)
  end.

(** The [while] loop: the buffer and the words.  [s += 2] must not step over the
    terminator.  Only a closing quote does not advance, so twice the length of the
    rest and one bounds the steps. *)
Fixpoint split_loop (fuel : nat) (map : list bool) (max_words : nat) (quote : ascii)
    (before rest : list ascii) (words : list nat) : cres (list ascii * list nat) :=
  match fuel with
  | O => NoFuel
  | S fuel =>
      match rest with
      | [] => Ok (before, words)
      | c :: rest' =>
          if Ascii.eqb c BACKSLASH && negb (bool_decide (rest' = [])) then
            match rest' with
            | c1 :: rest'' => split_loop fuel map max_words quote (before ++ [c; c1]) rest'' words
            | [] => UB UB_oob
            end
          else if Ascii.eqb c quote then
            split_loop fuel map max_words NUL before (" "%char :: rest') words
          else if Ascii.eqb quote NUL && in_map map c then
            let '(before, rest) := skip_map map (before ++ [NUL]) rest' in
            let '(quote, before, rest) := open_quote quote before rest in
            match rest with
            | [] => Ok (before, words)
            | _ :: _ =>
                if (length words <? max_words)%nat
                then split_loop fuel map max_words quote before rest (words ++ [length before])
                else Ok (before ++ rest, words)
            end
          else split_loop fuel map max_words quote (before ++ [c]) rest' words
      end
  end.
Definition split_fuel (rest : list ascii) : nat := S (S (2 * length rest)).

(** The buffer afterwards and the part of [words] that is written: the words,
    and a null pointer where there is room for it.  [words] has [max_words]
    elements. *)
Definition terminated (max_words : nat) (words : list nat) : list (option nat) :=
  (Some <$> words) ++ (if (length words <? max_words)%nat then [None] else []).
Definition quoted_strings_splitter (map : list bool) (max_words : nat) (str : string)
  : cres (list ascii * list (option nat) * nat) :=
  let '(before, rest) := skip_map map [] (String.list_ascii_of_string str) in
  if (max_words =? 0)%nat then UB UB_oob
  else
    match rest with
    | [] => Ok (before, [None], 0%nat)
    | _ :: _ =>
        let '(quote, before, rest) := open_quote NUL before rest in
        r ← split_loop (split_fuel rest) map max_words quote before rest [length before];
        let '(buf, words) := r in
        Ok (buf, terminated max_words words, length words)
    end.

Definition PLUGINSD_MAX_WORDS : nat := 30.
Definition quoted_strings_splitter_pluginsd (max_words : nat) (str : string) :=
  quoted_strings_splitter isspace_map_pluginsd max_words str.

(** The string a pointer into the buffer is. *)
Fixpoint until_nul (l : list ascii) : string :=
  match l with
  | [] => ""
  | c :: l => if Ascii.eqb c NUL then "" else String c (until_nul l)
  end.
Definition get_word (buf : list ascii) (words : list (option nat)) (num_words index : nat)
  : option string :=
  if (num_words <=? index)%nat then None
  else (λ i, until_nul (drop i buf)) <$> mjoin (words !! index).
Definition words_of (r : list ascii * list (option nat) * nat) : list (option string) :=
  let '(buf, words, n) := r in get_word buf words n <$> seq 0 n.

(** [line_splitter_reconstruct_line()]: what it appends to the buffer. *)
Definition reconstruct_word (s : option string) : string :=
  String QUOTE (match s with Some s => s | None => "" end +:+ String QUOTE "").
Fixpoint reconstruct_from (words : list (option string)) : string :=
  match words with
  | [] => ""
  | w :: l => " " +:+ reconstruct_word w +:+ reconstruct_from l
  end.
Definition line_splitter_reconstruct_line (words : list (option string)) : string * bool :=
  (match words with [] => "" | w :: l => reconstruct_word w +:+ reconstruct_from l end,
   negb (bool_decide (words = []))).

(** ** Totality and bounds *)

Abbreviation nonnul := (Forall (λ c, c ≠ NUL)).

Lemma skip_map_spec map rest : ∀ before before' rest',
  skip_map map before rest = (before', rest') → nonnul rest →
  before' ++ rest' = before ++ rest ∧ (length rest' ≤ length rest)%nat ∧ nonnul rest'.
Proof.
  induction rest as [|c rest IH]; intros before b r; cbn [skip_map].
  - by intros [= <- <-].
  - destruct (in_map map c); [|by intros [= <- <-]].
    intros H [_ Hn]%Forall_cons. destruct (IH _ _ _ H Hn) as (H1 & H2 & H3).
    rewrite H1, <- app_assoc. split; [done|]. split; [simpl; lia|done].
Qed.
Lemma open_quote_spec quote before rest q b r : open_quote quote before rest = (q, b, r) →
  nonnul rest → b ++ r = before ++ rest ∧
  ((q = quote ∧ length r = length rest) ∨ (S (length r) = length rest)) ∧ nonnul r.
Proof.
  unfold open_quote. destruct rest as [|c rest]; [intros [= <- <- <-]; auto|].
  destruct (_ || _); intros [= <- <- <-] Hn; [|auto].
  rewrite <- app_assoc. apply Forall_cons in Hn as [_ Hn]. auto.
Qed.

(** Where the words may point, and that there is room for them. *)
Definition words_ok (max len : nat) (words : list nat) : Prop :=
  (1 ≤ length words ≤ max)%nat ∧ Forall (λ i, (i ≤ len)%nat) words.


Lemma split_loop_total map max n fuel : ∀ quote before rest words,
  (2 * length rest + (if Ascii.eqb quote NUL then 0 else 1) < fuel)%nat → nonnul rest →
  n = (length before + length rest)%nat → words_ok max n words →
  ∃ buf words', split_loop fuel map max quote before rest words = Ok (buf, words') ∧
    length buf = n ∧ words_ok max n words'.
Proof.
  induction fuel as [|fuel IH]; intros quote before rest words Hf Hnn Hn Hw; [lia|].
  cbn [split_loop]. destruct rest as [|c rest].
  { exists before, words. simpl in *. split; [done|]. split; [lia|done]. }
  pose proof Hnn as [Hc Hnn']%Forall_cons.
  destruct (Ascii.eqb c BACKSLASH && _) eqn:Eb.
  { destruct rest as [|c1 rest]; [by rewrite bool_decide_true, andb_false_r in Eb|].
    apply Forall_cons in Hnn' as [_ Hnn']. apply IH; rewrite ?length_app; simpl in *; (done || lia). }
  destruct (Ascii.eqb_spec c quote) as [->|Hq].
  { apply IH; simpl in *; [|by constructor|lia|done].
    destruct (Ascii.eqb_spec quote NUL); [done|lia]. }
  destruct (Ascii.eqb quote NUL && in_map map c) eqn:Em.
  2: { apply IH; rewrite ?length_app; simpl in *; (done || lia). }
  apply andb_prop in Em as [->%Ascii.eqb_eq _].
  destruct (skip_map map (before ++ [NUL]) rest) as [b1 r1] eqn:E1.
  destruct (open_quote NUL b1 r1) as [[q2 b2] r2] eqn:E2.
  apply skip_map_spec in E1 as (E1 & L1 & N1); [|done].
  apply open_quote_spec in E2 as (E2 & C2 & N2); [|done].
  assert (Hlen : (length b2 + length r2)%nat = n).
  { rewrite <- length_app, E2, E1, !length_app. simpl in *. lia. }
  destruct r2 as [|c2 r2].
  { exists b2, words. split; [done|]. split; [simpl in Hlen; lia|done]. }
  destruct (Nat.ltb_spec (length words) max).
  - apply IH; [|done|lia|].
    + change (Ascii.eqb NUL NUL) with true in Hf. simpl in Hf.
      destruct C2 as [[-> C2]|C2]; simpl in *; [lia|destruct (Ascii.eqb q2 NUL); lia].
    + destruct Hw as [Hw1 Hw2]. split; [rewrite length_app; simpl; lia|].
      apply Forall_app. split; [done|]. constructor; [lia|done].
  - exists (b2 ++ c2 :: r2), words. split; [done|]. by rewrite length_app.
Qed.

Lemma no_nul_list s : no_nul s = true → nonnul (String.list_ascii_of_string s).
Proof.
  unfold no_nul. induction s as [|c s IH]; simpl; [by constructor|].
  rewrite andb_true_iff, negb_true_iff. intros [Hc%Ascii.eqb_neq H]. constructor; auto.
Qed.


(** ** Lines of tokens *)

(** A word as it is written on a line: bare or between single quotes. *)
Inductive token : Type := Bare (w : list ascii) | Quoted (w : list ascii).
Definition body (t : token) : list ascii := match t with Bare w | Quoted w => w end.
Definition close (t : token) : list ascii := match t with Bare _ => [] | Quoted _ => [QUOTE] end.
Definition quote_of (t : token) : ascii := match t with Bare _ => NUL | Quoted _ => QUOTE end.
Definition token_chars (t : token) : list ascii := close t ++ body t ++ close t.

Section tokens.
Context (map : list bool).
Hypothesis map_space : in_map map " " = true.
Hypothesis map_quote : in_map map QUOTE = false.
Hypothesis map_backslash : in_map map BACKSLASH = false.
Hypothesis map_nul : in_map map NUL = false.

Definition plain (c : ascii) : bool := negb (Ascii.eqb c NUL) && negb (Ascii.eqb c BACKSLASH).
Definition token_ok (t : token) : bool :=
  match t with
  | Bare w =>
      forallb (λ c, plain c && negb (in_map map c)) w &&
      match w with [] => false | c :: _ => negb (Ascii.eqb c QUOTE || Ascii.eqb c DQUOTE) end
  | Quoted w => forallb (λ c, plain c && negb (Ascii.eqb c QUOTE)) w
  end.
Definition sep_ok (sep : list ascii) : bool := forallb (in_map map) sep.

(** A line after its first token: separators and tokens, then separators. *)
Fixpoint line_rest (ts : list (list ascii * token)) (trail : list ascii) : list ascii :=
  match ts with
  | [] => trail
  | (sep, t) :: ts => sep ++ token_chars t ++ line_rest ts trail
  end.
Definition rest_ok (ts : list (list ascii * token)) : bool :=
  forallb (λ st, negb (bool_decide (st.1 = [])) && sep_ok st.1 && token_ok st.2) ts.

Lemma skip_map_all sep : ∀ before rest, sep_ok sep = true →
  skip_map map before (sep ++ rest) = skip_map map (before ++ sep) rest.
Proof.
  induction sep as [|c sep IH]; intros before rest; cbn; [by rewrite app_nil_r|].
  intros [Hc Hs]%andb_prop. rewrite Hc, IH by done. by rewrite <- app_assoc.
Qed.

Lemma token_head t rest : token_ok t = true → ∀ before,
  skip_map map before (token_chars t ++ rest) = (before, token_chars t ++ rest) ∧
  open_quote NUL before (token_chars t ++ rest) =
    (quote_of t, before ++ close t, body t ++ close t ++ rest).
Proof using map_quote.
  intros Ht before. destruct t as [w|w]; cbn in Ht |- *.
  - apply andb_prop in Ht as [Hw Hh]. rewrite app_nil_r. destruct w as [|c w]; [done|].
    cbn in Hw. apply andb_prop in Hw as [[_ Hm%negb_true_iff]%andb_prop _].
    cbn. rewrite Hm. split; [done|]. apply negb_true_iff in Hh. by rewrite Hh, app_nil_r.
  - rewrite map_quote. split; [done|]. by rewrite <- app_assoc.
Qed.

(** The characters of a word are passed. *)
Lemma loop_word quote max r w : ∀ fuel before words,
  Forall (λ c, c ≠ BACKSLASH ∧ c ≠ quote ∧ (quote = NUL → in_map map c = false)) w →
  split_loop (length w + fuel) map max quote before (w ++ r) words =
  split_loop fuel map max quote (before ++ w) r words.
Proof.
  induction w as [|c w IH]; intros fuel before words Hw; [by rewrite app_nil_r|].
  apply Forall_cons in Hw as [(H1 & H2 & H3) Hw]. cbn [length Nat.add app split_loop].
  rewrite (proj2 (Ascii.eqb_neq c BACKSLASH)), (proj2 (Ascii.eqb_neq c quote)) by done.
  cbn [andb]. destruct (Ascii.eqb_spec quote NUL) as [E|]; cbn [andb].
  - rewrite H3, IH by done. by rewrite <- app_assoc.
  - rewrite IH by done. by rewrite <- app_assoc.
Qed.
Lemma token_body_ok t : token_ok t = true → Forall (λ c, c ≠ BACKSLASH ∧ c ≠ quote_of t ∧
  (quote_of t = NUL → in_map map c = false)) (body t) ∧ nonnul (body t).
Proof.
  destruct t as [w|w]; cbn; intros Ht.
  - apply andb_prop in Ht as [Hw _]. rewrite forallb_forall in Hw.
    split; apply Forall_forall; intros c Hc%list_elem_of_In%Hw;
      apply andb_prop in Hc as [[H1%negb_true_iff%Ascii.eqb_neq
        H2%negb_true_iff%Ascii.eqb_neq]%andb_prop H3%negb_true_iff]; auto.
  - rewrite forallb_forall in Ht.
    split; apply Forall_forall; intros c Hc%list_elem_of_In%Ht;
      apply andb_prop in Hc as [[H1%negb_true_iff%Ascii.eqb_neq
        H2%negb_true_iff%Ascii.eqb_neq]%andb_prop H3%negb_true_iff%Ascii.eqb_neq]; [|done]; by split.
Qed.


(** A separator ends the word; then comes a token or the end of the line. *)
Lemma loop_separator_end fuel max c tr before words : in_map map c = true → sep_ok tr = true →
  split_loop (S fuel) map max NUL before (c :: tr) words = Ok (before ++ NUL :: tr, words).
Proof using map_backslash map_nul.
  intros Hc Ht. cbn [split_loop].
  destruct (Ascii.eqb_spec c BACKSLASH) as [->|]; [congruence|].
  destruct (Ascii.eqb_spec c NUL) as [->|]; [congruence|].
  cbn [andb Ascii.eqb]. change (Ascii.eqb NUL NUL) with true. rewrite Hc. cbn [andb].
  rewrite <- (app_nil_r tr) at 1. rewrite skip_map_all by done. cbn [skip_map open_quote].
  by rewrite <- app_assoc.
Qed.
Lemma loop_separator_token fuel max c sep t L before words :
  in_map map c = true → sep_ok sep = true → token_ok t = true → (length words < max)%nat →
  split_loop (S fuel) map max NUL before (c :: sep ++ token_chars t ++ L) words =
  let before := before ++ NUL :: sep ++ close t in
  if bool_decide (body t ++ close t ++ L = []) then Ok (before, words)
  else split_loop fuel map max (quote_of t) before (body t ++ close t ++ L)
         (words ++ [length before]).
Proof using map_quote map_backslash map_nul.
  intros Hc Hs Ht Hm. cbn [split_loop].
  destruct (Ascii.eqb_spec c BACKSLASH) as [->|]; [congruence|].
  destruct (Ascii.eqb_spec c NUL) as [->|]; [congruence|].
  change (Ascii.eqb NUL NUL) with true. rewrite Hc. cbn [andb].
  rewrite skip_map_all by done.
  destruct (token_head t L Ht ((before ++ [NUL]) ++ sep)) as [-> ->].
  rewrite <- !app_assoc. cbn [app]. cbv zeta.
  destruct (body t ++ close t ++ L) eqn:E; [done|].
  rewrite bool_decide_false by done. by apply Nat.ltb_lt in Hm as ->.
Qed.
Lemma loop_close fuel max before L words :
  split_loop (S fuel) map max QUOTE before (QUOTE :: L) words =
  split_loop fuel map max NUL before (" "%char :: L) words.
Proof. done. Qed.

(** The end of a token, before separators: the last line of a word that stops,
    or the step from which a separator is cut. *)
Lemma loop_token_end fuel max t L before words : (1 < fuel)%nat →
  (L = [] ∧ close t = [] ∧
   split_loop fuel map max (quote_of t) before (close t ++ L) words = Ok (before, words)) ∨
  (∃ c R, (close t ++ L = c :: R ∧ close t = [] ∨ R = L ∧ c = " "%char ∧ close t = [QUOTE]) ∧
   split_loop fuel map max (quote_of t) before (close t ++ L) words =
   split_loop (S (fuel - 1 - length (close t))) map max NUL before (c :: R) words).
Proof.
  intros Hf. destruct fuel as [|[|fuel]]; [lia..|]. destruct t as [w|w]; simpl.
  - destruct L as [|c L]; [by left|]. right. exists c, L. split; [by left|].
    by replace (fuel - 0)%nat with fuel by lia.
  - right. exists " "%char, L. split; [by right|]. by rewrite Nat.sub_0_r.
Qed.

Definition text (t : token) : string := String.string_of_list_ascii (body t).

(** The words found on the rest of a line: where they are and what they say. *)
Definition found (before : list ascii) (buf : list ascii) (i : nat)
    (st : list ascii * token) : Prop :=
  (length before ≤ i)%nat ∧ until_nul (drop (i - length before) buf) = text st.2.

Lemma until_nul_app w l : nonnul w →
  until_nul (w ++ l) = String.string_of_list_ascii w +:+ until_nul l.
Proof.
  induction 1 as [|c w Hc Hw IH]; simpl; [done|].
  rewrite (proj2 (Ascii.eqb_neq c NUL)) by done. by rewrite IH.
Qed.
Lemma found_shift before pre buf idx ts :
  Forall2 (found (before ++ pre) buf) idx ts → Forall2 (found before (pre ++ buf)) idx ts.
Proof.
  intros H. eapply Forall2_impl; [exact H|]. intros i st [H1 H2]. rewrite length_app in *.
  split; [lia|]. rewrite <- H2. f_equal. rewrite drop_app_ge by lia. f_equal. lia.
Qed.

Lemma token_length t : token_ok t = true → (0 < length (body t) + length (close t))%nat.
Proof.
  destruct t as [[|c w]|w]; simpl; [done|lia..].
Qed.

Lemma loop_line max trail ts : ∀ t before words fuel,
  token_ok t = true → rest_ok ts = true → sep_ok trail = true →
  (2 * length (body t ++ close t ++ line_rest ts trail) < fuel)%nat →
  (length words + length ts ≤ max)%nat →
  ∃ buf idx,
    split_loop fuel map max (quote_of t) before (body t ++ close t ++ line_rest ts trail) words =
      Ok (before ++ buf, words ++ idx) ∧
    until_nul buf = text t ∧ Forall2 (found before buf) idx ts.
Proof using map_space map_quote map_backslash map_nul.
  induction ts as [|[sep u] ts IH]; intros t before words fuel Ht Hts Htr Hf Hm.
  all: destruct (token_body_ok t Ht) as [Hb Hnn]; pose proof (token_length t Ht) as Hpos.
  all: replace fuel with (length (body t) + (fuel - length (body t)))%nat
         by (rewrite length_app in Hf; lia).
  all: rewrite loop_word by exact Hb; rewrite !length_app in Hf.
  - cbn [line_rest] in Hf. destruct (loop_token_end (fuel - length (body t)) max t trail (before ++ body t) words)
      as [(-> & _ & E)|(c & R & HR & E)]; [lia|..]; cbn [line_rest]; rewrite E.
    + exists (body t), []. rewrite app_nil_r. split; [done|]. split; [|done].
      rewrite <- (app_nil_r (body t)), until_nul_app by done. simpl. by rewrite str_app_nil_r.
    + assert (in_map map c = true ∧ sep_ok R = true) as [Hc HR'].
      { destruct HR as [[HR Hcl]|(-> & -> & _)]; [|done]. rewrite Hcl in HR. simpl in HR. subst trail.
        cbn in Htr. by apply andb_prop in Htr. }
      rewrite loop_separator_end by done. exists (body t ++ NUL :: R), [].
      rewrite app_nil_r, app_assoc. split; [done|]. split; [|done].
      rewrite until_nul_app by done. simpl. by rewrite str_app_nil_r.
  - apply andb_prop in Hts as [[[Hne%negb_true_iff%bool_decide_eq_false_1 Hsep]%andb_prop Hu]%andb_prop Hts].
    cbn [fst snd] in *. cbn [line_rest] in *. rewrite !length_app in Hf.
    destruct (loop_token_end (fuel - length (body t)) max t
      (sep ++ token_chars u ++ line_rest ts trail) (before ++ body t) words)
      as [(E & _)|(c & R & HR & E)]; [lia|by destruct sep|]. rewrite E. clear E.
    assert (∃ sep', in_map map c = true ∧ sep_ok sep' = true ∧ length sep' ≤ length sep ∧
      R = sep' ++ token_chars u ++ line_rest ts trail)%nat as (sep' & Hc & Hs & Hl & ->).
    { destruct HR as [[HR Hcl]|(-> & -> & _)]; [|by exists sep]. rewrite Hcl in HR.
      destruct sep as [|c' sep]; [done|]. simpl in HR. injection HR as -> <-.
      cbn in Hsep. apply andb_prop in Hsep as [H1 H2]. exists sep. simpl. auto. }
    rewrite loop_separator_token by (done || (simpl in Hm; lia)). cbv zeta.
    rewrite bool_decide_false.
    2: { intros E%(f_equal length). rewrite !length_app in E. simpl in E.
         pose proof (token_length u Hu). lia. }
    destruct (IH u ((before ++ body t) ++ NUL :: sep' ++ close u)
      (words ++ [length ((before ++ body t) ++ NUL :: sep' ++ close u)])
      (fuel - length (body t) - 1 - length (close t))%nat) as (buf & idx & H1 & H2 & H3);
      [done..| | |].
    { unfold token_chars in Hf. rewrite !length_app in *.
      assert (0 < length sep)%nat by (destruct sep; [done|simpl; lia]). lia. }
    { rewrite length_app. simpl in *. lia. }
    rewrite H1. set (pre := NUL :: sep' ++ close u) in *.
    exists (body t ++ pre ++ buf), (length ((before ++ body t) ++ pre) :: idx).
    rewrite <- !app_assoc. split; [done|]. split.
    + rewrite until_nul_app by done. unfold pre. simpl. by rewrite str_app_nil_r.
    + constructor.
      * split; [rewrite !length_app; lia|]. cbn [snd]. rewrite <- H2. f_equal.
        rewrite !length_app, app_assoc, drop_app_ge by (rewrite length_app; lia).
        rewrite length_app. replace (_ - _ - _)%nat with 0%nat by lia. done.
      * rewrite (app_assoc (body t)). apply found_shift.
        by rewrite (app_assoc before).
Qed.


Lemma words_of_found buf idx (texts : list string) max :
  Forall2 (λ i s, until_nul (drop i buf) = s) idx texts →
  words_of (buf, terminated max idx, length idx) = Some <$> texts.
Proof.
  intros H. unfold words_of. apply list_eq. intros i. rewrite !list_lookup_fmap.
  pose proof (Forall2_length _ _ _ H) as Hlen.
  destruct (decide (i < length idx)%nat) as [Hi|Hi].
  - rewrite lookup_seq_lt by done. cbn [fmap option_fmap option_map].
    destruct (lookup_lt_is_Some_2 idx i Hi) as [x Hx].
    destruct (Forall2_lookup_l _ _ _ _ _ H Hx) as (t & -> & <-). cbn. f_equal.
    unfold get_word. rewrite (proj2 (Nat.leb_gt _ _)) by done. unfold terminated.
    rewrite lookup_app_l by (by rewrite length_fmap). by rewrite list_lookup_fmap, Hx.
  - rewrite (lookup_seq_ge 0) by lia. by rewrite (lookup_ge_None_2 texts) by lia.
Qed.

(** A line made of tokens is cut into their words. *)
Lemma split_tokens max lead t ts trail str :
  String.list_ascii_of_string str = lead ++ token_chars t ++ line_rest ts trail →
  sep_ok lead = true → token_ok t = true → rest_ok ts = true → sep_ok trail = true →
  (S (length ts) ≤ max)%nat →
  ∃ r, quoted_strings_splitter map max str = Ok r ∧
    words_of r = Some <$> (text t :: ((λ st, text st.2) <$> ts)).
Proof using map_space map_quote map_backslash map_nul.
  intros Hstr Hl Ht Hts Htr Hm. unfold quoted_strings_splitter. rewrite Hstr.
  rewrite skip_map_all by done. cbn [app].
  destruct (token_head t (line_rest ts trail) Ht lead) as [-> Hopen].
  rewrite (proj2 (Nat.eqb_neq max 0)) by lia.
  destruct (token_chars t ++ line_rest ts trail) as [|c l] eqn:E.
  { apply (f_equal length) in E. unfold token_chars in E. rewrite !length_app in E.
    simpl in E. pose proof (token_length t Ht). lia. }
  rewrite Hopen. clear E Hopen.
  destruct (loop_line max trail ts t (lead ++ close t) [length (lead ++ close t)]
    (split_fuel (body t ++ close t ++ line_rest ts trail))) as (buf & idx & H1 & H2 & H3);
    [done..|unfold split_fuel; lia|simpl; lia|].
  rewrite H1. eexists. split; [done|]. apply words_of_found. cbn [app]. constructor.
  - by rewrite drop_app_length.
  - apply Forall2_fmap_r. eapply Forall2_impl; [exact H3|]. intros i st [F1 F2].
    cbn. rewrite <- F2. by rewrite drop_app_ge.
Qed.
End tokens.

(** ** Round trip *)

Abbreviation chars := String.list_ascii_of_string.
Lemma chars_app a b : chars (a +:+ b) = chars a ++ chars b.
Proof. induction a as [|c a IH]; simpl; [done|]. by f_equal. Qed.
Lemma text_chars w : String.string_of_list_ascii (chars w) = w.
Proof. apply String.string_of_list_ascii_of_string. Qed.

(** What can be put between single quotes. *)
Definition quotable_word (w : string) : bool :=
  str_all (λ c, plain c && negb (Ascii.eqb c QUOTE)) w.
Lemma str_all_chars p w : str_all p w = forallb p (chars w).
Proof. induction w as [|c w IH]; simpl; [done|]. by rewrite IH. Qed.

(** The maps of which a space is an element. *)
Definition space_maps : list (list bool) :=
  [isspace_map_whitespace; isspace_map_pluginsd; isspace_map_config].
Lemma space_maps_ok map : map ∈ space_maps → in_map map " " = true ∧ in_map map QUOTE = false ∧
  in_map map BACKSLASH = false ∧ in_map map NUL = false.
Proof.
  intros H. assert (Hall : Forall (λ m, in_map m " " = true ∧ in_map m QUOTE = false ∧
    in_map m BACKSLASH = false ∧ in_map m NUL = false) space_maps).
  { repeat (apply Forall_cons; split; [by vm_compute|]). constructor. }
  rewrite Forall_forall in Hall. by apply Hall.
Qed.

Lemma reconstruct_chars ws : chars (reconstruct_from (Some <$> ws)) =
  line_rest ((λ w, ([" "%char], Quoted (chars w))) <$> ws) [].
Proof.
  induction ws as [|w ws IH]; [done|]. cbn [fmap list_fmap reconstruct_from line_rest].
  rewrite !chars_app, IH. unfold reconstruct_word, token_chars. cbn.
  rewrite chars_app. by rewrite <- !app_assoc.
Qed.

(** C9. Splitting the line that [line_splitter_reconstruct_line()] prints gives
    the words back, for words without quotes and backslashes: empty ones, and
    ones with spaces, included. *)
Theorem splitter_round_trip map max w ws :
  map ∈ space_maps → forallb quotable_word (w :: ws) = true → (S (length ws) ≤ max)%nat →
  ∃ r, quoted_strings_splitter map max
         (fst (line_splitter_reconstruct_line (Some <$> (w :: ws)))) = Ok r ∧
       words_of r = Some <$> (w :: ws).
Proof.
  intros (M1 & M2 & M3 & M4)%space_maps_ok Hq Hm.
  assert (Hok : ∀ x, quotable_word x = true → token_ok map (Quoted (chars x)) = true).
  { intros x. unfold quotable_word. by rewrite str_all_chars. }
  cbn [forallb] in Hq. apply andb_prop in Hq as [Hw Hws].
  destruct (split_tokens map M1 M2 M3 M4 max [] (Quoted (chars w))
    ((λ w, ([" "%char], Quoted (chars w))) <$> ws) []
    (fst (line_splitter_reconstruct_line (Some <$> (w :: ws))))) as (r & H1 & H2).
  - cbn [fst line_splitter_reconstruct_line fmap list_fmap]. rewrite chars_app.
    change (list_fmap _ _ Some ws) with (Some <$> ws). rewrite reconstruct_chars.
    unfold reconstruct_word, token_chars. cbn. rewrite chars_app. by rewrite <- !app_assoc.
  - done.
  - by apply Hok.
  - unfold rest_ok. rewrite forallb_forall in *. intros st Hin%list_elem_of_In.
    apply list_elem_of_fmap in Hin as (x & -> & Hx). cbn [fst snd].
    rewrite Hok by (apply Hws; by apply list_elem_of_In). cbn. by rewrite M1.
  - done.
  - by rewrite length_fmap.
  - exists r. split; [done|]. rewrite H2. cbn. unfold text. cbn. rewrite text_chars. f_equal. f_equal.
    rewrite <- list_fmap_compose. rewrite <- (list_fmap_id ws) at 2.
    apply list_fmap_ext. intros i x _. cbn. by rewrite text_chars.
Qed.
Lemma splitter_round_trip_witness : ∃ r,
  quoted_strings_splitter isspace_map_pluginsd 30
    "'CHART' 'a.b' '' 'UPS load'" = Ok r ∧
  words_of r = Some <$> ["CHART"; "a.b"; ""; "UPS load"].
Proof.
  apply (splitter_round_trip isspace_map_pluginsd 30 "CHART" ["a.b"; ""; "UPS load"]);
    [right; left|reflexivity|simpl; lia].
Defined.

(** ** The lines of upsd.plugin *)

(** What can stand alone on a line. *)
Definition bare_word (w : string) : bool :=
  str_all (λ c, plain c && negb (Ascii.eqb c QUOTE) && negb (Ascii.eqb c DQUOTE) &&
                negb (isspace_pluginsd c)) w && negb (String.eqb w "").

Lemma in_map_pluginsd c : in_map isspace_map_pluginsd c = isspace_pluginsd c.
Proof.
  unfold in_map, isspace_map_pluginsd, fill_space_map. pose proof (code_range c).
  rewrite list_lookup_fmap, (lookup_seqZ_lt 0 256) by lia. cbn [fmap option_fmap option_map].
  rewrite Z2Nat.id by lia. by rewrite Z.add_0_l, chr_code.
Qed.

Lemma bare_token w : bare_word w = true → token_ok isspace_map_pluginsd (Bare (chars w)) = true.
Proof.
  unfold bare_word, token_ok. rewrite str_all_chars. intros [H Hne]%andb_prop.
  destruct w as [|c w]; [done|]. apply andb_true_intro. split.
  - rewrite forallb_forall in *. intros x Hx%H. rewrite in_map_pluginsd.
    apply andb_prop in Hx as [[[H1 _]%andb_prop _]%andb_prop H2]. by rewrite H1, H2.
  - cbn in *. apply andb_prop in H as [[[[_ H1]%andb_prop H2]%andb_prop _]%andb_prop _].
    by rewrite negb_orb, H1, H2.
Qed.
Lemma quoted_token w : quotable_word w = true →
  token_ok isspace_map_pluginsd (Quoted (chars w)) = true.
Proof. unfold quotable_word. by rewrite str_all_chars. Qed.
Lemma bare_quotable w : bare_word w = true → quotable_word w = true.
Proof.
  unfold bare_word, quotable_word. intros [H _]%andb_prop. revert H. apply str_all_impl.
  intros c [[H _]%andb_prop _]%andb_prop. done.
Qed.
Lemma bare_app a b : bare_word a = true → bare_word b = true → bare_word (a +:+ b) = true.
Proof.
  unfold bare_word. rewrite str_all_app. intros [-> Ha]%andb_prop [-> _]%andb_prop.
  destruct a; done.
Qed.
Lemma bare_print_u n : 0 ≤ n → bare_word (print_u n) = true.
Proof.
  intros Hn. unfold bare_word. rewrite print_u_all; [|done|].
  - destruct (print_u_head n) as (d & s & _ & ->). done.
  - intros d Hd. assert (Hin : d ∈ seqZ 0 10) by (apply elem_of_seqZ; lia). clear Hd; revert d Hin.
    apply Forall_forall. repeat constructor.
Qed.
Lemma bare_print_d n : bare_word (print_d n) = true.
Proof.
  unfold print_d. destruct (Z.ltb_spec n 0); [|by apply bare_print_u].
  apply (bare_app "-"); [done|]. apply bare_print_u. lia.
Qed.

(** A line given by its words: the first is bare. *)
Definition word_token (w : bool * string) : token :=
  if w.1 then Quoted (chars w.2) else Bare (chars w.2).
Definition word_ok (w : bool * string) : bool :=
  if w.1 then quotable_word w.2 else bare_word w.2.

Lemma pluginsd_line str first (ws : list (string * (bool * string))) :
  chars str = chars first ++ line_rest ((λ x, (chars x.1, word_token x.2)) <$> ws) [] →
  bare_word first = true →
  forallb (λ x, negb (String.eqb x.1 "") && str_all isspace_pluginsd x.1 && word_ok x.2) ws = true →
  (S (length ws) ≤ PLUGINSD_MAX_WORDS)%nat →
  ∃ r, quoted_strings_splitter_pluginsd PLUGINSD_MAX_WORDS str = Ok r ∧
    words_of r = Some <$> (first :: (snd <$> (snd <$> ws))).
Proof.
  intros Hstr Hf Hws Hm.
  destruct (space_maps_ok isspace_map_pluginsd) as (M1 & M2 & M3 & M4); [right; left|].
  destruct (split_tokens _ M1 M2 M3 M4 PLUGINSD_MAX_WORDS [] (Bare (chars first))
    ((λ x, (chars x.1, word_token x.2)) <$> ws) [] str) as (r & H1 & H2).
  - rewrite Hstr. unfold token_chars. cbn [close body app]. by rewrite app_nil_r.
  - done.
  - by apply bare_token.
  - unfold rest_ok. rewrite forallb_forall in *. intros st Hin%list_elem_of_In.
    apply list_elem_of_fmap in Hin as ([sep [q w]] & -> & Hx%list_elem_of_In%Hws).
    cbn [fst snd] in *. apply andb_prop in Hx as [[Hs1 Hs2]%andb_prop Hx].
    assert (sep_ok isspace_map_pluginsd (chars sep) = true) as ->.
    { unfold sep_ok. rewrite str_all_chars in Hs2. rewrite forallb_forall in *.
      intros c Hc. rewrite in_map_pluginsd. auto. }
    destruct sep; [done|]. cbn [chars bool_decide]. rewrite bool_decide_false by done. cbn.
    destruct q; [by apply quoted_token|by apply bare_token].
  - done.
  - by rewrite length_fmap.
  - exists r. split; [done|]. rewrite H2. do 2 f_equal; [apply text_chars|].
    rewrite <- !list_fmap_compose. apply list_fmap_ext. intros i [sep [[] w]] _; cbn; apply text_chars.
Qed.

Lemma charts_quotable c : c ∈ nd_charts → forallb quotable_word
  [chart_title c; chart_units c; chart_family c; chart_context c; chart_type c] = true ∧
  bare_word (chart_id c) = true ∧ bare_word (chart_dimension c) = true ∧ 0 ≤ chart_priority c.
Proof.
  intros H. assert (Hall : Forall (λ c, forallb quotable_word
    [chart_title c; chart_units c; chart_family c; chart_context c; chart_type c] = true ∧
    bare_word (chart_id c) = true ∧ bare_word (chart_dimension c) = true ∧ 0 ≤ chart_priority c)
    nd_charts) by (apply (bool_decide_unpack _); vm_compute; reflexivity).
  rewrite Forall_forall in Hall. by apply Hall.
Qed.
