(* ===== verification/Protocol.v ===== *)
(** * From upsd.plugin to the agent

    The lines that a registration and a reading print, cut by the splitter
    of the agent's side of the pipe: the words are the ones the plugin meant. *)

From S2P Require Import Prelude CString Double Inlined Status Charts Clocks.
From S2P Require Import Dictionary DictionarySpec DictionaryThms Plugin PluginSpec EvictSpec PluginThms.
From S2P Require Import Fleet Splitter.
#[local] Open Scope string_scope.
#[local] Open Scope list_scope.
#[local] Open Scope Z_scope.

(** ** Lines and words *)

(** The agent cuts [line] into [words]. *)
Definition agent_reads (line : string) (words : list string) : Prop :=
  ∃ r, quoted_strings_splitter_pluginsd PLUGINSD_MAX_WORDS line = Ok r ∧ words_of r = Some <$> words.

Ltac agent_line first ws :=
  unfold agent_reads; apply (pluginsd_line _ first ws);
  [ repeat (progress (rewrite ?chars_app, <- ?app_assoc; cbn -[print_u print_d]));
    rewrite ?app_nil_r; reflexivity
  | reflexivity
  | cbn [forallb fst snd word_ok];
    rewrite ?bare_print_d, ?bare_print_u by lia
  | cbn; unfold PLUGINSD_MAX_WORDS; lia ].

(** The words of each kind of line. *)
Definition chart_name_of (cn id : string) : string := "upsd_" +:+ cn +:+ "." +:+ id.
Definition label_words (f : string → option string) : list (list string) :=
  omap (λ s, (λ v, ["CLABEL"; s.2; v; "1"]) <$> f s.1) label_sources.
Definition chart_words (u : string) (f : string → option string) (every : Z) (c : nd_chart) : list (list string) :=
  [["CHART"; chart_name_of (clean_name u) (chart_id c); ""; chart_title c; chart_units c; chart_family c;
    chart_context c; chart_type c; print_u (chart_priority c); print_u every; ""; "upsd.plugin"]] ++
  label_words f ++
  [["CLABEL"; "ups_name"; u; "1"]; ["CLABEL_COMMIT"]; ["DIMENSION"; chart_dimension c; ""; ""; ""; "100"]].
(** A UPS is announced by its status chart and one chart for each variable it has. *)
Definition registration_words (u : string) (f : string → option string) (every : Z) : list (list string) :=
  [["CHART"; chart_name_of (clean_name u) "status"; ""; "UPS status"; "status"; "ups"; "upsd.ups_status"; "line";
    "70002"; print_u every]] ++ label_words f ++
  [["CLABEL"; "ups_name"; u; "1"]; ["CLABEL_COMMIT"]] ++
  ((λ x : string * flag, ["DIMENSION"; x.1; ""; ""; ""; "100"]) <$> status_dimensions) ++
  (List.filter (available f) nd_charts ≫= chart_words u f every).
(** One value of one chart, and a whole reading. *)
Definition metric_words (cn id dim : string) (dt z : Z) : list (list string) :=
  [["BEGIN"; chart_name_of cn id; print_u dt]; ["SET"; dim; print_d z]; ["END"]].
Definition reading_words (cn : string) (dt : Z) (st : nut_ups_status) (rp : option Z)
    (cs : list nd_chart) (value : nd_chart → Z) : list (list string) :=
  [["BEGIN"; chart_name_of cn "status"; print_u dt]] ++
  ((λ x, ["SET"; x.1; if st_get st x.2 then "1" else "0"]) <$> status_dimensions) ++ [["END"]] ++
  match rp with Some z => metric_words cn "load_usage" "load_usage" dt z | None => [] end ++
  (cs ≫= λ c, metric_words cn (chart_id c) (chart_dimension c) dt (value c)).

(** Names and label values that a line can carry: no quote, no backslash, and no
    other separator in a name than the ones [clean_name()] replaces. *)
Definition labels_quotable (f : string → option string) : bool :=
  forallb (λ s, match f s.1 with Some v => quotable_word v | None => true end) label_sources.

Lemma clean_quotable u : bare_word (clean_name u) = true → quotable_word u = true.
Proof.
  unfold bare_word, quotable_word, clean_name. intros [H _]%andb_prop. revert H.
  induction u as [|c u IH]; cbn [str_map str_all]; [done|]. rewrite !andb_true_iff. intros [[[H _] _] Hu].
  split; [|by apply IH]. revert H. unfold clean_char.
  destruct (Ascii.eqb_spec c " ") as [->|]; [done|]. destruct (Ascii.eqb_spec c ".") as [->|]; [done|].
  done.
Qed.

Section lines.
Context (cn : string).
Hypothesis Hcn : bare_word cn = true.

Lemma bare_chart_name id : bare_word id = true → bare_word (chart_name_of cn id) = true.
Proof using Hcn.
  intros Hid. unfold chart_name_of. apply bare_app; [done|]. apply bare_app; [done|]. by apply (bare_app ".").
Qed.
Lemma reads_BEGIN id usec : bare_word id = true → 0 ≤ usec →
  agent_reads (BEGIN_line cn id usec) ["BEGIN"; chart_name_of cn id; print_u usec].
Proof using Hcn.
  intros Hid Hu. unfold BEGIN_line. agent_line "BEGIN" [(" ", (false, chart_name_of cn id)); (" ", (false, print_u usec))].
  by rewrite bare_chart_name.
Qed.
Lemma reads_SET dim z : bare_word dim = true → agent_reads (SET_line dim z) ["SET"; dim; print_d z].
Proof.
  intros Hd. unfold SET_line. agent_line "SET" [(" ", (false, dim)); (" = ", (false, print_d z))]. by rewrite Hd.
Qed.
Lemma reads_END : agent_reads END_line ["END"].
Proof. eexists. split; vm_compute; reflexivity. Qed.
Lemma reads_COMMIT : agent_reads "CLABEL_COMMIT" ["CLABEL_COMMIT"].
Proof. eexists. split; vm_compute; reflexivity. Qed.
Lemma reads_status_label label v : bare_word label = true → quotable_word v = true →
  agent_reads (status_label_line label v) ["CLABEL"; label; v; "1"].
Proof.
  intros Hl Hv. unfold status_label_line.
  agent_line "CLABEL" [(" ", (false, label)); (" ", (true, v)); (" ", (false, "1"))]. by rewrite Hl, Hv.
Qed.
Lemma reads_chart_label label v : bare_word label = true → quotable_word v = true →
  agent_reads (chart_label_line label v) ["CLABEL"; label; v; "1"].
Proof.
  intros Hl Hv. unfold chart_label_line.
  agent_line "CLABEL" [(" ", (true, label)); (" ", (true, v)); (" ", (true, "1"))]. by rewrite (bare_quotable _ Hl), Hv.
Qed.
Lemma reads_ups_name_bare u : quotable_word u = true →
  agent_reads ("CLABEL ups_name '" +:+ u +:+ "' " +:+ print_u NETDATA_CLABEL_SOURCE_AUTO) ["CLABEL"; "ups_name"; u; "1"].
Proof.
  intros Hu. agent_line "CLABEL" [(" ", (false, "ups_name")); (" ", (true, u)); (" ", (false, "1"))]. by rewrite Hu.
Qed.
Lemma reads_ups_name_quoted u : quotable_word u = true →
  agent_reads ("CLABEL 'ups_name' '" +:+ u +:+ "' " +:+ print_u NETDATA_CLABEL_SOURCE_AUTO) ["CLABEL"; "ups_name"; u; "1"].
Proof.
  intros Hu. agent_line "CLABEL" [(" ", (true, "ups_name")); (" ", (true, u)); (" ", (false, "1"))]. by rewrite Hu.
Qed.
Lemma reads_chart c every : c ∈ nd_charts → 0 ≤ every → agent_reads (chart_line cn c every)
  ["CHART"; chart_name_of cn (chart_id c); ""; chart_title c; chart_units c; chart_family c;
   chart_context c; chart_type c; print_u (chart_priority c); print_u every; ""; "upsd.plugin"].
Proof using Hcn.
  intros (Hq & Hid & _ & Hprio)%charts_quotable He.
  cbn [forallb] in Hq. rewrite !andb_true_iff in Hq. destruct Hq as (Q1 & Q2 & Q3 & Q4 & Q5 & _).
  unfold chart_line, PLUGIN_UPSD_NAME.
  agent_line "CHART" [(" ", (true, chart_name_of cn (chart_id c))); (" ", (true, ""));
    (" ", (true, chart_title c)); (" ", (true, chart_units c)); (" ", (true, chart_family c));
    (" ", (true, chart_context c)); (" ", (true, chart_type c));
    (" ", (true, print_u (chart_priority c))); (" ", (true, print_u every)); (" ", (true, ""));
    (" ", (true, "upsd.plugin"))].
  rewrite (bare_quotable _ (bare_print_u _ He)), (bare_quotable _ (bare_print_u _ Hprio)).
  by rewrite (bare_quotable _ (bare_chart_name _ Hid)), Q1, Q2, Q3, Q4, Q5.
Qed.
Lemma reads_status_chart every : 0 ≤ every → agent_reads (status_chart_line cn every)
  ["CHART"; chart_name_of cn "status"; ""; "UPS status"; "status"; "ups"; "upsd.ups_status"; "line"; "70002"; print_u every].
Proof using Hcn.
  intros He. unfold status_chart_line.
  agent_line "CHART" [(" ", (true, chart_name_of cn "status")); (" ", (true, "")); (" ", (true, "UPS status"));
    (" ", (true, "status")); (" ", (true, "ups")); (" ", (true, "upsd.ups_status")); (" ", (true, "line"));
    (" ", (false, "70002")); (" ", (false, print_u every))].
  by rewrite (bare_quotable _ (bare_chart_name "status" eq_refl)).
Qed.
Lemma reads_status_dimension dim : bare_word dim = true →
  agent_reads (status_dimension_line dim) ["DIMENSION"; dim; ""; ""; ""; "100"].
Proof.
  intros Hd. unfold status_dimension_line. agent_line "DIMENSION" [(" ", (false, dim)); (" ", (true, ""));
    (" ", (true, "")); (" ", (true, "")); (" ", (false, "100"))]. by rewrite Hd.
Qed.
Lemma reads_dimension c : c ∈ nd_charts → agent_reads (chart_dimension_line c) ["DIMENSION"; chart_dimension c; ""; ""; ""; "100"].
Proof.
  intros (_ & _ & Hd & _)%charts_quotable. unfold chart_dimension_line.
  agent_line "DIMENSION" [(" ", (true, chart_dimension c)); (" ", (true, "")); (" ", (true, ""));
    (" ", (true, "")); (" ", (false, "100"))]. by rewrite (bare_quotable _ Hd).
Qed.
End lines.

(** ** Registrations and readings *)

Lemma Forall2_bind {A B C} (R : B → C → Prop) (g : A → list B) (h : A → list C) l :
  Forall (λ x, Forall2 R (g x) (h x)) l → Forall2 R (l ≫= g) (l ≫= h).
Proof. induction 1 as [|x l Hx _ IH]; [constructor|]. rewrite !bind_cons. by apply Forall2_app. Qed.

Lemma reads_labels f line : (∀ label v, bare_word label = true → quotable_word v = true →
  agent_reads (line label v) ["CLABEL"; label; v; "1"]) → labels_quotable f = true →
  Forall2 agent_reads (label_lines f line) (label_words f).
Proof.
  intros Hline. unfold labels_quotable, label_lines, label_words.
  assert (Hl : Forall (λ s, bare_word s.2 = true) label_sources) by (repeat constructor).
  induction Hl as [|s l Hs _ IH]; [constructor|]. cbn [forallb omap list_omap]. intros [H1 H2]%andb_prop.
  destruct (f s.1) as [v|]; cbn; [|by apply IH]. constructor; [by apply Hline|by apply IH].
Qed.

Lemma reads_registration u f every : bare_word (clean_name u) = true → labels_quotable f = true → 0 ≤ every →
  Forall2 agent_reads (registration u f every) (registration_words u f every).
Proof.
  intros Hn Hl He. pose proof (clean_quotable u Hn) as Hu. unfold registration, registration_words.
  apply Forall2_app; [by repeat constructor; apply reads_status_chart|].
  apply Forall2_app; [by apply reads_labels; [apply reads_status_label|]|].
  apply Forall2_app; [repeat constructor; [by apply reads_ups_name_bare|apply reads_COMMIT]|].
  apply Forall2_app.
  { rewrite <- list_fmap_compose. apply Forall2_fmap, Forall_Forall2_diag.
    assert (Hd : Forall (λ x : string * flag, bare_word x.1 = true) status_dimensions) by (repeat constructor).
    eapply Forall_impl; [exact Hd|]. intros x. apply reads_status_dimension. }
  apply Forall2_bind, Forall_forall. intros c [Hc%list_elem_of_In _]%list_elem_of_In%List.filter_In.
  apply Forall2_app; [by repeat constructor; apply reads_chart|].
  apply Forall2_app; [by apply reads_labels; [apply reads_chart_label|]|].
  repeat constructor; [by apply reads_ups_name_quoted|apply reads_COMMIT|by apply reads_dimension].
Qed.

Lemma reads_metric cn id dim dt z : bare_word cn = true → bare_word id = true → bare_word dim = true → 0 ≤ dt →
  Forall2 agent_reads (metric_lines cn id dim dt z) (metric_words cn id dim dt z).
Proof. intros Hc Hi Hd Ht. repeat constructor; [by apply reads_BEGIN|by apply reads_SET|apply reads_END]. Qed.

Lemma reads_reading cn dt st rp cs value : bare_word cn = true → cs ⊆ nd_charts → 0 ≤ dt →
  Forall2 agent_reads (reading cn dt st rp cs value) (reading_words cn dt st rp cs value).
Proof.
  intros Hc Hcs Ht. unfold reading, reading_words, status_lines. cbn [app].
  constructor; [by apply reads_BEGIN|]. rewrite <- !app_assoc.
  apply Forall2_app.
  { assert (Hd : Forall (λ x : string * flag, bare_word x.1 = true) status_dimensions) by (repeat constructor).
    apply Forall2_fmap, Forall_Forall2_diag. eapply Forall_impl; [exact Hd|]. intros x Hx.
    by destruct (st_get st x.2); apply reads_SET. }
  constructor; [apply reads_END|].
  apply Forall2_app; [destruct rp; [by apply reads_metric|constructor]|].
  apply Forall2_bind, Forall_forall. intros c (_ & Hi & Hd & _)%Hcs%charts_quotable. by apply reads_metric.
Qed.

Section protocol.
Context {J : Type} `{!JudyHS J} (pow : dbl → dbl → dbl) (W : world).
#[local] Existing Instance table_charts.

(** C6. The agent reads what the plugin means, on every line.  For a UPS whose name,
    cleaned, has no quote, no backslash, no '=' and no separator, and whose label
    values have no quote and no backslash: the registration arrives as the status
    chart and the charts of the variables the UPS has, each with its labels and
    dimensions; a reading of a registered UPS arrives as one BEGIN, SET and END group
    for the status, the real power and every chart. *)
Theorem agent_reads_plugin_lines i u f reg seen (p : pstate J) :
  answers_complete W → answers W i u f → p_lists p = i → Inv reg seen p →
  bare_word (clean_name u) = true → labels_quotable f = true → 0 ≤ p_update_every p →
  (∃ p' lines, register_ups W u p = Ok (tt, p') ∧ p_out p' = p_out p ++ lines ∧
    Forall2 agent_reads lines (registration_words u f (p_update_every p))) ∧
  (∀ h cs st rp value dt, al_get u reg = Some h → holds h (made vars_options) (chart_entries cs) p →
    cs ⊆ nd_charts → parse_status (f "ups.status") = Ok st → readable_realpower pow f rp →
    Forall (readable_chart pow f value) cs → 0 ≤ dt →
    ∃ p' lines, collect_ups pow W u dt p = Ok (tt, p') ∧ p_out p' = p_out p ++ lines ∧
      Forall2 agent_reads lines (reading_words (clean_name u) dt st rp cs value)).
Proof.
  intros Hc Hf Hi HI Hn Hl He. assert (Hu : u ≠ "") by (by intros ->). split.
  - destruct (register_ups_spec W Hc reg seen u p HI Hu (table_selection W _ u)) as (h & sel & p' & H1 & _).
    exists p', (registration u f (p_update_every p)). split; [exact H1|].
    split; [by eapply register_prints|by apply reads_registration].
  - intros h cs st rp value dt Hreg Hh Hcs Hst Hrp Hv Ht.
    destruct (collect_registered pow W Hc i u f Hf reg seen h cs dt st rp value p) as (p' & H1 & _ & _ & H4); [done..|].
    eexists p', _. split; [exact H1|]. split; [exact H4|by apply reads_reading].
Qed.
End protocol.

(** ** A UPS *)

Definition ex_labelled : list (string * string) := ("device.model", "Back-UPS 650") :: ex_measured.
Lemma agent_reads_plugin_lines_witness : ∃ (p p' : ex_pstate) lines,
  register_ups (ex_world ex_labelled) "rack.1 a" p = Ok (tt, p') ∧ p_out p' = p_out p ++ lines ∧
  Forall2 agent_reads lines (registration_words "rack.1 a" (ex_answer ex_labelled) 5) ∧
  ∃ p'' lines', collect_ups pow_table (ex_world ex_labelled) "rack.1 a" 1000000 p = Ok (tt, p'') ∧
  Forall2 agent_reads lines' (reading_words "rack_1_a" 1000000 (st_set CHRG (st_set OL status_zero)) (Some 30000)
    (take 2 nd_charts) (λ c, 100 * ex_value c)).
Proof.
  set (W := ex_world ex_labelled). set (f := ex_answer ex_labelled).
  destruct (init_inv (Q := table_charts) (J := gmap string nat) W 5) as (p0 & _ & HI0 & _ & _ & _ & He).
  destruct (register_ups_spec (Q := table_charts) W (ex_complete _) [] [] "rack.1 a" p0 HI0)
    as (h & sel & p & H0 & HI & _ & Hi & Hsel & Hh); [done|apply table_selection|].
  rewrite (available_selected W _ "rack.1 a" f sel (ex_complete _) (ex_answers _ _ _) Hsel) in Hh.
  rewrite <- (qs_every _ _ (quiet_register W "rack.1 a" p0 tt p H0)) in He.
  destruct (agent_reads_plugin_lines pow_table W (p_lists p) "rack.1 a" f [("rack.1 a", h)] [] p
    (ex_complete _) (ex_answers _ _ _) eq_refl HI eq_refl eq_refl) as [(p' & lines & R1 & R2 & R3) Hr]; [lia|].
  destruct (Hr h (take 2 nd_charts) (st_set CHRG (st_set OL status_zero)) (Some 30000) (λ c, 100 * ex_value c) 1000000)
    as (p'' & lines' & C1 & _ & C3).
  - reflexivity.
  - exact Hh.
  - apply subseteq_take.
  - reflexivity.
  - eexists. split; [reflexivity|vm_compute; reflexivity].
  - do 2 (apply Forall_cons; split; [eexists; split; [reflexivity|vm_compute; reflexivity]|]). constructor.
  - lia.
  - exists p, p', lines. split; [exact R1|]. split; [exact R2|]. rewrite He in R3. split; [exact R3|].
    exists p'', lines'. split; [exact C1|exact C3].
Defined.

(** A quote in a value ends the word: the agent sees another label. *)
Example quote_in_a_label :
  (r ← quoted_strings_splitter_pluginsd PLUGINSD_MAX_WORDS
         (chart_label_line "device_model" "Back' UPS");
   Ok (words_of r)) =
  Ok (Some <$> ["CLABEL"; "device_model"; "Back"; "UPS'"; "1"]).
Proof. vm_compute. reflexivity. Qed.
