(* ===== verification/Memory.v ===== *)
(** * Blocks of memory

    What [mallocz()], [memcpy()] and [memmove()] do to a block of bytes, with
    every access checked against the bounds of the block; shared by the two
    byte queues of libnetdata. *)

From S2P Require Import Prelude.
#[local] Open Scope list_scope.
#[local] Open Scope Z_scope.

(** ** Accesses

    A byte of a block is [None] until it is written. *)

Abbreviation block := (list (option ascii)).
Definition mallocz (n : Z) : block := replicate (Z.to_nat n) None.
(** Reading and writing [n] bytes at an offset of a block, inside it. *)
Definition mem_read (b : block) (off n : Z) : cres block :=
  if (0 <=? off) && (0 <=? n) && (off + n <=? Z.of_nat (length b))
  then Ok (take (Z.to_nat n) (drop (Z.to_nat off) b)) else UB UB_oob.
Definition mem_write (b : block) (off : Z) (d : block) : cres block :=
  if (0 <=? off) && (off + Z.of_nat (length d) <=? Z.of_nat (length b))
  then Ok (take (Z.to_nat off) b ++ d ++ drop (Z.to_nat off + length d) b) else UB UB_oob.
(** [memcpy(dst + off, src + soff, n)] between two blocks; [memmove()] when they
    are the same: the bytes are read before they are written. *)
Definition mem_copy (dst : block) (off : Z) (src : block) (soff n : Z) : cres block :=
  d ← mem_read src soff n; mem_write dst off d.

Lemma ok_bind {A B} (a : A) (f : A → cres B) : (Ok a ≫= f) = f a.
Proof. done. Qed.

(** ** Lengths and pieces *)

Definition len {A} (l : list A) : Z := Z.of_nat (length l).
Lemma len_app {A} (l1 l2 : list A) : len (l1 ++ l2) = len l1 + len l2.
Proof. unfold len. rewrite length_app. lia. Qed.
Lemma len_nonneg {A} (l : list A) : 0 ≤ len l.
Proof. unfold len. lia. Qed.
Lemma len_fmap {A B} (f : A → B) l : len (f <$> l) = len l.
Proof. unfold len. by rewrite length_fmap. Qed.
Lemma len_mallocz n : 0 ≤ n → len (mallocz n) = n.
Proof. intros. unfold len, mallocz. rewrite length_replicate. lia. Qed.
Lemma len_zero {A} (l : list A) : len l = 0 → l = [].
Proof. unfold len. destruct l; simpl; [done|lia]. Qed.

Lemma split_at {A} (l : list A) n : 0 ≤ n ≤ len l → ∃ l1 l2, l = l1 ++ l2 ∧ len l1 = n.
Proof.
  unfold len. intros Hn. exists (take (Z.to_nat n) l), (drop (Z.to_nat n) l).
  rewrite take_drop, length_take. split; [done|lia].
Qed.

Lemma mem_read_app A B C off n : off = len A → n = len B → mem_read (A ++ B ++ C) off n = Ok B.
Proof.
  intros -> ->. unfold mem_read, len. rewrite !length_app.
  destruct (Z.leb_spec 0 (Z.of_nat (length A))), (Z.leb_spec 0 (Z.of_nat (length B))),
    (Z.leb_spec (Z.of_nat (length A) + Z.of_nat (length B))
       (Z.of_nat (length A + (length B + length C)))); try lia.
  cbn [andb]. by rewrite !Nat2Z.id, drop_app_length, take_app_length.
Qed.
Lemma mem_write_app A B C off D : off = len A → len D = len B →
  mem_write (A ++ B ++ C) off D = Ok (A ++ D ++ C).
Proof.
  unfold len. intros -> HD. unfold mem_write. rewrite !length_app.
  destruct (Z.leb_spec 0 (Z.of_nat (length A))),
    (Z.leb_spec (Z.of_nat (length A) + Z.of_nat (length D))
       (Z.of_nat (length A + (length B + length C)))); try lia.
  cbn [andb]. rewrite Nat2Z.id, take_app_length. do 3 f_equal.
  rewrite <- drop_drop, drop_app_length. replace (length D) with (length B) by lia.
  by rewrite drop_app_length.
Qed.
Lemma mem_copy_app A B C off S D E soff n :
  off = len A → soff = len S → n = len D → len D = len B →
  mem_copy (A ++ B ++ C) off (S ++ D ++ E) soff n = Ok (A ++ D ++ C).
Proof.
  intros. unfold mem_copy. rewrite mem_read_app by done. cbn. by apply mem_write_app.
Qed.

(** From, or to, the start of a block. *)
Lemma mem_copy_from0 A B C off D E n : off = len A → n = len D → len D = len B →
  mem_copy (A ++ B ++ C) off (D ++ E) 0 n = Ok (A ++ D ++ C).
Proof. intros. by apply (mem_copy_app A B C off [] D E). Qed.
Lemma mem_copy_to0 B C S D E soff n : soff = len S → n = len D → len D = len B →
  mem_copy (B ++ C) 0 (S ++ D ++ E) soff n = Ok (D ++ C).
Proof. intros. by apply (mem_copy_app [] B C 0 S D E). Qed.

Lemma mem_copy_all A B C off D n : off = len A → n = len D → len D = len B →
  mem_copy (A ++ B ++ C) off D 0 n = Ok (A ++ D ++ C).
Proof.
  intros. rewrite <- (app_nil_r D) at 1. by apply mem_copy_from0.
Qed.

Lemma mem_copy_all0 B C D n : n = len D → len D = len B → mem_copy (B ++ C) 0 D 0 n = Ok (D ++ C).
Proof. intros. by apply (mem_copy_all [] B C). Qed.
Lemma mem_copy_tail B S D soff n : soff = len S → n = len D → len D = len B →
  mem_copy B 0 (S ++ D) soff n = Ok D.
Proof.
  intros. pose proof (mem_copy_to0 B [] S D [] soff n) as E. rewrite !app_nil_r in E. auto.
Qed.

Ltac u64_id := repeat (rewrite (wrap_u_id 64) by lia).
Ltac lens := rewrite ?len_app, ?len_fmap in *; rewrite ?len_app in *;
  repeat match goal with
  | |- context [len (@nil ?A)] => change (len (@nil A)) with 0
  | H : context [len (@nil ?A)] |- _ => change (len (@nil A)) with 0 in H
  end.
Ltac len_pos := repeat match goal with
  | H : context [len ?l] |- _ =>
      lazymatch goal with _ : 0 ≤ len l |- _ => fail | _ => pose proof (len_nonneg l) end
  | |- context [len ?l] =>
      lazymatch goal with _ : 0 ≤ len l |- _ => fail | _ => pose proof (len_nonneg l) end
  end.
Ltac len_lia := lens; len_pos; lia.

Lemma app_split_le {A} (a b c d : list A) : a ++ b = c ++ d → len c ≤ len a →
  ∃ p, a = c ++ p ∧ d = p ++ b.
Proof.
  intros H Hl. pose proof (len_nonneg c). destruct (split_at a (len c)) as (x & p & -> & Hx); [lia|].
  rewrite <- app_assoc in H. apply app_inj_1 in H as [-> <-]; [by exists p|]. unfold len in Hx. lia.
Qed.
