(* ===== verification/CBuffer.v ===== *)
(** * circular_buffer.c

    A byte queue in one block of memory that grows by doubling.  The theorems
    show that it refines a bounded FIFO queue of bytes, and that the contiguous
    regions it hands out are what they claim to be. *)

From S2P Require Import Prelude Memory.
#[local] Open Scope list_scope.
#[local] Open Scope Z_scope.

(** ** struct circular_buffer *)

Record circular_buffer := CBuf {
  cb_size : Z; cb_write : Z; cb_read : Z; cb_max_size : Z;
  cb_statistics : option Z;             (** the counter pointed at, if any *)
  cb_data : option block;
}.
Definition with_write (w : Z) (b : circular_buffer) : circular_buffer :=
  CBuf (cb_size b) w (cb_read b) (cb_max_size b) (cb_statistics b) (cb_data b).
Definition with_read (r : Z) (b : circular_buffer) : circular_buffer :=
  CBuf (cb_size b) (cb_write b) r (cb_max_size b) (cb_statistics b) (cb_data b).
Definition with_data (d : block) (b : circular_buffer) : circular_buffer :=
  CBuf (cb_size b) (cb_write b) (cb_read b) (cb_max_size b) (cb_statistics b) (Some d).
(** The atomic additions to the counter. *)
Definition stats_add (n : Z) (b : circular_buffer) : circular_buffer :=
  CBuf (cb_size b) (cb_write b) (cb_read b) (cb_max_size b)
    ((λ s, u64 (s + n)) <$> cb_statistics b) (cb_data b).
(** [buf->data], dereferenced. *)
Definition data_of (b : circular_buffer) : cres block :=
  match cb_data b with Some d => Ok d | None => UB UB_null end.

Definition cbuffer_init (initial max : Z) (statistics : option Z) : circular_buffer :=
  stats_add initial (CBuf initial 0 0 max statistics (Some (mallocz initial))).
Definition cbuffer_cleanup (buf : circular_buffer) : circular_buffer :=
  let buf := stats_add (- cb_size buf) buf in
  CBuf 0 0 0 (cb_max_size buf) (cb_statistics buf) None.
Definition SIZEOF_CBUFFER : Z := 48.
Definition cbuffer_new (initial max : Z) (statistics : option Z) : circular_buffer :=
  stats_add SIZEOF_CBUFFER (cbuffer_init initial max statistics).
(** The counter after [cbuffer_free()]. *)
Definition cbuffer_free (buf : circular_buffer) : option Z :=
  cb_statistics (cbuffer_cleanup (stats_add (- SIZEOF_CBUFFER) buf)).

Definition cbuffer_realloc_unsafe (buf : circular_buffer) : cres (Z * circular_buffer) :=
  if cb_max_size buf <=? cb_size buf then Ok (1, buf)
  else
    let old_size := cb_size buf in
    let new_size := u64 (cb_size buf * 2) in
    let new_size := if cb_max_size buf <? new_size then cb_max_size buf else new_size in
    let new_data := mallocz new_size in
    data ← data_of buf;
    r ← (if cb_read buf =? cb_write buf then Ok (0, new_data)
         else if cb_read buf <? cb_write buf then
           d ← mem_copy new_data 0 data (cb_read buf) (cb_write buf - cb_read buf);
           Ok (cb_write buf - cb_read buf, d)
         else
           let top_part := u64 (cb_size buf - cb_read buf) in
           d ← mem_copy new_data 0 data (cb_read buf) top_part;
           d ← mem_copy d top_part data 0 (cb_write buf);
           Ok (u64 (top_part + cb_write buf), d));
    let '(write, d) := r in
    Ok (0, stats_add (u64 (new_size - old_size))
             (CBuf new_size write 0 (cb_max_size buf) (cb_statistics buf) (Some d))).

Definition cbuffer_used_size_unsafe (buf : circular_buffer) : Z :=
  if cb_read buf <=? cb_write buf then cb_write buf - cb_read buf
  else u64 (cb_size buf - cb_read buf + cb_write buf).
Definition cbuffer_available_size_unsafe (buf : circular_buffer) : Z :=
  u64 (cb_max_size buf - cbuffer_used_size_unsafe buf).

(** The loop that makes room for [n] bytes more than the [len] in use. *)
Fixpoint grow_loop (fuel : nat) (n len : Z) (buf : circular_buffer)
  : cres (Z * circular_buffer) :=
  if cb_size buf <=? u64 (n + len) then
    match fuel with
    | O => NoFuel
    | S fuel =>
        r ← cbuffer_realloc_unsafe buf;
        let '(rc, buf) := r in
        if rc =? 0 then grow_loop fuel n len buf else Ok (1, buf)
    end
  else Ok (0, buf).
(** A size that doubles passes any [size_t] within 64 steps. *)
Definition grow_fuel : nat := 66.

(** Copying in bytes for which there is room. *)
Definition put_bytes (buf : circular_buffer) (d : list ascii) : cres (Z * circular_buffer) :=
  let d_len := Z.of_nat (length d) in
  data ← data_of buf;
  if u64 (cb_write buf + d_len) <? cb_size buf then
    data ← mem_copy data (cb_write buf) (Some <$> d) 0 d_len;
    Ok (0, with_write (u64 (cb_write buf + d_len)) (with_data data buf))
  else
    let top_part := u64 (cb_size buf - cb_write buf) in
    data ← mem_copy data (cb_write buf) (Some <$> d) 0 top_part;
    data ← mem_copy data 0 (Some <$> d) top_part (u64 (d_len - top_part));
    Ok (0, with_write (u64 (d_len - top_part)) (with_data data buf)).

Definition cbuffer_add_unsafe (buf : circular_buffer) (d : list ascii)
  : cres (Z * circular_buffer) :=
  let len := cbuffer_used_size_unsafe buf in
  r ← grow_loop grow_fuel (Z.of_nat (length d)) len buf;
  let '(rc, buf) := r in
  if negb (rc =? 0) then Ok (1, buf) else put_bytes buf d.

Definition cbuffer_remove_unsafe (num : Z) (buf : circular_buffer) : circular_buffer :=
  let read := u64 (cb_read buf + num) in
  with_read (if cb_size buf <=? read then u64 (read - cb_size buf) else read) buf.

(** The region: its offset in [buf->data] and its length. *)
Definition cbuffer_next_unsafe (buf : circular_buffer) : Z * Z :=
  (cb_read buf,
   if cb_read buf <=? cb_write buf then cb_write buf - cb_read buf
   else u64 (cb_size buf - cb_read buf)).

Definition cbuffer_flush (buf : circular_buffer) : circular_buffer :=
  with_read 0 (with_write 0 buf).

Definition cbuffer_ensure_unwrapped_size (buf : circular_buffer) (size : Z)
  : cres (bool * circular_buffer) :=
  match cb_data buf with
  | None => Ok (false, buf)
  | Some data =>
      let used := cbuffer_used_size_unsafe buf in
      if used <? size then Ok (false, buf)
      else
        let '(unwrapped, unwrapped_size) := cbuffer_next_unsafe buf in
        if size <=? unwrapped_size then Ok (true, buf)
        else
          let wrapped_size := u64 (used - unwrapped_size) in
          tmp ← mem_copy (mallocz unwrapped_size) 0 data unwrapped unwrapped_size;
          let buf := cbuffer_remove_unsafe unwrapped_size buf in
          data ← mem_copy data unwrapped_size data 0 wrapped_size;
          data ← mem_copy data 0 tmp 0 unwrapped_size;
          Ok (true, with_write (u64 (unwrapped_size + wrapped_size))
                      (with_read 0 (with_data data buf)))
  end.

(** The offset of the reserved space, or null. *)
Definition cbuffer_reserve_unsafe (buf : circular_buffer) (size : Z)
  : cres (option Z * circular_buffer) :=
  match cb_data buf with
  | None => Ok (None, buf)
  | Some _ =>
      if size =? 0 then Ok (None, buf)
      else
        let len := cbuffer_used_size_unsafe buf in
        r ← grow_loop grow_fuel size len buf;
        let '(rc, buf) := r in
        if negb (rc =? 0) then Ok (None, buf)
        else
          r ← (if cb_size buf <? u64 (cb_write buf + size) then
                 r ← cbuffer_ensure_unwrapped_size buf len;
                 let '(ok, buf) := r in
                 if negb (ok : bool) then Ok (false, buf)
                 else if negb (cb_read buf =? 0) && (cb_size buf <? u64 (cb_write buf + size)) then
                   data ← data_of buf;
                   data ← mem_copy data 0 data (cb_read buf) (u64 (cb_write buf - cb_read buf));
                   Ok (true, with_read 0 (with_write (u64 (cb_write buf - cb_read buf))
                                            (with_data data buf)))
                 else Ok (true, buf)
               else Ok (true, buf));
          let '(ok, buf) := r in
          if negb (ok : bool) then Ok (None, buf)
          else if u64 (cb_write buf + size) <=? cb_size buf then Ok (Some (cb_write buf), buf)
          else Ok (None, buf)
  end.

Definition cbuffer_commit_reserved_unsafe (buf : circular_buffer) (size : Z)
  : circular_buffer :=
  match cb_data buf with
  | None => buf
  | Some _ =>
      if size =? 0 then buf
      else
        let write := u64 (cb_write buf + size) in
        with_write (if cb_size buf <=? write then u64 (write - cb_size buf) else write) buf
  end.

(** ** The queue in the block *)

(** Where the bytes [q] are: in one piece, or at the end and the beginning. *)
Inductive layout (read write : Z) (data : block) (q : list ascii) : Prop :=
| Flat A B C : data = A ++ B ++ C → B = Some <$> q → len A = read → len B = write - read →
    layout read write data q
| Wrapped A G B q1 q2 : data = A ++ G ++ B → B = Some <$> q1 → A = Some <$> q2 → q = q1 ++ q2 →
    len A = write → len G = read - write → 0 < len G → layout read write data q.

Record rep (buf : circular_buffer) (q : list ascii) : Prop := {
  rep_size : 0 < cb_size buf ≤ cb_max_size buf;
  rep_max : 0 ≤ cb_max_size buf < 2 ^ 63;
  rep_read : 0 ≤ cb_read buf < cb_size buf;
  rep_write : 0 ≤ cb_write buf < cb_size buf;
  rep_layout : ∃ data, cb_data buf = Some data ∧ len data = cb_size buf ∧
    layout (cb_read buf) (cb_write buf) data q;
}.

Lemma layout_used read write data q : 0 ≤ read → layout read write data q →
  (read <= write ∧ len q = write - read) ∨ (write < read ∧ len q = len data - read + write).
Proof.
  intros Hr [A B C -> -> <- HB|A G B q1 q2 -> -> -> -> <- HG Hpos]; lens.
  - left. pose proof (len_nonneg q). lia.
  - right. lia.
Qed.
Lemma rep_used buf q : rep buf q → cbuffer_used_size_unsafe buf = len q ∧ len q < cb_size buf.
Proof.
  intros [Hs Hm Hr Hw (data & _ & Hlen & Hl)]. unfold cbuffer_used_size_unsafe.
  pose proof (len_nonneg q).
  destruct (layout_used _ _ _ _ (proj1 Hr) Hl) as [[H1 H2]|[H1 H2]].
  - rewrite (proj2 (Z.leb_le _ _)) by lia. lia.
  - rewrite (proj2 (Z.leb_gt _ _)) by lia. u64_id. lia.
Qed.

Lemma stats_rep n buf q : rep buf q → rep (stats_add n buf) q.
Proof. intros []. by split. Qed.

Lemma realloc_spec buf q : rep buf q →
  (cb_max_size buf ≤ cb_size buf ∧ cbuffer_realloc_unsafe buf = Ok (1, buf)) ∨
  (cb_size buf < cb_max_size buf ∧ ∃ buf', cbuffer_realloc_unsafe buf = Ok (0, buf') ∧
    rep buf' q ∧ cb_max_size buf' = cb_max_size buf ∧
    cb_size buf' = Z.min (cb_max_size buf) (2 * cb_size buf)).
Proof.
  intros Hrep. pose proof (rep_used buf q Hrep) as [_ Hq].
  destruct Hrep as [Hs Hm Hr Hw (data & Hd & Hlen & Hl)].
  unfold cbuffer_realloc_unsafe.
  destruct (Z.leb_spec (cb_max_size buf) (cb_size buf)) as [Hfull|Hgrow]; [by left|right].
  split; [done|]. rewrite (wrap_u_id 64 (_ * 2)) by lia.
  set (new := if cb_max_size buf <? cb_size buf * 2 then _ else _).
  assert (Hnew : new = Z.min (cb_max_size buf) (2 * cb_size buf)).
  { unfold new. destruct (Z.ltb_spec (cb_max_size buf) (cb_size buf * 2)); lia. }
  clearbody new. unfold data_of. rewrite Hd. cbn [mbind cres_bind].
  assert (Hfin : ∀ d, len d = new → ∀ P, d = (Some <$> q) ++ P → ∀ st,
    rep (CBuf new (len q) 0 (cb_max_size buf) st (Some d)) q).
  { intros d Hd' P -> st. split; cbn; try len_lia.
    eexists. split; [done|]. split; [done|].
    apply (Flat _ _ _ _ [] (Some <$> q) P); try done; len_lia. }
  assert (HM := len_mallocz new ltac:(lia)).
  destruct Hl as [A B C -> -> HA HB|A G B q1 q2 -> -> -> -> HA HG Hpos]; lens.
  - destruct (Z.eqb_spec (cb_read buf) (cb_write buf)) as [E|Hne].
    + assert (q = []) as -> by (apply len_zero; lia).
      eexists. split; [done|]. split; [|done]. apply stats_rep.
      by apply (Hfin _ HM (mallocz new)).
    + rewrite (proj2 (Z.ltb_lt _ _)) by len_lia.
      destruct (split_at (mallocz new) (len q)) as (M1 & M2 & E1 & HM1); [len_lia|]. rewrite E1 in *.
      rewrite (mem_copy_to0 M1 M2 A (Some <$> q) C) by len_lia.
      cbn [mbind cres_bind app]. eexists. split; [done|]. split; [|done]. apply stats_rep.
      rewrite <- HB. apply Hfin with (P := M2); [len_lia|done].
  - rewrite (proj2 (Z.eqb_neq _ _)) by lia. rewrite (proj2 (Z.ltb_ge _ _)) by lia.
    rewrite (wrap_u_id 64 (cb_size buf - cb_read buf)) by lia.
    destruct (split_at (mallocz new) (len q1)) as (M1 & M2' & E1 & HM1);
      [len_lia|].
    rewrite E1 in *. lens.
    destruct (split_at M2' (len q2)) as (M2 & M3 & -> & HM2); [len_lia|].
    replace (cb_size buf - cb_read buf) with (len q1) by lia.
    rewrite <- (app_nil_r ((Some <$> q2) ++ G ++ (Some <$> q1))), <- !app_assoc.
    rewrite (app_assoc (Some <$> q2) G).
    rewrite (mem_copy_to0 M1 (M2 ++ M3) ((Some <$> q2) ++ G) (Some <$> q1) []) by len_lia.
    cbn [mbind cres_bind]. rewrite <- (app_assoc (Some <$> q2)). cbn [app].
    rewrite (mem_copy_from0 (Some <$> q1) M2 M3) by len_lia.
    cbn [mbind cres_bind]. eexists. split; [done|]. split; [|done]. apply stats_rep.
    rewrite <- HA, (wrap_u_id 64 (len q1 + len q2)) by len_lia.
    apply Hfin with (P := M3); [len_lia|].
    by rewrite fmap_app, <- app_assoc.
Qed.

Lemma grow_spec q n fuel : ∀ buf,
  rep buf q → 0 ≤ n → n + len q < 2 ^ 64 → cb_max_size buf ≤ cb_size buf * 2 ^ Z.of_nat fuel →
  ∃ rc buf', grow_loop (S fuel) n (len q) buf = Ok (rc, buf') ∧ rep buf' q ∧
    cb_max_size buf' = cb_max_size buf ∧
    ((rc = 0 ∧ n + len q < cb_size buf') ∨
     (rc = 1 ∧ cb_max_size buf ≤ cb_size buf' ≤ n + len q)).
Proof.
  induction fuel as [|fuel IH]; intros buf Hrep Hn Hov Hf;
    pose proof (len_nonneg q) as Hq; cbn [grow_loop]; rewrite (wrap_u_id 64) by lia;
    (destruct (Z.leb_spec (cb_size buf) (n + len q));
      [|exists 0, buf; split; [done|]; split; [done|]; split; [done|]; by left]);
    destruct (realloc_spec buf q Hrep) as [[H1 H2]|(H1 & buf' & H2 & H3 & H4 & H5)];
    rewrite H2; cbn [mbind cres_bind].
  - exists 1, buf. split; [done|]. split; [done|]. split; [done|]. right. lia.
  - change (Z.of_nat 0) with 0 in Hf. lia.
  - exists 1, buf. split; [done|]. split; [done|]. split; [done|]. right. lia.
  - change (0 =? 0) with true. cbv iota.
    rewrite Nat2Z.inj_succ, Z.pow_succ_r in Hf by lia.
    pose proof (rep_size _ _ Hrep).
    assert (0 < 2 ^ Z.of_nat fuel) by (apply Z.pow_pos_nonneg; lia).
    destruct (IH buf' H3 Hn Hov) as (rc & buf2 & E1 & E2 & E3 & E4).
    { rewrite H4, H5. destruct (Z.min_spec (cb_max_size buf) (2 * cb_size buf)) as [[_ ->]|[_ ->]]; nia. }
    cbn [grow_loop] in E1. rewrite (wrap_u_id 64) in E1 by lia.
    exists rc, buf2. split; [exact E1|]. split; [done|]. rewrite <- H4. done.
Qed.
Lemma grow_enough buf q : rep buf q → cb_max_size buf ≤ cb_size buf * 2 ^ Z.of_nat 65.
Proof.
  intros [Hs Hm _ _ _]. change (Z.of_nat 65) with 65. change (2 ^ 65) with (2 ^ 63 * 4). nia.
Qed.

Lemma rep_write_flat buf q data A C q' st :
  0 < cb_size buf ≤ cb_max_size buf → 0 ≤ cb_max_size buf < 2 ^ 63 → q' = q →
  data = A ++ (Some <$> q) ++ C → len data = cb_size buf → len A + len q < cb_size buf →
  rep (CBuf (cb_size buf) (len A + len q) (len A) (cb_max_size buf) st (Some data)) q'.
Proof.
  intros Hs Hm -> -> Hl Hlt. split; cbn; try len_lia. eexists. split; [done|]. split; [done|].
  eapply (Flat _ _ _ _ A _ C); try done; len_lia.
Qed.
Lemma rep_write_wrapped buf data G q1 q2 q' st :
  0 < cb_size buf ≤ cb_max_size buf → 0 ≤ cb_max_size buf < 2 ^ 63 → q' = q1 ++ q2 →
  data = (Some <$> q2) ++ G ++ (Some <$> q1) → len data = cb_size buf → 0 < len G → q1 ≠ [] →
  rep (CBuf (cb_size buf) (len q2) (len q2 + len G) (cb_max_size buf) st (Some data)) q'.
Proof.
  intros Hs Hm -> -> Hl HG Hne.
  assert (0 < len q1) by (destruct q1; [done|unfold len; simpl; lia]).
  split; cbn; try len_lia. eexists. split; [done|]. split; [done|].
  eapply (Wrapped _ _ _ _ _ G _ q1 q2); try done; len_lia.
Qed.

(** *** Adding *)

Lemma add_room buf q d : rep buf q → len d + len q < cb_size buf → ∃ data write,
  put_bytes buf d = Ok (0, with_write write (with_data data buf)) ∧
  rep (with_write write (with_data data buf)) (q ++ d).
Proof.
  intros [Hs Hm Hr Hw (data & Hd & Hlen & Hl)] Hroom. unfold put_bytes, data_of. rewrite Hd.
  cbn [mbind cres_bind]. cbv zeta. change (Z.of_nat (length d)) with (len d).
  pose proof (len_nonneg d) as Hd0. pose proof (len_nonneg q) as Hq0.
  rewrite (wrap_u_id 64 (cb_write buf + len d)) by lia.
  destruct Hl as [A B C -> -> HA HB|A G B q1 q2 -> -> -> -> HA HG Hpos]; lens.
  - destruct (Z.ltb_spec (cb_write buf + len d) (cb_size buf)) as [Hfit|Hwrap].
    + destruct (split_at C (len d)) as (C1 & C2 & -> & HC1); [len_lia|].
      rewrite (app_assoc A).
      rewrite (mem_copy_all (A ++ (Some <$> q)) C1 C2) by len_lia.
      cbn [mbind cres_bind]. eexists _, _. split; [done|].
      unfold with_write, with_data. cbn. rewrite <- HA.
      replace (cb_write buf + len d) with (len A + len (q ++ d)) by len_lia.
      apply (rep_write_flat _ (q ++ d) _ A C2); try done; try len_lia.
      by rewrite fmap_app, <- !app_assoc.
    + rewrite (wrap_u_id 64 (cb_size buf - cb_write buf)) by lia.
      destruct (split_at d (cb_size buf - cb_write buf)) as (d1 & d2 & -> & Hd1); [len_lia|].
      rewrite fmap_app. lens. cbv zeta.
      replace C with (C ++ []) by apply app_nil_r.
      rewrite (app_assoc A), (mem_copy_from0 (A ++ (Some <$> q)) C []) by len_lia.
      cbn [mbind cres_bind]. rewrite (wrap_u_id 64 (len d1 + len d2 - _)) by len_lia.
      destruct (split_at A (len d2)) as (A1 & A2 & -> & HA1); [len_lia|].
      rewrite <- (app_nil_r (Some <$> d2)), <- !app_assoc.
      rewrite (mem_copy_to0 A1 _ (Some <$> d1) (Some <$> d2) []) by len_lia.
      cbn [mbind cres_bind]. eexists _, _. split; [done|].
      unfold with_write, with_data. cbn. rewrite <- HA.
      replace (len d1 + len d2 - (cb_size buf - cb_write buf)) with (len d2) by lia.
      lens. rewrite HA1.
      apply (rep_write_wrapped _ _ A2 (q ++ d1) d2); try done.
      * by rewrite app_assoc.
      * by rewrite fmap_app, app_nil_r.
      * len_lia.
      * len_lia.
      * intros [-> ->]%app_eq_nil. len_lia.
  - assert (cb_write buf + len d < cb_read buf) by len_lia.
    rewrite (proj2 (Z.ltb_lt _ _)) by lia.
    destruct (split_at G (len d)) as (G1 & G2 & -> & HG1); [len_lia|].
    rewrite <- (app_assoc G1).
    rewrite (mem_copy_all (Some <$> q2) G1) by len_lia.
    cbn [mbind cres_bind]. eexists _, _. split; [done|].
    unfold with_write, with_data. cbn.
    replace (cb_write buf + len d) with (len (q2 ++ d)) by len_lia.
    replace (cb_read buf) with (len (q2 ++ d) + len G2) by len_lia.
    apply (rep_write_wrapped _ _ G2 q1 (q2 ++ d)); try done.
    + by rewrite app_assoc.
    + by rewrite fmap_app, <- !app_assoc.
    + len_lia.
    + len_lia.
    + intros ->. len_lia.
Qed.

Lemma add_spec buf q d : rep buf q → len d + len q < 2 ^ 64 → ∃ rc buf',
  cbuffer_add_unsafe buf d = Ok (rc, buf') ∧ cb_max_size buf' = cb_max_size buf ∧
  if len d + len q <? cb_max_size buf then rc = 0 ∧ rep buf' (q ++ d) else rc = 1 ∧ rep buf' q.
Proof.
  intros Hrep Hov. unfold cbuffer_add_unsafe.
  rewrite (proj1 (rep_used buf q Hrep)). change (Z.of_nat (length d)) with (len d).
  destruct (grow_spec q (len d) 65 buf Hrep (len_nonneg d) Hov (grow_enough buf q Hrep))
    as (rc & b & E & Hb & Hmax & Hcase).
  change grow_fuel with 66%nat. rewrite E, ok_bind.
  destruct Hcase as [[-> Hroom]|[-> Hfull]].
  - change (negb (0 =? 0)) with false. cbv iota beta.
    destruct (add_room b q d Hb Hroom) as (data & w & -> & Hrep').
    pose proof (rep_size _ _ Hb).
    exists 0, (with_write w (with_data data b)). split; [done|]. split; [exact Hmax|].
    rewrite (proj2 (Z.ltb_lt _ _)) by lia. done.
  - exists 1, b. split; [done|]. split; [done|]. rewrite (proj2 (Z.ltb_ge _ _)) by lia. done.
Qed.

(** *** Removing *)

Lemma remove_spec buf q num : rep buf q → 0 ≤ num ≤ len q →
  rep (cbuffer_remove_unsafe num buf) (drop (Z.to_nat num) q).
Proof.
  intros Hrep Hn. pose proof (rep_used buf q Hrep) as [_ Hlt].
  destruct Hrep as [Hs Hm Hr Hw (data & Hd & Hlen & Hl)]. unfold cbuffer_remove_unsafe.
  destruct (split_at q num) as (q1 & q2 & -> & Hq1); [lia|].
  assert (drop (Z.to_nat num) (q1 ++ q2) = q2) as ->.
  { rewrite <- Hq1. unfold len. by rewrite Nat2Z.id, drop_app_length. }
  rewrite (wrap_u_id 64 (cb_read buf + num)) by lia. unfold with_read.
  destruct Hl as [A B C -> -> HA HB|A G B p1 p2 -> -> -> Hq HA HG Hpos].
  - rewrite fmap_app in *. lens. rewrite (proj2 (Z.leb_gt _ _)) by len_lia.
    replace (cb_read buf + num) with (len (A ++ (Some <$> q1))) by len_lia.
    replace (cb_write buf) with (len (A ++ (Some <$> q1)) + len q2) by len_lia.
    rewrite Hd. eapply (rep_write_flat buf q2 _ _ C); try done; try len_lia.
    by rewrite <- !app_assoc.
  - pose proof (f_equal len Hq) as Hlq. lens.
    destruct (Z.leb_spec (cb_size buf) (cb_read buf + num)) as [Hend|Hin].
    + rewrite (wrap_u_id 64) by lia.
      destruct (app_split_le q1 q2 p1 p2 Hq) as (p & -> & ->); [len_lia|]. lens.
      replace (cb_read buf + num - cb_size buf) with (len (Some <$> p)) by len_lia.
      replace (cb_write buf) with (len (Some <$> p) + len q2) by len_lia.
      rewrite Hd. eapply (rep_write_flat buf q2 _ _ (G ++ (Some <$> p1))); try done; try len_lia.
      by rewrite fmap_app, <- !app_assoc.
    + destruct (app_split_le p1 p2 q1 q2) as (p & -> & ->); [done|len_lia|]. lens.
      replace (cb_read buf + num) with (len p2 + len (G ++ (Some <$> q1))) by len_lia.
      replace (cb_write buf) with (len p2) by len_lia.
      rewrite Hd. eapply (rep_write_wrapped buf _ _ p p2); try done; try len_lia.
      * by rewrite fmap_app, <- !app_assoc.
      * intros ->. len_lia.
Qed.

(** *** The region that can be read *)

Lemma next_spec buf q : rep buf q → ∃ q1 q2 data, q = q1 ++ q2 ∧
  cbuffer_next_unsafe buf = (cb_read buf, len q1) ∧ (q1 = [] → q = []) ∧
  cb_data buf = Some data ∧ mem_read data (cb_read buf) (len q1) = Ok (Some <$> q1) ∧
  (if cb_read buf <=? cb_write buf then q2 = [] else len q2 = cb_write buf).
Proof.
  intros [Hs Hm Hr Hw (data & Hd & Hlen & Hl)]. unfold cbuffer_next_unsafe. rewrite Hd.
  destruct Hl as [A B C -> -> HA HB|A G B p1 p2 -> -> -> -> HA HG Hpos]; lens.
  - exists q, [], (A ++ (Some <$> q) ++ C). rewrite app_nil_r.
    rewrite !(proj2 (Z.leb_le _ _)) by len_lia. split; [done|]. split; [by rewrite HB|].
    split; [done|]. split; [done|]. split; [|done]. apply mem_read_app; len_lia.
  - eexists p1, p2, _. rewrite !(proj2 (Z.leb_gt _ _)) by len_lia. split; [done|].
    rewrite (wrap_u_id 64) by len_lia. split; [f_equal; len_lia|].
    split; [intros ->; len_lia|]. split; [done|]. split; [|len_lia].
    rewrite app_assoc. rewrite <- (app_nil_r (Some <$> p1)) at 1. apply mem_read_app; len_lia.
Qed.

Lemma unwrapped_spec buf q size : rep buf q → 0 ≤ size → ∃ ok buf',
  cbuffer_ensure_unwrapped_size buf size = Ok (ok, buf') ∧ rep buf' q ∧
  cb_size buf' = cb_size buf ∧ cb_max_size buf' = cb_max_size buf ∧
  ok = (size <=? len q) ∧ (ok = true → size ≤ snd (cbuffer_next_unsafe buf')) ∧
  (cb_read buf ≤ cb_write buf → buf' = buf).
Proof.
  intros Hrep Hsz. pose proof (rep_used buf q Hrep) as [Hu Hlt].
  destruct (next_spec buf q Hrep) as (q1 & q2 & data & -> & Hnext & Hne & Hd & _ & Hq2).
  unfold cbuffer_ensure_unwrapped_size. rewrite Hd, Hu, Hnext.
  destruct (Z.ltb_spec (len (q1 ++ q2)) size) as [Hfew|Hmany].
  { exists false, buf. rewrite (proj2 (Z.leb_gt _ _)) by lia. do 5 (split; [done|]). done. }
  rewrite (proj2 (Z.leb_le size (len (q1 ++ q2)))) by lia.
  destruct (Z.leb_spec size (len q1)) as [Hfit|Hcut].
  { exists true, buf. rewrite Hnext. do 5 (split; [done|]). done. }
  revert Hq2. destruct (Z.leb_spec (cb_read buf) (cb_write buf)) as [|Hwr]; intros Hq2;
    [subst q2; lens; lia|].
  destruct Hrep as [Hs Hm Hr Hw (data' & Hd' & Hlen & Hl)]. rewrite Hd in Hd'. injection Hd' as <-.
  destruct Hl as [A B C _ _ HA HB|A G B p1 p2 -> -> -> Hq HA HG Hpos]; [len_lia|].
  assert (q1 = p1 ∧ q2 = p2) as [-> ->].
  { pose proof (f_equal len Hq) as Hlq. lens.
    apply app_inj_2 in Hq as [-> ->]; [done|]. unfold len in *. lia. }
  lens. rewrite (wrap_u_id 64 (len p1 + len p2 - len p1)) by len_lia.
  replace (len p1 + len p2 - len p1) with (len p2) by lia.
  rewrite (app_assoc (Some <$> p2) G).
  rewrite mem_copy_tail by (rewrite ?len_mallocz by len_lia; len_lia). rewrite ok_bind.
  destruct (split_at (((Some <$> p2) ++ G) ++ (Some <$> p1)) (len p1)) as (X & YZ & EX & HX); [len_lia|].
  pose proof (f_equal len EX) as Hl1. lens.
  destruct (split_at YZ (len p2)) as (Y & Z' & -> & HY); [len_lia|]. lens.
  assert (Hcp : ∀ D, D = X ++ Y ++ Z' → mem_copy D (len p1)
    (((Some <$> p2) ++ G) ++ (Some <$> p1)) 0 (len p2) = Ok (X ++ (Some <$> p2) ++ Z')).
  { intros D ->. rewrite <- app_assoc. apply mem_copy_from0; len_lia. }
  rewrite (Hcp _ EX), ok_bind, mem_copy_all0, ok_bind by len_lia.
  eexists true, _. split; [done|]. unfold with_write, with_read, with_data, cbuffer_remove_unsafe. cbn.
  rewrite (wrap_u_id 64 (len p1 + len p2)) by len_lia.
  split; [|split; [done|]; split; [done|]; split; [done|]; split; [|len_lia]].
  - rewrite <- len_app. apply (rep_write_flat buf (p1 ++ p2) _ [] Z'); try done; try len_lia.
    by rewrite fmap_app, <- app_assoc.
  - intros _. rewrite (proj2 (Z.leb_le _ _)) by len_lia. len_lia.
Qed.

(** *** Reserving and committing *)

Lemma reserve_spec buf q n : rep buf q → 0 < n → n + len q < 2 ^ 64 → ∃ r buf',
  cbuffer_reserve_unsafe buf n = Ok (r, buf') ∧ rep buf' q ∧ cb_max_size buf' = cb_max_size buf ∧
  if n + len q <? cb_max_size buf
  then r = Some (cb_write buf') ∧ cb_write buf' + n ≤ cb_size buf' ∧ n + len q < cb_size buf'
  else r = None.
Proof.
  intros Hrep Hn Hov. unfold cbuffer_reserve_unsafe.
  destruct (rep_layout _ _ Hrep) as (data & -> & _). rewrite (proj2 (Z.eqb_neq n 0)) by lia.
  rewrite (proj1 (rep_used buf q Hrep)). change grow_fuel with 66%nat. cbv zeta.
  destruct (grow_spec q n 65 buf Hrep ltac:(lia) Hov (grow_enough buf q Hrep))
    as (rc & b & -> & Hb & Hmax & Hcase). rewrite ok_bind.
  destruct Hcase as [[-> Hroom]|[-> Hfull]].
  2: { exists None, b. rewrite (proj2 (Z.ltb_ge (n + len q) _)) by lia. by repeat (split; [done|]). }
  change (negb (0 =? 0)) with false. cbv iota beta.
  pose proof (rep_size _ _ Hb) as Hs. pose proof (rep_max _ _ Hb) as Hm.
  pose proof (rep_write _ _ Hb) as Hw. pose proof (rep_read _ _ Hb) as Hr.
  rewrite (proj2 (Z.ltb_lt (n + len q) _)) by lia.
  rewrite (wrap_u_id 64 (cb_write b + n)) by (pose proof (len_nonneg q); lia).
  destruct (Z.ltb_spec (cb_size b) (cb_write b + n)) as [Hcut|Hfit].
  2: { rewrite ok_bind. cbn [negb]. rewrite (wrap_u_id 64) by lia.
       rewrite (proj2 (Z.leb_le _ _)) by lia. exists (Some (cb_write b)), b. done. }
  destruct (rep_layout _ _ Hb) as (d & Hd & Hlen & Hl).
  destruct Hl as [A B C -> -> HA HB|A G B p1 p2 -> -> -> -> HA HG Hpos]; [|len_lia].
  destruct (unwrapped_spec b q (len q) Hb (len_nonneg q))
    as (ok & b' & -> & _ & _ & _ & Hok & _ & Hsame). rewrite ok_bind.
  rewrite Z.leb_refl in Hok. subst ok. rewrite Hsame by len_lia. cbn [negb].
  rewrite (wrap_u_id 64 (cb_write b + n)) by len_lia. rewrite (proj2 (Z.ltb_lt _ _)) by lia.
  rewrite (proj2 (Z.eqb_neq (cb_read b) 0)) by len_lia. cbn [andb negb].
  unfold data_of. rewrite Hd, ok_bind. rewrite (wrap_u_id 64 (cb_write b - cb_read b)) by len_lia.
  lens. destruct (split_at (A ++ (Some <$> q)) (len q)) as (X & Y & EX & HX); [len_lia|].
  assert (Hcp : ∀ D, D = X ++ Y ++ C → mem_copy D 0 (A ++ (Some <$> q) ++ C) (cb_read b)
    (cb_write b - cb_read b) = Ok ((Some <$> q) ++ Y ++ C)).
  { intros D ->. apply mem_copy_to0; len_lia. }
  rewrite Hcp by (by rewrite !app_assoc, EX, <- app_assoc). rewrite !ok_bind. cbn [negb].
  unfold with_read, with_write, with_data. cbn [cb_write cb_size cb_max_size cb_statistics].
  rewrite (wrap_u_id 64) by len_lia. rewrite (proj2 (Z.leb_le _ _)) by len_lia.
  pose proof (f_equal len EX) as El. lens.
  eexists _, _. split; [done|]. cbn. split; [|split; [done|split; [done|len_lia]]].
  rewrite <- HB. apply (rep_write_flat b q _ [] (Y ++ C)); try done; len_lia.
Qed.

(** What the caller writes into the space before it commits. *)
Definition fill_reserved (buf : circular_buffer) (off : Z) (d : list ascii) : cres circular_buffer :=
  data ← data_of buf;
  data ← mem_write data off (Some <$> d);
  Ok (with_data data buf).

Lemma commit_spec buf q d : rep buf q → cb_write buf + len d ≤ cb_size buf →
  len d + len q < cb_size buf → ∃ buf',
  fill_reserved buf (cb_write buf) d = Ok buf' ∧
  rep (cbuffer_commit_reserved_unsafe buf' (len d)) (q ++ d) ∧
  cb_max_size (cbuffer_commit_reserved_unsafe buf' (len d)) = cb_max_size buf.
Proof.
  intros [Hs Hm Hr Hw (data & Hd & Hlen & Hl)] Hfit Hroom. unfold fill_reserved, data_of.
  rewrite Hd, ok_bind. pose proof (len_nonneg d) as Hd0.
  assert (Hdata : ∃ P G Q, data = P ++ G ++ Q ∧ len P = cb_write buf ∧ len G = len d).
  { destruct (split_at data (cb_write buf)) as (P & R & -> & HP); [lia|].
    destruct (split_at R (len d)) as (G & Q & -> & HG); [len_lia|]. by exists P, G, Q. }
  destruct Hdata as (P & G0 & Q & EP & HP & HG0). rewrite EP.
  rewrite mem_write_app by len_lia. rewrite ok_bind. eexists. split; [done|].
  assert (Hmx : ∀ b, cb_max_size (cbuffer_commit_reserved_unsafe b (len d)) = cb_max_size b).
  { intros b. unfold cbuffer_commit_reserved_unsafe. destruct (cb_data b), (len d =? 0); done. }
  split; [|by rewrite Hmx]. unfold cbuffer_commit_reserved_unsafe. cbn [cb_data with_data].
  destruct (Z.eqb_spec (len d) 0) as [Hz|Hnz].
  { apply len_zero in Hz as ->. assert (G0 = []) as -> by (apply len_zero; len_lia).
    cbn [app fmap list_fmap] in *. rewrite app_nil_r.
    split; cbn; try done. exists (P ++ Q). rewrite <- EP. done. }
  unfold with_write, with_data. cbn [cb_size cb_write cb_read cb_max_size cb_statistics cb_data].
  rewrite (wrap_u_id 64 (cb_write buf + len d)) by lia.
  destruct Hl as [A B C HD -> HA HB|A G B q1 q2 HD -> -> -> HA HG Hpos]; rewrite HD in EP; lens.
  - rewrite (app_assoc A) in EP. apply app_inj_1 in EP as [<- ->]; [|unfold len in *; rewrite ?length_app, ?length_fmap in *; lia].
    rewrite HD in Hlen. lens.
    destruct (Z.leb_spec (cb_size buf) (cb_write buf + len d)) as [Hend|Hin].
    + rewrite (wrap_u_id 64) by lia. assert (Q = []) as -> by (apply len_zero; len_lia).
      replace (cb_write buf + len d - cb_size buf) with (len (@nil ascii)) by len_lia.
      replace (cb_read buf) with (len (@nil ascii) + len A) by len_lia.
      apply (rep_write_wrapped buf _ A (q ++ d) []); try done; try len_lia.
      * by rewrite app_nil_r.
      * by rewrite fmap_app, app_nil_r, <- app_assoc.
      * intros [_ ->]%app_eq_nil. done.
    + replace (cb_write buf + len d) with (len A + len (q ++ d)) by len_lia. rewrite <- HA.
      apply (rep_write_flat buf (q ++ d) _ A Q); try done; try len_lia.
      by rewrite fmap_app, <- !app_assoc.
  - apply app_inj_1 in EP as [<- EP]; [|unfold len in *; rewrite ?length_fmap in *; lia].
    rewrite HD in Hlen. lens. rewrite (proj2 (Z.leb_gt _ _)) by len_lia.
    assert (∃ G2, G = G0 ++ G2 ∧ Q = G2 ++ (Some <$> q1)) as (G2 & -> & ->).
    { destruct (app_split_le G (Some <$> q1) G0 Q EP) as (p & E1 & E2); [len_lia|]. by exists p. }
    lens. replace (cb_write buf + len d) with (len (q2 ++ d)) by len_lia.
    replace (cb_read buf) with (len (q2 ++ d) + len G2) by len_lia.
    apply (rep_write_wrapped buf _ G2 q1 (q2 ++ d)); try done; try len_lia.
    + by rewrite app_assoc.
    + by rewrite fmap_app, <- !app_assoc.
    + intros ->. len_lia.
Qed.

(** ** Refinement of a bounded queue *)

Inductive cb_op : Type :=
| OAdd (d : list ascii)                 (** append bytes *)
| ORemove (num : Z)                     (** drop bytes *)
| ORead                                 (** the first contiguous region *)
| OReserve (n : Z) (d : list ascii)     (** reserve, write [d], commit *)
| OUnwrap (n : Z)                       (** make [n] bytes contiguous *)
| OFlush.
Inductive cb_out : Type := Code (rc : Z) | Granted (b : bool) | Bytes (d : list ascii) | Done.

Definition run_op (op : cb_op) (buf : circular_buffer) : cres (cb_out * circular_buffer) :=
  match op with
  | OAdd d => r ← cbuffer_add_unsafe buf d; Ok (Code (fst r), snd r)
  | ORemove num => Ok (Done, cbuffer_remove_unsafe num buf)
  | ORead =>
      let '(off, n) := cbuffer_next_unsafe buf in
      data ← data_of buf;
      l ← mem_read data off n;
      match mapM id l with Some d => Ok (Bytes d, buf) | None => UB UB_oob end
  | OReserve n d =>
      r ← cbuffer_reserve_unsafe buf n;
      match r with
      | (None, buf) => Ok (Granted false, buf)
      | (Some off, buf) =>
          buf ← fill_reserved buf off d;
          Ok (Granted true, cbuffer_commit_reserved_unsafe buf (len d))
      end
  | OUnwrap n => r ← cbuffer_ensure_unwrapped_size buf n; Ok (Granted (fst r), snd r)
  | OFlush => Ok (Done, cbuffer_flush buf)
  end.
Fixpoint run_ops (ops : list cb_op) (buf : circular_buffer)
  : cres (list cb_out * circular_buffer) :=
  match ops with
  | [] => Ok ([], buf)
  | op :: ops =>
      r ← run_op op buf;
      s ← run_ops ops (snd r);
      Ok (fst r :: fst s, snd s)
  end.

(** The specification: a queue of fewer than [max] bytes. *)
Definition fifo_allowed (op : cb_op) (q : list ascii) : Prop :=
  match op with
  | OAdd d => len d + len q < 2 ^ 64
  | ORemove num => 0 ≤ num ≤ len q
  | OReserve n d => 0 < n ∧ len d ≤ n ∧ n + len q < 2 ^ 64
  | OUnwrap n => 0 ≤ n
  | ORead | OFlush => True
  end.
Definition fifo_next (max : Z) (op : cb_op) (q : list ascii) : list ascii :=
  match op with
  | OAdd d => if len d + len q <? max then q ++ d else q
  | ORemove num => drop (Z.to_nat num) q
  | OReserve n d => if n + len q <? max then q ++ d else q
  | OFlush => []
  | ORead | OUnwrap _ => q
  end.
Definition fifo_out (max : Z) (op : cb_op) (q : list ascii) (out : cb_out) : Prop :=
  match op with
  | OAdd d => out = Code (if len d + len q <? max then 0 else 1)
  | OReserve n d => out = Granted (n + len q <? max)
  | OUnwrap n => out = Granted (n <=? len q)
  | ORead => ∃ q1 q2, out = Bytes q1 ∧ q = q1 ++ q2 ∧ (q1 = [] → q = [])
  | ORemove _ | OFlush => out = Done
  end.
Fixpoint fifo_run (max : Z) (ops : list cb_op) (q : list ascii) (outs : list cb_out)
    (q' : list ascii) : Prop :=
  match ops, outs with
  | [], [] => q' = q
  | op :: ops, out :: outs => fifo_out max op q out ∧ fifo_run max ops (fifo_next max op q) outs q'
  | _, _ => False
  end.
Fixpoint fifo_allowed_all (max : Z) (ops : list cb_op) (q : list ascii) : Prop :=
  match ops with
  | [] => True
  | op :: ops => fifo_allowed op q ∧ fifo_allowed_all max ops (fifo_next max op q)
  end.

Lemma cb_op_refines buf q op : rep buf q → fifo_allowed op q → ∃ out buf',
  run_op op buf = Ok (out, buf') ∧ fifo_out (cb_max_size buf) op q out ∧
  rep buf' (fifo_next (cb_max_size buf) op q) ∧ cb_max_size buf' = cb_max_size buf.
Proof.
  intros Hrep Hop. destruct op as [d|num| |n d|n|]; cbn [run_op fifo_out fifo_next] in *.
  - destruct (add_spec buf q d Hrep Hop) as (rc & b & -> & Hm & Hcase). rewrite ok_bind.
    eexists _, _. split; [done|]. cbn [fst snd]. destruct (_ <? _); destruct Hcase as [-> ?]; done.
  - eexists _, _. split; [done|]. split; [done|]. split; [by apply remove_spec|done].
  - destruct (next_spec buf q Hrep) as (q1 & q2 & data & Hq & -> & Hne & Hd & Hread & _).
    unfold data_of. rewrite Hd, ok_bind, Hread, ok_bind.
    assert (mapM id (Some <$> q1) = Some q1) as ->.
    { clear. induction q1 as [|c q1 IH]; cbn; [done|]. cbn in IH. by rewrite IH. }
    eexists _, _. split; [done|]. split; [|done]. by exists q1, q2.
  - destruct Hop as (H1 & H2 & H3).
    destruct (reserve_spec buf q n Hrep H1 H3) as (r & b & -> & Hb & Hm & Hcase). rewrite ok_bind.
    destruct (Z.ltb_spec (n + len q) (cb_max_size buf)).
    + destruct Hcase as (-> & F1 & F2).
      destruct (commit_spec b q d Hb) as (b' & -> & Hb' & Hm'); [lia..|]. rewrite ok_bind.
      eexists _, _. split; [done|]. split; [done|]. split; [done|]. congruence.
    + subst r. eexists _, _. split; [done|]. done.
  - destruct (unwrapped_spec buf q n Hrep Hop) as (ok & b & -> & Hb & _ & Hm & -> & _).
    rewrite ok_bind. eexists _, _. split; [done|]. done.
  - eexists _, _. split; [done|]. split; [done|]. split; [|done].
    destruct Hrep as [Hs Hm Hr Hw (data & Hd & Hlen & _)].
    unfold cbuffer_flush, with_read, with_write. rewrite Hd.
    apply (rep_write_flat buf [] data [] data); try done. len_lia.
Qed.

Lemma init_rep initial max st : 0 < initial ≤ max → max < 2 ^ 63 →
  rep (cbuffer_new initial max st) [].
Proof.
  intros H1 H2. unfold cbuffer_new, cbuffer_init. do 2 apply stats_rep.
  assert (HM := len_mallocz initial ltac:(lia)).
  split; cbn; try lia. eexists. split; [done|]. split; [done|].
  by apply (Flat _ _ _ _ [] [] (mallocz initial)).
Qed.

(** C14. A circular buffer created with a positive size, at most its maximum,
    behaves under every sequence of operations as a first-in first-out queue of
    fewer than [max] bytes: adding and reserving succeed exactly when the bytes
    fit below the maximum, reading gives the oldest bytes and at least one when
    there is one, and no access leaves the block. *)
Theorem cbuffer_refines_fifo initial max st ops :
  0 < initial ≤ max → max < 2 ^ 63 → fifo_allowed_all max ops [] →
  ∃ outs buf' q', run_ops ops (cbuffer_new initial max st) = Ok (outs, buf') ∧
    fifo_run max ops [] outs q' ∧ rep buf' q'.
Proof.
  intros H1 H2. pose proof (init_rep initial max st H1 H2) as Hrep.
  assert (Hmax : cb_max_size (cbuffer_new initial max st) = max) by done. revert Hrep Hmax.
  generalize (cbuffer_new initial max st) as buf. generalize (@nil ascii) as q.
  induction ops as [|op ops IH]; intros q buf Hrep Hmax Hall; [by exists [], buf, q|].
  destruct Hall as [Hop Hall].
  destruct (cb_op_refines buf q op Hrep Hop) as (out & b & E & Hout & Hb & Hm).
  rewrite Hmax in *. destruct (IH _ b Hb Hm Hall) as (outs & b' & q' & E' & Hrun & Hb').
  exists (out :: outs), b', q'. cbn [run_ops]. rewrite E, ok_bind. cbn [fst snd].
  rewrite E', ok_bind. done.
Qed.
Lemma cbuffer_refines_fifo_witness : ∃ outs buf' q',
  run_ops [OAdd ["a"; "b"; "c"]; ORemove 2; OReserve 3 ["d"; "e"]; OUnwrap 3; ORead]%char
    (cbuffer_new 4 16 None) = Ok (outs, buf') ∧
  fifo_run 16 [OAdd ["a"; "b"; "c"]; ORemove 2; OReserve 3 ["d"; "e"]; OUnwrap 3; ORead]%char
    [] outs q' ∧ rep buf' q'.
Proof.
  apply (cbuffer_refines_fifo 4 16 None); [lia|lia|]. by vm_compute.
Defined.
