(* ===== verification/RBuf.v ===== *)
(** * ringbuffer.c

    A byte queue of fixed capacity.  Pointers into its block are offsets from
    [data].  The theorems show that pushing and popping refine a bounded queue,
    what the search finds, and where the assertion of [rbuf_bump_tail()] does
    not hold. *)

From S2P Require Import Prelude CString Memory.
#[local] Open Scope list_scope.
#[local] Open Scope Z_scope.

(** ** struct rbuf *)

Record rbuf := RBuf {
  rb_data : block;
  rb_head : Z;                (** next byte to write *)
  rb_tail : Z;                (** oldest readable byte *)
  rb_size : Z;                (** [end] is [data + size] *)
  rb_size_data : Z;
}.
Definition rbuf_create (size : Z) : rbuf := RBuf (mallocz size) 0 0 size 0.
Definition rbuf_flush (b : rbuf) : rbuf := RBuf (rb_data b) 0 0 (rb_size b) 0.

(** A range: its offset, or null, and its length. *)
Definition rbuf_get_linear_insert_range (b : rbuf) : option Z * Z :=
  if (rb_head b =? rb_tail b) && negb (rb_size_data b =? 0) then (None, 0)
  else (Some (rb_head b), (if rb_tail b <=? rb_head b then rb_size b else rb_tail b) - rb_head b).
Definition rbuf_get_linear_read_range (b : rbuf) : option Z * Z :=
  if (rb_head b =? rb_tail b) && (rb_size_data b =? 0) then (None, 0)
  else (Some (rb_tail b), (if rb_head b <=? rb_tail b then rb_size b else rb_head b) - rb_tail b).

Definition rbuf_get_capacity (b : rbuf) : Z := rb_size b.
Definition rbuf_bytes_available (b : rbuf) : Z := rb_size_data b.
Definition rbuf_bytes_free (b : rbuf) : Z := u64 (rb_size b - rb_size_data b).

(** [&data[(i + bytes) % size]], where [i] is an [int]. *)
Definition advance (b : rbuf) (off bytes : Z) : cres Z :=
  if rb_size b =? 0 then UB UB_div0
  else Ok (u64 (i32 off + bytes) mod rb_size b).

Definition rbuf_bump_head (b : rbuf) (bytes : Z) : cres (Z * rbuf) :=
  if rbuf_bytes_free b <? bytes then Ok (0, b)
  else
    h ← advance b (rb_head b) bytes;
    Ok (1, RBuf (rb_data b) h (rb_tail b) (rb_size b) (u64 (rb_size_data b + bytes))).
Definition rbuf_bump_tail_noopt (b : rbuf) (bytes : Z) : cres (Z * rbuf) :=
  if rb_size_data b <? bytes then Ok (0, b)
  else
    t ← advance b (rb_tail b) bytes;
    Ok (1, RBuf (rb_data b) (rb_head b) t (rb_size b) (u64 (rb_size_data b - bytes))).
Definition rbuf_bump_tail (b : rbuf) (bytes : Z) : cres (Z * rbuf) :=
  r ← rbuf_bump_tail_noopt b bytes;
  let '(rc, b) := r in
  if rc =? 0 then Ok (0, b)
  else if rb_tail b =? rb_head b then
    (** [assert(size_data == 0)] *)
    if negb (rb_size_data b =? 0) then UB UB_fatal else Ok (1, rbuf_flush b)
  else Ok (1, b).

(** The recursions end when everything is copied or the range is empty; each
    call but the last goes up to the end of the block or of the range, so that
    three calls are enough. *)
Fixpoint rbuf_push (fuel : nat) (b : rbuf) (d : list ascii) : cres (Z * rbuf) :=
  match fuel with
  | O => NoFuel
  | S fuel =>
      let '(w_ptr, to_cpy) := rbuf_get_linear_insert_range b in
      if to_cpy =? 0 then Ok (0, b)
      else
        match w_ptr with
        | None => UB UB_null
        | Some off =>
            let to_cpy := Z.min to_cpy (len d) in
            data ← mem_copy (rb_data b) off (Some <$> d) 0 to_cpy;
            r ← rbuf_bump_head
                  (RBuf data (rb_head b) (rb_tail b) (rb_size b) (rb_size_data b)) to_cpy;
            let b := snd r in
            if to_cpy <? len d then
              s ← rbuf_push fuel b (drop (Z.to_nat to_cpy) d);
              Ok (u64 (to_cpy + fst s), snd s)
            else Ok (to_cpy, b)
        end
  end.
(** The bytes copied to [data], whose number is returned. *)
Fixpoint rbuf_pop (fuel : nat) (b : rbuf) (n : Z) : cres (block * rbuf) :=
  match fuel with
  | O => NoFuel
  | S fuel =>
      let '(r_ptr, to_cpy) := rbuf_get_linear_read_range b in
      if to_cpy =? 0 then Ok ([], b)
      else
        match r_ptr with
        | None => UB UB_null
        | Some off =>
            let to_cpy := Z.min to_cpy n in
            d ← mem_read (rb_data b) off to_cpy;
            r ← rbuf_bump_tail b to_cpy;
            let b := snd r in
            if to_cpy <? n then
              s ← rbuf_pop fuel b (n - to_cpy);
              Ok (d ++ fst s, snd s)
            else Ok (d, b)
        end
  end.
Definition copy_fuel : nat := 3.

(** ** Searching *)

Definition rbuf_ptr_inc (b : rbuf) (ptr : Z) : Z :=
  if rb_size b <=? ptr + 1 then 0 else ptr + 1.

(** [*haystack], a written byte of the block; [*needle]. *)
Definition hay_at (b : rbuf) (ptr : Z) : cres ascii :=
  l ← mem_read (rb_data b) ptr 1;
  match l with [Some c] => Ok c | _ => UB UB_oob end.
Definition needle_at (needle : list ascii) : cres ascii :=
  match needle with c :: _ => Ok c | [] => UB UB_oob end.
(** The difference of two [char]s. *)
Definition char_diff (c d : ascii) : Z := wrap_s 8 (code c) - wrap_s 8 (code d).

Fixpoint memcmp_loop (fuel : nat) (b : rbuf) (haystack : Z) (needle : list ascii) : cres Z :=
  if (haystack =? rb_head b) || bool_decide (needle = []) then Ok 0
  else
    match fuel with
    | O => NoFuel
    | S fuel =>
        c ← hay_at b haystack;
        n ← needle_at needle;
        if negb (Ascii.eqb c n) then Ok (char_diff c n)
        else memcmp_loop fuel b (rbuf_ptr_inc b haystack) (drop 1 needle)
    end.
Definition rbuf_memcmp (b : rbuf) (haystack : Z) (needle : list ascii) : cres Z :=
  if (haystack =? rb_head b) && negb (rb_size_data b =? 0) then
    c ← hay_at b haystack;
    n ← needle_at needle;
    if negb (Ascii.eqb c n) then Ok (char_diff c n)
    else memcmp_loop (length needle) b (rbuf_ptr_inc b haystack) (drop 1 needle)
  else memcmp_loop (length needle) b haystack needle.
Definition rbuf_memcmp_n (b : rbuf) (to_cmp : list ascii) : cres Z :=
  rbuf_memcmp b (rb_tail b) to_cmp.

Fixpoint find_loop (fuel : nat) (b : rbuf) (ptr : Z) (needle : list ascii) (found_idx : Z)
  : cres (option Z * Z) :=
  if ptr =? rb_head b then Ok (None, found_idx)
  else
    match fuel with
    | O => NoFuel
    | S fuel =>
        r ← rbuf_memcmp b ptr needle;
        if r =? 0 then Ok (Some ptr, found_idx)
        else find_loop fuel b (rbuf_ptr_inc b ptr) needle (i32 (found_idx + 1))
    end.
Definition rbuf_find_bytes (b : rbuf) (needle : list ascii) : cres (option Z * Z) :=
  let ptr := rb_tail b in
  let fuel := Z.to_nat (rb_size b) in
  if rbuf_bytes_available b =? 0 then Ok (None, 0)
  else if (rb_head b =? rb_tail b) && negb (rb_size_data b =? 0) then
    r ← rbuf_memcmp b ptr needle;
    if r =? 0 then Ok (Some ptr, 0)
    else find_loop fuel b (rbuf_ptr_inc b ptr) needle 1
  else find_loop fuel b ptr needle 0.

(** ** The queue in the block *)

Inductive ring (tail size : Z) (data : block) (q : list ascii) : Prop :=
| RFlat A C : data = A ++ (Some <$> q) ++ C → len A = tail → tail + len q < size →
    ring tail size data q
| RWrap G q1 q2 : data = (Some <$> q2) ++ G ++ (Some <$> q1) → q = q1 ++ q2 →
    len q2 + len G = tail → tail + len q1 = size → ring tail size data q.

(** The offset of the [i]-th byte of the queue. *)
Definition ring_off (b : rbuf) (i : Z) : Z :=
  if rb_tail b + i <? rb_size b then rb_tail b + i else rb_tail b + i - rb_size b.

Record ringed (b : rbuf) (q : list ascii) : Prop := {
  ri_size : 0 < rb_size b < 2 ^ 31;
  ri_tail : 0 ≤ rb_tail b < rb_size b;
  ri_head : rb_head b = ring_off b (len q);
  ri_count : rb_size_data b = len q;
  ri_len : len (rb_data b) = rb_size b;
  ri_ring : ring (rb_tail b) (rb_size b) (rb_data b) q;
}.

Lemma ringed_room b q : ringed b q → len q ≤ rb_size b.
Proof.
  intros [Hs Ht _ _ Hl [A C HD HA Hlt|G q1 q2 HD -> HG Hq1]]; rewrite HD in Hl; len_lia.
Qed.
Lemma ringed_empty size : 0 < size < 2 ^ 31 → ringed (rbuf_create size) [].
Proof.
  intros Hs. assert (HM := len_mallocz size ltac:(lia)).
  split; cbn; try lia; try done.
  - unfold ring_off. cbn. change (len (@nil ascii)) with 0.
    rewrite (proj2 (Z.ltb_lt _ _)) by lia. done.
  - by apply (RFlat _ _ _ _ [] (mallocz size)); [|done|len_lia].
Qed.
Lemma ringed_flush b q : ringed b q → ringed (rbuf_flush b) [].
Proof.
  intros [Hs Ht _ _ Hl _]. split; cbn; try lia; try done.
  - unfold ring_off. cbn. change (len (@nil ascii)) with 0.
    rewrite (proj2 (Z.ltb_lt _ _)) by lia. done.
  - by apply (RFlat _ _ _ _ [] (rb_data b)); [|done|len_lia].
Qed.

(** The range to write to: all the free bytes, or those up to the end. *)
Lemma insert_range b q : ringed b q → ∃ range,
  snd (rbuf_get_linear_insert_range b) = range ∧
  (len q = rb_size b → range = 0) ∧
  (len q < rb_size b → fst (rbuf_get_linear_insert_range b) = Some (rb_head b) ∧ 0 < range ∧
    (rb_tail b + len q < rb_size b ∧ range = rb_size b - (rb_tail b + len q) ∨
     rb_size b ≤ rb_tail b + len q ∧ range = rb_size b - len q)).
Proof.
  intros H. pose proof (ringed_room b q H). destruct H as [Hs Ht Hh Hc Hl Hr].
  unfold rbuf_get_linear_insert_range. unfold ring_off in Hh. pose proof (len_nonneg q).
  eexists. split; [done|]. rewrite Hc, Hh. clear Hr.
  destruct (Z.ltb_spec (rb_tail b + len q) (rb_size b)).
  - destruct (Z.eqb_spec (len q) 0), (Z.eqb_spec (rb_tail b + len q) (rb_tail b)); try lia; cbn.
    all: split; [lia|]; intros _; rewrite (proj2 (Z.leb_le _ _)) by lia;
      split; [done|]; split; [lia|]; left; lia.
  - destruct (Z.eqb_spec (len q) 0); [lia|].
    destruct (Z.eqb_spec (rb_tail b + len q - rb_size b) (rb_tail b)); cbn; [split; lia|].
    split; [lia|]. intros _. rewrite (proj2 (Z.leb_gt _ _)) by lia.
    split; [done|]. split; [lia|]. right. lia.
Qed.

Lemma advance_off b q n : ringed b q → 0 ≤ n → len q + n ≤ rb_size b →
  advance b (rb_head b) n = Ok (ring_off b (len q + n)).
Proof.
  intros H Hn Hroom. destruct H as [Hs Ht Hh _ _ _]. unfold advance, ring_off in *.
  pose proof (len_nonneg q). rewrite (proj2 (Z.eqb_neq _ _)) by lia.
  assert (Hhr : 0 ≤ rb_head b < rb_size b).
  { rewrite Hh. destruct (Z.ltb_spec (rb_tail b + len q) (rb_size b)); lia. }
  rewrite (wrap_s_id 32) by lia. rewrite (wrap_u_id 64) by lia. f_equal. rewrite Hh.
  destruct (Z.ltb_spec (rb_tail b + len q) (rb_size b)),
    (Z.ltb_spec (rb_tail b + (len q + n)) (rb_size b)); try lia.
  - rewrite Z.mod_small by lia. lia.
  - rewrite <- (Z.mod_unique _ _ 1 (rb_tail b + (len q + n) - rb_size b)); lia.
  - rewrite Z.mod_small by lia. lia.
Qed.

Lemma push_step b q d1 d2 range : ringed b q →
  snd (rbuf_get_linear_insert_range b) = range → 0 < range → len d1 ≤ range → ∃ data,
  mem_copy (rb_data b) (rb_head b) (Some <$> (d1 ++ d2)) 0 (len d1) = Ok data ∧ ∃ h,
  rbuf_bump_head (RBuf data (rb_head b) (rb_tail b) (rb_size b) (rb_size_data b)) (len d1) =
    Ok (1, RBuf data h (rb_tail b) (rb_size b) (len q + len d1)) ∧
  ringed (RBuf data h (rb_tail b) (rb_size b) (len q + len d1)) (q ++ d1).
Proof.
  intros H Hrange Hpos Hd. pose proof (ringed_room b q H) as Hroom.
  destruct (insert_range b q H) as (r & Hr & Hfull & Hfree). rewrite Hrange in Hr. subst r.
  destruct (Z.eq_dec (len q) (rb_size b)) as [E|Hne]; [rewrite (Hfull E) in Hpos; lia|].
  destruct Hfree as (_ & _ & Hcase); [lia|].
  assert (Hfit : len q + len d1 ≤ rb_size b) by (pose proof (ri_tail _ _ H); len_lia).
  assert (Hdata : ∃ data, mem_copy (rb_data b) (rb_head b) (Some <$> d1 ++ d2) 0 (len d1) = Ok data ∧
    len data = rb_size b ∧ ring (rb_tail b) (rb_size b) data (q ++ d1)).
  { destruct H as [Hs Ht Hh Hc Hl Hr]. rewrite Hh. unfold ring_off. rewrite fmap_app.
    destruct Hr as [A C HD HA Hlt|G q1 q2 HD -> HG Hq1]; rewrite HD in *; lens.
    - rewrite (proj2 (Z.ltb_lt _ _)) by lia.
      destruct (split_at C (len d1)) as (C1 & C2 & -> & HC); [len_lia|]. lens.
      rewrite (app_assoc A), (mem_copy_from0 (A ++ (Some <$> q)) C1 C2) by len_lia.
      eexists. split; [done|]. split; [len_lia|].
      destruct (Z.ltb_spec (rb_tail b + (len q + len d1)) (rb_size b)).
      + apply (RFlat _ _ _ _ A C2); [by rewrite fmap_app, <- !app_assoc|done|len_lia].
      + assert (C2 = []) as -> by (apply len_zero; len_lia).
        apply (RWrap _ _ _ _ A (q ++ d1) []); [|by rewrite app_nil_r|len_lia|len_lia].
        by rewrite fmap_app, app_nil_r, <- app_assoc.
    - rewrite (proj2 (Z.ltb_ge _ _)) by len_lia.
      destruct (split_at G (len d1)) as (G1 & G2 & -> & HG1); [len_lia|]. lens.
      rewrite <- (app_assoc G1), (mem_copy_from0 (Some <$> q2) G1) by len_lia.
      eexists. split; [done|]. split; [len_lia|].
      apply (RWrap _ _ _ _ G2 q1 (q2 ++ d1)); [|by rewrite app_assoc|len_lia|len_lia].
      by rewrite fmap_app, <- !app_assoc. }
  destruct Hdata as (data & -> & Hl' & Hr'). eexists. split; [done|].
  unfold rbuf_bump_head, rbuf_bytes_free. cbn [rb_size rb_size_data rb_head rb_tail rb_data].
  rewrite (ri_count _ _ H). pose proof (ri_size _ _ H) as Hs. len_pos.
  rewrite (wrap_u_id 64 (rb_size b - len q)) by lia. rewrite (proj2 (Z.ltb_ge _ _)) by lia.
  rewrite (wrap_u_id 64 (len q + len d1)) by lia.
  change (advance (RBuf _ _ _ _ _)) with (advance b).
  rewrite (advance_off b q) by (done || lia). rewrite ok_bind.
  eexists. split; [done|]. split; cbn; try done; try len_lia; try apply H.
  unfold ring_off. cbn. by lens.
Qed.

(** How many calls a push needs in a state. *)
Definition push_calls (b : rbuf) (q : list ascii) : nat :=
  if len q =? rb_size b then 1 else if rb_size b <=? rb_tail b + len q then 2 else 3.

Lemma push_spec fuel : ∀ b q d, ringed b q → (push_calls b q ≤ fuel)%nat →
  ∃ b', rbuf_push fuel b d = Ok (Z.min (len d) (rb_size b - len q), b') ∧
    rb_size b' = rb_size b ∧ ringed b' (q ++ take (Z.to_nat (rb_size b - len q)) d).
Proof.
  induction fuel as [|fuel IH]; intros b q d H Hf.
  { unfold push_calls in Hf. destruct (len q =? _); [lia|]. destruct (rb_size b <=? _); lia. }
  pose proof (ringed_room b q H) as Hroom. pose proof (len_nonneg d) as Hd0.
  destruct (insert_range b q H) as (range & Hr & Hfull & Hfree).
  cbn [rbuf_push]. destruct (rbuf_get_linear_insert_range b) as [ptr rg] eqn:ER.
  cbn [fst snd] in *. subst rg.
  destruct (Z.eq_dec (len q) (rb_size b)) as [Eq|Hne].
  { rewrite (Hfull Eq), Eq, Z.sub_diag, (Z.min_r (len d) 0) by lia. exists b. cbn.
    by rewrite app_nil_r. }
  destruct Hfree as (-> & Hpos & Hcase); [lia|]. rewrite (proj2 (Z.eqb_neq range 0)) by lia.
  destruct (split_at d (Z.min range (len d))) as (d1 & d2 & -> & Hd1); [lia|].
  destruct (push_step b q d1 d2 range H) as (data & Hcp & h & Hbump & H'); [by rewrite ER|lia..|].
  rewrite <- Hd1, Hcp, ok_bind, Hbump, ok_bind. cbn [snd]. rewrite len_app.
  pose proof (ri_size _ _ H) as Hs. pose proof (ri_tail _ _ H) as Ht.
  set (b1 := RBuf data h (rb_tail b) (rb_size b) (len q + len d1)) in *.
  destruct (Z.ltb_spec (len d1) (len d1 + len d2)) as [Hmore|Hdone].
  - assert (len d1 = range) by len_lia.
    destruct (IH b1 (q ++ d1) d2 H') as (b2 & E2 & Hsz & H2).
    { unfold push_calls in *. rewrite (proj2 (Z.eqb_neq (len q) _)) in Hf by lia. lens. cbn.
      destruct Hcase as [[F1 F2]|[F1 F2]].
      - rewrite (proj2 (Z.leb_gt _ _)) in Hf by lia.
        rewrite (proj2 (Z.leb_le _ _)) by lia. destruct (_ =? _); lia.
      - rewrite (proj2 (Z.leb_le _ _)) in Hf by lia.
        rewrite (proj2 (Z.eqb_eq _ _)) by lia. lia. }
    assert (Hdrop : drop (Z.to_nat (len d1)) (d1 ++ d2) = d2).
    { unfold len. by rewrite Nat2Z.id, drop_app_length. }
    rewrite Hdrop, E2, ok_bind. cbn [fst snd]. change (rb_size b1) with (rb_size b) in *. lens.
    rewrite (wrap_u_id 64) by len_lia. exists b2. split; [do 2 f_equal; len_lia|].
    split; [done|]. rewrite take_app_ge by (unfold len in *; lia).
    rewrite app_assoc. replace (Z.to_nat (rb_size b - len q) - length d1)%nat
      with (Z.to_nat (rb_size b - (len q + len d1))) by (unfold len in *; lia). done.
  - assert (d2 = []) as -> by (apply len_zero; len_lia). rewrite app_nil_r in *.
    exists b1. split; [do 2 f_equal; change (len (@nil ascii)) with 0; len_lia|]. split; [done|].
    rewrite take_ge by (unfold len in *; lia). done.
Qed.

(** *** Popping *)

Lemma read_range b q : ringed b q → q ≠ [] → ∃ q1 q2, q = q1 ++ q2 ∧ q1 ≠ [] ∧
  rbuf_get_linear_read_range b = (Some (rb_tail b), len q1) ∧
  mem_read (rb_data b) (rb_tail b) (len q1) = Ok (Some <$> q1) ∧
  (q2 = [] ∨ rb_tail b + len q1 = rb_size b) ∧ rb_tail b + len q1 ≤ rb_size b.
Proof.
  intros [Hs Ht Hh Hc Hl Hr] Hne. unfold rbuf_get_linear_read_range, ring_off in *.
  assert (0 < len q) by (destruct q; [done|unfold len; simpl; lia]).
  rewrite Hc, Hh, (proj2 (Z.eqb_neq (len q) 0)), andb_false_r by lia.
  destruct Hr as [A C HD HA Hlt|G q1 q2 HD -> HG Hq1]; rewrite HD in *; lens.
  - exists q, []. rewrite app_nil_r, (proj2 (Z.ltb_lt _ _)) by lia.
    rewrite (proj2 (Z.leb_gt _ _)) by lia. split; [done|]. split; [done|].
    split; [do 2 f_equal; lia|]. split; [apply mem_read_app; len_lia|].
    split; [by left|lia].
  - exists q1, q2. rewrite (proj2 (Z.ltb_ge _ _)) by len_lia.
    rewrite (proj2 (Z.leb_le _ _)) by len_lia. split; [done|]. split; [intros ->; len_lia|].
    split; [do 2 f_equal; lia|]. split; [|split; [by right|lia]].
    rewrite app_assoc, <- (app_nil_r (Some <$> q1)) at 1. apply mem_read_app; len_lia.
Qed.

Lemma noopt_step b x y : ringed b (x ++ y) → rb_tail b + len x ≤ rb_size b → ∃ t,
  rbuf_bump_tail_noopt b (len x) =
    Ok (1, RBuf (rb_data b) (rb_head b) t (rb_size b) (len y)) ∧
  ringed (RBuf (rb_data b) (rb_head b) t (rb_size b) (len y)) y ∧
  (0 < len x → t = rb_head b → y = []) ∧ (rb_tail b + len x = rb_size b → t = 0).
Proof.
  intros H Hx. pose proof (ringed_room _ _ H) as Hroom. destruct H as [Hs Ht Hh Hc Hl Hr].
  unfold rbuf_bump_tail_noopt, advance.
  rewrite Hc. lens. len_pos. rewrite (proj2 (Z.ltb_ge _ _)) by lia.
  rewrite (proj2 (Z.eqb_neq (rb_size b) 0)), ok_bind by lia.
  rewrite (wrap_s_id 32) by lia. rewrite (wrap_u_id 64 (rb_tail b + len x)) by lia.
  rewrite (wrap_u_id 64 (len x + len y - len x)) by lia.
  replace (len x + len y - len x) with (len y) by lia.
  eexists. split; [done|].
  set (t := (rb_tail b + len x) `mod` rb_size b).
  assert (Htc : rb_tail b + len x < rb_size b ∧ t = rb_tail b + len x ∨
                rb_tail b + len x = rb_size b ∧ t = 0).
  { unfold t. destruct (Z.eq_dec (rb_tail b + len x) (rb_size b)) as [->|].
    - right. split; [done|]. apply Z.mod_same. lia.
    - left. split; [lia|]. apply Z.mod_small. lia. }
  unfold ring_off in Hh. clearbody t.
  assert (Hring : ring t (rb_size b) (rb_data b) y).
  { destruct Hr as [A C HD HA Hlt|G q1 q2 HD Hq HG Hq1]; rewrite HD in *; lens.
    - apply (RFlat _ _ _ _ (A ++ (Some <$> x)) C); [by rewrite fmap_app, <- !app_assoc|len_lia|len_lia].
    - pose proof (f_equal len Hq) as Hlq. lens.
      destruct Htc as [[F1 ->]|[F1 ->]].
      + destruct (app_split_le q1 q2 x y) as (p & -> & ->); [done|len_lia|]. lens.
        apply (RWrap _ _ _ _ (G ++ (Some <$> x)) p q2); [by rewrite fmap_app, <- !app_assoc|done|len_lia|len_lia].
      + apply app_inj_1 in Hq as [-> ->]; [|unfold len in *; lia].
        apply (RFlat _ _ _ _ [] (G ++ (Some <$> q1))); [done|done|len_lia]. }
  split; [|split; [|lia]].
  - split; cbn; try done; [lia|]. rewrite Hh. unfold ring_off. cbn.
    destruct Htc as [[F1 ->]|[F1 ->]].
    + by replace (rb_tail b + len x + len y) with (rb_tail b + (len x + len y)) by lia.
    + rewrite (proj2 (Z.ltb_ge _ _)) by lia.
      destruct (Z.ltb_spec (0 + len y) (rb_size b)); lia.
  - intros Hpos E. apply len_zero. rewrite Hh in E.
    destruct (Z.ltb_spec (rb_tail b + (len x + len y)) (rb_size b)); lia.
Qed.

Lemma pop_step b x y : ringed b (x ++ y) → rb_tail b + len x ≤ rb_size b → 0 < len x → ∃ b',
  rbuf_bump_tail b (len x) = Ok (1, b') ∧ ringed b' y ∧ rb_size b' = rb_size b ∧
  (rb_tail b + len x = rb_size b → rb_tail b' = 0).
Proof.
  intros H Hx Hpos. destruct (noopt_step b x y H Hx) as (t & E & H' & Hy & Ht0).
  unfold rbuf_bump_tail. rewrite E, ok_bind. cbn [rb_tail rb_head rb_size_data].
  change (1 =? 0) with false. cbv iota.
  destruct (Z.eqb_spec t (rb_head b)) as [Et|Et].
  - rewrite (Hy Hpos Et) in *. change (len (@nil ascii) =? 0) with true. cbn [negb].
    eexists. split; [done|]. split; [by apply (ringed_flush _ []) in H'|done].
  - eexists. split; [done|]. done.
Qed.

(** At most the two pieces of the queue, and a last empty read. *)
Definition pop_calls (b : rbuf) (q : list ascii) : nat :=
  if rb_tail b + len q <=? rb_size b then if decide (q = []) then 1 else 2 else 3.
Lemma pop_spec fuel : ∀ b q n, ringed b q → 0 < n < 2 ^ 64 →
  (pop_calls b q ≤ fuel)%nat →
  ∃ b', rbuf_pop fuel b n = Ok (Some <$> take (Z.to_nat n) q, b') ∧
    rb_size b' = rb_size b ∧ ringed b' (drop (Z.to_nat n) q).
Proof.
  induction fuel as [|fuel IH]; intros b q n H Hn Hf.
  { unfold pop_calls in Hf. destruct (_ <=? rb_size b); [destruct (decide (q = []))|]; lia. }
  cbn [rbuf_pop]. pose proof (ri_tail _ _ H) as Ht. pose proof (ri_size _ _ H) as Hs.
  destruct (decide (q = [])) as [->|Hne].
  { assert (rbuf_get_linear_read_range b = (None, 0)) as ->.
    { unfold rbuf_get_linear_read_range. rewrite (ri_head _ _ H), (ri_count _ _ H).
      unfold ring_off. change (len (@nil ascii)) with 0. rewrite Z.add_0_r.
      rewrite (proj2 (Z.ltb_lt _ _)), Z.eqb_refl by lia. done. }
    cbn. exists b. by rewrite take_nil, drop_nil. }
  destruct (read_range b q H Hne) as (q1 & q2 & -> & Hq1 & -> & Hread & Hend & Hle).
  assert (Hp1 : 0 < len q1) by (destruct q1; [done|unfold len; simpl; lia]).
  rewrite (proj2 (Z.eqb_neq (len q1) 0)) by lia.
  destruct (split_at q1 (Z.min (len q1) n)) as (x & y & -> & Hx); [lia|].
  assert (Hrd : mem_read (rb_data b) (rb_tail b) (len x) = Ok (Some <$> x)).
  { destruct (ri_ring _ _ H) as [A C HD HA Hlt|G p1 p2 HD Hq HG Hp].
    - rewrite HD, <- app_assoc, fmap_app, <- app_assoc. apply mem_read_app; len_lia.
    - rewrite <- app_assoc in Hq. pose proof (f_equal len Hq) as Hlq. lens.
      destruct (app_split_le p1 p2 x (y ++ q2)) as (p & -> & _); [done|lia|].
      rewrite HD, fmap_app, app_assoc. apply mem_read_app; len_lia. }
  rewrite <- Hx, Hrd, ok_bind. rewrite <- app_assoc in H.
  destruct (pop_step b x (y ++ q2) H) as (b1 & -> & H1 & Hs1 & Ht1); [len_lia..|].
  rewrite ok_bind. cbn [snd]. lens.
  destruct (Z.ltb_spec (len x) n) as [Hmore|Hdone].
  - assert (y = []) as -> by (apply len_zero; len_lia). rewrite app_nil_r in *. cbn [app] in *.
    destruct (IH b1 q2 (n - len x)) as (b2 & E2 & Hs2 & H2); [done|len_lia| |].
    { pose proof (ringed_room _ _ H1). unfold pop_calls in *. lens.
      destruct Hend as [->|Hend].
      - rewrite decide_True by done. destruct (ri_tail _ _ H1).
        rewrite (proj2 (Z.leb_le _ _)) by len_lia.
        destruct (_ <=? rb_size b) in Hf; [rewrite decide_False in Hf|]; (done || lia).
      - rewrite Ht1 by lia. rewrite (proj2 (Z.leb_le _ _)) by lia.
        destruct (Z.leb_spec (rb_tail b + (len x + len q2)) (rb_size b)).
        + assert (q2 = []) as -> by (apply len_zero; len_lia). rewrite decide_False in Hf by done.
          rewrite decide_True by done. lia.
        + destruct (decide (q2 = [])); lia. }
    rewrite E2, ok_bind. cbn [fst snd]. exists b2. split; [|split; [congruence|]].
    + do 2 f_equal. rewrite <- fmap_app. f_equal. rewrite take_app_ge by (unfold len in *; lia).
      do 2 f_equal. unfold len. lia.
    + rewrite drop_app_ge by (unfold len in *; lia).
      replace (Z.to_nat n - length x)%nat with (Z.to_nat (n - len x)) by (unfold len; lia). done.
  - assert (n = len x) as -> by len_lia. exists b1. unfold len. rewrite Nat2Z.id, <- app_assoc.
    rewrite take_app_length, drop_app_length. done.
Qed.

(** ** Refinement of a bounded queue *)

Inductive rb_op : Type := Push (d : list ascii) | Pop (n : Z) | Flush.
Definition rb_run (op : rb_op) (b : rbuf) : cres ((Z + block) * rbuf) :=
  match op with
  | Push d => r ← rbuf_push copy_fuel b d; Ok (inl (fst r), snd r)
  | Pop n => r ← rbuf_pop copy_fuel b n; Ok (inr (fst r), snd r)
  | Flush => Ok (inl 0, rbuf_flush b)
  end.
Fixpoint rb_runs (ops : list rb_op) (b : rbuf) : cres (list (Z + block) * rbuf) :=
  match ops with
  | [] => Ok ([], b)
  | op :: ops => r ← rb_run op b; s ← rb_runs ops (snd r); Ok (fst r :: fst s, snd s)
  end.

(** A queue of at most [size] bytes that takes what fits. *)
Definition queue_run (size : Z) (op : rb_op) (q : list ascii) : (Z + block) * list ascii :=
  match op with
  | Push d => let d := take (Z.to_nat (size - len q)) d in (inl (len d), q ++ d)
  | Pop n => (inr (Some <$> take (Z.to_nat n) q), drop (Z.to_nat n) q)
  | Flush => (inl 0, [])
  end.
Fixpoint queue_runs (size : Z) (ops : list rb_op) (q : list ascii) : list (Z + block) * list ascii :=
  match ops with
  | [] => ([], q)
  | op :: ops =>
      let r := queue_run size op q in
      let s := queue_runs size ops (snd r) in (fst r :: fst s, snd s)
  end.
Definition rb_allowed (op : rb_op) : Prop :=
  match op with Pop n => 0 < n < 2 ^ 64 | _ => True end.

Lemma rb_run_refines op b q : ringed b q → rb_allowed op → ∃ b',
  rb_run op b = Ok (fst (queue_run (rb_size b) op q), b') ∧
  ringed b' (snd (queue_run (rb_size b) op q)) ∧ rb_size b' = rb_size b.
Proof.
  intros H Hop. pose proof (ringed_room _ _ H). destruct op as [d|n|]; cbn [rb_run queue_run fst snd].
  - destruct (push_spec copy_fuel b q d H) as (b' & -> & Hs & Hb).
    { unfold push_calls, copy_fuel. destruct (_ =? _); [lia|]. destruct (_ <=? _); lia. }
    rewrite ok_bind. exists b'. split; [|done]. cbn. do 3 f_equal.
    unfold len in *. rewrite length_take. lia.
  - destruct (pop_spec copy_fuel b q n H Hop) as (b' & -> & Hs & Hb).
    { unfold pop_calls, copy_fuel. destruct (_ <=? _); [destruct (decide _)|]; lia. }
    rewrite ok_bind. by exists b'.
  - eexists. split; [done|]. split; [by apply (ringed_flush b q)|done].
Qed.

(** C15. A ring buffer of 1 to 2^31-1 bytes behaves, under every sequence of
    pushes, pops of at least one byte and flushes, as a queue of at most its
    size: a push takes the bytes that fit and returns their number, a pop gives
    the oldest bytes, and no access leaves the block. *)
Theorem rbuf_refines_queue size ops : 0 < size < 2 ^ 31 → Forall rb_allowed ops → ∃ b',
  rb_runs ops (rbuf_create size) = Ok (fst (queue_runs size ops []), b') ∧
  ringed b' (snd (queue_runs size ops [])).
Proof.
  intros Hs Hall. pose proof (ringed_empty size Hs) as H.
  change size with (rb_size (rbuf_create size)) at 2 3.
  revert H. generalize (rbuf_create size) as b. generalize (@nil ascii) as q.
  induction Hall as [|op ops Hop Hall IH]; intros q b H; [by exists b|].
  destruct (rb_run_refines op b q H Hop) as (b1 & E & H1 & Hs1).
  destruct (IH _ b1 H1) as (b2 & E2 & H2). rewrite Hs1 in *.
  exists b2. cbn [rb_runs queue_runs fst snd]. rewrite E, ok_bind. cbn [fst snd].
  by rewrite E2, ok_bind.
Qed.
Lemma rbuf_refines_queue_witness : ∃ b',
  rb_runs [Push ["a"; "b"; "c"]; Pop 2; Push ["d"; "e"; "f"; "g"]; Pop 9]%char (rbuf_create 4) =
    Ok ([inl 3; inr [Some "a"; Some "b"]; inl 3;
         inr [Some "c"; Some "d"; Some "e"; Some "f"]]%char, b').
Proof.
  destruct (rbuf_refines_queue 4
    [Push ["a"; "b"; "c"]; Pop 2; Push ["d"; "e"; "f"; "g"]; Pop 9]%char) as (b' & E & _).
  - lia.
  - by repeat constructor.
  - by exists b'.
Defined.

(** Popping zero bytes from a full buffer fails the assertion of
    [rbuf_bump_tail()]: the tail meets the head although the buffer is full. *)
Theorem pop_nothing_from_full_aborts b q : ringed b q → len q = rb_size b →
  rbuf_pop copy_fuel b 0 = UB UB_fatal.
Proof.
  intros H Hfull. pose proof (ri_size _ _ H) as Hs. pose proof (ri_tail _ _ H) as Ht.
  destruct (read_range b q H) as (q1 & q2 & Hq & Hq1 & E & _ & _ & Hle); [intros ->; len_lia|].
  assert (Hp1 : 0 < len q1) by (destruct q1; [done|unfold len; simpl; lia]).
  unfold copy_fuel. cbn [rbuf_pop]. rewrite E, (proj2 (Z.eqb_neq (len q1) 0)) by lia.
  rewrite Z.min_r by lia.
  assert (mem_read (rb_data b) (rb_tail b) 0 = Ok []) as ->.
  { unfold mem_read. change (Z.of_nat (length (rb_data b))) with (len (rb_data b)).
    rewrite (ri_len _ _ H), !(proj2 (Z.leb_le _ _)) by lia. by rewrite take_0. }
  rewrite ok_bind. unfold rbuf_bump_tail.
  destruct (noopt_step b [] q) as (t & E' & _ & _); [done|change (len (@nil ascii)) with 0; lia|].
  change (len (@nil ascii)) with 0 in E'.
  assert (Et : t = rb_head b).
  { unfold rbuf_bump_tail_noopt, advance in E'. rewrite (ri_count _ _ H) in E'.
    rewrite (proj2 (Z.ltb_ge _ _)), (proj2 (Z.eqb_neq (rb_size b) 0)) in E' by lia.
    rewrite ok_bind, (wrap_s_id 32), (wrap_u_id 64) in E' by lia. injection E' as <- _.
    rewrite Z.add_0_r, Z.mod_small by lia. rewrite (ri_head _ _ H). unfold ring_off.
    rewrite (proj2 (Z.ltb_ge _ _)) by lia. lia. }
  rewrite E', ok_bind. cbn. rewrite Et, Z.eqb_refl, (proj2 (Z.eqb_neq _ _)) by lia. done.
Qed.
Lemma pop_nothing_from_full_aborts_witness : ∃ b,
  rb_runs [Push ["a"; "b"]]%char (rbuf_create 2) = Ok ([inl 2], b) ∧
  rbuf_pop copy_fuel b 0 = UB UB_fatal.
Proof.
  eexists. split; [vm_compute; reflexivity|].
  apply (pop_nothing_from_full_aborts _ ["a"; "b"]%char); [|reflexivity].
  split; cbn; try lia; try reflexivity.
  by apply (RWrap _ _ _ _ [] ["a"; "b"]%char []).
Defined.

(** ** Searching *)

(** The two agree as far as both go. *)
Fixpoint agrees (l needle : list ascii) : bool :=
  match l, needle with
  | c :: l, n :: needle => Ascii.eqb c n && agrees l needle
  | _, _ => true
  end.
Fixpoint first_match (q needle : list ascii) (i : Z) : option Z :=
  match q with
  | [] => None
  | _ :: q' => if agrees q needle then Some i else first_match q' needle (i + 1)
  end.

Lemma hay_at_off b q i c : ringed b q → q !! Z.to_nat i = Some c → 0 ≤ i →
  hay_at b (ring_off b i) = Ok c.
Proof.
  intros [Hs Ht Hh Hc Hl Hr] Hi Hi0. apply list_elem_of_split_length in Hi as (x & y & Hq & Hx).
  unfold hay_at. assert (len x = i) by (unfold len; lia).
  assert (Hrd : mem_read (rb_data b) (ring_off b i) 1 = Ok [Some c]); [|by rewrite Hrd].
  unfold ring_off. destruct Hr as [A C HD HA Hlt|G q1 q2 HD Hq' HG Hq1]; rewrite HD in *.
  - subst q. rewrite len_app in Hlt. assert (0 < len (c :: y)) by (unfold len; simpl; lia).
    rewrite (proj2 (Z.ltb_lt _ _)) by lia.
    rewrite fmap_app, fmap_cons, <- app_assoc, app_assoc. cbn [app].
    apply (mem_read_app (A ++ (Some <$> x)) [Some c]); [lens; lia|done].
  - assert (Hcase : (∃ p, q1 = x ++ c :: p) ∨ (∃ p, x = q1 ++ p ∧ q2 = p ++ c :: y)).
    { rewrite Hq in Hq'. destruct (Z.leb_spec (len q1) (len x)) as [Hle|Hlt].
      - destruct (app_split_le x (c :: y) q1 q2) as (p & -> & ->); [done|lia|]. right. by exists p.
      - symmetry in Hq'. destruct (app_split_le q1 q2 x (c :: y)) as (p & -> & Hp); [done|lia|].
        left. destruct p as [|c' p]; [rewrite app_nil_r in Hlt; lia|]. injection Hp as <- _. by exists p. }
    destruct Hcase as [[p ->]|(p & -> & ->)].
    + assert (Hp : len (x ++ c :: p) = len x + 1 + len p) by (unfold len; rewrite length_app; simpl; lia).
      len_pos. rewrite (proj2 (Z.ltb_lt _ _)) by lia.
      rewrite fmap_app, fmap_cons. rewrite app_assoc, (app_assoc _ (Some <$> x)).
      apply (mem_read_app _ [Some c]); [lens; lia|done].
    + lens. len_pos. rewrite (proj2 (Z.ltb_ge _ _)) by lia.
      rewrite fmap_app, fmap_cons, <- app_assoc. cbn [app].
      apply (mem_read_app _ [Some c]); [lens; lia|done].
Qed.

Lemma ptr_inc_off b q i : ringed b q → 0 ≤ i < len q →
  rbuf_ptr_inc b (ring_off b i) = ring_off b (i + 1).
Proof.
  intros H Hi. pose proof (ringed_room _ _ H). destruct H as [Hs Ht _ _ _ _].
  unfold rbuf_ptr_inc, ring_off.
  destruct (Z.ltb_spec (rb_tail b + i) (rb_size b)), (Z.ltb_spec (rb_tail b + (i + 1)) (rb_size b));
    try lia; destruct (Z.leb_spec (rb_size b) (rb_tail b + i + 1)) as [|];
    try destruct (Z.leb_spec (rb_size b) (rb_tail b + i - rb_size b + 1)); lia.
Qed.
Lemma off_head b q i : ringed b q → 0 ≤ i ≤ len q → (0 < i ∨ len q < rb_size b) →
  (ring_off b i =? rb_head b) = (i =? len q).
Proof.
  intros H Hi Hc. pose proof (ringed_room _ _ H). destruct H as [Hs Ht -> _ _ _]. unfold ring_off.
  destruct (Z.eqb_spec i (len q)) as [->|]; [apply Z.eqb_refl|]. apply Z.eqb_neq.
  destruct (Z.ltb_spec (rb_tail b + i) (rb_size b)), (Z.ltb_spec (rb_tail b + len q) (rb_size b)); lia.
Qed.

Lemma char_diff_zero c d : c ≠ d → (char_diff c d =? 0) = false.
Proof.
  intros Hne. apply Z.eqb_neq. intros E. apply Hne, code_inj. unfold char_diff, wrap_s in E.
  pose proof (code_range c). pose proof (code_range d).
  change (2 ^ (8 - 1)) with 128 in E. change (2 ^ 8) with 256 in E.
  assert (Hm : (code c + 128) mod 256 = (code d + 128) mod 256) by lia.
  destruct (Z_lt_ge_dec (code c) 128), (Z_lt_ge_dec (code d) 128);
    rewrite ?(Z.mod_small (code c + 128)), ?(Z.mod_small (code d + 128)) in Hm by lia;
    rewrite <- ?(Z.mod_unique (code c + 128) 256 1 (code c - 128)) in Hm by lia;
    rewrite <- ?(Z.mod_unique (code d + 128) 256 1 (code d - 128)) in Hm by lia; lia.
Qed.

Lemma memcmp_loop_spec b q : ringed b q → ∀ needle i fuel,
  0 ≤ i ≤ len q → (0 < i ∨ len q < rb_size b) → (length needle ≤ fuel)%nat →
  ∃ r, memcmp_loop fuel b (ring_off b i) needle = Ok r ∧
    (r =? 0) = agrees (drop (Z.to_nat i) q) needle.
Proof.
  intros H. induction needle as [|n needle IH]; intros i fuel Hi Hc Hf.
  { exists 0. split; [|by destruct (drop _ q)].
    destruct fuel; cbn; by rewrite orb_true_r. }
  destruct fuel as [|fuel]; [simpl in Hf; lia|]. cbn [memcmp_loop].
  rewrite (off_head b q i H Hi Hc), bool_decide_false, orb_false_r by done.
  destruct (Z.eqb_spec i (len q)) as [->|Hne].
  { exists 0. split; [done|]. unfold len. by rewrite Nat2Z.id, drop_all. }
  assert (Hlt : (Z.to_nat i < length q)%nat) by (unfold len in *; lia).
  destruct (lookup_lt_is_Some_2 q _ Hlt) as [c Hq].
  rewrite (hay_at_off b q i c H Hq) by lia. rewrite !ok_bind.
  rewrite (drop_S q c (Z.to_nat i) Hq). cbn [agrees needle_at]. rewrite ok_bind.
  destruct (Ascii.eqb_spec c n) as [->|Hcn]; cbn [negb andb].
  - rewrite (ptr_inc_off b q i H) by lia.
    destruct (IH (i + 1) fuel) as (r & E & Hr); [lia|lia|simpl in Hf; lia|].
    exists r. change (drop 1 (n :: needle)) with needle. rewrite E, Hr. split; [done|]. do 2 f_equal. lia.
  - exists (char_diff c n). by rewrite char_diff_zero.
Qed.

Lemma memcmp_spec b q needle i : ringed b q → 0 ≤ i < len q → needle ≠ [] → ∃ r,
  rbuf_memcmp b (ring_off b i) needle = Ok r ∧ (r =? 0) = agrees (drop (Z.to_nat i) q) needle.
Proof.
  intros H Hi Hne. unfold rbuf_memcmp. rewrite (ri_count _ _ H).
  rewrite (proj2 (Z.eqb_neq (len q) 0)) by lia. cbn [negb]. rewrite andb_true_r.
  pose proof (ringed_room _ _ H) as Hroom.
  destruct (Z.eqb_spec (ring_off b i) (rb_head b)) as [E|E].
  2: { apply (memcmp_loop_spec b q H); [lia| |done].
       destruct (Z.ltb_spec 0 i); [lia|]. right.
       destruct (Z.eq_dec (len q) (rb_size b)) as [Ef|]; [|lia]. destruct E.
       rewrite (ri_head _ _ H). unfold ring_off. pose proof (ri_tail _ _ H).
       rewrite (proj2 (Z.ltb_ge (rb_tail b + len q) _)), (proj2 (Z.ltb_lt _ _)) by lia. lia. }
  assert (i = 0) as ->.
  { destruct (Z.eq_dec i 0) as [|Hi0]; [done|]. apply Z.eqb_eq in E.
    rewrite (off_head b q i H) in E by lia. apply Z.eqb_eq in E. lia. }
  assert (Hlt : (Z.to_nat 0 < length q)%nat) by (unfold len in *; lia).
  destruct (lookup_lt_is_Some_2 q _ Hlt) as [c Hq].
  rewrite (hay_at_off b q 0 c H Hq) by lia. rewrite ok_bind.
  destruct needle as [|n needle]; [done|]. cbn [needle_at]. rewrite ok_bind.
  rewrite (drop_S q c (Z.to_nat 0) Hq). cbn [agrees].
  destruct (Ascii.eqb_spec c n) as [->|Hcn]; cbn [negb andb].
  - rewrite (ptr_inc_off b q 0 H) by lia.
    destruct (memcmp_loop_spec b q H needle (0 + 1) (length (n :: needle))) as (r & Er & Hr);
      [lia|lia|simpl; lia|]. exists r. change (drop 1 (n :: needle)) with needle. by rewrite Er, Hr.
  - exists (char_diff c n). by rewrite char_diff_zero.
Qed.

Lemma find_loop_spec b q needle : ringed b q → needle ≠ [] → ∀ fuel i,
  0 ≤ i ≤ len q → (0 < i ∨ len q < rb_size b) → (Z.to_nat (len q - i) ≤ fuel)%nat →
  find_loop fuel b (ring_off b i) needle i =
  Ok (match first_match (drop (Z.to_nat i) q) needle i with
      | Some j => (Some (ring_off b j), j)
      | None => (None, len q)
      end).
Proof.
  intros H Hne. pose proof (ringed_room _ _ H) as Hroom. pose proof (ri_size _ _ H) as Hs.
  induction fuel as [|fuel IH]; intros i Hi Hc Hf; cbn [find_loop];
    rewrite (off_head b q i H Hi Hc); (destruct (Z.eqb_spec i (len q)) as [->|Hlt];
      [unfold len; by rewrite Nat2Z.id, drop_all|]); [lia|].
  destruct (memcmp_spec b q needle i H ltac:(lia) Hne) as (r & -> & Hr). rewrite ok_bind, Hr.
  assert (Hlt' : (Z.to_nat i < length q)%nat) by (unfold len in *; lia).
  destruct (lookup_lt_is_Some_2 q _ Hlt') as [c Hq].
  rewrite (drop_S q c (Z.to_nat i) Hq). cbn [first_match].
  destruct (agrees (c :: drop (S (Z.to_nat i)) q) needle); [done|].
  rewrite (wrap_s_id 32), (ptr_inc_off b q i H) by lia.
  rewrite IH by lia. by replace (S (Z.to_nat i)) with (Z.to_nat (i + 1)) by lia.
Qed.

(** Searching finds the first position from which the stored bytes and the
    needle agree as far as both go, and its index: a needle that is cut by the
    end of the data counts as found. *)
Theorem find_bytes_finds b q needle : ringed b q → needle ≠ [] →
  rbuf_find_bytes b needle =
  Ok (match first_match q needle 0 with
      | Some i => (Some (ring_off b i), i)
      | None => (None, len q)
      end).
Proof.
  intros H Hne. pose proof (ringed_room _ _ H) as Hroom. pose proof (ri_size _ _ H) as Hs.
  pose proof (ri_tail _ _ H) as Ht. pose proof (len_nonneg q).
  unfold rbuf_find_bytes, rbuf_bytes_available. rewrite (ri_count _ _ H).
  destruct (Z.eqb_spec (len q) 0) as [Hz|Hnz]; [by apply len_zero in Hz as ->|].
  cbn [negb]. rewrite andb_true_r.
  assert (Hoff : rb_tail b = ring_off b 0).
  { unfold ring_off. rewrite Z.add_0_r, (proj2 (Z.ltb_lt _ _)) by lia. done. }
  rewrite Z.eqb_sym, Hoff.
  destruct (Z.eq_dec (len q) (rb_size b)) as [Hfull|Hfree].
  - rewrite (ri_head _ _ H). assert (ring_off b (len q) = ring_off b 0) as ->.
    { unfold ring_off. rewrite (proj2 (Z.ltb_ge (rb_tail b + len q) _)), (proj2 (Z.ltb_lt _ _)) by lia. lia. }
    rewrite Z.eqb_refl.
    destruct (memcmp_spec b q needle 0 H ltac:(lia) Hne) as (r & -> & Hr). rewrite ok_bind, Hr.
    destruct q as [|c q]; [done|]. cbn [Z.to_nat drop first_match].
    change (drop (Z.to_nat 0) (c :: q)) with (c :: q). destruct (agrees (c :: q) needle); [done|].
    rewrite (ptr_inc_off b (c :: q) 0 H) by lia.
    by rewrite (find_loop_spec b (c :: q) needle H Hne) by lia.
  - rewrite (off_head b q 0 H) by lia. rewrite (proj2 (Z.eqb_neq 0 (len q))) by lia.
    by rewrite (find_loop_spec b q needle H Hne) by lia.
Qed.
Lemma find_bytes_finds_witness : ∃ b,
  rb_runs [Push ["a"; "b"; "c"]]%char (rbuf_create 8) = Ok ([inl 3], b) ∧
  rbuf_find_bytes b ["c"; "d"]%char = Ok (Some 2, 2).
Proof.
  eexists. split; [vm_compute; reflexivity|].
  refine (find_bytes_finds _ ["a"; "b"; "c"]%char ["c"; "d"]%char _ _); [|discriminate].
  split; cbn; try lia; try reflexivity.
  by apply (RFlat _ _ _ _ [] [None; None; None; None; None]).
Defined.
