(* ===== verification/CRHash.v ===== *)
(** * c_rhash.c

    A hash table with a fixed number of bins, each a linked list of items with
    typed keys and values.  The theorems show that it refines a finite map from
    keys to values and that its iterators give every key once. *)

From S2P Require Import Prelude CString Inlined.
#[local] Open Scope list_scope.
#[local] Open Scope Z_scope.

(** ** Keys and values *)

(** The key and value types that the API uses: a NUL-terminated string, a
    [uint64_t], a [uint8_t], a [void *]. *)
Inductive rkey : Type := KStr (s : string) | KU64 (n : Z).
Inductive rval : Type := VU8 (n : Z) | VPtr (p : Z).

#[global] Instance rkey_eq_dec : EqDecision rkey.
Proof. solve_decision. Defined.
#[global] Instance rkey_countable : Countable rkey.
Proof.
  apply (inj_countable' (λ k, match k with KStr s => inl s | KU64 n => inr n end)
    (λ x, match x with inl s => KStr s | inr n => KU64 n end)).
  by intros [].
Defined.

Definition ITEMTYPE_STRING : Z := 1.
Definition ITEMTYPE_UINT8 : Z := 2.
Definition ITEMTYPE_UINT64 : Z := 3.
Definition ITEMTYPE_OPAQUE_PTR : Z := 4.
Definition key_type (k : rkey) : Z :=
  match k with KStr _ => ITEMTYPE_STRING | KU64 _ => ITEMTYPE_UINT64 end.
Definition value_type (v : rval) : Z :=
  match v with VU8 _ => ITEMTYPE_UINT8 | VPtr _ => ITEMTYPE_OPAQUE_PTR end.

(** [get_itemtype_len()] of a key. *)
Definition key_len (k : rkey) : Z :=
  match k with KStr s => Z.of_nat (String.length s) + 1 | KU64 _ => 8 end.

Record bin_item := BinItem { bi_key : rkey; bi_value : rval }.
Abbreviation bin := (list bin_item).
Record c_rhash := CRHash { bin_count : Z; bins : list bin }.

Definition c_rhash_new (count : Z) : c_rhash :=
  let count := if count =? 0 then 1000 else count in
  CRHash count (replicate (Z.to_nat count) []).

(** The bytes of a key, as [memcmp()] sees them. *)
Definition same_bytes (a b : rkey) : bool :=
  match a, b with
  | KStr s, KStr t => String.eqb s t
  | KU64 n, KU64 m => n =? m
  | _, _ => false
  end.
(** 0 when the item has that key. *)
Definition compare_bin_item (item : bin_item) (key : rkey) : Z :=
  if negb (key_type (bi_key item) =? key_type key) then 1
  else if (key_type key =? ITEMTYPE_STRING) && negb (key_len (bi_key item) =? key_len key) then 1
  else if same_bytes (bi_key item) key then 0
  else 1.

Fixpoint insert_into_bin (b : bin) (key : rkey) (value : rval) : bin :=
  match b with
  | [] => [BinItem key value]
  | item :: b =>
      if compare_bin_item item key =? 0 then BinItem (bi_key item) value :: b
      else item :: insert_into_bin b key value
  end.

Definition get_bin_idx_str (h : c_rhash) (key : string) : Z := simple_hash key mod bin_count h.
(** [key % hash->bin_count], a [size_t]. *)
Definition bin_idx_uint64 (h : c_rhash) (key : Z) : Z := key mod bin_count h.
(** The same, stored in a [uint32_t] by the reader. *)
Definition bin_idx_uint64_read (h : c_rhash) (key : Z) : Z := u32 (key mod bin_count h).

Definition insert_at (h : c_rhash) (i : Z) (key : rkey) (value : rval) : cres c_rhash :=
  match bins h !! Z.to_nat i with
  | Some b =>
      Ok (CRHash (bin_count h) (<[Z.to_nat i := insert_into_bin b key value]> (bins h)))
  | None => UB UB_oob
  end.
Definition c_rhash_insert_str_ptr (h : c_rhash) (key : string) (value : Z) : cres c_rhash :=
  insert_at h (get_bin_idx_str h key) (KStr key) (VPtr value).
Definition c_rhash_insert_str_uint8 (h : c_rhash) (key : string) (value : Z) : cres c_rhash :=
  insert_at h (get_bin_idx_str h key) (KStr key) (VU8 (u8 value)).
Definition c_rhash_insert_uint64_ptr (h : c_rhash) (key : Z) (value : Z) : cres c_rhash :=
  insert_at h (bin_idx_uint64 h key) (KU64 key) (VPtr value).

(** The item of a bin with a key. *)
Fixpoint bin_find (b : bin) (key : rkey) : option rval :=
  match b with
  | [] => None
  | item :: b =>
      if (key_type (bi_key item) =? key_type key) && same_bytes (bi_key item) key
      then Some (bi_value item) else bin_find b key
  end.
(** The value read as a [uint8_t] is its first byte; a [uint8_t] has not the
    eight bytes of a pointer. *)
Definition read_uint8 (v : rval) : cres Z :=
  match v with VU8 n => Ok n | VPtr p => Ok (u8 p) end.
Definition read_ptr (v : rval) : cres Z :=
  match v with VPtr p => Ok p | VU8 _ => UB UB_oob end.

Definition get_at (h : c_rhash) (i : Z) (key : rkey) (read : rval → cres Z) : cres (option Z) :=
  match bins h !! Z.to_nat i with
  | None => UB UB_oob
  | Some b =>
      match bin_find b key with
      | Some v => x ← read v; Ok (Some x)
      | None => Ok None
      end
  end.
Definition c_rhash_get_uint8_by_str (h : c_rhash) (key : string) : cres (option Z) :=
  get_at h (get_bin_idx_str h key) (KStr key) read_uint8.
Definition c_rhash_get_ptr_by_str (h : c_rhash) (key : string) : cres (option Z) :=
  get_at h (get_bin_idx_str h key) (KStr key) read_ptr.
Definition c_rhash_get_ptr_by_uint64 (h : c_rhash) (key : Z) : cres (option Z) :=
  get_at h (bin_idx_uint64_read h key) (KU64 key) read_ptr.

(** ** Iterators *)

(** [item] is the list from the item on; [] is the null pointer. *)
Record c_rhash_iter_t := CRIter { it_bin : Z; it_item : bin; it_initialized : bool }.
Definition iter_start : c_rhash_iter_t := CRIter 0 [] false.

Definition bin_at (h : c_rhash) (i : Z) : bin := default [] (bins h !! Z.to_nat i).
(** One turn of the loop: where the iterator moves to. *)
Definition iter_step (h : c_rhash) (iter : c_rhash_iter_t) : c_rhash_iter_t :=
  let item := match it_item iter with [] => [] | _ :: rest => rest end in
  match item with
  | _ :: _ => CRIter (it_bin iter) item (it_initialized iter)
  | [] =>
      let bin := if it_initialized iter then it_bin iter + 1 else it_bin iter in
      CRIter bin (if bin <? bin_count h then bin_at h bin else []) true
  end.
(** The next key [pick] accepts, with the iterator there, or the end. *)
Fixpoint iter_keys {A} (fuel : nat) (pick : rkey → option A) (h : c_rhash)
    (iter : c_rhash_iter_t) : cres (option A * c_rhash_iter_t) :=
  if it_bin iter <? bin_count h then
    match fuel with
    | O => NoFuel
    | S fuel =>
        let iter := iter_step h iter in
        match it_item iter with
        | item :: _ =>
            match pick (bi_key item) with
            | Some k => Ok (Some k, iter)
            | None => iter_keys fuel pick h iter
            end
        | [] => iter_keys fuel pick h iter
        end
    end
  else Ok (None, iter).
Definition c_rhash_iter_uint64_keys (fuel : nat) : c_rhash → c_rhash_iter_t → _ :=
  iter_keys fuel (λ k, match k with KU64 n => Some n | _ => None end).
Definition c_rhash_iter_str_keys (fuel : nat) : c_rhash → c_rhash_iter_t → _ :=
  iter_keys fuel (λ k, match k with KStr s => Some s | _ => None end).

(** The number of blocks that are freed: key, value and item of each item of a
    bin that is not empty, and the table. *)
Definition c_rhash_destroy_bin (b : bin) : Z := 3 * Z.of_nat (length b).
Definition c_rhash_destroy (h : c_rhash) : Z :=
  foldr (λ b n, (match b with [] => 0 | _ :: _ => c_rhash_destroy_bin b end) + n) 1 (bins h).

(** ** The table as a map *)

Lemma same_bytes_spec a b : same_bytes a b = bool_decide (a = b).
Proof.
  destruct a as [s|n], b as [t|m]; cbn.
  - destruct (String.eqb_spec s t) as [->|]; [by rewrite bool_decide_true|].
    by rewrite bool_decide_false by congruence.
  - by rewrite bool_decide_false.
  - by rewrite bool_decide_false.
  - destruct (Z.eqb_spec n m) as [->|]; [by rewrite bool_decide_true|].
    by rewrite bool_decide_false by congruence.
Qed.
Lemma compare_spec item k : (compare_bin_item item k =? 0) = bool_decide (bi_key item = k).
Proof.
  unfold compare_bin_item. rewrite same_bytes_spec.
  destruct item as [[s|n] v], k as [t|m]; cbn -[Z.add]; try (by rewrite bool_decide_false);
    case_bool_decide as E; try done.
  - injection E as ->. by rewrite Z.eqb_refl.
  - by destruct (negb _).
Qed.
Lemma find_cons item b k :
  bin_find (item :: b) k = if decide (bi_key item = k) then Some (bi_value item) else bin_find b k.
Proof.
  cbn. rewrite same_bytes_spec. case_decide as E.
  - rewrite E, Z.eqb_refl, bool_decide_true by done. done.
  - by rewrite bool_decide_false, andb_false_r by done.
Qed.
Lemma insert_cons item b k v : insert_into_bin (item :: b) k v =
  if decide (bi_key item = k) then BinItem k v :: b else item :: insert_into_bin b k v.
Proof.
  cbn. rewrite compare_spec. case_decide as E; [rewrite E|]; by case_bool_decide.
Qed.
Lemma find_insert b k v k' :
  bin_find (insert_into_bin b k v) k' = if decide (k = k') then Some v else bin_find b k'.
Proof.
  induction b as [|item b IH].
  - cbn [insert_into_bin]. rewrite find_cons. cbn. by case_decide.
  - rewrite insert_cons, find_cons. destruct (decide (bi_key item = k)) as [<-|Hne].
    + rewrite find_cons. cbn. by case_decide.
    + rewrite find_cons, IH. repeat case_decide; congruence.
Qed.
Lemma insert_keys b k v : bi_key <$> insert_into_bin b k v =
  if decide (k ∈ (bi_key <$> b)) then bi_key <$> b else (bi_key <$> b) ++ [k].
Proof.
  induction b as [|item b IH]; [done|]. rewrite insert_cons, fmap_cons.
  destruct (decide (bi_key item = k)) as [->|Hne].
  - rewrite decide_True by left. done.
  - rewrite fmap_cons, IH. destruct (decide (k ∈ (bi_key <$> b))) as [Hin|Hin].
    + by rewrite decide_True by (by right).
    + rewrite decide_False; [done|]. intros [?|?]%elem_of_cons; congruence.
Qed.
Lemma find_elem b k : is_Some (bin_find b k) ↔ k ∈ (bi_key <$> b).
Proof.
  induction b as [|item b IH].
  - split; [by intros []|]. by intros ?%not_elem_of_nil.
  - rewrite find_cons, fmap_cons, elem_of_cons. case_decide as E; [rewrite E; by split; eauto|].
    rewrite IH. split; [auto|]. intros [?|?]; [congruence|done].
Qed.

(** The bin of a key. *)
Definition bin_idx (h : c_rhash) (k : rkey) : Z :=
  match k with KStr s => get_bin_idx_str h s | KU64 n => bin_idx_uint64 h n end.
Record rh_ok (h : c_rhash) : Prop := {
  rh_count : 0 < bin_count h < 2 ^ 32;
  rh_length : Z.of_nat (length (bins h)) = bin_count h;
  rh_place : ∀ i b k, bins h !! i = Some b → k ∈ (bi_key <$> b) → Z.to_nat (bin_idx h k) = i;
  rh_nodup : ∀ i b, bins h !! i = Some b → NoDup (bi_key <$> b);
}.
Definition represents_map (h : c_rhash) (m : gmap rkey rval) : Prop :=
  rh_ok h ∧ ∀ k, bin_find (bin_at h (bin_idx h k)) k = m !! k.

Lemma bin_idx_range h k : rh_ok h → 0 ≤ bin_idx h k < bin_count h.
Proof. intros H. pose proof (rh_count h H). destruct k; apply Z.mod_pos_bound; lia. Qed.
Lemma bin_idx_lookup h k : rh_ok h →
  bins h !! Z.to_nat (bin_idx h k) = Some (bin_at h (bin_idx h k)).
Proof.
  intros H. pose proof (bin_idx_range h k H). pose proof (rh_length h H). unfold bin_at.
  destruct (lookup_lt_is_Some_2 (bins h) (Z.to_nat (bin_idx h k))) as [b ->]; [lia|done].
Qed.

Lemma insert_represents h m k v : represents_map h m →
  ∃ h', insert_at h (bin_idx h k) k v = Ok h' ∧ represents_map h' (<[k := v]> m).
Proof.
  intros [H Hm]. unfold insert_at. pose proof (bin_idx_lookup h k H) as Hb. rewrite Hb.
  eexists. split; [done|]. set (h' := CRHash _ _).
  assert (Hidx : ∀ k, bin_idx h' k = bin_idx h k) by (by intros []).
  assert (Hlt : (Z.to_nat (bin_idx h k) < length (bins h))%nat) by (by eapply lookup_lt_Some).
  assert (Hat : ∀ k', bin_at h' (bin_idx h k') =
    if decide (bin_idx h k' = bin_idx h k) then insert_into_bin (bin_at h (bin_idx h k)) k v
    else bin_at h (bin_idx h k')).
  { intros k'. unfold bin_at at 1. cbn [bins h']. case_decide as E.
    - by rewrite E, list_lookup_insert_eq.
    - rewrite list_lookup_insert_ne; [done|]. pose proof (bin_idx_range h k H).
      pose proof (bin_idx_range h k' H). lia. }
  split.
  - destruct H as [Hc Hl Hp Hn]. split; cbn [bin_count bins h']; [done|by rewrite length_insert|..].
    + intros i b k' Hi Hk'. rewrite Hidx.
      apply list_lookup_insert_Some in Hi as [(<- & <- & _)|[_ Hi]]; [|by eapply Hp].
      rewrite insert_keys in Hk'. destruct (decide _); [by eapply Hp|].
      apply elem_of_app in Hk' as [?|Hk'%list_elem_of_singleton]; [by eapply Hp|by subst].
    + intros i b Hi. apply list_lookup_insert_Some in Hi as [(<- & <- & _)|[_ Hi]]; [|by eapply Hn].
      rewrite insert_keys. destruct (decide _) as [|Hin]; [by eapply Hn|].
      apply NoDup_app. split; [by eapply Hn|]. split; [|apply NoDup_singleton].
      intros x Hx ->%list_elem_of_singleton. done.
  - intros k'. rewrite Hidx, Hat, lookup_insert. case_decide as E.
    + rewrite find_insert. case_decide as E'; [done|]. rewrite <- E. apply Hm.
    + rewrite decide_False by (intros ->; done). apply Hm.
Qed.

(** ** Refinement *)

Inductive rh_op : Type :=
| InsStrPtr (k : string) (v : Z) | InsStrU8 (k : string) (v : Z) | InsU64Ptr (k v : Z)
| GetPtrStr (k : string) | GetU8Str (k : string) | GetPtrU64 (k : Z).
Definition rh_run (op : rh_op) (h : c_rhash) : cres (option Z * c_rhash) :=
  match op with
  | InsStrPtr k v => h ← c_rhash_insert_str_ptr h k v; Ok (None, h)
  | InsStrU8 k v => h ← c_rhash_insert_str_uint8 h k v; Ok (None, h)
  | InsU64Ptr k v => h ← c_rhash_insert_uint64_ptr h k v; Ok (None, h)
  | GetPtrStr k => x ← c_rhash_get_ptr_by_str h k; Ok (x, h)
  | GetU8Str k => x ← c_rhash_get_uint8_by_str h k; Ok (x, h)
  | GetPtrU64 k => x ← c_rhash_get_ptr_by_uint64 h k; Ok (x, h)
  end.
Definition read_opt (read : rval → cres Z) (v : option rval) : cres (option Z) :=
  match v with Some v => x ← read v; Ok (Some x) | None => Ok None end.
(** The same on a map; reading a byte as a pointer is an error there too. *)
Definition map_run (op : rh_op) (m : gmap rkey rval) : cres (option Z * gmap rkey rval) :=
  match op with
  | InsStrPtr k v => Ok (None, <[KStr k := VPtr v]> m)
  | InsStrU8 k v => Ok (None, <[KStr k := VU8 (u8 v)]> m)
  | InsU64Ptr k v => Ok (None, <[KU64 k := VPtr v]> m)
  | GetPtrStr k => x ← read_opt read_ptr (m !! KStr k); Ok (x, m)
  | GetU8Str k => x ← read_opt read_uint8 (m !! KStr k); Ok (x, m)
  | GetPtrU64 k => x ← read_opt read_ptr (m !! KU64 k); Ok (x, m)
  end.
Fixpoint runs {S} (step : rh_op → S → cres (option Z * S)) (ops : list rh_op) (s : S)
  : cres (list (option Z) * S) :=
  match ops with
  | [] => Ok ([], s)
  | op :: ops => r ← step op s; x ← runs step ops (snd r); Ok (fst r :: fst x, snd x)
  end.
(** Results that agree: the same values, and related states; or the same error. *)
Definition same_results {A} (r : cres (A * c_rhash)) (s : cres (A * gmap rkey rval)) : Prop :=
  match r, s with
  | Ok (x, h), Ok (y, m) => x = y ∧ represents_map h m
  | UB k, UB k' => k = k'
  | _, _ => False
  end.

Lemma get_represents h m k read : represents_map h m →
  get_at h (bin_idx h k) k read = read_opt read (m !! k).
Proof.
  intros [H Hm]. unfold get_at. rewrite (bin_idx_lookup h k H), Hm. by destruct (m !! k).
Qed.
Lemma rh_run_refines op h m : represents_map h m → same_results (rh_run op h) (map_run op m).
Proof.
  intros H. assert (Hins : ∀ k v, same_results
    (h' ← insert_at h (bin_idx h k) k v; Ok (@None Z, h')) (Ok (None, <[k := v]> m))).
  { intros k v. by destruct (insert_represents h m k v H) as (h' & -> & ?). }
  assert (Hget : ∀ k read, (∀ v, read v ≠ NoFuel) → same_results
    (x ← get_at h (bin_idx h k) k read; Ok (x, h)) (x ← read_opt read (m !! k); Ok (x, m))).
  { intros k read Hread. rewrite (get_represents h m k read H).
    destruct (m !! k) as [v|]; cbn [read_opt]; [|done].
    specialize (Hread v). by destruct (read v). }
  destruct op as [k v|k v|k v|k|k|k]; cbn [rh_run map_run].
  - apply (Hins (KStr k)).
  - apply (Hins (KStr k)).
  - apply (Hins (KU64 k)).
  - by apply (Hget (KStr k)); intros [].
  - by apply (Hget (KStr k)); intros [].
  - unfold c_rhash_get_ptr_by_uint64, bin_idx_uint64_read.
    pose proof (bin_idx_range h (KU64 k) (proj1 H)) as Hr. pose proof (rh_count h (proj1 H)).
    cbn in Hr. unfold bin_idx_uint64 in Hr. rewrite (wrap_u_id 32) by lia.
    by apply (Hget (KU64 k)); intros [].
Qed.

Lemma new_represents count : 0 ≤ count < 2 ^ 32 → represents_map (c_rhash_new count) ∅.
Proof.
  intros Hc. unfold c_rhash_new. set (n := if count =? 0 then 1000 else count).
  assert (Hn : 0 < n < 2 ^ 32) by (unfold n; destruct (Z.eqb_spec count 0); lia).
  assert (Hb : ∀ i b, replicate (Z.to_nat n) (@nil bin_item) !! i = Some b → b = []).
  { intros i b Hi. by apply lookup_replicate in Hi as [-> _]. }
  split.
  - split; cbn [bin_count bins].
    + done.
    + rewrite length_replicate. lia.
    + intros i b k ->%Hb Hk. by apply not_elem_of_nil in Hk.
    + intros i b ->%Hb. constructor.
  - intros k. unfold bin_at. cbn [bins]. rewrite lookup_empty.
    destruct (_ !! _) as [b|] eqn:E; [|done]. by rewrite (Hb _ _ E).
Qed.

(** C16. A table with fewer than 2^32 bins behaves, under every sequence of
    insertions and lookups of string and integer keys, as a finite map: the
    same answers, and the same error when a byte is read back as a pointer. *)
Theorem c_rhash_refines_map count ops : 0 ≤ count < 2 ^ 32 →
  same_results (runs rh_run ops (c_rhash_new count)) (runs map_run ops ∅).
Proof.
  intros Hc. pose proof (new_represents count Hc) as H. revert H.
  generalize (c_rhash_new count) as h, (∅ : gmap rkey rval) as m.
  induction ops as [|op ops IH]; intros h m H; [done|]. cbn [runs].
  pose proof (rh_run_refines op h m H) as Hop. unfold same_results in Hop.
  destruct (rh_run op h) as [[x h']|k|], (map_run op m) as [[y m']|k'|]; try done.
  destruct Hop as [<- H']. specialize (IH h' m' H'). cbn [mbind cres_bind fst snd].
  destruct (runs rh_run ops h') as [[xs h2]|k|], (runs map_run ops m') as [[ys m2]|k'|]; try done.
  destruct IH as [<- H2]. done.
Qed.
Lemma c_rhash_refines_map_witness : same_results
  (runs rh_run [InsStrPtr "a" 7; InsU64Ptr 3 9; InsStrPtr "a" 8; GetPtrStr "a"; GetPtrU64 3]
    (c_rhash_new 2))
  (runs map_run [InsStrPtr "a" 7; InsU64Ptr 3 9; InsStrPtr "a" 8; GetPtrStr "a"; GetPtrU64 3] ∅).
Proof. apply (c_rhash_refines_map 2). lia. Defined.

(** ** Iteration *)

Section iteration.
Context {A : Type} (pick : rkey → option A) (h : c_rhash).
Hypothesis Hlen : Z.of_nat (length (bins h)) = bin_count h.

(** The keys in the order of the bins. *)
Definition all_keys : list rkey := bi_key <$> mjoin (bins h).

(** The items after the position of an iterator. *)
Definition remaining (iter : c_rhash_iter_t) : bin :=
  if it_initialized iter
  then match it_item iter with [] => [] | _ :: l => l end ++
       mjoin (drop (S (Z.to_nat (it_bin iter))) (bins h))
  else mjoin (drop (Z.to_nat (it_bin iter)) (bins h)).
(** An iterator that the functions produce. *)
Definition iter_ok (iter : c_rhash_iter_t) : Prop :=
  0 ≤ it_bin iter ∧ (it_initialized iter = false → it_item iter = []) ∧
  (bin_count h ≤ it_bin iter → it_item iter = [] ∧ it_initialized iter = true).
(** Steps left: the items, and the bins. *)
Definition iter_work (iter : c_rhash_iter_t) : nat :=
  length (remaining iter) + (length (bins h) - Z.to_nat (it_bin iter)) +
  (if it_initialized iter then 0 else 1).

Lemma join_cons (b : bin) bs : mjoin (b :: bs) = b ++ mjoin bs.
Proof. done. Qed.
Lemma drop_bins i : 0 ≤ i < bin_count h →
  drop (Z.to_nat i) (bins h) = bin_at h i :: drop (S (Z.to_nat i)) (bins h).
Proof using Hlen.
  intros Hi. unfold bin_at.
  destruct (lookup_lt_is_Some_2 (bins h) (Z.to_nat i)) as [b Hb]; [lia|].
  rewrite Hb. by apply drop_S.
Qed.

(** Where a step finds the next bin: all that remains is in the bins from there. *)
Lemma next_bin i item ini j : iter_ok (CRIter i item ini) → i < bin_count h →
  tail item = [] → j = (if ini then i + 1 else i) →
  remaining (CRIter i item ini) = mjoin (drop (Z.to_nat j) (bins h)) ∧ 0 ≤ i ≤ j.
Proof.
  intros (H1 & _ & _) Hlt Ht ->. cbn in H1. unfold remaining. cbn [it_item it_bin it_initialized].
  destruct ini; [|split; [done|lia]]. split; [|lia].
  replace (Z.to_nat (i + 1)) with (S (Z.to_nat i)) by lia.
  by destruct item as [|x [|y l]].
Qed.

(** A step moves to the next item, or to the next bin. *)
Lemma iter_step_spec iter : iter_ok iter → it_bin iter < bin_count h →
  iter_ok (iter_step h iter) ∧ (iter_work (iter_step h iter) < iter_work iter)%nat ∧
  remaining iter =
    match it_item (iter_step h iter) with
    | [] => remaining (iter_step h iter)
    | item :: _ => item :: remaining (iter_step h iter)
    end.
Proof using Hlen.
  intros Hok Hlt. destruct iter as [i item ini]. cbn [it_bin] in Hlt.
  unfold iter_step. cbn [it_item it_bin it_initialized].
  destruct (tail item) as [|y l] eqn:Et; change (match item with [] => [] | _ :: r => r end)
    with (tail item); rewrite Et.
  - set (j := if ini then i + 1 else i).
    destruct (next_bin i item ini j Hok Hlt Et eq_refl) as [Hrem Hj].
    assert (Hmeas : (length (bins h) - Z.to_nat j < length (bins h) - Z.to_nat i + if ini then 0 else 1)%nat)
      by (unfold j; destruct ini; lia).
    clearbody j.
    destruct (Z.ltb_spec j (bin_count h)) as [Hj'|Hj'].
    + rewrite (drop_bins j), join_cons in Hrem by lia.
      unfold iter_ok, iter_work. rewrite Hrem. unfold remaining. cbn [it_item it_bin it_initialized].
      rewrite !length_app. split; [repeat split; (done || lia)|].
      split; [destruct (bin_at h j); cbn [length]; lia|by destruct (bin_at h j)].
    + rewrite drop_ge in Hrem by lia.
      unfold iter_ok, iter_work. rewrite Hrem. unfold remaining. cbn [it_item it_bin it_initialized app].
      rewrite drop_ge by lia. split; [repeat split; (done || lia)|].
      split; [cbn [length mjoin list_join]; lia|done].
  - destruct item as [|x item]; [done|]. cbn in Et. subst item.
    destruct Hok as (H1 & H2 & H3). destruct ini; [|by discriminate H2]. cbn in *.
    unfold iter_ok, iter_work, remaining. cbn [it_item it_bin it_initialized].
    split; [repeat split; (done || lia)|]. split; [cbn [length app]; lia|done].
Qed.

Lemma iter_keys_unfold fuel iter : iter_keys fuel pick h iter =
  if it_bin iter <? bin_count h then
    match fuel with
    | O => NoFuel
    | S fuel =>
        match it_item (iter_step h iter) with
        | item :: _ =>
            match pick (bi_key item) with
            | Some k => Ok (Some k, iter_step h iter)
            | None => iter_keys fuel pick h (iter_step h iter)
            end
        | [] => iter_keys fuel pick h (iter_step h iter)
        end
    end
  else Ok (None, iter).
Proof. by destruct fuel. Qed.

(** A call gives the first of the remaining keys that it looks for, and leaves
    the iterator behind it; or it says that there is none. *)
Lemma iter_keys_spec fuel iter : iter_ok iter → (iter_work iter ≤ fuel)%nat →
  ∃ r iter', iter_keys fuel pick h iter = Ok (r, iter') ∧ iter_ok iter' ∧
    (iter_work iter' ≤ iter_work iter)%nat ∧
    omap pick (bi_key <$> remaining iter) =
      match r with Some k => k :: omap pick (bi_key <$> remaining iter') | None => [] end.
Proof using Hlen.
  revert iter. induction fuel as [|fuel IH]; intros iter Hok Hfuel; rewrite iter_keys_unfold;
    (destruct (Z.ltb_spec (it_bin iter) (bin_count h)) as [Hlt|Hge];
      [destruct (iter_step_spec iter Hok Hlt) as (Hok' & Hw & Hrem)|]).
  - lia.
  - exists None, iter. split; [done|]. split; [done|]. split; [done|].
    destruct Hok as (H1 & H2 & H3). destruct (H3 Hge) as [Hi Hini].
    unfold remaining. rewrite Hi, Hini. by rewrite drop_ge by lia.
  - rewrite Hrem.
    destruct (IH (iter_step h iter) Hok' ltac:(lia)) as (r & iter' & Hr & Hok2 & Hw2 & Hrem2).
    destruct (it_item (iter_step h iter)) as [|item l].
    + exists r, iter'. split; [done|]. split; [done|]. split; [lia|]. done.
    + rewrite fmap_cons. cbn [omap list_omap]. destruct (pick (bi_key item)) as [k|] eqn:Ep.
      * exists (Some k), (iter_step h iter). split; [done|]. split; [done|]. split; [lia|]. done.
      * exists r, iter'. split; [done|]. split; [done|]. split; [lia|]. done.
  - exists None, iter. split; [done|]. split; [done|]. split; [done|].
    destruct Hok as (H1 & H2 & H3). destruct (H3 Hge) as [Hi Hini].
    unfold remaining. rewrite Hi, Hini. by rewrite drop_ge by lia.
Qed.
End iteration.

(** [while(!c_rhash_iter_..._keys(hash, &iter, &key))], the loop of the callers. *)
Fixpoint iterate {A} (fuel : nat) (next : c_rhash_iter_t → cres (option A * c_rhash_iter_t))
    (iter : c_rhash_iter_t) : cres (list A) :=
  match fuel with
  | O => NoFuel
  | S fuel =>
      r ← next iter;
      match fst r with
      | None => Ok []
      | Some k => ks ← iterate fuel next (snd r); Ok (k :: ks)
      end
  end.

Lemma iterate_spec {A} (pick : rkey → option A) h steps iter fuel :
  Z.of_nat (length (bins h)) = bin_count h → iter_ok h iter → (iter_work h iter ≤ steps)%nat →
  (length (omap pick (bi_key <$> remaining h iter)) < fuel)%nat →
  iterate fuel (iter_keys steps pick h) iter = Ok (omap pick (bi_key <$> remaining h iter)).
Proof.
  intros Hlen. revert iter. induction fuel as [|fuel IH]; intros iter Hok Hsteps Hfuel; [lia|].
  cbn [iterate].
  destruct (iter_keys_spec pick h Hlen steps iter Hok Hsteps) as (r & iter' & -> & Hok' & Hw & Hrem).
  rewrite Hrem in Hfuel |- *. cbn [mbind cres_bind fst snd]. destruct r as [k|]; [|done].
  cbn [length] in Hfuel. by rewrite IH by (done || lia).
Qed.

Lemma bins_bin_at h k : rh_ok h →
  k ∈ all_keys h ↔ k ∈ (bi_key <$> bin_at h (bin_idx h k)).
Proof.
  intros H. unfold all_keys. split.
  - intros (item & -> & (b & Hin & Hb)%list_elem_of_join)%list_elem_of_fmap.
    apply list_elem_of_lookup in Hb as [i Hi].
    assert (Hk : bi_key item ∈ (bi_key <$> b)) by (by apply list_elem_of_fmap_2).
    pose proof (rh_place h H i b _ Hi Hk) as Hidx. unfold bin_at. by rewrite Hidx, Hi.
  - intros (item & -> & Hin)%list_elem_of_fmap. apply list_elem_of_fmap_2.
    apply list_elem_of_join. exists (bin_at h (bin_idx h (bi_key item))). split; [done|].
    eapply list_elem_of_lookup_2. by apply bin_idx_lookup.
Qed.

(** Bins that hold keys of one index each have no key twice. *)
Lemma join_nodup (idx : rkey → nat) (bs : list bin) : ∀ n,
  (∀ i b, bs !! i = Some b → NoDup (bi_key <$> b)) →
  (∀ i b k, bs !! i = Some b → k ∈ (bi_key <$> b) → idx k = (n + i)%nat) →
  NoDup (bi_key <$> mjoin bs).
Proof.
  induction bs as [|b bs IH]; intros n Hn Hp; [constructor|].
  rewrite join_cons, fmap_app. apply NoDup_app. split; [by apply (Hn 0%nat)|]. split.
  - intros k Hk (item & -> & (b' & Hin & Hb')%list_elem_of_join)%list_elem_of_fmap.
    apply list_elem_of_lookup in Hb' as [i Hi].
    pose proof (Hp 0%nat b _ eq_refl Hk). pose proof (Hp (S i) b' (bi_key item) Hi) as E.
    rewrite E in * by (by apply list_elem_of_fmap_2). lia.
  - apply (IH (S n)).
    + intros i b' Hi. by apply (Hn (S i)).
    + intros i b' k Hi Hk. rewrite (Hp (S i) b' k Hi Hk). lia.
Qed.
Lemma all_keys_nodup h : rh_ok h → NoDup (all_keys h).
Proof.
  intros H. apply (join_nodup (λ k, Z.to_nat (bin_idx h k)) (bins h) 0).
  - apply (rh_nodup h H).
  - apply (rh_place h H).
Qed.

Lemma omap_length {A B} (f : A → option B) (l : list A) : (length (omap f l) ≤ length l)%nat.
Proof. induction l as [|x l IH]; [done|]. cbn. destruct (f x); cbn; lia. Qed.
Lemma omap_nodup {A B} (f : A → option B) (l : list A) :
  (∀ x x' y, f x = Some y → f x' = Some y → x = x') → NoDup l → NoDup (omap f l).
Proof.
  intros Hinj. induction 1 as [|x l Hx Hl IH]; [constructor|]. cbn.
  destruct (f x) as [y|] eqn:E; [|done]. constructor; [|done].
  rewrite list_elem_of_omap. intros (x' & Hx' & E'). by rewrite (Hinj x x' y E E') in Hx.
Qed.

Lemma iterate_all {A} (pick : rkey → option A) (wrap : A → rkey) h m fuel :
  (∀ k x, pick k = Some x ↔ k = wrap x) → represents_map h m →
  (length (all_keys h) + length (bins h) < fuel)%nat →
  ∃ ks, iterate fuel (iter_keys fuel pick h) iter_start = Ok ks ∧ NoDup ks ∧
    ∀ x, x ∈ ks ↔ is_Some (m !! wrap x).
Proof.
  intros Hpick [H Hm] Hfuel. exists (omap pick (all_keys h)).
  assert (Hrem : remaining h iter_start = mjoin (bins h)) by done.
  assert (Hl : length (all_keys h) = length (mjoin (bins h))) by (apply length_fmap).
  split; [|split].
  - rewrite (iterate_spec pick h fuel iter_start fuel (rh_length h H)).
    + by rewrite Hrem.
    + pose proof (rh_count h H). split; [done|]. split; [done|]. cbn. lia.
    + unfold iter_work. rewrite Hrem. cbn. lia.
    + rewrite Hrem. pose proof (omap_length pick (bi_key <$> mjoin (bins h))).
      rewrite length_fmap in *. lia.
  - apply omap_nodup; [|by apply all_keys_nodup]. intros k k' x ->%Hpick ->%Hpick. done.
  - intros x. rewrite list_elem_of_omap, <- Hm, find_elem, <- bins_bin_at by done. split.
    + by intros (k & Hk & ->%Hpick).
    + intros Hk. exists (wrap x). split; [done|]. by apply Hpick.
Qed.

(** C17. The iterators terminate and visit every key of their type once: the
    loop [while(!c_rhash_iter_str_keys(...))] over a table that stands for a map
    gives the string keys of the map without repetition, and the loop over
    [c_rhash_iter_uint64_keys()] its integer keys. *)
Theorem c_rhash_iterators_visit_once h m fuel : represents_map h m →
  (length (all_keys h) + length (bins h) < fuel)%nat →
  (∃ ks, iterate fuel (c_rhash_iter_str_keys fuel h) iter_start = Ok ks ∧ NoDup ks ∧
    ∀ s, s ∈ ks ↔ is_Some (m !! KStr s)) ∧
  (∃ ks, iterate fuel (c_rhash_iter_uint64_keys fuel h) iter_start = Ok ks ∧ NoDup ks ∧
    ∀ n, n ∈ ks ↔ is_Some (m !! KU64 n)).
Proof.
  intros Hr Hfuel. split; apply (iterate_all _ _ h m fuel); try done.
  - intros [s|n] x; split; congruence.
  - intros [s|n] x; split; congruence.
Qed.
Lemma c_rhash_iterators_visit_once_witness :
  ∃ h, c_rhash_insert_str_ptr (c_rhash_new 3) "a" 7 = Ok h ∧
  (∃ ks, iterate 5 (c_rhash_iter_str_keys 5 h) iter_start = Ok ks ∧ NoDup ks ∧
    ∀ s, s ∈ ks ↔ is_Some ((<[KStr "a" := VPtr 7]> ∅ : gmap rkey rval) !! KStr s)) ∧
  (∃ ks, iterate 5 (c_rhash_iter_uint64_keys 5 h) iter_start = Ok ks ∧ NoDup ks ∧
    ∀ n, n ∈ ks ↔ is_Some ((<[KStr "a" := VPtr 7]> ∅ : gmap rkey rval) !! KU64 n)).
Proof.
  destruct (insert_represents (c_rhash_new 3) ∅ (KStr "a") (VPtr 7)) as (h & Hh & Hr);
    [apply new_represents; lia|].
  exists h. split; [exact Hh|].
  apply (c_rhash_iterators_visit_once h (<[KStr "a" := VPtr 7]> ∅) 5 Hr).
  vm_compute in Hh. injection Hh as <-. cbn. lia.
Defined.
