(* ===== verification/WebBuffer.v ===== *)
(** * buffer.h, buffer.c: the growing text buffer

    [BUFFER] is the text buffer that libnetdata builds every answer and every
    line of its protocols in.  The file models the buffer itself, its block of
    memory included, with the functions that append text and numbers.  Every
    write is checked against the block.  The release build is modelled: the
    assertions of NETDATA_INTERNAL_CHECKS are not compiled, nor is
    BUFFER_JSON_ESCAPE_UTF. *)

From S2P Require Import Prelude CString Inlined Memory.
#[local] Open Scope string_scope.
#[local] Open Scope list_scope.
#[local] Open Scope Z_scope.

(** ** struct web_buffer *)

Definition BUFFER_JSON_MAX_DEPTH : nat := 32.
Definition BUFFER_QUOTE_MAX_SIZE : Z := 7.
Inductive BUFFER_JSON_NODE_TYPE : Set :=
| BUFFER_JSON_EMPTY | BUFFER_JSON_OBJECT | BUFFER_JSON_ARRAY.
Record BUFFER_JSON_NODE := JsonNode { jn_type : BUFFER_JSON_NODE_TYPE; jn_count : Z }.

Definition WB_CONTENT_CACHEABLE : Z := 1.
Definition WB_CONTENT_NO_CACHEABLE : Z := 2.
Definition CT_TEXT_PLAIN : Z := 2.
Definition CT_APPLICATION_JSON : Z := 1.

Record BUFFER_JSON := Json {
  j_key_quote : string;
  j_value_quote : string;
  j_depth : Z;
  j_options : Z;
  j_stack : list BUFFER_JSON_NODE;
}.
Record BUFFER := Buffer {
  wb_size : Z;
  wb_len : Z;
  wb_content_type : Z;
  wb_options : Z;
  wb_date : Z;
  wb_expires : Z;
  wb_statistics : option Z;
  wb_buffer : block;
  wb_json : BUFFER_JSON;
}.
Definition json_zero : BUFFER_JSON :=
  Json "" "" 0 0 (replicate BUFFER_JSON_MAX_DEPTH (JsonNode BUFFER_JSON_EMPTY 0)).

Definition set_size (n : Z) (b : BUFFER) : BUFFER := Buffer n (wb_len b) (wb_content_type b)
  (wb_options b) (wb_date b) (wb_expires b) (wb_statistics b) (wb_buffer b) (wb_json b).
Definition set_len (n : Z) (b : BUFFER) : BUFFER := Buffer (wb_size b) n (wb_content_type b)
  (wb_options b) (wb_date b) (wb_expires b) (wb_statistics b) (wb_buffer b) (wb_json b).
Definition set_headers (ct options date expires : Z) (b : BUFFER) : BUFFER :=
  Buffer (wb_size b) (wb_len b) ct options date expires (wb_statistics b) (wb_buffer b) (wb_json b).
Definition set_statistics (s : option Z) (b : BUFFER) : BUFFER := Buffer (wb_size b) (wb_len b)
  (wb_content_type b) (wb_options b) (wb_date b) (wb_expires b) s (wb_buffer b) (wb_json b).
Definition set_buffer (d : block) (b : BUFFER) : BUFFER := Buffer (wb_size b) (wb_len b)
  (wb_content_type b) (wb_options b) (wb_date b) (wb_expires b) (wb_statistics b) d (wb_json b).
Definition set_json (j : BUFFER_JSON) (b : BUFFER) : BUFFER := Buffer (wb_size b) (wb_len b)
  (wb_content_type b) (wb_options b) (wb_date b) (wb_expires b) (wb_statistics b) (wb_buffer b) j.

(** Writing bytes at an offset of [wb->buffer], and advancing [wb->len]. *)
Definition put_at (off : Z) (bytes : list ascii) : cst BUFFER unit := fun b =>
  match mem_write (wb_buffer b) off (Some <$> bytes) with
  | Ok d => Ok (tt, set_buffer d b)
  | UB k => UB k
  | NoFuel => NoFuel
  end.
Definition advance_len (n : Z) : cst BUFFER unit := cmodify (λ b, set_len (u32 (wb_len b + n)) b).
(** [wb->buffer[wb->len] = '\0'] *)
Definition terminate : cst BUFFER unit := b ← cget; put_at (wb_len b) [NUL].

(** ** Creation and growth *)

(** [sizeof(BUFFER_OVERFLOW_EOF) + 2] *)
Definition EOF_ROOM : Z := 6.
Definition buffer_no_cacheable (b : BUFFER) : BUFFER :=
  let options := Z.lor (wb_options b) WB_CONTENT_NO_CACHEABLE in
  let options := if Z.land options WB_CONTENT_CACHEABLE =? 0 then options
                 else Z.land options (Z.lnot WB_CONTENT_CACHEABLE) in
  set_headers (wb_content_type b) options (wb_date b) 0 b.

Definition buffer_overflow_init : cst BUFFER unit :=
  b ← cget;
  _ ← put_at (wb_size b) [NUL];
  put_at (wb_size b + 1) ["E"; "O"; "F"; NUL]%char.

Definition SIZEOF_BUFFER : Z := 200.
Definition buffer_create (size : Z) (statistics : option Z) : cres BUFFER :=
  let size := if size =? 0 then 1024 - 4 - 2 else u64 (size + 1) in
  let b := Buffer (u32 size) 0 CT_TEXT_PLAIN 0 0 0 statistics
             (mallocz (u64 (size + EOF_ROOM))) json_zero in
  r ← (_ ← put_at 0 [NUL];
       _ ← cmodify buffer_no_cacheable;
       _ ← buffer_overflow_init;
       cmodify (λ b, set_statistics
         ((λ s, u64 (s + wb_size b + SIZEOF_BUFFER + EOF_ROOM)) <$> wb_statistics b) b)) b;
  Ok (snd r).
(** The statistics after the buffer is freed. *)
Definition buffer_free (b : BUFFER) : option Z :=
  (λ s, u64 (s - (wb_size b + SIZEOF_BUFFER + EOF_ROOM))) <$> wb_statistics b.

(** [reallocz()]: the bytes that fit are kept, the others are not initialised. *)
Definition reallocz (d : block) (n : Z) : block :=
  take (Z.to_nat n) d ++ replicate (Z.to_nat n - length d) None.
Definition buffer_increase (free_size_required : Z) : cst BUFFER unit :=
  b ← cget;
  let remaining := u32 (wb_size b - wb_len b) in
  if free_size_required <=? remaining then mret tt
  else
    let increase := free_size_required - remaining in
    let minimum := 1024 in
    let increase := if increase <? minimum then minimum else increase in
    let optimal := if 5 * 1024 * 1024 <? wb_size b then wb_size b / 2 else wb_size b in
    let increase := if increase <? optimal then optimal else increase in
    _ ← cput (set_statistics ((λ s, u64 (s + increase)) <$> wb_statistics b)
               (set_size (u32 (wb_size b + increase))
                 (set_buffer (reallocz (wb_buffer b) (u64 (wb_size b + increase + EOF_ROOM))) b)));
    buffer_overflow_init.

Definition buffer_need_bytes (needed_free_size : Z) : cst BUFFER unit :=
  b ← cget;
  if wb_size b <=? u64 (wb_len b + needed_free_size)
  then buffer_increase (u64 (needed_free_size + 1)) else mret tt.

Definition buffer_flush : cst BUFFER unit :=
  _ ← cmodify (λ b, set_json
        (Json (j_key_quote (wb_json b)) (j_value_quote (wb_json b)) 0 (j_options (wb_json b))
          (<[0%nat := JsonNode BUFFER_JSON_EMPTY 0]> (j_stack (wb_json b)))) (set_len 0 b));
  put_at 0 [NUL].
Definition buffer_reset : cst BUFFER unit :=
  _ ← buffer_flush;
  cmodify (λ b, buffer_no_cacheable (set_headers CT_TEXT_PLAIN 0 0 0 b)).

(** ** Appending text *)

Definition chars (s : string) : list ascii := String.list_ascii_of_string s.
(** The bytes of a string in memory. *)
Definition cstr (s : string) : block := (Some <$> chars s) ++ [Some NUL].
(** [n] bytes from the start of a string. *)
Definition bytes_of (s : string) (n : Z) : cst BUFFER block := clift (mem_read (cstr s) 0 n).
Definition put_block (off : Z) (d : block) : cst BUFFER unit := fun b =>
  match mem_write (wb_buffer b) off d with
  | Ok d => Ok (tt, set_buffer d b)
  | UB k => UB k
  | NoFuel => NoFuel
  end.

Definition buffer_tostring : cst BUFFER unit := _ ← buffer_need_bytes 1; terminate.

Definition buffer_putc (c : ascii) : cst BUFFER unit :=
  _ ← buffer_need_bytes 2;
  b ← cget;
  _ ← put_at (wb_len b) [c];
  _ ← advance_len 1;
  terminate.

(** [buffer_fast_strcat()] and [buffer_fast_rawcat()], which differ in an
    assertion. *)
Definition buffer_fast_strcat (txt : option string) (len : Z) : cst BUFFER unit :=
  match txt with
  | None | Some EmptyString => mret tt
  | Some s =>
      if len =? 0 then mret tt
      else
        _ ← buffer_need_bytes (u64 (len + 1));
        d ← bytes_of s len;
        b ← cget;
        _ ← put_block (wb_len b) d;
        _ ← advance_len len;
        terminate
  end.
Definition buffer_fast_rawcat : option string → Z → cst BUFFER unit := buffer_fast_strcat.
Definition buffer_strncat (txt : option string) (len : Z) : cst BUFFER unit :=
  match txt with
  | None | Some EmptyString => mret tt
  | Some s =>
      _ ← buffer_need_bytes (u64 (len + 1));
      d ← bytes_of s len;
      b ← cget;
      _ ← put_block (wb_len b) d;
      _ ← advance_len len;
      terminate
  end.
(** [mem] is the block that is appended. *)
Definition buffer_memcat (mem : option block) (bytes : Z) : cst BUFFER unit :=
  match mem with
  | None => mret tt
  | Some m =>
      _ ← buffer_need_bytes (u64 (bytes + 1));
      d ← clift (mem_read m 0 bytes);
      b ← cget;
      _ ← put_block (wb_len b) d;
      _ ← advance_len bytes;
      terminate
  end.
Definition buffer_contents_replace (txt : block) (len : Z) : cst BUFFER unit :=
  _ ← cmodify (set_len 0);
  _ ← buffer_need_bytes (u64 (len + 1));
  d ← clift (mem_read txt 0 len);
  _ ← put_block 0 d;
  _ ← cmodify (set_len (u32 len));
  terminate.

(** The loop of a [strcat]: in each turn, [copy room t] are the bytes that are
    written to the room before the end of the buffer, and the text that is left.
    [need] and [slack] are the numbers of the loop. *)
Fixpoint strcat_loop (fuel : nat) (copy : Z → list ascii → list ascii * list ascii)
    (need slack : Z) (t : list ascii) : cst BUFFER unit :=
  match t with
  | [] => _ ← buffer_need_bytes 1; terminate
  | _ :: _ =>
      match fuel with
      | O => fun _ => NoFuel
      | S fuel =>
          _ ← buffer_need_bytes need;
          b ← cget;
          let '(d, t) := copy (wb_size b - slack - wb_len b) t in
          _ ← put_at (wb_len b) d;
          _ ← advance_len (Z.of_nat (length d));
          strcat_loop fuel copy need slack t
      end
  end.

(** [while( *t && d < e) *d++ = *t++;] *)
Fixpoint copy_plain (room : Z) (t : list ascii) : list ascii * list ascii :=
  match t with
  | [] => ([], [])
  | c :: t' =>
      if 0 <? room then let '(d, rest) := copy_plain (room - 1) t' in (c :: d, rest)
      else ([], t)
  end.
Definition buffer_strcat (txt : option string) : cst BUFFER unit :=
  match txt with
  | None | Some EmptyString => mret tt
  | Some s => strcat_loop (S (length (chars s))) copy_plain 100 0 (chars s)
  end.

(** ** JSON escapes *)

Definition hex_digit (n : Z) : ascii := default NUL (chars hex_digits !! Z.to_nat (Z.land n 15)).
(** The bytes written for a character. *)
Definition json_escape_char (c : ascii) : list ascii :=
  if code c <? 32 then
    "\"%char ::
    (if Ascii.eqb c "010" then ["n"]
     else if Ascii.eqb c "013" then ["r"]
     else if Ascii.eqb c "009" then ["t"]
     else if Ascii.eqb c "008" then ["b"]
     else if Ascii.eqb c "012" then ["f"]
     else ["u"; hex_digit (Z.shiftr (code c) 12); hex_digit (Z.shiftr (code c) 8);
           hex_digit (Z.shiftr (code c) 4); hex_digit (code c)])%char
  else if Ascii.eqb c "\" || Ascii.eqb c "034" then ["\"; c]%char
  else [c].
Fixpoint copy_json (room : Z) (t : list ascii) : list ascii * list ascii :=
  match t with
  | [] => ([], [])
  | c :: t' =>
      if 0 <? room then
        let e := json_escape_char c in
        let '(d, rest) := copy_json (room - Z.of_nat (length e)) t' in (e ++ d, rest)
      else ([], t)
  end.
Definition buffer_json_strcat (txt : option string) : cst BUFFER unit :=
  match txt with
  | None | Some EmptyString => mret tt
  | Some s => strcat_loop (S (length (chars s))) copy_json 110 10 (chars s)
  end.

(** A quote that ends the text is dropped, the others and backslashes escaped. *)
Fixpoint copy_quoted (room : Z) (t : list ascii) : list ascii * list ascii :=
  match t with
  | [] => ([], [])
  | c :: t' =>
      if 0 <? room then
        if Ascii.eqb c "034" && (match t' with [] => true | _ :: _ => false end)
        then copy_quoted room t'
        else
          let e := if Ascii.eqb c "\" || Ascii.eqb c "034" then ["\"; c]%char else [c] in
          let '(d, rest) := copy_quoted (room - Z.of_nat (length e)) t' in (e ++ d, rest)
      else ([], t)
  end.
Definition buffer_json_quoted_strcat (txt : option string) : cst BUFFER unit :=
  match txt with
  | None | Some EmptyString => mret tt
  | Some s =>
      let t := match chars s with c :: t => if Ascii.eqb c "034" then t else c :: t | [] => [] end in
      strcat_loop (S (length t)) copy_quoted 100 1 t
  end.

(** [buffer_strcat_htmlescape()]: a character that is not escaped is stored
    without a terminator. *)
Definition html_escape_char (c : ascii) : option string :=
  if Ascii.eqb c "&" then Some "&amp;"
  else if Ascii.eqb c "<" then Some "&lt;"
  else if Ascii.eqb c ">" then Some "&gt;"
  else if Ascii.eqb c "034" then Some "&quot;"
  else if Ascii.eqb c "/" then Some "&#x2F;"
  else if Ascii.eqb c "'" then Some "&#x27;"
  else None.
Fixpoint htmlescape_loop (t : list ascii) : cst BUFFER unit :=
  match t with
  | [] => mret tt
  | c :: t =>
      _ ← match html_escape_char c with
          | Some e => buffer_strcat (Some e)
          | None =>
              _ ← buffer_need_bytes 1;
              b ← cget;
              _ ← put_at (wb_len b) [c];
              advance_len 1
          end;
      htmlescape_loop t
  end.
Definition buffer_strcat_htmlescape (txt : string) : cst BUFFER unit := htmlescape_loop (chars txt).

Definition buffer_char_replace (from to : ascii) : cst BUFFER unit :=
  b ← cget;
  d ← clift (mem_read (wb_buffer b) 0 (wb_len b));
  put_block 0 ((λ c, match c with Some c => Some (if Ascii.eqb c from then to else c) | None => None end)
                 <$> d).

Definition SN_FLAG_NOT_ANOMALOUS : Z := 2 ^ 24.
Definition SN_FLAG_RESET : Z := 2 ^ 25.
Definition SN_EMPTY_SLOT : Z := 2 ^ 26.
Definition buffer_print_sn_flags (flags : Z) (send_anomaly_bit : bool) : cst BUFFER unit :=
  if flags =? SN_EMPTY_SLOT then buffer_fast_strcat (Some "E") 1
  else
    let a := send_anomaly_bit && negb (Z.land flags SN_FLAG_NOT_ANOMALOUS =? 0) in
    let r := negb (Z.land flags SN_FLAG_RESET =? 0) in
    _ ← (if a then buffer_fast_strcat (Some "A") 1 else mret tt);
    _ ← (if r then buffer_fast_strcat (Some "R") 1 else mret tt);
    if negb a && negb r then buffer_fast_strcat (Some "''") 2 else mret tt.

Definition buffer_print_spaces (spaces : Z) : cst BUFFER unit :=
  _ ← buffer_need_bytes (u64 (spaces * 4 + 1));
  b ← cget;
  _ ← put_at (wb_len b) (replicate (4 * Z.to_nat spaces) " "%char);
  _ ← put_at (wb_len b + spaces * 4) [NUL];
  advance_len (spaces * 4).

(** ** Printing numbers *)

(** [do *d++ = '0' + value % 10; while((value /= 10));] *)
Fixpoint print_uint64_reversed (fuel : nat) (value : Z) : list ascii :=
  match fuel with
  | O => []
  | S fuel =>
      digit_char (value mod 10) ::
      (if value / 10 =? 0 then [] else print_uint64_reversed fuel (value / 10))
  end.
(** [do *d++ = digits[value & mask]; while((value >>= bits));] *)
Fixpoint print_radix_reversed (fuel : nat) (digits : string) (bits value : Z) : list ascii :=
  match fuel with
  | O => []
  | S fuel =>
      default NUL (chars digits !! Z.to_nat (Z.land value (2 ^ bits - 1))) ::
      (if Z.shiftr value bits =? 0 then []
       else print_radix_reversed fuel digits bits (Z.shiftr value bits))
  end.
(** A 64-bit value has at most 20 decimal, 16 hexadecimal and 11 base64 digits. *)
Definition print_uint32_reversed : Z → list ascii := print_uint64_reversed 10.
Definition print_uint64_hex_reversed : Z → list ascii := print_radix_reversed 16 hex_digits 4.
Definition print_uint64_base64_reversed : Z → list ascii := print_radix_reversed 11 base64_digits 6.
(** All sixteen digits. *)
Fixpoint print_hex_full (c : nat) (value : Z) : list ascii :=
  match c with
  | O => []
  | S c => hex_digit value :: print_hex_full c (Z.shiftr value 4)
  end.
Definition print_uint64_hex_reversed_full : Z → list ascii := print_hex_full 16.

(** [while (end > begin) aux = *end, *end-- = *begin, *begin++ = aux;] *)
Fixpoint char_array_reverse (fuel : nat) (d : block) (begin end_ : Z) : cres block :=
  if begin <? end_ then
    match fuel with
    | O => NoFuel
    | S fuel =>
        aux ← mem_read d end_ 1;
        x ← mem_read d begin 1;
        d ← mem_write d end_ x;
        d ← mem_write d begin aux;
        char_array_reverse fuel d (begin + 1) (end_ - 1)
    end
  else Ok d.

(** Reversed digits at [off], turned around and terminated: the number of
    characters. *)
Definition print_reversed (off : Z) (rev_digits : list ascii) : cst BUFFER Z :=
  let n := Z.of_nat (length rev_digits) in
  _ ← put_at off rev_digits;
  b ← cget;
  d ← clift (char_array_reverse (length rev_digits) (wb_buffer b) off (off + n - 1));
  _ ← cput (set_buffer d b);
  _ ← put_at (off + n) [NUL];
  mret n.

Definition print_uint64 (off value : Z) : cst BUFFER Z :=
  print_reversed off (print_uint64_reversed 20 value).
(** [-value] overflows for the smallest value. *)
Definition negate64 (value : Z) : cst BUFFER Z :=
  if value =? - 2 ^ 63 then cfail UB_overflow else mret (- value).
Definition print_int64 (off value : Z) : cst BUFFER Z :=
  if value <? 0 then
    _ ← put_at off ["-"%char];
    value ← negate64 value;
    n ← print_uint64 (off + 1) value;
    mret (n + 1)
  else print_uint64 off value.

Definition UINT64_MAX_LENGTH : Z := 24.
Definition buffer_print_uint64 (value : Z) : cst BUFFER unit :=
  _ ← buffer_need_bytes UINT64_MAX_LENGTH;
  b ← cget;
  n ← print_uint64 (wb_len b) value;
  advance_len n.
Definition buffer_print_int64 (value : Z) : cst BUFFER unit :=
  _ ← buffer_need_bytes UINT64_MAX_LENGTH;
  b ← cget;
  n ← print_int64 (wb_len b) value;
  advance_len n.

Definition HEX_PREFIX : string := "0x".
Definition IEEE754_UINT64_B64_PREFIX : string := "#".
Definition UINT64_HEX_MAX_LENGTH : Z := 2 + 16 + 1.
Definition UINT64_B64_MAX_LENGTH : Z := 1 + 16 + 1.
Definition print_uint64_hex (off value : Z) : cst BUFFER Z :=
  _ ← put_at off (chars HEX_PREFIX);
  n ← print_reversed (off + 2) (print_uint64_hex_reversed value);
  mret (n + 2).
Definition print_uint64_hex_full (off value : Z) : cst BUFFER Z :=
  _ ← put_at off (chars HEX_PREFIX);
  n ← print_reversed (off + 2) (print_uint64_hex_reversed_full value);
  mret (n + 2).
Definition buffer_print_uint64_hex (value : Z) : cst BUFFER unit :=
  _ ← buffer_need_bytes UINT64_HEX_MAX_LENGTH;
  b ← cget;
  n ← print_uint64_hex (wb_len b) value;
  advance_len n.
Definition buffer_print_uint64_hex_full (value : Z) : cst BUFFER unit :=
  _ ← buffer_need_bytes UINT64_HEX_MAX_LENGTH;
  b ← cget;
  n ← print_uint64_hex_full (wb_len b) value;
  advance_len n.
Definition buffer_print_uint64_base64 (value : Z) : cst BUFFER unit :=
  _ ← buffer_need_bytes UINT64_B64_MAX_LENGTH;
  _ ← buffer_fast_strcat (Some IEEE754_UINT64_B64_PREFIX) 1;
  b ← cget;
  n ← print_reversed (wb_len b) (print_uint64_base64_reversed value);
  advance_len n.
Definition buffer_print_int64_hex (value : Z) : cst BUFFER unit :=
  _ ← buffer_need_bytes 2;
  if value <? 0 then
    _ ← buffer_putc "-";
    value ← negate64 value;
    buffer_print_uint64_hex value
  else buffer_print_uint64_hex value.
Definition buffer_print_int64_base64 (value : Z) : cst BUFFER unit :=
  _ ← buffer_need_bytes 2;
  if value <? 0 then
    _ ← buffer_putc "-";
    value ← negate64 value;
    buffer_print_uint64_base64 value
  else buffer_print_uint64_base64 value.

Inductive NUMBER_ENCODING : Set :=
| NUMBER_ENCODING_DECIMAL | NUMBER_ENCODING_HEX | NUMBER_ENCODING_BASE64.
Definition buffer_print_int64_encoded (encoding : NUMBER_ENCODING) (value : Z) : cst BUFFER unit :=
  match encoding with
  | NUMBER_ENCODING_BASE64 => buffer_print_int64_base64 value
  | NUMBER_ENCODING_HEX => buffer_print_int64_hex value
  | NUMBER_ENCODING_DECIMAL => buffer_print_int64 value
  end.
Definition buffer_print_uint64_encoded (encoding : NUMBER_ENCODING) (value : Z) : cst BUFFER unit :=
  match encoding with
  | NUMBER_ENCODING_BASE64 => buffer_print_uint64_base64 value
  | NUMBER_ENCODING_HEX => buffer_print_uint64_hex value
  | NUMBER_ENCODING_DECIMAL => buffer_print_uint64 value
  end.

(** The text of a buffer. *)
Definition contents (b : BUFFER) : option (list ascii) :=
  mapM id (take (Z.to_nat (wb_len b)) (wb_buffer b)).
