(* ===== verification/WebBufferSpec.v ===== *)
(** * Correctness of the text buffer

    [text b s]: the buffer holds the text [s], terminated, with the marker
    behind its room intact.  Every function appends what it says, and writes
    inside the block only, as long as the text stays below 1 GiB. *)

From S2P Require Import Prelude CString Inlined Memory WebBuffer.
#[local] Open Scope string_scope.
#[local] Open Scope list_scope.
#[local] Open Scope Z_scope.

(** ** The invariant *)

Definition LIMIT : Z := 2 ^ 30.
(** The bytes behind the room of the buffer: "\0EOF\0". *)
Definition marker (m : block) : Prop :=
  ∃ x, m = [Some NUL; Some "E"; Some "O"; Some "F"; Some NUL; x]%char.

(** [s] is stored, [rest] is the room behind it. *)
Record holding (b : BUFFER) (s : list ascii) (rest : block) : Prop := {
  hd_len : wb_len b = len s;
  hd_size : wb_size b = len s + len rest;
  hd_range : wb_size b < 2 ^ 32;
  hd_data : ∃ m, wb_buffer b = (Some <$> s) ++ rest ++ m ∧ marker m;
}.
Definition text (b : BUFFER) (s : list ascii) : Prop :=
  ∃ rest, holding b s (Some NUL :: rest).
(** Everything but the size and the bytes. *)
Record same_meta (b b' : BUFFER) : Prop := {
  sm_headers : (wb_content_type b', wb_options b', wb_date b', wb_expires b') =
               (wb_content_type b, wb_options b, wb_date b, wb_expires b);
  sm_json : wb_json b' = wb_json b;
}.
#[global] Instance same_meta_preorder : PreOrder same_meta.
Proof. split; [by split|]. intros b1 b2 b3 [] []. split; congruence. Qed.

Lemma len_marker m : marker m → len m = 6.
Proof. by intros [x ->]. Qed.
Lemma len_replicate {A} n (x : A) : len (replicate n x) = Z.of_nat n.
Proof. unfold len. by rewrite length_replicate. Qed.
Lemma len_cons {A} (x : A) l : len (x :: l) = 1 + len l.
Proof. unfold len. cbn [length]. lia. Qed.

(** ** Writes *)

Lemma put_block_app b A B C D off : wb_buffer b = A ++ B ++ C → off = len A → len D = len B →
  put_block off D b = Ok (tt, set_buffer (A ++ D ++ C) b).
Proof. intros Hb Ho HD. unfold put_block. by rewrite Hb, mem_write_app. Qed.
Lemma put_at_block off d b : put_at off d b = put_block off (Some <$> d) b.
Proof. done. Qed.

(** Bytes behind the text, then the new length. *)
Lemma append_block b s rest D : holding b s rest → ∀ d, D = Some <$> d → len d ≤ len rest →
  ∃ b' rest', put_block (wb_len b) D b = Ok (tt, b') ∧ same_meta b b' ∧
    wb_len b' = wb_len b ∧ holding (set_len (u32 (wb_len b' + len d)) b') (s ++ d) rest' ∧
    len rest' = len rest - len d ∧
    (∀ r1 r2, rest = r1 ++ r2 → len r1 = len d → rest' = r2).
Proof.
  intros [Hl Hs Hr (m & Hd & Hm)] d -> Hlen. pose proof (len_nonneg d). pose proof (len_nonneg s).
  destruct (split_at rest (len d)) as (r1 & r2 & -> & Hr1); [lia|].
  rewrite (put_block_app b (Some <$> s) r1 (r2 ++ m) (Some <$> d)).
  - eexists _, r2. split; [done|]. split; [by split|]. split; [done|]. split; [|split].
    + pose proof (len_nonneg r2). lens.
      split; cbn [wb_len wb_size wb_buffer set_len set_buffer]; try (lens; lia).
      * rewrite wrap_u_id by lia. lens. lia.
      * exists m. split; [|done]. rewrite fmap_app, <- app_assoc. done.
    + lens. lia.
    + intros x1 x2 E Hx. apply app_inj_1 in E as [_ ->]; [done|]. unfold len in *. lia.
  - by rewrite Hd, <- app_assoc.
  - by rewrite len_fmap.
  - by rewrite len_fmap.
Qed.

Lemma terminate_spec b s rest : holding b s rest → 0 < len rest → ∃ b',
  terminate b = Ok (tt, b') ∧ same_meta b b' ∧ text b' s ∧ wb_size b' = wb_size b.
Proof.
  intros [Hl Hs Hr (m & Hd & Hm)] Hlen. destruct rest as [|x rest]; [done|].
  unfold terminate. rewrite bind_get, put_at_block.
  rewrite (put_block_app b (Some <$> s) [x] (rest ++ m)); [|done|by rewrite len_fmap|done].
  eexists. split; [done|]. split; [by split|]. split; [|done].
  exists rest. split; try done. by exists m.
Qed.

(** ** Growth *)

Lemma overflow_init_spec b A rest x0 x1 x2 x3 x4 x5 : wb_size b = len A + len rest →
  wb_buffer b = A ++ rest ++ [x0; x1; x2; x3; x4; x5] → ∃ b',
  buffer_overflow_init b = Ok (tt, b') ∧ same_meta b b' ∧ wb_len b' = wb_len b ∧
  wb_size b' = wb_size b ∧ wb_statistics b' = wb_statistics b ∧
  ∃ m, wb_buffer b' = A ++ rest ++ m ∧ marker m.
Proof.
  intros Hs Hd. unfold buffer_overflow_init. rewrite bind_get, bind_run, put_at_block.
  rewrite (put_block_app b (A ++ rest) [x0] [x1; x2; x3; x4; x5]);
    [|by rewrite Hd, <- app_assoc|by lens|done].
  rewrite put_at_block, (put_block_app _ ((A ++ rest) ++ [Some NUL]) [x1; x2; x3; x4] [x5]).
  - eexists. split; [done|]. split; [by split|]. do 3 (split; [done|]).
    eexists. split; [by rewrite <- !app_assoc|]. by exists x5.
  - cbn. by rewrite <- !app_assoc.
  - lens. rewrite Hs. done.
  - done.
Qed.

Lemma reallocz_grow (d : block) n : len d ≤ n → reallocz d n = d ++ mallocz (n - len d).
Proof.
  intros Hn. unfold reallocz, mallocz, len in *. rewrite take_ge by lia. do 2 f_equal. lia.
Qed.
Lemma mallocz_last6 n : 6 ≤ n → mallocz n = mallocz (n - 6) ++ [None; None; None; None; None; None].
Proof.
  intros Hn. unfold mallocz. replace (Z.to_nat n) with (Z.to_nat (n - 6) + 6)%nat by lia.
  by rewrite replicate_add.
Qed.

Lemma increase_spec n b s rest : holding b s rest → 0 ≤ n → len s + n < LIMIT → ∃ b' more,
  buffer_increase (n + 1) b = Ok (tt, b') ∧ same_meta b b' ∧ holding b' s (rest ++ more) ∧
  (wb_size b ≤ len s + n → len s + n < wb_size b').
Proof.
  intros [Hl Hs Hr (m & Hd & Hm)] Hn Hlim. unfold LIMIT in Hlim.
  pose proof (len_nonneg s). pose proof (len_nonneg rest). unfold buffer_increase. rewrite bind_get.
  rewrite Hl, Hs, (wrap_u_id 32) by lia. replace (len s + len rest - len s) with (len rest) by lia.
  destruct (Z.leb_spec (n + 1) (len rest)).
  { exists b, []. rewrite app_nil_r. split; [done|]. split; [done|]. split; [split; eauto|lia]. }
  cbv zeta. set (inc := if _ <? (if _ <? _ then _ / 2 else _) then _ else _).
  assert (Hinc : 1024 ≤ inc ∧ n + 1 - len rest ≤ inc ∧ inc ≤ 2 ^ 30 + 1024).
  { unfold inc. assert (0 ≤ (len s + len rest) / 2 ≤ len s + len rest).
    { split; [apply Z.div_pos; lia|apply Z.div_le_upper_bound; lia]. }
    repeat (case_match; match goal with H : (_ <? _) = _ |- _ =>
      first [apply Z.ltb_lt in H | apply Z.ltb_ge in H] end); lia. }
  clearbody inc. rewrite (wrap_u_id 32), (wrap_u_id 64) by (unfold EOF_ROOM; lia).
  erewrite cst_bind_Ok by reflexivity.
  pose proof (len_marker m Hm) as Hm6.
  assert (Hre : reallocz (wb_buffer b) (len s + len rest + inc + EOF_ROOM) =
    (Some <$> s) ++ (rest ++ m ++ mallocz (inc - 6)) ++ [None; None; None; None; None; None]).
  { rewrite reallocz_grow by (rewrite Hd; unfold EOF_ROOM; lens; lia). rewrite Hd.
    lens. rewrite Hm6. unfold EOF_ROOM.
    replace (len s + len rest + inc + 6 - (len s + (len rest + 6))) with inc by lia.
    rewrite (mallocz_last6 inc) by lia. by rewrite <- !app_assoc. }
  destruct (overflow_init_spec (set_statistics ((λ s0, u64 (s0 + inc)) <$> wb_statistics b)
    (set_size (len s + len rest + inc) (set_buffer
      (reallocz (wb_buffer b) (len s + len rest + inc + EOF_ROOM)) b)))
    (Some <$> s) (rest ++ m ++ mallocz (inc - 6)) None None None None None None)
    as (b' & K1 & [Hh Hj] & K2 & K3 & _ & m' & K5 & K6).
  { cbn. lens. rewrite Hm6, len_mallocz by lia. lia. }
  { exact Hre. }
  exists b', (m ++ mallocz (inc - 6)). rewrite K1. split; [done|]. split; [by split|]. split.
  - cbn in K2, K3. split.
    + by rewrite K2.
    + rewrite K3. lens. rewrite Hm6, len_mallocz by lia. lia.
    + rewrite K3. lia.
    + by exists m'.
  - rewrite K3. cbn. lia.
Qed.

Lemma need_spec n b s rest : holding b s rest → 0 ≤ n → len s + n < LIMIT → ∃ b' more,
  buffer_need_bytes n b = Ok (tt, b') ∧ same_meta b b' ∧ holding b' s (rest ++ more) ∧
  len s + n < wb_size b'.
Proof.
  intros Hb Hn Hlim. pose proof Hb as [Hl Hs Hr _]. pose proof (len_nonneg s). unfold LIMIT in *.
  unfold buffer_need_bytes. rewrite bind_get, Hl, !(wrap_u_id 64) by lia.
  destruct (Z.leb_spec (wb_size b) (len s + n)).
  - destruct (increase_spec n b s rest Hb Hn Hlim) as (b' & more & H1 & H2 & H3 & H4).
    exists b', more. auto.
  - exists b, []. rewrite app_nil_r. done.
Qed.
(** The room after it. *)
Lemma need_room n b s rest : holding b s rest → 0 ≤ n → len s + n < LIMIT → ∃ b' rest',
  buffer_need_bytes n b = Ok (tt, b') ∧ same_meta b b' ∧ holding b' s rest' ∧ n < len rest'.
Proof.
  intros Hb Hn Hlim. destruct (need_spec n b s rest Hb Hn Hlim) as (b' & more & H1 & H2 & H3 & H4).
  exists b', (rest ++ more). split; [done|]. split; [done|]. split; [done|].
  pose proof (hd_size _ _ _ H3). lia.
Qed.

(** ** Appending *)

Lemma append_terminated b s rest d : holding b s rest → len d < len rest →
  ∃ b', same_meta b b' ∧ text b' (s ++ d) ∧
    (put_block (wb_len b) (Some <$> d) ≫= λ _, advance_len (len d) ≫= λ _, terminate) b = Ok (tt, b').
Proof.
  intros Hb Hlen.
  destruct (append_block b s rest _ Hb d eq_refl ltac:(lia)) as (b1 & rest1 & K1 & M1 & L1 & Hb1 & R1 & _).
  rewrite bind_run, K1. unfold advance_len. rewrite bind_modify.
  destruct (terminate_spec _ _ _ Hb1) as (b2 & K2 & M2 & T2 & _); [lia|].
  exists b2. split; [|done]. etrans; [exact M1|]. by destruct M2.
Qed.

(** Room for a few bytes more than the text, whatever the function asks for. *)
Definition SLACK : Z := 200.
Definition appends (m : cst BUFFER unit) (d : list ascii) : Prop :=
  ∀ b s, text b s → len s + len d + SLACK < LIMIT →
    ∃ b', m b = Ok (tt, b') ∧ text b' (s ++ d) ∧ same_meta b b'.

Lemma appends_ret : appends (mret tt) [].
Proof. intros b s Ht _. exists b. by rewrite app_nil_r. Qed.
Lemma appends_bind m1 m2 d1 d2 : appends m1 d1 → appends m2 d2 → appends (m1 ≫= λ _, m2) (d1 ++ d2).
Proof.
  intros H1 H2 b s Ht Hl. pose proof (len_nonneg d1). pose proof (len_nonneg d2). lens.
  destruct (H1 b s Ht) as (b1 & K1 & T1 & M1); [lia|].
  destruct (H2 b1 _ T1) as (b2 & K2 & T2 & M2); [lens; lia|].
  exists b2. rewrite bind_run, K1, app_assoc. split; [done|]. split; [done|]. by etrans.
Qed.
Lemma appends_need n m d : 0 ≤ n ≤ SLACK → appends m d → appends (buffer_need_bytes n ≫= λ _, m) d.
Proof.
  intros Hn Hm b s [rest Hb] Hl. pose proof (len_nonneg d).
  destruct (need_spec n b s _ Hb) as (b1 & more & K1 & M1 & Hb1 & _); [lia|lia|].
  rewrite bind_run, K1. destruct (Hm b1 s) as (b2 & K2 & T2 & M2); [by eexists|lia|].
  exists b2. split; [done|]. split; [done|]. by etrans.
Qed.

Lemma appends_putc c : appends (buffer_putc c) [c].
Proof.
  intros b s [rest Hb] Hl. unfold SLACK in Hl. change (len [c]) with 1 in Hl. unfold buffer_putc.
  destruct (need_room 2 b s _ Hb) as (b1 & rest1 & K1 & M1 & Hb1 & R1); [lia|lia|].
  rewrite bind_run, K1, bind_get.
  destruct (append_terminated b1 s rest1 [c] Hb1) as (b2 & M2 & T2 & K2); [change (len [c]) with 1; lia|].
  exists b2. split; [exact K2|]. split; [done|]. by etrans.
Qed.

Lemma chars_length s : len (chars s) = Z.of_nat (String.length s).
Proof. unfold len, chars. f_equal. induction s as [|c s IH]; cbn; congruence. Qed.
Lemma read_cstr s : mem_read (cstr s) 0 (len (chars s)) = Ok (Some <$> chars s).
Proof. apply (mem_read_app [] (Some <$> chars s) [Some NUL]); [done|]. by rewrite len_fmap. Qed.

Lemma fast_cat_spec s b t rest : holding b t rest → len t + len (chars s) + SLACK < LIMIT →
  ∃ b', (buffer_need_bytes (u64 (len (chars s) + 1)) ≫= λ _, bytes_of s (len (chars s)) ≫= λ d,
         cget ≫= λ b, put_block (wb_len b) d ≫= λ _, advance_len (len (chars s)) ≫= λ _, terminate) b =
         Ok (tt, b') ∧ text b' (t ++ chars s) ∧ same_meta b b'.
Proof.
  intros Hb Hl. unfold LIMIT, SLACK in *. pose proof (len_nonneg (chars s)). pose proof (len_nonneg t).
  rewrite (wrap_u_id 64) by lia.
  destruct (need_room (len (chars s) + 1) b t _ Hb) as (b1 & rest1 & K1 & M1 & Hb1 & R1);
    [lia|unfold LIMIT; lia|].
  rewrite bind_run, K1, bind_run. unfold bytes_of. rewrite read_cstr. cbn [clift]. rewrite bind_get.
  destruct (append_terminated b1 t rest1 (chars s) Hb1) as (b2 & M2 & T2 & K2); [lia|].
  exists b2. split; [exact K2|]. split; [done|]. by etrans.
Qed.
Lemma appends_fast_strcat s : appends (buffer_fast_strcat (Some s) (len (chars s))) (chars s).
Proof.
  destruct s as [|c s]; [apply appends_ret|]. intros b t [rest Hb] Hl.
  unfold buffer_fast_strcat. rewrite (proj2 (Z.eqb_neq _ 0)); [by eapply fast_cat_spec|].
  rewrite chars_length. cbn. lia.
Qed.

(** *** The loops of [strcat] *)

(** [E t] is all that is written for the text [t]; a turn writes a first part
    of it, at most [slack] bytes more than the room. *)
Definition copies (copy : Z → list ascii → list ascii * list ascii) (E : list ascii → list ascii)
    (slack : Z) : Prop :=
  E [] = [] ∧ ∀ t room d rest, copy room t = (d, rest) →
    E t = d ++ E rest ∧ len d ≤ Z.max 0 (room + slack) ∧ (length rest ≤ length t)%nat ∧
    (0 < room → t ≠ [] → (length rest < length t)%nat).

Lemma strcat_loop_spec copy E need slack : copies copy E slack → 0 ≤ slack < need → need < SLACK →
  ∀ fuel t b s rest, holding b s rest → (length t < fuel)%nat →
  len s + len (E t) + SLACK < LIMIT → ∃ b',
    strcat_loop fuel copy need slack t b = Ok (tt, b') ∧ text b' (s ++ E t) ∧ same_meta b b'.
Proof.
  intros [E0 HE] Hslack Hneed. unfold SLACK, LIMIT in *.
  induction fuel as [|fuel IH]; intros t b s rest Hb Hf Hl; [lia|].
  destruct t as [|c t]; cbn [strcat_loop].
  - rewrite E0 in *. destruct (need_room 1 b s rest Hb) as (b1 & rest1 & K1 & M1 & Hb1 & R1);
      [lia|change (len []) with 0 in Hl; unfold LIMIT; lia|].
    rewrite bind_run, K1. destruct (terminate_spec b1 s rest1 Hb1) as (b2 & K2 & M2 & T2 & _); [lia|].
    exists b2. rewrite app_nil_r. split; [done|]. split; [done|]. by etrans.
  - pose proof (len_nonneg (E (c :: t))).
    destruct (need_room need b s rest Hb) as (b1 & rest1 & K1 & M1 & Hb1 & R1); [lia|unfold LIMIT; lia|].
    rewrite bind_run, K1, bind_get. pose proof Hb1 as [Hl1 Hs1 _ _].
    set (room := wb_size b1 - slack - wb_len b1).
    destruct (copy room (c :: t)) as [d t'] eqn:Ec.
    destruct (HE _ _ _ _ Ec) as (HEq & Hd & _ & Hlt). specialize (Hlt ltac:(unfold room; lia) ltac:(done)).
    assert (Hd' : len d ≤ len rest1) by (unfold room in Hd; lia).
    destruct (append_block b1 s rest1 _ Hb1 d eq_refl Hd') as (b2 & rest2 & K2 & M2 & L2 & Hb2 & _).
    rewrite bind_run, put_at_block, K2. unfold advance_len. rewrite bind_modify.
    destruct (IH t' _ (s ++ d) rest2 Hb2) as (b3 & K3 & T3 & M3).
    { cbn in Hf, Hlt. lia. }
    { rewrite HEq in Hl. lens. lia. }
    exists b3. split; [exact K3|]. split; [by rewrite HEq, app_assoc|].
    etrans; [exact M1|]. etrans; [exact M2|]. by destruct M3.
Qed.

Lemma copies_plain : copies copy_plain id 0.
Proof.
  split; [done|]. induction t as [|c t IH]; intros room d rest; cbn [copy_plain].
  { intros [= <- <-]. change (len []) with 0. repeat split; lia || done. }
  destruct (Z.ltb_spec 0 room).
  - destruct (copy_plain (room - 1) t) as [d' rest'] eqn:E. intros [= <- <-].
    destruct (IH _ _ _ E) as (H1 & H2 & H3 & _). unfold id in *. rewrite len_cons. cbn [length].
    split; [by rewrite H1|]. lia.
  - intros [= <- <-]. change (len []) with 0. cbn [length]. repeat split; lia || done.
Qed.
(** A loop that writes [esc c] for each character. *)
Definition escape (esc : ascii → list ascii) (t : list ascii) : list ascii := t ≫= esc.
Lemma copies_json : copies copy_json (escape json_escape_char) 5.
Proof.
  assert (He : ∀ c, 1 ≤ len (json_escape_char c) ≤ 6).
  { intros c. unfold json_escape_char, len. repeat case_match; cbn; lia. }
  split; [done|]. induction t as [|c t IH]; intros room d rest; cbn [copy_json].
  { intros [= <- <-]. change (len []) with 0. repeat split; lia || done. }
  destruct (Z.ltb_spec 0 room).
  - destruct (copy_json _ t) as [d' rest'] eqn:E. intros [= <- <-].
    destruct (IH _ _ _ E) as (H1 & H2 & H3 & _). fold (len (json_escape_char c)) in H2.
    unfold escape in *. rewrite bind_cons, H1, app_assoc. lens. specialize (He c). cbn [length].
    repeat split; lia || done.
  - intros [= <- <-]. change (len []) with 0. cbn [length]. repeat split; lia || done.
Qed.

Lemma appends_strcat s : appends (buffer_strcat (Some s)) (chars s).
Proof.
  destruct s as [|c s]; [apply appends_ret|]. intros b t [rest Hb] Hl.
  apply (strcat_loop_spec _ _ _ _ copies_plain) with (rest := Some NUL :: rest);
    (done || (unfold SLACK in *; lia)).
Qed.
Lemma appends_json_strcat s : appends (buffer_json_strcat (Some s)) (escape json_escape_char (chars s)).
Proof.
  destruct s as [|c s]; [apply appends_ret|]. intros b t [rest Hb] Hl.
  apply (strcat_loop_spec copy_json _ 110 10) with (rest := Some NUL :: rest);
    try (done || (unfold SLACK in *; lia)).
  destruct copies_json as [E0 HE]. split; [done|]. intros t' room d rest' H.
  destruct (HE t' room d rest' H) as (H1 & H2 & H3 & H4). repeat split; (done || lia).
Qed.

Definition quote_escape (c : ascii) : list ascii :=
  if Ascii.eqb c "\" || Ascii.eqb c "034" then ["\"; c]%char else [c].
Fixpoint quoted_text (t : list ascii) : list ascii :=
  match t with
  | [] => []
  | c :: t' =>
      if Ascii.eqb c "034" && (match t' with [] => true | _ :: _ => false end) then []
      else quote_escape c ++ quoted_text t'
  end.
Lemma copies_quoted : copies copy_quoted quoted_text 1.
Proof.
  assert (He : ∀ c, 1 ≤ len (quote_escape c) ≤ 2).
  { intros c. unfold quote_escape, len. case_match; cbn; lia. }
  split; [done|]. induction t as [|c t IH]; intros room d rest; cbn [copy_quoted].
  { intros [= <- <-]. change (len []) with 0. repeat split; lia || done. }
  destruct (Z.ltb_spec 0 room).
  - destruct (Ascii.eqb c "034" && _) eqn:Eq; cbn [quoted_text]; rewrite Eq.
    + assert (t = []) as -> by (destruct t; [done|by rewrite andb_false_r in Eq]).
      cbn [copy_quoted quoted_text length]. intros [= <- <-]. change (len []) with 0. split; [done|]. split; [lia|]. split; [cbn; lia|]. cbn; lia.
    + fold (quote_escape c). destruct (copy_quoted _ t) as [d' rest'] eqn:E. intros [= <- <-].
      destruct (IH _ _ _ E) as (H1 & H2 & H3 & _). fold (len (quote_escape c)) in H2.
      rewrite H1, app_assoc. lens. specialize (He c). cbn [length]. repeat split; lia || done.
  - intros [= <- <-]. change (len []) with 0. cbn [length]. repeat split; lia || done.
Qed.
Definition unquoted (t : list ascii) : list ascii :=
  match t with c :: t' => if Ascii.eqb c "034" then t' else t | [] => [] end.
Lemma appends_json_quoted s : appends (buffer_json_quoted_strcat (Some s)) (quoted_text (unquoted (chars s))).
Proof.
  destruct s as [|c s]; [apply appends_ret|]. intros b t [rest Hb] Hl.
  set (u := unquoted (chars (String c s))) in *.
  change (buffer_json_quoted_strcat (Some (String c s)))
    with (strcat_loop (S (length u)) copy_quoted 100 1 u).
  apply (strcat_loop_spec copy_quoted quoted_text 100 1) with (rest := Some NUL :: rest);
    (done || apply copies_quoted || (unfold SLACK in *; lia)).
Qed.

Lemma appends_spaces n : 0 ≤ n < 2 ^ 30 →
  appends (buffer_print_spaces n) (replicate (4 * Z.to_nat n) " "%char).
Proof.
  intros Hn b s [rest Hb] Hl. unfold buffer_print_spaces.
  assert (Hrl : len (replicate (4 * Z.to_nat n) " "%char) = n * 4) by (rewrite len_replicate; lia).
  rewrite Hrl in Hl. unfold SLACK in Hl. pose proof (len_nonneg s).
  rewrite (wrap_u_id 64) by lia.
  destruct (need_room (n * 4 + 1) b s _ Hb) as (b1 & rest1 & K1 & M1 & Hb1 & R1); [lia|lia|].
  rewrite bind_run, K1, bind_get.
  assert (Hd : len (replicate (4 * Z.to_nat n) " "%char) ≤ len rest1) by lia.
  destruct (append_block b1 s rest1 _ Hb1 (replicate (4 * Z.to_nat n) " "%char) eq_refl Hd)
    as (b2 & rest2 & K2 & M2 & L2 & Hb2 & R2 & _).
  rewrite bind_run, put_at_block, K2. unfold advance_len. rewrite Hrl in *.
  destruct (terminate_spec _ _ _ Hb2) as (b3 & K3 & M3 & T3 & S3); [lia|].
  assert (Hoff : u32 (wb_len b2 + n * 4) = wb_len b1 + n * 4).
  { rewrite L2. apply wrap_u_id. pose proof (hd_range _ _ _ Hb1). pose proof (hd_size _ _ _ Hb1).
    pose proof (hd_len _ _ _ Hb1). lia. }
  rewrite Hoff in K3. unfold terminate in K3. rewrite bind_get in K3.
  cbn [wb_len set_len] in K3. rewrite put_at_block in *. unfold put_block in K3 |- *.
  cbn [wb_buffer set_len] in K3. rewrite bind_run.
  destruct (mem_write (wb_buffer b2) _ _) as [d| |] eqn:Ew; [|done..]. injection K3 as K3.
  exists b3. split; [|split; [done|]].
  - unfold put_at. rewrite Ew, <- K3. unfold cmodify. cbn [wb_len set_buffer]. by rewrite Hoff.
  - etrans; [exact M1|]. etrans; [exact M2|]. rewrite <- K3 in M3 |- *. by destruct M3.
Qed.

(** *** Numbers *)

(** Lengths of explicit lists. *)
Ltac count := unfold len in *; rewrite ?length_app in *; cbn [length] in *; rewrite ?length_app in *; cbn [length] in *; lia.

Lemma reverse_spec fuel : ∀ A M C off e, off = len A → e = len A + len M - 1 → (length M ≤ fuel)%nat →
  char_array_reverse fuel (A ++ M ++ C) off e = Ok (A ++ rev M ++ C).
Proof.
  induction fuel as [|fuel IH]; intros A M C off e -> -> Hf.
  { destruct M; [|cbn in Hf; lia]. cbn [char_array_reverse]. change (len []) with 0.
    destruct (Z.ltb_spec (len A) (len A + 0 - 1)); [lia|done]. }
  cbn [char_array_reverse]. destruct (Z.ltb_spec (len A) (len A + len M - 1)) as [Hlt|Hge].
  2: { destruct M as [|x [|y M]]; [done|done|]. rewrite !len_cons in Hge. pose proof (len_nonneg M). lia. }
  destruct M as [|x M]; [change (len []) with 0 in Hlt; lia|].
  destruct M as [|y M _] using rev_ind; [change (len [x]) with 1 in Hlt; lia|].
  rewrite len_cons, len_app. change (len [y]) with 1.
  assert (E1 : A ++ (x :: M ++ [y]) ++ C = (A ++ [x] ++ M) ++ [y] ++ C) by (cbn; by rewrite <- !app_assoc).
  set (e := len A + (1 + (len M + 1)) - 1).
  rewrite E1, (mem_read_app (A ++ [x] ++ M) [y] C e 1) by (unfold e; count).
  rewrite ok_bind.
  assert (E2 : (A ++ [x] ++ M) ++ [y] ++ C = A ++ [x] ++ M ++ [y] ++ C) by (by rewrite <- !app_assoc).
  rewrite E2, (mem_read_app A [x] _ (len A) 1) by done. rewrite ok_bind, <- E2.
  rewrite (mem_write_app (A ++ [x] ++ M) [y] C e [x]) by (unfold e; count).
  rewrite ok_bind. replace ((A ++ [x] ++ M) ++ [x] ++ C) with (A ++ [x] ++ M ++ [x] ++ C)
    by (by rewrite <- !app_assoc).
  rewrite (mem_write_app A [x] _ (len A) [y]) by done. rewrite ok_bind.
  replace (A ++ [y] ++ M ++ [x] ++ C) with ((A ++ [y]) ++ M ++ ([x] ++ C)) by (by rewrite <- !app_assoc).
  rewrite IH.
  - cbn [rev]. rewrite rev_app_distr. cbn. by rewrite <- !app_assoc.
  - count.
  - unfold e. count.
  - count.
Qed.

Lemma rev_fmap {A B} (f : A → B) l : rev (f <$> l) = f <$> rev l.
Proof. symmetry. apply List.map_rev. Qed.

(** [m off] writes [d] and its terminator at [off], and returns its length. *)
Definition writes (m : Z → cst BUFFER Z) (d : list ascii) : Prop :=
  ∀ b A B x C, wb_buffer b = A ++ B ++ x :: C → len B = len d →
    m (len A) b = Ok (len d, set_buffer (A ++ (Some <$> d) ++ Some NUL :: C) b).

Lemma writes_reversed ds : writes (λ off, print_reversed off ds) (rev ds).
Proof.
  intros b A B x C Hb HB. assert (Hr : len (rev ds) = len ds) by (unfold len; by rewrite length_rev).
  rewrite Hr in *. unfold print_reversed. rewrite bind_run, put_at_block.
  rewrite (put_block_app b A B (x :: C)) by (done || by rewrite len_fmap).
  rewrite bind_get, bind_run. cbn [wb_buffer set_buffer].
  rewrite (reverse_spec _ A (Some <$> ds) (x :: C)); [|done|by rewrite len_fmap|by rewrite length_fmap].
  cbn [clift]. erewrite cst_bind_Ok by reflexivity. rewrite bind_run, put_at_block.
  rewrite (put_block_app _ (A ++ rev (Some <$> ds)) [x] C).
  - cbn. rewrite rev_fmap, <- app_assoc. by destruct b.
  - cbn. by rewrite <- app_assoc.
  - unfold len. rewrite length_app, length_rev, length_fmap. lia.
  - done.
Qed.
(** A first part in front of a number. *)
Lemma writes_prefix pre m d : writes m d →
  writes (λ off, put_at off pre ≫= λ _, m (off + len pre) ≫= λ n, mret (n + len pre)) (pre ++ d).
Proof.
  intros Hm b A B x C Hb HB. rewrite len_app in HB. pose proof (len_nonneg pre). pose proof (len_nonneg d).
  destruct (split_at B (len pre)) as (B1 & B2 & -> & HB1); [lia|]. rewrite len_app in HB.
  rewrite bind_run, put_at_block, (put_block_app b A B1 (B2 ++ x :: C)).
  - rewrite bind_run. pose proof (Hm (set_buffer (A ++ (Some <$> pre) ++ B2 ++ x :: C) b)
      (A ++ (Some <$> pre)) B2 x C) as Hw. rewrite len_app, len_fmap in Hw.
    rewrite Hw; [|by rewrite <- app_assoc|lia]. cbn. rewrite fmap_app, len_app, <- !app_assoc.
    do 2 f_equal. by rewrite Z.add_comm.
  - by rewrite Hb, <- app_assoc.
  - done.
  - by rewrite len_fmap.
Qed.

Lemma write_advance b s rest m d : holding b s rest → len d < len rest → writes m d → ∃ b',
  (m (wb_len b) ≫= λ n, advance_len n) b = Ok (tt, b') ∧ text b' (s ++ d) ∧ same_meta b b'.
Proof.
  intros [Hl1 Hs1 Hr1 (mk & Hd1 & Hmk)] Hlen Hm. pose proof (len_nonneg d).
  destruct (split_at rest (len d)) as (r1 & r2 & -> & Hr); [lia|]. rewrite len_app in *.
  destruct r2 as [|x r2]; [change (len []) with 0 in Hlen; lia|]. rewrite len_cons in *.
  pose proof (len_nonneg r2). pose proof (len_nonneg s).
  pose proof (Hm b (Some <$> s) r1 x (r2 ++ mk)) as Hw. rewrite len_fmap in Hw.
  rewrite bind_run, Hl1, Hw; [|by rewrite Hd1, <- app_assoc|done].
  eexists. split; [done|]. split; [|by split]. exists r2.
  split; cbn [wb_len wb_size wb_buffer set_len set_buffer].
  - rewrite Hl1, wrap_u_id by lia. by lens.
  - rewrite Hs1, len_cons. lens. lia.
  - done.
  - exists mk. rewrite fmap_app, <- app_assoc. done.
Qed.
Lemma appends_writes need m d : len d < need ≤ SLACK → writes m d →
  appends (buffer_need_bytes need ≫= λ _, cget ≫= λ b, m (wb_len b) ≫= λ n, advance_len n) d.
Proof.
  intros Hneed Hm b s [rest Hb] Hl. pose proof (len_nonneg d).
  destruct (need_room need b s _ Hb) as (b1 & rest1 & K1 & M1 & Hb1 & R1); [lia|lia|].
  rewrite bind_run, K1, bind_get.
  destruct (write_advance b1 s rest1 m d Hb1) as (b2 & K2 & T2 & M2); [lia|done|].
  exists b2. split; [done|]. split; [done|]. by etrans.
Qed.
(** One character put with [buffer_fast_strcat()] where there is room. *)
Lemma fast_strcat_room b s rest c : holding b s rest → len s + 10 < LIMIT → 3 < len rest → ∃ b' rest',
  buffer_fast_strcat (Some (String c "")) 1 b = Ok (tt, b') ∧ holding b' (s ++ [c]) rest' ∧
  same_meta b b' ∧ len rest' = len rest - 1.
Proof.
  intros Hb Hl Hrest. pose proof Hb as [Hl1 Hs1 Hr1 _]. pose proof (len_nonneg s). unfold LIMIT in *.
  unfold buffer_fast_strcat. cbn [Z.eqb]. rewrite bind_run. unfold buffer_need_bytes.
  rewrite bind_get, Hl1, !(wrap_u_id 64) by (rewrite ?wrap_u_id; lia).
  destruct (Z.leb_spec (wb_size b) (len s + (1 + 1))); [lia|]. cbn [mret cst_ret].
  rewrite bind_run. change (bytes_of (String c "") 1 b) with (Ok ([Some c], b)). cbv iota beta.
  rewrite bind_get.
  destruct (append_block b s rest _ Hb [c] eq_refl) as (b1 & rest1 & K1 & M1 & L1 & Hb1 & R1 & _);
    [change (len [c]) with 1; lia|]. change (len [c]) with 1 in *.
  change (Some <$> [c]) with [Some c] in K1. rewrite bind_run, K1. unfold advance_len. rewrite bind_modify.
  destruct (terminate_spec _ _ _ Hb1) as (b2 & K2 & M2 & [rest2 T2] & S2); [lia|].
  exists b2, (Some NUL :: rest2). split; [exact K2|]. split; [done|].
  split; [etrans; [exact M1|by destruct M2]|].
  pose proof (hd_size _ _ _ T2). pose proof (hd_size _ _ _ Hb1). rewrite S2 in *. lia.
Qed.

(** The texts of the numbers. *)
Definition uint64_text (encoding : NUMBER_ENCODING) (n : Z) : list ascii :=
  match encoding with
  | NUMBER_ENCODING_DECIMAL => rev (print_uint64_reversed 20 n)
  | NUMBER_ENCODING_HEX => chars HEX_PREFIX ++ rev (print_uint64_hex_reversed n)
  | NUMBER_ENCODING_BASE64 => chars IEEE754_UINT64_B64_PREFIX ++ rev (print_uint64_base64_reversed n)
  end.
Definition int64_text (encoding : NUMBER_ENCODING) (n : Z) : list ascii :=
  if n <? 0 then "-"%char :: uint64_text encoding (- n) else uint64_text encoding n.

Lemma print_dec_length fuel : ∀ n, len (print_uint64_reversed fuel n) ≤ Z.of_nat fuel.
Proof.
  induction fuel as [|fuel IH]; intros n; cbn [print_uint64_reversed]; [done|].
  case_match; rewrite len_cons; [change (len []) with 0|specialize (IH (n / 10))]; lia.
Qed.
Lemma print_radix_length fuel ds k : ∀ n, len (print_radix_reversed fuel ds k n) ≤ Z.of_nat fuel.
Proof.
  induction fuel as [|fuel IH]; intros n; cbn [print_radix_reversed]; [done|].
  case_match; rewrite len_cons; [change (len []) with 0|specialize (IH (Z.shiftr n k))]; lia.
Qed.
Lemma len_rev {A} (l : list A) : len (rev l) = len l.
Proof. unfold len. by rewrite length_rev. Qed.

Lemma writes_uint64 n : writes (λ off, print_uint64 off n) (uint64_text NUMBER_ENCODING_DECIMAL n).
Proof. apply writes_reversed. Qed.
Lemma appends_uint64 e n : appends (buffer_print_uint64_encoded e n) (uint64_text e n).
Proof.
  destruct e; cbn [buffer_print_uint64_encoded uint64_text].
  - apply (appends_writes 24 (λ off, print_uint64 off n)); [|apply writes_uint64].
    rewrite len_rev. pose proof (print_dec_length 20 n). unfold SLACK. lia.
  - apply (appends_writes 19 (λ off, print_uint64_hex off n));
      [|apply (writes_prefix (chars HEX_PREFIX) (λ off, print_reversed off (print_uint64_hex_reversed n))),
        writes_reversed].
    rewrite len_app, len_rev. pose proof (print_radix_length 16 hex_digits 4 n).
    change (len (chars HEX_PREFIX)) with 2. unfold print_uint64_hex_reversed, SLACK. lia.
  - assert (H : len (rev (print_uint64_base64_reversed n)) ≤ 11)
      by (rewrite len_rev; apply print_radix_length).
    intros b s [rest Hb] Hl. unfold buffer_print_uint64_base64, SLACK in *.
    rewrite len_app in Hl. change (len (chars IEEE754_UINT64_B64_PREFIX)) with 1 in Hl.
    pose proof (len_nonneg (rev (print_uint64_base64_reversed n))).
    destruct (need_room UINT64_B64_MAX_LENGTH b s _ Hb) as (b1 & rest1 & K1 & M1 & Hb1 & R1);
      [done|unfold UINT64_B64_MAX_LENGTH; lia|]. unfold UINT64_B64_MAX_LENGTH in *.
    rewrite bind_run, K1.
    destruct (fast_strcat_room b1 s rest1 "#" Hb1) as (b2 & rest2 & K2 & Hb2 & M2 & R2); [lia|lia|].
    rewrite bind_run. unfold IEEE754_UINT64_B64_PREFIX. rewrite K2, bind_get.
    destruct (write_advance b2 _ rest2 (λ off, print_reversed off (print_uint64_base64_reversed n))
      (rev (print_uint64_base64_reversed n)) Hb2) as (b3 & K3 & T3 & M3);
      [lia|apply writes_reversed|].
    exists b3. split; [exact K3|]. rewrite <- app_assoc in T3. split; [exact T3|].
    etrans; [exact M1|]. by etrans.
Qed.

Lemma appends_int64 e n : - 2 ^ 63 < n → appends (buffer_print_int64_encoded e n) (int64_text e n).
Proof.
  intros Hn. assert (Hneg : ∀ b, negate64 n b = Ok (- n, b)).
  { intros b. unfold negate64. by rewrite (proj2 (Z.eqb_neq n _)) by lia. }
  assert (Hsign : ∀ m d, appends (m (- n)) d → appends (buffer_need_bytes 2 ≫= λ _, buffer_putc "-" ≫= λ _,
    negate64 n ≫= m) ("-"%char :: d)).
  { intros m d Hm. apply appends_need; [unfold SLACK; lia|].
    apply (appends_bind _ _ ["-"%char]); [apply appends_putc|]. intros b s Ht Hl.
    rewrite bind_run, Hneg. by apply Hm. }
  assert (Hplus : ∀ m d, appends m d → appends (buffer_need_bytes 2 ≫= λ _, m) d).
  { intros m d. apply appends_need. unfold SLACK. lia. }
  unfold int64_text. destruct e; cbn [buffer_print_int64_encoded].
  - unfold buffer_print_int64. destruct (n <? 0) eqn:En.
    + apply (appends_writes UINT64_MAX_LENGTH (λ off, print_int64 off n)).
      * rewrite len_cons. cbn [uint64_text]. rewrite len_rev.
        pose proof (print_dec_length 20 (- n)). unfold UINT64_MAX_LENGTH, SLACK. lia.
      * intros b A B x C Hb HB. unfold print_int64. rewrite En.
        pose proof (writes_prefix ["-"%char] _ _ (writes_uint64 (- n)) b A B x C Hb HB) as H.
        cbv beta in H. rewrite bind_run in H |- *. destruct (put_at _ _ _) as [[[] b1]| |]; [|done..].
        by rewrite bind_run, Hneg.
    + apply (appends_writes UINT64_MAX_LENGTH (λ off, print_int64 off n)).
      * cbn [uint64_text]. rewrite len_rev.
        pose proof (print_dec_length 20 n). unfold UINT64_MAX_LENGTH, SLACK. lia.
      * intros b A B x C Hb HB. unfold print_int64. rewrite En. exact (writes_uint64 n b A B x C Hb HB).
  - unfold buffer_print_int64_hex. destruct (n <? 0).
    + apply Hsign, (appends_uint64 NUMBER_ENCODING_HEX).
    + apply Hplus, (appends_uint64 NUMBER_ENCODING_HEX).
  - unfold buffer_print_int64_base64. destruct (n <? 0).
    + apply Hsign, (appends_uint64 NUMBER_ENCODING_BASE64).
    + apply Hplus, (appends_uint64 NUMBER_ENCODING_BASE64).
Qed.
