(* ===== verification/WebBufferThms.v ===== *)
(** * What the text buffer promises

    Every sequence of appends gives the concatenation of the texts; numbers in
    any of the encodings of the streaming protocol are read back by the
    parsers of inlined.h; escaped JSON strings can be unescaped. *)

From S2P Require Import Prelude CString Inlined Memory WebBuffer WebBufferSpec.
#[local] Open Scope string_scope.
#[local] Open Scope list_scope.
#[local] Open Scope Z_scope.

(** ** Creation *)

Lemma create_spec n stats : 0 ≤ n < 2 ^ 31 → ∃ b, buffer_create n stats = Ok b ∧ text b [] ∧ wb_json b = json_zero.
Proof.
  intros Hn. unfold buffer_create. set (size := if n =? 0 then 1024 - 4 - 2 else u64 (n + 1)).
  assert (Hsize : 0 < size ≤ 2 ^ 31).
  { unfold size. destruct (Z.eqb_spec n 0); [lia|]. rewrite wrap_u_id by lia. lia. }
  clearbody size. rewrite (wrap_u_id 32), (wrap_u_id 64) by (unfold EOF_ROOM; lia). cbv zeta.
  set (b0 := Buffer _ _ _ _ _ _ _ _ _).
  assert (Hm : mallocz (size + EOF_ROOM) = [] ++ [None] ++ mallocz (size - 1) ++ [None; None; None; None; None; None]).
  { rewrite (mallocz_last6 (size + EOF_ROOM)) by (unfold EOF_ROOM; lia). unfold EOF_ROOM, mallocz.
    replace (Z.to_nat (size + 6 - 6)) with (S (Z.to_nat (size - 1))) by lia. done. }
  rewrite bind_run, put_at_block, (put_block_app b0 [] [None] _ (Some <$> [NUL]) 0 Hm) by done.
  rewrite bind_modify, bind_run.
  match goal with |- context [buffer_overflow_init ?x] => set (b1 := x) end.
  destruct (overflow_init_spec b1 [] ([Some NUL] ++ mallocz (size - 1)) None None None None None None)
    as (b2 & K2 & [Hh Hj] & L2 & S2 & _ & m & D2 & Hmk).
  { change (wb_size b1) with size. lens. change (len [Some NUL]) with 1.
    rewrite len_mallocz by lia. lia. }
  { done. }
  rewrite K2. cbn -[mallocz]. eexists. split; [done|]. split; [|exact Hj]. exists (mallocz (size - 1)).
  split; cbn [wb_len wb_size wb_buffer set_statistics].
  - by rewrite L2.
  - rewrite S2, len_cons, len_mallocz by lia. change (wb_size b1) with size. lens. lia.
  - rewrite S2. change (wb_size b1) with size. lia.
  - exists m. done.
Qed.
Lemma create_text n stats : 0 ≤ n < 2 ^ 31 → ∃ b, buffer_create n stats = Ok b ∧ text b [].
Proof. intros Hn. destruct (create_spec n stats Hn) as (b & K & T & _). by exists b. Qed.
Lemma text_contents b s : text b s → contents b = Some s ∧
  wb_buffer b !! Z.to_nat (wb_len b) = Some (Some NUL).
Proof.
  intros (rest & [Hl _ _ (m & Hd & _)]). unfold contents. rewrite Hl, Hd. unfold len.
  rewrite Nat2Z.id. split.
  - rewrite take_app_length' by (by rewrite length_fmap). clear.
    apply mapM_Some, Forall2_fmap_l. induction s; by constructor.
  - rewrite lookup_app_r by (rewrite length_fmap; lia). by rewrite length_fmap, Nat.sub_diag.
Qed.

(** ** Sequences of appends *)

Inductive append : Type :=
| APutc (c : ascii) | AStrcat (s : string) | AFastStrcat (s : string) | AJson (s : string)
| AQuoted (s : string) | ASpaces (n : Z) | AUint64 (e : NUMBER_ENCODING) (n : Z)
| AInt64 (e : NUMBER_ENCODING) (n : Z).
Definition run_append (a : append) : cst BUFFER unit :=
  match a with
  | APutc c => buffer_putc c
  | AStrcat s => buffer_strcat (Some s)
  | AFastStrcat s => buffer_fast_strcat (Some s) (Z.of_nat (String.length s))
  | AJson s => buffer_json_strcat (Some s)
  | AQuoted s => buffer_json_quoted_strcat (Some s)
  | ASpaces n => buffer_print_spaces n
  | AUint64 e n => buffer_print_uint64_encoded e n
  | AInt64 e n => buffer_print_int64_encoded e n
  end.
Definition append_text (a : append) : list ascii :=
  match a with
  | APutc c => [c]
  | AStrcat s | AFastStrcat s => chars s
  | AJson s => escape json_escape_char (chars s)
  | AQuoted s => quoted_text (unquoted (chars s))
  | ASpaces n => replicate (4 * Z.to_nat n) " "%char
  | AUint64 e n => uint64_text e n
  | AInt64 e n => int64_text e n
  end.
(** The arguments are in the range of their C types; [-value] of the smallest
    [int64_t] overflows. *)
Definition append_ok (a : append) : Prop :=
  match a with
  | ASpaces n => 0 ≤ n < 2 ^ 30
  | AInt64 _ n => - 2 ^ 63 < n
  | _ => True
  end.
Fixpoint run_appends (l : list append) : cst BUFFER unit :=
  match l with [] => mret tt | a :: l => _ ← run_append a; run_appends l end.

Lemma appends_one a : append_ok a → appends (run_append a) (append_text a).
Proof.
  destruct a; cbn [append_ok run_append append_text]; intros Ha.
  - apply appends_putc.
  - apply appends_strcat.
  - rewrite <- chars_length. apply appends_fast_strcat.
  - apply appends_json_strcat.
  - apply appends_json_quoted.
  - by apply appends_spaces.
  - apply appends_uint64.
  - by apply appends_int64.
Qed.
Lemma appends_all l : Forall append_ok l → appends (run_appends l) (l ≫= append_text).
Proof.
  induction 1 as [|a l Ha _ IH]; [apply appends_ret|]. rewrite bind_cons.
  apply appends_bind; [by apply appends_one|done].
Qed.

(** C20. Every sequence of appends to a new buffer gives the concatenation of
    the texts, terminated by a NUL: whatever the size the buffer starts with and
    however often it grows, no write leaves the block, as long as the text stays
    below 1 GiB. *)
Theorem buffer_refines_text size stats l : 0 ≤ size < 2 ^ 31 → Forall append_ok l →
  len (l ≫= append_text) + SLACK < LIMIT →
  ∃ b0 b, buffer_create size stats = Ok b0 ∧ run_appends l b0 = Ok (tt, b) ∧
    contents b = Some (l ≫= append_text) ∧ wb_buffer b !! Z.to_nat (wb_len b) = Some (Some NUL).
Proof.
  intros Hs Hl Hlim. destruct (create_text size stats Hs) as (b0 & K0 & T0).
  destruct (appends_all l Hl b0 [] T0) as (b & K & T & _); [exact Hlim|].
  exists b0, b. split; [done|]. split; [done|]. by apply text_contents.
Qed.
Lemma buffer_refines_text_witness : ∃ b0 b, buffer_create 1 None = Ok b0 ∧
  run_appends [AStrcat "key:"; AUint64 NUMBER_ENCODING_BASE64 255; APutc " "; ASpaces 1] b0 = Ok (tt, b) ∧
  contents b = Some (chars "key:#D/     ") ∧
  wb_buffer b !! Z.to_nat (wb_len b) = Some (Some NUL).
Proof.
  apply (buffer_refines_text 1 None
    [AStrcat "key:"; AUint64 NUMBER_ENCODING_BASE64 255; APutc " "; ASpaces 1]); [lia| |done].
  repeat constructor; done.
Defined.

(** ** Numbers are read back *)

Definition str (l : list ascii) : string := String.string_of_list_ascii l.
Lemma str_chars s : str (chars s) = s.
Proof. apply String.string_of_list_ascii_of_string. Qed.

(** A table of digits and the table of their values. *)
Definition radix_ok (digits : string) (t : list Z) (k : Z) : Prop :=
  ∀ i, 0 ≤ i < 2 ^ k → ∃ c, chars digits !! Z.to_nat i = Some c ∧ ascii_map t c = i ∧
    isspace c = false.
Definition radix_okb (digits : string) (t : list Z) (k : Z) : bool :=
  forallb (λ i, match chars digits !! i with
                | Some c => (ascii_map t c =? Z.of_nat i) && negb (isspace c)
                | None => false
                end) (seq 0 (Z.to_nat (2 ^ k))).
Lemma radix_okb_spec digits t k : radix_okb digits t k = true → radix_ok digits t k.
Proof.
  unfold radix_okb. rewrite forallb_forall. intros H i Hi.
  specialize (H (Z.to_nat i)). destruct (chars digits !! Z.to_nat i) as [c|].
  - rewrite in_seq, andb_true_iff, negb_true_iff, Z.eqb_eq in H. exists c.
    destruct H as [H1 H2]; [lia|]. split; [done|]. split; [lia|done].
  - discriminate H. apply in_seq. lia.
Qed.
Lemma hex_ok : radix_ok hex_digits hex_value_from_ascii 4.
Proof. apply radix_okb_spec. vm_compute. reflexivity. Qed.
Lemma base64_ok : radix_ok base64_digits base64_value_from_ascii 6.
Proof. apply radix_okb_spec. vm_compute. reflexivity. Qed.

Lemma recombine v k : 0 ≤ k → Z.lor (Z.shiftl (Z.shiftr v k) k) (Z.land v (2 ^ k - 1)) = v.
Proof.
  intros Hk. rewrite <- Z.ldiff_ones_r by done. replace (2 ^ k - 1) with (Z.ones k).
  - apply Z.lor_ldiff_and.
  - rewrite Z.ones_equiv. lia.
Qed.
Lemma shift_back v k w : 0 ≤ k → 0 ≤ v < 2 ^ w → wrap_u w (Z.shiftl (Z.shiftr v k) k) = Z.shiftl (Z.shiftr v k) k.
Proof.
  intros Hk Hv. apply wrap_u_id. rewrite Z.shiftl_mul_pow2, Z.shiftr_div_pow2 by done.
  pose proof (Z.pow_pos_nonneg 2 k ltac:(lia) Hk). pose proof (Z.div_pos v (2 ^ k) ltac:(lia) ltac:(lia)).
  pose proof (Z.mul_div_le v (2 ^ k) ltac:(lia)). nia.
Qed.

Section radix.
Context (digits : string) (t : list Z) (k : Z).
Hypothesis Hok : radix_ok digits t k.
Hypothesis Hk : 0 < k < 8.

Lemma land_range v : 0 ≤ v → 0 ≤ Z.land v (2 ^ k - 1) < 2 ^ k.
Proof using Hk.
  intros Hv. replace (2 ^ k - 1) with (Z.ones k) by (rewrite Z.ones_equiv; lia).
  rewrite Z.land_ones by lia. apply Z.mod_pos_bound. lia.
Qed.

Lemma radix_digit v rest num : 0 ≤ v →
  radix_loop t 64 k (str (default NUL (chars digits !! Z.to_nat (Z.land v (2 ^ k - 1))) :: rest)) num =
  radix_loop t 64 k (str rest) (Z.lor (u64 (Z.shiftl num k)) (Z.land v (2 ^ k - 1))).
Proof using Hok Hk.
  intros Hv. pose proof (land_range v Hv) as Hr. destruct (Hok _ Hr) as (c & -> & Hc & _).
  cbn [default str String.string_of_list_ascii radix_loop id]. cbv zeta. rewrite Hc.
  assert (2 ^ k ≤ 2 ^ 7) by (apply Z.pow_le_mono_r; lia).
  destruct (Z.eqb_spec (Z.land v (2 ^ k - 1)) 255); [lia|done].
Qed.
Lemma radix_read fuel : ∀ v rest, 0 ≤ v < 2 ^ 64 → v < 2 ^ (k * Z.of_nat fuel) →
  radix_loop t 64 k (str (rev (print_radix_reversed fuel digits k v) ++ rest)) 0 =
  radix_loop t 64 k (str rest) v.
Proof using Hok Hk.
  induction fuel as [|fuel IH]; intros v rest Hv Hf.
  { rewrite Z.mul_0_r in Hf. replace v with 0 by lia. done. }
  assert (Hf' : Z.shiftr v k < 2 ^ (k * Z.of_nat fuel)).
  { rewrite Z.shiftr_div_pow2 by lia. apply Z.div_lt_upper_bound; [lia|].
    rewrite <- Z.pow_add_r by lia. replace (k + k * Z.of_nat fuel) with (k * Z.of_nat (S fuel)) by lia. done. }
  assert (Hv' : 0 ≤ Z.shiftr v k < 2 ^ 64).
  { rewrite Z.shiftr_div_pow2 by lia. split; [apply Z.div_pos; lia|].
    apply Z.div_lt_upper_bound; [lia|]. nia. }
  cbn [print_radix_reversed rev]. rewrite <- app_assoc. cbn [app].
  destruct (Z.eqb_spec (Z.shiftr v k) 0) as [E|E].
  - cbn [rev app]. rewrite radix_digit by lia. f_equal.
    rewrite <- (recombine v k) at 2 by lia. rewrite E. f_equal. by rewrite Z.shiftl_0_l.
  - rewrite IH by lia. rewrite radix_digit by lia. f_equal.
    rewrite shift_back by lia. by apply recombine; lia.
Qed.
Lemma radix_skip fuel v : 0 ≤ v →
  skip_spaces (str (rev (print_radix_reversed fuel digits k v))) =
  str (rev (print_radix_reversed fuel digits k v)).
Proof using Hok Hk.
  assert (Hfirst : ∀ fuel v, 0 ≤ v → fuel ≠ 0%nat → ∃ c l, rev (print_radix_reversed fuel digits k v) = c :: l ∧
    isspace c = false).
  { clear fuel v. induction fuel as [|fuel IH]; intros v Hv Hf; [done|]. cbn [print_radix_reversed rev].
    pose proof (land_range v Hv) as Hr. destruct (Hok _ Hr) as (c & -> & _ & Hs). cbn [default id].
    destruct (Z.shiftr v k =? 0); [by exists c, []|].
    destruct fuel as [|fuel]; [by exists c, []|].
    destruct (IH (Z.shiftr v k)) as (c' & l & -> & Hc'); [by apply Z.shiftr_nonneg|done|].
    by exists c', (l ++ [c]). }
  intros Hv. destruct fuel as [|fuel]; [done|].
  destruct (Hfirst (S fuel) v Hv) as (c & l & -> & Hc); [done|]. cbn. by rewrite Hc.
Qed.
Lemma radix_reads fuel v : 0 ≤ v < 2 ^ 64 → v < 2 ^ (k * Z.of_nat fuel) →
  fst (radix_loop t 64 k (skip_spaces (str (rev (print_radix_reversed fuel digits k v)))) 0) = v.
Proof using Hok Hk.
  intros Hv Hf. rewrite radix_skip by lia. pose proof (radix_read fuel v [] Hv Hf) as H.
  rewrite app_nil_r in H. by rewrite H.
Qed.
End radix.

Lemma decimal_text fuel : ∀ n acc,
  chars (dec_aux fuel n acc) = rev (print_uint64_reversed fuel n) ++ chars acc.
Proof.
  induction fuel as [|fuel IH]; intros n acc; [done|]. cbn [dec_aux print_uint64_reversed]. cbv zeta.
  destruct (n / 10 =? 0); [done|]. rewrite IH. cbn [rev]. by rewrite <- app_assoc.
Qed.
Lemma decimal_print n : str (uint64_text NUMBER_ENCODING_DECIMAL n) = print_u n.
Proof.
  rewrite <- (str_chars (print_u n)). unfold print_u. rewrite decimal_text. cbn. by rewrite app_nil_r.
Qed.

Lemma uint64_read e n : 0 ≤ n < 2 ^ 64 → str2ull_encoded (str (uint64_text e n)) = n.
Proof.
  intros Hn. destruct e.
  - rewrite decimal_print, str2ull_encoded_digits by (apply print_u_digits; lia).
    by rewrite str2uint64_print.
  - apply (radix_reads hex_digits hex_value_from_ascii 4 hex_ok ltac:(lia) 16); [done|apply Hn].
  - apply (radix_reads base64_digits base64_value_from_ascii 6 base64_ok ltac:(lia) 11); [done|].
    etrans; [apply Hn|]. by vm_compute.
Qed.
(** No encoding starts with a sign. *)
Lemma uint64_unsigned e n : ∃ c s, str (uint64_text e n) = String c s ∧ c ≠ "-"%char.
Proof.
  destruct e.
  - rewrite decimal_print. destruct (print_u_head n) as (d & s & Hd & ->). exists (digit_char d), s.
    split; [done|]. intros E. assert (code (digit_char d) = 45) as H by (by rewrite E).
    rewrite digit_char_code in H by done. lia.
  - by eexists _, _.
  - by eexists _, _.
Qed.
Lemma int64_read e n : - 2 ^ 63 < n < 2 ^ 63 → str2ll_encoded (str (int64_text e n)) = Ok n.
Proof.
  intros Hn. unfold int64_text. destruct (Z.ltb_spec n 0).
  - change (str2ll_encoded (str ("-"%char :: uint64_text e (- n))))
      with (neg_signed 64 (str2ull_encoded (str (uint64_text e (- n))))).
    rewrite uint64_read by lia. unfold neg_signed. rewrite wrap_s_id by lia.
    destruct (Z.eqb_spec (- n) (- 2 ^ (64 - 1))); [lia|]. f_equal. lia.
  - assert (str2ll_encoded (str (uint64_text e n)) = Ok (i64 (str2ull_encoded (str (uint64_text e n))))) as ->.
    { destruct (uint64_unsigned e n) as (c & s & -> & Hc). unfold str2ll_encoded.
      destruct c as [[] [] [] [] [] [] [] []]; done. }
    rewrite uint64_read by lia. by rewrite wrap_s_id by lia.
Qed.

(** C21. A number printed into a new buffer in decimal, hexadecimal or base64
    is read back by the parsers of the other side: every [uint64_t] with
    [str2ull_encoded()], and every [int64_t] but the smallest, whose negation
    overflows, with [str2ll_encoded()]. *)
Theorem encoded_numbers_round_trip size stats e n m : 0 ≤ size < 2 ^ 31 →
  0 ≤ n < 2 ^ 64 → - 2 ^ 63 < m < 2 ^ 63 →
  ∃ b0 b1 b2 t1 t2, buffer_create size stats = Ok b0 ∧
    buffer_print_uint64_encoded e n b0 = Ok (tt, b1) ∧ contents b1 = Some t1 ∧
    str2ull_encoded (str t1) = n ∧
    buffer_print_int64_encoded e m b0 = Ok (tt, b2) ∧ contents b2 = Some t2 ∧
    str2ll_encoded (str t2) = Ok m.
Proof.
  intros Hs Hn Hm. destruct (create_text size stats Hs) as (b0 & K0 & T0).
  assert (Hlen : ∀ n, len (uint64_text e n) ≤ 30).
  { intros x. destruct e; cbn [uint64_text]; rewrite ?len_app, len_rev.
    - pose proof (print_dec_length 20 x). lia.
    - pose proof (print_radix_length 16 hex_digits 4 x). unfold print_uint64_hex_reversed.
      change (len (chars HEX_PREFIX)) with 2. lia.
    - pose proof (print_radix_length 11 base64_digits 6 x). unfold print_uint64_base64_reversed.
      change (len (chars IEEE754_UINT64_B64_PREFIX)) with 1. lia. }
  destruct (appends_uint64 e n b0 [] T0) as (b1 & K1 & T1 & _).
  { specialize (Hlen n). unfold SLACK, LIMIT. lens. lia. }
  destruct (appends_int64 e m ltac:(lia) b0 [] T0) as (b2 & K2 & T2 & _).
  { unfold int64_text, SLACK, LIMIT. pose proof (Hlen m). pose proof (Hlen (- m)).
    case_match; rewrite ?len_cons; lens; lia. }
  apply text_contents in T1 as [T1 _], T2 as [T2 _].
  exists b0, b1, b2, (uint64_text e n), (int64_text e m). do 3 (split; [done|]).
  split; [by apply uint64_read|]. do 2 (split; [done|]). by apply int64_read.
Qed.
Lemma encoded_numbers_round_trip_witness : ∃ b0 b1 b2 t1 t2, buffer_create 16 None = Ok b0 ∧
  buffer_print_uint64_encoded NUMBER_ENCODING_BASE64 18446744073709551615 b0 = Ok (tt, b1) ∧
  contents b1 = Some t1 ∧ str2ull_encoded (str t1) = 18446744073709551615 ∧
  buffer_print_int64_encoded NUMBER_ENCODING_BASE64 (-255) b0 = Ok (tt, b2) ∧
  contents b2 = Some t2 ∧ str2ll_encoded (str t2) = Ok (-255).
Proof. apply (encoded_numbers_round_trip 16 None NUMBER_ENCODING_BASE64); lia. Defined.

(** ** JSON strings *)

(** What a reader of JSON makes of the first character of a string: RFC 8259,
    section 7, for code points below 256. *)
Definition simple_escape (e : ascii) : option ascii :=
  if Ascii.eqb e "n" then Some "010"%char else if Ascii.eqb e "r" then Some "013"%char
  else if Ascii.eqb e "t" then Some "009"%char else if Ascii.eqb e "b" then Some "008"%char
  else if Ascii.eqb e "f" then Some "012"%char
  else if Ascii.eqb e "\" || Ascii.eqb e "034" || Ascii.eqb e "/" then Some e else None.
Definition unescape_char (t : list ascii) : option (ascii * list ascii) :=
  match t with
  | [] => None
  | x :: t =>
      if Ascii.eqb x "\" then
        match t with
        | [] => None
        | e :: t =>
            if Ascii.eqb e "u" then
              match t with
              | a :: b :: c :: d :: t =>
                  let v := λ c, ascii_map hex_value_from_ascii c in
                  if (v a =? 0) && (v b =? 0) && (v c <? 16) && (v d <? 16)
                  then Some (chr (16 * v c + v d), t) else None
              | _ => None
              end
            else (λ c, (c, t)) <$> simple_escape e
        end
      else if (code x <? 32) || Ascii.eqb x "034" then None
      else Some (x, t)
  end.
Fixpoint unescape (fuel : nat) (t : list ascii) : option (list ascii) :=
  match t, fuel with
  | [], _ => Some []
  | _, O => None
  | _, S fuel =>
      match unescape_char t with
      | Some (c, t) => cons c <$> unescape fuel t
      | None => None
      end
  end.

Lemma unescape_escaped c t : unescape_char (json_escape_char c ++ t) = Some (c, t).
Proof. destruct c as [[] [] [] [] [] [] [] []]; vm_compute; reflexivity. Qed.
Lemma escape_printable c : forallb (λ x, 32 <=? code x) (json_escape_char c) = true.
Proof. destruct c as [[] [] [] [] [] [] [] []]; vm_compute; reflexivity. Qed.
Lemma escape_nonempty c : json_escape_char c ≠ [].
Proof. unfold json_escape_char. by repeat case_match. Qed.
Lemma unescape_escape t : ∀ fuel, (length t ≤ fuel)%nat →
  unescape fuel (escape json_escape_char t) = Some t.
Proof.
  induction t as [|c t IH]; intros fuel Hf; [by destruct fuel|].
  destruct fuel as [|fuel]; [cbn in Hf; lia|]. unfold escape in *. rewrite bind_cons.
  pose proof (unescape_escaped c (t ≫= json_escape_char)) as H.
  pose proof (escape_nonempty c) as Hne.
  destruct (json_escape_char c ++ (t ≫= json_escape_char)) as [|x l] eqn:E.
  { by destruct (json_escape_char c). }
  cbn [unescape]. rewrite H, IH by (cbn in Hf; lia). done.
Qed.

(** What [buffer_json_strcat()] appends for a text is a JSON string: a
    reader gets the text back, and there is no unescaped quote and no control
    character in it. *)
Theorem json_strings_round_trip size stats s : 0 ≤ size < 2 ^ 31 →
  6 * Z.of_nat (String.length s) + SLACK < LIMIT →
  ∃ b0 b t, buffer_create size stats = Ok b0 ∧ buffer_json_strcat (Some s) b0 = Ok (tt, b) ∧
    contents b = Some t ∧ unescape (length t) t = Some (chars s) ∧
    Forall (λ c, 32 ≤ code c) t.
Proof.
  intros Hs Hl. destruct (create_text size stats Hs) as (b0 & K0 & T0).
  assert (He : ∀ c, 1 ≤ len (json_escape_char c) ≤ 6).
  { intros c. unfold json_escape_char, len. repeat case_match; cbn; lia. }
  assert (Hlen : ∀ t, len t ≤ len (escape json_escape_char t) ≤ 6 * len t).
  { induction t as [|c t IH]; [done|]. unfold escape in *. rewrite bind_cons, len_app, len_cons.
    specialize (He c). lia. }
  destruct (appends_json_strcat s b0 [] T0) as (b & K & T & _).
  { specialize (Hlen (chars s)). rewrite chars_length in Hlen. lens. lia. }
  apply text_contents in T as [T _]. exists b0, b, (escape json_escape_char (chars s)).
  do 3 (split; [done|]). split.
  - apply unescape_escape. specialize (Hlen (chars s)). unfold len in Hlen. lia.
  - clear. induction (chars s) as [|c t IH]; [constructor|]. unfold escape in *. rewrite bind_cons.
    apply Forall_app. split; [|done]. clear. apply Forall_forall. intros x Hx.
    apply Z.leb_le, (proj1 (forallb_forall _ _) (escape_printable c)). by apply list_elem_of_In.
Qed.
Lemma json_strings_round_trip_witness : ∃ b0 b t, buffer_create 3 None = Ok b0 ∧
  buffer_json_strcat (Some "a\b") b0 = Ok (tt, b) ∧ contents b = Some t ∧
  unescape (length t) t = Some (chars "a\b") ∧ Forall (λ c, 32 ≤ code c) t.
Proof. apply (json_strings_round_trip 3 None "a\b"); [lia|reflexivity]. Defined.
