(* ===== verification/Json.v ===== *)
(** * buffer.h: JSON documents

    The functions that write JSON into a [BUFFER], with the stack of the open
    objects and arrays in the buffer itself.  A key or a value is a pointer to a
    string, or null. *)

From S2P Require Import Prelude CString Inlined Memory WebBuffer.
#[local] Open Scope string_scope.
#[local] Open Scope list_scope.
#[local] Open Scope Z_scope.

Definition BUFFER_JSON_OPTIONS_DEFAULT : Z := 0.
Definition BUFFER_JSON_OPTIONS_MINIFY : Z := 1.
Definition BUFFER_JSON_OPTIONS_NEWLINE_ON_ARRAY_ITEMS : Z := 2.
Definition BUFFER_JSON_OPTIONS_NON_ANONYMOUS : Z := 4.
Definition has_option (options o : Z) : bool := negb (Z.land options o =? 0).

(** ** The stack *)

Definition update_json (f : BUFFER_JSON → BUFFER_JSON) : cst BUFFER unit :=
  cmodify (λ b, set_json (f (wb_json b)) b).
Definition with_depth (d : Z) (j : BUFFER_JSON) : BUFFER_JSON :=
  Json (j_key_quote j) (j_value_quote j) d (j_options j) (j_stack j).
Definition with_stack (l : list BUFFER_JSON_NODE) (j : BUFFER_JSON) : BUFFER_JSON :=
  Json (j_key_quote j) (j_value_quote j) (j_depth j) (j_options j) l.

(** [wb->json.stack[wb->json.depth]]; the array has 32 elements. *)
Definition stack_top : cst BUFFER BUFFER_JSON_NODE :=
  b ← cget;
  let j := wb_json b in
  if j_depth j <? 0 then cfail UB_oob
  else match j_stack j !! Z.to_nat (j_depth j) with
       | Some n => mret n
       | None => cfail UB_oob
       end.
Definition set_stack_top (n : BUFFER_JSON_NODE) : cst BUFFER unit :=
  _ ← stack_top;
  update_json (λ j, with_stack (<[Z.to_nat (j_depth j) := n]> (j_stack j)) j).
(** [wb->json.stack[wb->json.depth].count++]; the counter has 24 bits. *)
Definition count_one : cst BUFFER unit :=
  n ← stack_top; set_stack_top (JsonNode (jn_type n) (wrap_u 24 (jn_count n + 1))).

(** [depth] is an [int8_t]. *)
Definition _buffer_json_depth_push (type : BUFFER_JSON_NODE_TYPE) : cst BUFFER unit :=
  _ ← update_json (λ j, with_depth (wrap_s 8 (j_depth j + 1)) j);
  set_stack_top (JsonNode type 0).
Definition _buffer_json_depth_pop : cst BUFFER unit :=
  update_json (λ j, with_depth (wrap_s 8 (j_depth j - 1)) j).

(** ** Punctuation *)

Definition buffer_print_json_comma : cst BUFFER unit :=
  n ← stack_top;
  if negb (jn_count n =? 0) then buffer_putc "," else mret tt.
Definition LF : ascii := "010".
Definition is_array (t : BUFFER_JSON_NODE_TYPE) : bool :=
  match t with BUFFER_JSON_ARRAY => true | _ => false end.
Definition buffer_print_json_comma_newline_spacing : cst BUFFER unit :=
  _ ← buffer_print_json_comma;
  b ← cget;
  n ← stack_top;
  let options := j_options (wb_json b) in
  if has_option options BUFFER_JSON_OPTIONS_MINIFY ||
     (is_array (jn_type n) && negb (has_option options BUFFER_JSON_OPTIONS_NEWLINE_ON_ARRAY_ITEMS))
  then mret tt
  else
    _ ← buffer_putc LF;
    buffer_print_spaces (j_depth (wb_json b) + 1).

Definition buffer_print_json_key (key : option string) : cst BUFFER unit :=
  b ← cget;
  _ ← buffer_strcat (Some (j_key_quote (wb_json b)));
  _ ← buffer_json_strcat key;
  b ← cget;
  buffer_strcat (Some (j_key_quote (wb_json b))).
Definition in_value_quotes (m : cst BUFFER unit) : cst BUFFER unit :=
  b ← cget;
  _ ← buffer_strcat (Some (j_value_quote (wb_json b)));
  _ ← m;
  b ← cget;
  buffer_strcat (Some (j_value_quote (wb_json b))).
Definition buffer_json_add_string_value (value : option string) : cst BUFFER unit :=
  match value with
  | Some v => in_value_quotes (buffer_json_strcat (Some v))
  | None => buffer_fast_strcat (Some "null") 4
  end.
Definition buffer_json_add_quoted_string_value (value : option string) : cst BUFFER unit :=
  match value with
  | Some v => in_value_quotes (buffer_json_quoted_strcat (Some v))
  | None => buffer_fast_strcat (Some "null") 4
  end.

(** ** Members of an object *)

(** A member whose value [m] prints. *)
Definition member (key : option string) (m : cst BUFFER unit) : cst BUFFER unit :=
  _ ← buffer_print_json_comma_newline_spacing;
  _ ← buffer_print_json_key key;
  _ ← buffer_putc ":";
  _ ← m;
  count_one.
Definition buffer_json_member_add_string (key value : option string) : cst BUFFER unit :=
  member key (buffer_json_add_string_value value).
Definition buffer_json_member_add_string_or_omit (key value : option string) : cst BUFFER unit :=
  match value with
  | None | Some EmptyString => mret tt
  | _ => buffer_json_member_add_string key value
  end.
Definition buffer_json_member_add_string_or_empty (key value : option string) : cst BUFFER unit :=
  buffer_json_member_add_string key (Some (default "" value)).
Definition buffer_json_member_add_quoted_string (key value : option string) : cst BUFFER unit :=
  member key
    (match value with
     | None => buffer_fast_strcat (Some "null") 4
     | Some v => if String.eqb v "null" then buffer_fast_strcat (Some "null") 4
                 else buffer_json_add_quoted_string_value (Some v)
     end).
Definition bool_text (value : bool) : string := if value then "true" else "false".
Definition buffer_json_member_add_boolean (key : option string) (value : bool) : cst BUFFER unit :=
  member key (buffer_strcat (Some (bool_text value))).
Definition buffer_json_member_add_time_t (key : option string) (value : Z) : cst BUFFER unit :=
  member key (buffer_print_int64 value).
Definition buffer_json_member_add_uint64 (key : option string) (value : Z) : cst BUFFER unit :=
  member key (buffer_print_uint64 value).
Definition buffer_json_member_add_int64 (key : option string) (value : Z) : cst BUFFER unit :=
  member key (buffer_print_int64 value).

Definition buffer_json_member_add_object (key : option string) : cst BUFFER unit :=
  _ ← buffer_print_json_comma_newline_spacing;
  _ ← buffer_print_json_key key;
  _ ← buffer_fast_strcat (Some ":{") 2;
  _ ← count_one;
  _buffer_json_depth_push BUFFER_JSON_OBJECT.
Definition buffer_json_member_add_array (key : option string) : cst BUFFER unit :=
  _ ← buffer_print_json_comma_newline_spacing;
  _ ← match key with
      | Some _ =>
          _ ← buffer_print_json_key key;
          buffer_fast_strcat (Some ":[") 2
      | None => buffer_putc "["
      end;
  _ ← count_one;
  _buffer_json_depth_push BUFFER_JSON_ARRAY.
Definition buffer_json_object_close : cst BUFFER unit :=
  b ← cget;
  _ ← (if negb (has_option (j_options (wb_json b)) BUFFER_JSON_OPTIONS_MINIFY) then
         _ ← buffer_putc LF;
         buffer_print_spaces (j_depth (wb_json b))
       else mret tt);
  _ ← buffer_putc "}";
  _buffer_json_depth_pop.
Definition buffer_json_array_close : cst BUFFER unit :=
  b ← cget;
  _ ← (if has_option (j_options (wb_json b)) BUFFER_JSON_OPTIONS_NEWLINE_ON_ARRAY_ITEMS then
         _ ← buffer_putc LF;
         buffer_print_spaces (j_depth (wb_json b))
       else mret tt);
  _ ← buffer_putc "]";
  _buffer_json_depth_pop.

(** ** Items of an array *)

Definition array_item (m : cst BUFFER unit) : cst BUFFER unit :=
  _ ← buffer_print_json_comma_newline_spacing;
  _ ← m;
  count_one.
Definition buffer_json_add_array_item_string (value : option string) : cst BUFFER unit :=
  array_item (buffer_json_add_string_value value).
Definition buffer_json_add_array_item_int64 (value : Z) : cst BUFFER unit :=
  array_item (buffer_print_int64 value).
Definition buffer_json_add_array_item_uint64 (value : Z) : cst BUFFER unit :=
  array_item (buffer_print_uint64 value).
Definition buffer_json_add_array_item_boolean (value : bool) : cst BUFFER unit :=
  array_item (buffer_strcat (Some (bool_text value))).
Definition buffer_json_add_array_item_time_t (value : Z) : cst BUFFER unit :=
  array_item (buffer_print_int64 value).
Definition buffer_json_add_array_item_time_ms (value : Z) : cst BUFFER unit :=
  array_item (_ ← buffer_print_int64 value; buffer_fast_strcat (Some "000") 3).
Definition buffer_json_add_array_item_object : cst BUFFER unit :=
  _ ← buffer_print_json_comma_newline_spacing;
  _ ← buffer_putc "{";
  _ ← count_one;
  _buffer_json_depth_push BUFFER_JSON_OBJECT.
Definition buffer_json_add_array_item_array : cst BUFFER unit :=
  b ← cget;
  n ← stack_top;
  _ ← (if negb (has_option (j_options (wb_json b)) BUFFER_JSON_OPTIONS_MINIFY) && is_array (jn_type n)
       then
         _ ← buffer_print_json_comma;
         _ ← buffer_putc LF;
         buffer_print_spaces (j_depth (wb_json b) + 1)
       else buffer_print_json_comma_newline_spacing);
  _ ← buffer_putc "[";
  _ ← count_one;
  _buffer_json_depth_push BUFFER_JSON_ARRAY.

(** ** Documents *)

(** [strncpyz(dst, src, 7)] *)
Definition quote_copy (s : string) : string := String.substring 0 7 s.
Definition buffer_json_initialize (key_quote value_quote : string) (depth : Z)
    (add_anonymous_object : bool) (options : Z) : cst BUFFER unit :=
  _ ← update_json (λ j, Json (quote_copy key_quote) (quote_copy value_quote) (wrap_s 8 (depth - 1))
        (j_options j) (j_stack j));
  _ ← _buffer_json_depth_push BUFFER_JSON_OBJECT;
  _ ← (if add_anonymous_object then buffer_fast_strcat (Some "{") 1 else mret tt);
  let options := if add_anonymous_object then options
                 else Z.lor options BUFFER_JSON_OPTIONS_NON_ANONYMOUS in
  _ ← update_json (λ j, Json (j_key_quote j) (j_value_quote j) (j_depth j) options (j_stack j));
  cmodify (λ b, buffer_no_cacheable
    (set_headers CT_APPLICATION_JSON (wb_options b) (wb_date b) (wb_expires b) b)).

(** [internal_fatal()] does nothing in a release build: an element of no type
    is not closed, and the loop goes on. *)
Fixpoint finalize_loop (fuel : nat) : cst BUFFER unit := fun b =>
  if j_depth (wb_json b) <? 0 then Ok (tt, b)
  else
    match fuel with
    | O => NoFuel
    | S fuel =>
        (n ← stack_top;
         _ ← match jn_type n with
             | BUFFER_JSON_OBJECT =>
                 if j_depth (wb_json b) =? 0 then
                   if negb (has_option (j_options (wb_json b)) BUFFER_JSON_OPTIONS_NON_ANONYMOUS)
                   then buffer_json_object_close
                   else _buffer_json_depth_pop
                 else buffer_json_object_close
             | BUFFER_JSON_ARRAY => buffer_json_array_close
             | BUFFER_JSON_EMPTY => mret tt
             end;
         finalize_loop fuel) b
    end.
Definition buffer_json_finalize (fuel : nat) : cst BUFFER unit :=
  _ ← finalize_loop fuel;
  b ← cget;
  if negb (has_option (j_options (wb_json b)) BUFFER_JSON_OPTIONS_MINIFY)
  then buffer_fast_strcat (Some (String LF "")) 1 else mret tt.
