(* ===== verification/JsonSpec.v ===== *)
(** * JSON documents are well formed

    A document is a tree of values; [emit_member] and [emit_item] are the calls
    that write it, [render_members] and [render_items] the text they append,
    [parse_value] a reader of JSON (RFC 8259).  The text of every tree that fits the
    stack is read back as the tree. *)

From S2P Require Import Prelude CString Inlined Memory WebBuffer WebBufferSpec WebBufferThms Json.
#[local] Open Scope string_scope.
#[local] Open Scope list_scope.
#[local] Open Scope Z_scope.

Definition DQ : ascii := "034".
Definition QUOTE : string := String DQ "".

(** ** The state of the writer *)

(** The writer is in an element of type [t] with [c] values, at [depth]. *)
Record level (b : BUFFER) (o depth : Z) (t : BUFFER_JSON_NODE_TYPE) (c : Z) : Prop := {
  lv_kq : j_key_quote (wb_json b) = QUOTE;
  lv_vq : j_value_quote (wb_json b) = QUOTE;
  lv_options : j_options (wb_json b) = o;
  lv_depth : j_depth (wb_json b) = depth;
  lv_range : 0 ≤ depth < 32;
  lv_length : length (j_stack (wb_json b)) = 32%nat;
  lv_top : j_stack (wb_json b) !! Z.to_nat depth = Some (JsonNode t c);
}.
(** The elements below [depth] are untouched. *)
Definition below (depth : Z) (b b' : BUFFER) : Prop :=
  ∀ i, (i < Z.to_nat depth)%nat → j_stack (wb_json b') !! i = j_stack (wb_json b) !! i.
#[local] Instance below_preorder depth : PreOrder (below depth).
Proof. split; [done|]. intros b1 b2 b3 H1 H2 i Hi. by rewrite H2, H1. Qed.

(** [m] appends [d] and takes the counter of the element from [c] to [c']. *)
Definition emits (m : cst BUFFER unit) (o depth : Z) (t : BUFFER_JSON_NODE_TYPE) (c : Z)
    (d : list ascii) (c' : Z) : Prop :=
  ∀ b s, text b s → level b o depth t c → len s + len d + SLACK < LIMIT →
    ∃ b', m b = Ok (tt, b') ∧ text b' (s ++ d) ∧ level b' o depth t c' ∧ below depth b b'.

Lemma text_json j b s : text b s → text (set_json j b) s.
Proof. intros (rest & [H1 H2 H3 H4]). exists rest. by split. Qed.
Lemma level_meta b b' o depth t c : same_meta b b' → level b o depth t c → level b' o depth t c.
Proof. intros [_ Hj] []. split; by rewrite ?Hj. Qed.

Section emits.
Context (o depth : Z) (t : BUFFER_JSON_NODE_TYPE).

Lemma emits_appends m c d : appends m d → emits m o depth t c d c.
Proof.
  intros Hm b s Ht Hl Hlim. destruct (Hm b s Ht Hlim) as (b' & K & T & M).
  exists b'. split; [done|]. split; [done|]. split; [by eapply level_meta|].
  destruct M as [_ Hj]. intros i _. by rewrite Hj.
Qed.
Lemma emits_ret c : emits (mret tt) o depth t c [] c.
Proof. apply emits_appends, appends_ret. Qed.
Lemma emits_bind m1 m2 c c1 c2 d1 d2 : emits m1 o depth t c d1 c1 → emits m2 o depth t c1 d2 c2 →
  emits (m1 ≫= λ _, m2) o depth t c (d1 ++ d2) c2.
Proof.
  intros H1 H2 b s Ht Hl Hlim. pose proof (len_nonneg d1). pose proof (len_nonneg d2).
  rewrite len_app in Hlim.
  destruct (H1 b s Ht Hl) as (b1 & K1 & T1 & L1 & B1); [lia|].
  destruct (H2 b1 _ T1 L1) as (b2 & K2 & T2 & L2 & B2); [rewrite len_app; lia|].
  exists b2. rewrite bind_run, K1, app_assoc. split; [done|]. split; [done|]. split; [done|]. by etrans.
Qed.
(** A program that looks at the state first. *)
Lemma emits_get k c d c' : (∀ b, level b o depth t c → emits (k b) o depth t c d c') →
  emits (cget ≫= k) o depth t c d c'.
Proof. intros H b s Ht Hl Hlim. rewrite bind_get. by apply (H b Hl). Qed.
Lemma top_level b c : level b o depth t c → stack_top b = Ok (JsonNode t c, b).
Proof.
  intros [_ _ _ Hd Hr _ Ht]. unfold stack_top. rewrite bind_get, Hd.
  destruct (Z.ltb_spec depth 0); [lia|]. by rewrite Ht.
Qed.
Lemma emits_top k c d c' : emits (k (JsonNode t c)) o depth t c d c' →
  emits (stack_top ≫= k) o depth t c d c'.
Proof. intros H b s Ht Hl Hlim. rewrite bind_run, (top_level b c Hl). by apply H. Qed.

(** A new top of the stack. *)
Lemma set_top_spec b s c n : text b s → level b o depth t c → ∃ b',
  set_stack_top n b = Ok (tt, b') ∧ text b' s ∧ level b' o depth (jn_type n) (jn_count n) ∧ below depth b b'.
Proof.
  intros Ht Hl. unfold set_stack_top. rewrite bind_run, (top_level b c Hl).
  destruct Hl as [Hk Hv Ho Hd Hr Hlen Htop]. eexists. split; [done|]. split; [by apply text_json|]. split.
  - split; cbn; try done; rewrite ?length_insert; try done. rewrite Hd.
    rewrite list_lookup_insert_eq by lia. by destruct n.
  - intros i Hi. cbn. rewrite Hd. by rewrite list_lookup_insert_ne by lia.
Qed.
Lemma emits_count c : 0 ≤ c → c + 1 < 2 ^ 24 → emits count_one o depth t c [] (c + 1).
Proof.
  intros Hc Hc' b s Ht Hl _. unfold count_one. rewrite bind_run, (top_level b c Hl).
  rewrite wrap_u_id by (cbn; lia).
  destruct (set_top_spec b s c (JsonNode t (c + 1)) Ht Hl) as (b' & K & T & L & B).
  exists b'. rewrite app_nil_r. done.
Qed.
End emits.

(** ** Punctuation *)

Definition minify (o : Z) : bool := has_option o BUFFER_JSON_OPTIONS_MINIFY.
Definition spread (o : Z) : bool := has_option o BUFFER_JSON_OPTIONS_NEWLINE_ON_ARRAY_ITEMS.
Definition comma (c : Z) : list ascii := if c =? 0 then [] else [","%char].
Definition newline (depth : Z) : list ascii := LF :: replicate (4 * Z.to_nat depth) " "%char.
Definition separator (o depth : Z) (t : BUFFER_JSON_NODE_TYPE) (c : Z) : list ascii :=
  comma c ++ (if minify o || (is_array t && negb (spread o)) then [] else newline (depth + 1)).
Definition quoted (s : string) : list ascii := [DQ] ++ escape json_escape_char (chars s) ++ [DQ].

Lemma appends_newline n : 0 ≤ n < 2 ^ 30 →
  appends (buffer_putc LF ≫= λ _, buffer_print_spaces n) (newline n).
Proof.
  intros Hn. apply (appends_bind _ _ [LF]); [apply appends_putc|by apply appends_spaces].
Qed.

Section punctuation.
Context (o depth : Z) (t : BUFFER_JSON_NODE_TYPE) (c : Z).
Hypothesis Hdepth : 0 ≤ depth < 32.

Lemma emits_comma : emits buffer_print_json_comma o depth t c (comma c) c.
Proof using Type.
  unfold buffer_print_json_comma. apply emits_top. cbn [jn_count]. unfold comma.
  destruct (c =? 0); cbn [negb]; [apply emits_ret|apply emits_appends, appends_putc].
Qed.
Lemma emits_separator : emits buffer_print_json_comma_newline_spacing o depth t c (separator o depth t c) c.
Proof using Hdepth.
  unfold buffer_print_json_comma_newline_spacing, separator.
  eapply emits_bind; [apply emits_comma|]. apply emits_get. intros b Hl. apply emits_top.
  cbn [jn_type]. rewrite (lv_options _ _ _ _ _ Hl), (lv_depth _ _ _ _ _ Hl). fold (minify o) (spread o).
  destruct (minify o || (is_array t && negb (spread o))); [apply emits_ret|].
  apply emits_appends, appends_newline. lia.
Qed.
Lemma emits_key k : emits (buffer_print_json_key (Some k)) o depth t c (quoted k) c.
Proof using Type.
  unfold buffer_print_json_key. apply emits_get. intros b Hl. rewrite (lv_kq _ _ _ _ _ Hl).
  eapply emits_bind; [apply emits_appends, appends_strcat|].
  eapply emits_bind; [apply emits_appends, appends_json_strcat|].
  apply emits_get. intros b' Hl'. rewrite (lv_kq _ _ _ _ _ Hl').
  apply emits_appends, (appends_strcat QUOTE).
Qed.
Lemma emits_string v : emits (buffer_json_add_string_value (Some v)) o depth t c (quoted v) c.
Proof using Type.
  unfold buffer_json_add_string_value, in_value_quotes. apply emits_get. intros b Hl.
  rewrite (lv_vq _ _ _ _ _ Hl).
  eapply emits_bind; [apply emits_appends, appends_strcat|].
  eapply emits_bind; [apply emits_appends, appends_json_strcat|].
  apply emits_get. intros b' Hl'. rewrite (lv_vq _ _ _ _ _ Hl').
  apply emits_appends, (appends_strcat QUOTE).
Qed.
End punctuation.

(** ** Documents *)

Inductive json : Type :=
| JNull | JBool (v : bool) | JInt (n : Z) | JUint (n : Z) | JString (s : string)
| JArray (items : list json) | JObject (members : list (string * json)).

Lemma json_ind' (P : json → Prop) :
  P JNull → (∀ v, P (JBool v)) → (∀ n, P (JInt n)) → (∀ n, P (JUint n)) → (∀ s, P (JString s)) →
  (∀ l, Forall P l → P (JArray l)) → (∀ l, Forall (λ m, P (snd m)) l → P (JObject l)) → ∀ v, P v.
Proof.
  intros H1 H2 H3 H4 H5 H6 H7. fix IH 1. intros [|v|n|n|s|l|l].
  - exact H1.
  - apply H2.
  - apply H3.
  - apply H4.
  - apply H5.
  - apply H6. induction l as [|v l IHl]; constructor; [apply IH|exact IHl].
  - apply H7. induction l as [|v l IHl]; constructor; [apply IH|exact IHl].
Qed.

(** The calls that write a value: a member of an object when it has a key, an
    item of an array otherwise. *)
Fixpoint emit (key : option string) (v : json) {struct v} : cst BUFFER unit :=
  match v with
  | JNull => match key with
             | Some _ => buffer_json_member_add_string key None
             | None => buffer_json_add_array_item_string None
             end
  | JBool x => match key with
               | Some _ => buffer_json_member_add_boolean key x
               | None => buffer_json_add_array_item_boolean x
               end
  | JInt n => match key with
              | Some _ => buffer_json_member_add_int64 key n
              | None => buffer_json_add_array_item_int64 n
              end
  | JUint n => match key with
               | Some _ => buffer_json_member_add_uint64 key n
               | None => buffer_json_add_array_item_uint64 n
               end
  | JString s => match key with
                 | Some _ => buffer_json_member_add_string key (Some s)
                 | None => buffer_json_add_array_item_string (Some s)
                 end
  | JArray l =>
      _ ← match key with
          | Some _ => buffer_json_member_add_array key
          | None => buffer_json_add_array_item_array
          end;
      _ ← (fix items l : cst BUFFER unit :=
             match l with [] => mret tt | v :: l => _ ← emit None v; items l end) l;
      buffer_json_array_close
  | JObject l =>
      _ ← match key with
          | Some _ => buffer_json_member_add_object key
          | None => buffer_json_add_array_item_object
          end;
      _ ← (fix members l : cst BUFFER unit :=
             match l with [] => mret tt | (k, v) :: l => _ ← emit (Some k) v; members l end) l;
      buffer_json_object_close
  end.
Fixpoint emit_items (l : list json) : cst BUFFER unit :=
  match l with [] => mret tt | v :: l => _ ← emit None v; emit_items l end.
Fixpoint emit_members (l : list (string * json)) : cst BUFFER unit :=
  match l with [] => mret tt | (k, v) :: l => _ ← emit (Some k) v; emit_members l end.

(** What is written in front of a value, and the value itself. *)
Definition lead (o depth : Z) (t : BUFFER_JSON_NODE_TYPE) (c : Z) (key : option string) (v : json) : list ascii :=
  match key, v with
  | None, JArray _ =>
      if negb (minify o) && is_array t then comma c ++ newline (depth + 1) else separator o depth t c
  | _, _ => separator o depth t c
  end ++ match key with Some k => quoted k ++ [":"%char] | None => [] end.
Fixpoint value_text (o depth : Z) (v : json) {struct v} : list ascii :=
  match v with
  | JNull => chars "null"
  | JBool x => chars (bool_text x)
  | JInt n => int64_text NUMBER_ENCODING_DECIMAL n
  | JUint n => uint64_text NUMBER_ENCODING_DECIMAL n
  | JString s => quoted s
  | JArray l =>
      ["["%char] ++
      (fix items c l := match l with
                        | [] => []
                        | v :: l => (lead o (depth + 1) BUFFER_JSON_ARRAY c None v ++
                                     value_text o (depth + 1) v) ++ items (c + 1) l
                        end) 0 l ++
      (if spread o then newline (depth + 1) else []) ++ ["]"%char]
  | JObject l =>
      ["{"%char] ++
      (fix members c l := match l with
                          | [] => []
                          | (k, v) :: l => (lead o (depth + 1) BUFFER_JSON_OBJECT c (Some k) v ++
                                            value_text o (depth + 1) v) ++ members (c + 1) l
                          end) 0 l ++
      (if minify o then [] else newline (depth + 1)) ++ ["}"%char]
  end.
Section lists_text.
Context (o depth : Z).
Fixpoint items_text (c : Z) (l : list json) : list ascii :=
  match l with
  | [] => []
  | v :: l => (lead o depth BUFFER_JSON_ARRAY c None v ++ value_text o depth v) ++ items_text (c + 1) l
  end.
Fixpoint members_text (c : Z) (l : list (string * json)) : list ascii :=
  match l with
  | [] => []
  | (k, v) :: l =>
      (lead o depth BUFFER_JSON_OBJECT c (Some k) v ++ value_text o depth v) ++ members_text (c + 1) l
  end.
End lists_text.

(** The tree fits: the numbers their types, the elements the stack of 32 and
    the counters of 24 bits. *)
Fixpoint fits (depth : Z) (v : json) : Prop :=
  match v with
  | JInt n => - 2 ^ 63 < n < 2 ^ 63
  | JUint n => 0 ≤ n < 2 ^ 64
  | JArray l => depth + 1 < 32 ∧ len l < 2 ^ 24 ∧
      (fix all l := match l with [] => True | v :: l => fits (depth + 1) v ∧ all l end) l
  | JObject l => depth + 1 < 32 ∧ len l < 2 ^ 24 ∧
      (fix all (l : list (string * json)) := match l with [] => True | m :: l => fits (depth + 1) (snd m) ∧ all l end) l
  | _ => True
  end.
Lemma fits_array depth l : fits depth (JArray l) → depth + 1 < 32 ∧ len l < 2 ^ 24 ∧ Forall (fits (depth + 1)) l.
Proof.
  intros (H1 & H2 & H3). split; [done|]. split; [done|]. clear H2. induction l as [|v l IH]; [done|].
  destruct H3. constructor; auto.
Qed.
Lemma fits_object depth l : fits depth (JObject l) →
  depth + 1 < 32 ∧ len l < 2 ^ 24 ∧ Forall (λ m, fits (depth + 1) (snd m)) l.
Proof.
  intros (H1 & H2 & H3). split; [done|]. split; [done|]. clear H2. induction l as [|v l IH]; [done|].
  destruct H3. constructor; auto.
Qed.

(** *** Opening and closing *)

(** [m] appends [d] and opens an element of type [t']. *)
Definition opens (m : cst BUFFER unit) (o depth : Z) (t : BUFFER_JSON_NODE_TYPE) (c : Z)
    (d : list ascii) (t' : BUFFER_JSON_NODE_TYPE) : Prop :=
  ∀ b s, text b s → level b o depth t c → len s + len d + SLACK < LIMIT →
    ∃ b', m b = Ok (tt, b') ∧ text b' (s ++ d) ∧ level b' o (depth + 1) t' 0 ∧
      j_stack (wb_json b') !! Z.to_nat depth = Some (JsonNode t (c + 1)) ∧ below depth b b'.

Lemma depth_push_spec o depth t c t' b s : text b s → level b o depth t c → depth + 1 < 32 → ∃ b',
  _buffer_json_depth_push t' b = Ok (tt, b') ∧ text b' s ∧ level b' o (depth + 1) t' 0 ∧
  j_stack (wb_json b') !! Z.to_nat depth = Some (JsonNode t c) ∧ below depth b b'.
Proof.
  intros Ht [Hk Hv Ho Hd Hr Hlen Htop] Hd'. unfold _buffer_json_depth_push, update_json.
  rewrite bind_modify, Hd, wrap_s_id by lia.
  set (b1 := set_json _ b). assert (T1 : text b1 s) by (by apply text_json).
  destruct (lookup_lt_is_Some_2 (j_stack (wb_json b)) (Z.to_nat (depth + 1))) as [[t1 c1] Hn]; [lia|].
  assert (L1 : level b1 o (depth + 1) t1 c1) by (split; cbn; (done || lia)).
  destruct (set_top_spec o (depth + 1) t1 b1 s c1 (JsonNode t' 0) T1 L1) as (b2 & K2 & T2 & L2 & B2).
  exists b2. split; [done|]. split; [done|]. split; [done|]. split.
  - rewrite B2 by lia. exact Htop.
  - intros i Hi. rewrite B2 by lia. done.
Qed.
Lemma opens_bind o depth t c d m t' : 0 ≤ c → c + 1 < 2 ^ 24 → depth + 1 < 32 →
  emits m o depth t c d c →
  opens (m ≫= λ _, count_one ≫= λ _, _buffer_json_depth_push t') o depth t c d t'.
Proof.
  intros Hc Hc' Hd Hm b s Ht Hl Hlim.
  destruct (Hm b s Ht Hl Hlim) as (b1 & K1 & T1 & L1 & B1).
  destruct (emits_count o depth t c Hc Hc' b1 _ T1 L1) as (b2 & K2 & T2 & L2 & B2).
  { rewrite len_app. change (len []) with 0. lia. }
  rewrite app_nil_r in T2.
  destruct (depth_push_spec o depth t (c + 1) t' b2 _ T2 L2 Hd) as (b3 & K3 & T3 & L3 & S3 & B3).
  exists b3. rewrite bind_run, K1, bind_run, K2. split; [done|]. split; [done|]. split; [done|].
  split; [done|]. etrans; [exact B1|]. by etrans.
Qed.

(** Closing an element goes back to the one it is in. *)
Lemma depth_pop_spec o depth t c t' c' b s : text b s → level b o (depth + 1) t' c' → 0 ≤ depth →
  j_stack (wb_json b) !! Z.to_nat depth = Some (JsonNode t c) → ∃ b',
  _buffer_json_depth_pop b = Ok (tt, b') ∧ text b' s ∧ level b' o depth t c ∧ below depth b b'.
Proof.
  intros Ht [Hk Hv Ho Hd Hr Hlen Htop] Hd' Hs. unfold _buffer_json_depth_pop, update_json.
  eexists. split; [done|]. split; [by apply text_json|].
  split; [|done]. rewrite Hd, wrap_s_id by lia. replace (depth + 1 - 1) with depth by lia.
  split; cbn; (done || lia).
Qed.
(** An element: opened, filled by [body], closed by [close]. *)
Lemma emits_element o depth t c t' c' d1 d2 d3 mopen body mclose :
  0 ≤ depth → opens mopen o depth t c d1 t' → emits body o (depth + 1) t' 0 d2 c' →
  emits mclose o (depth + 1) t' c' d3 c' →
  emits (mopen ≫= λ _, body ≫= λ _, mclose ≫= λ _, _buffer_json_depth_pop) o depth t c
    (d1 ++ d2 ++ d3) (c + 1).
Proof.
  intros Hd Ho Hb Hc b s Ht Hl Hlim. rewrite !len_app in Hlim.
  pose proof (len_nonneg d1). pose proof (len_nonneg d2). pose proof (len_nonneg d3).
  destruct (Ho b s Ht Hl) as (b1 & K1 & T1 & L1 & S1 & B1); [lia|].
  destruct (Hb b1 _ T1 L1) as (b2 & K2 & T2 & L2 & B2); [rewrite len_app; lia|].
  destruct (Hc b2 _ T2 L2) as (b3 & K3 & T3 & L3 & B3); [rewrite !len_app; lia|].
  assert (S3 : j_stack (wb_json b3) !! Z.to_nat depth = Some (JsonNode t (c + 1))).
  { rewrite B3, B2 by lia. done. }
  destruct (depth_pop_spec o depth t (c + 1) t' c' b3 _ T3 L3 Hd S3) as (b4 & K4 & T4 & L4 & B4).
  exists b4. rewrite bind_run, K1, bind_run, K2, bind_run, K3. split; [done|].
  rewrite <- !app_assoc in T4. split; [done|]. split; [done|].
  intros i Hi. rewrite B4, B3, B2, B1 by lia. done.
Qed.
Lemma emits_ext m m' o depth t c d c' : (∀ b, m b = m' b) → emits m' o depth t c d c' → emits m o depth t c d c'.
Proof. intros E H b s Ht Hl Hlim. rewrite E. by apply H. Qed.
Lemma emits_text m o depth t c d d' c' : emits m o depth t c d c' → d = d' → emits m o depth t c d' c'.
Proof. by intros H <-. Qed.
Lemma cst_assoc {A B C} (m : cst BUFFER A) (f : A → cst BUFFER B) (g : B → cst BUFFER C) b :
  (m ≫= λ x, f x ≫= g) b = ((m ≫= f) ≫= g) b.
Proof. rewrite !bind_run. by destruct (m b) as [[x b']| |]. Qed.
Lemma cst_bind_cong {A B} (m m' : cst BUFFER A) (f g : A → cst BUFFER B) b :
  m b = m' b → (∀ x b, f x b = g x b) → (m ≫= f) b = (m' ≫= g) b.
Proof. intros Em E. rewrite !bind_run, Em. destruct (m' b) as [[x b']| |]; [apply E|done..]. Qed.
Lemma cst_bind_ext {A B} (m : cst BUFFER A) (f g : A → cst BUFFER B) b :
  (∀ x b, f x b = g x b) → (m ≫= f) b = (m ≫= g) b.
Proof. by apply cst_bind_cong. Qed.

(** *** The parts of a value *)

Definition close_text (newlines : bool) (depth : Z) (c : ascii) : list ascii :=
  (if newlines then newline depth else []) ++ [c].

Section values.
Context (o depth : Z) (t : BUFFER_JSON_NODE_TYPE) (c : Z).
Hypothesis Hdepth : 0 ≤ depth < 32.
Hypothesis Hc : 0 ≤ c.
Hypothesis Hc' : c + 1 < 2 ^ 24.

Definition key_text (key : option string) : list ascii :=
  match key with Some k => quoted k ++ [":"%char] | None => [] end.

Lemma emits_member k m d : emits m o depth t c d c →
  emits (member (Some k) m) o depth t c ((separator o depth t c ++ key_text (Some k)) ++ d) (c + 1).
Proof using Hdepth Hc Hc'.
  intros Hm. eapply emits_text.
  { eapply emits_bind; [by apply emits_separator|]. eapply emits_bind; [by apply emits_key|].
    eapply emits_bind; [apply emits_appends, appends_putc|]. eapply emits_bind; [exact Hm|].
    by apply emits_count. }
  cbn [key_text]. by rewrite app_nil_r, <- !app_assoc.
Qed.
Lemma emits_item m d : emits m o depth t c d c →
  emits (array_item m) o depth t c ((separator o depth t c ++ key_text None) ++ d) (c + 1).
Proof using Hdepth Hc Hc'.
  intros Hm. eapply emits_text.
  { eapply emits_bind; [by apply emits_separator|]. eapply emits_bind; [exact Hm|].
    by apply emits_count. }
  cbn [key_text]. by rewrite !app_nil_r.
Qed.
Lemma emits_null : emits (buffer_json_add_string_value None) o depth t c (chars "null") c.
Proof using Type. apply emits_appends, (appends_fast_strcat "null"). Qed.

(** The newline in front of a closing bracket. *)
Lemma emits_close b x : level b o depth t c → ∀ flag : bool,
  emits ((if flag then buffer_putc LF ≫= λ _, buffer_print_spaces (j_depth (wb_json b)) else mret tt)
         ≫= λ _, buffer_putc x) o depth t c (close_text flag depth x) c.
Proof using Hdepth.
  intros Hl flag. rewrite (lv_depth _ _ _ _ _ Hl). eapply emits_bind; [|apply emits_appends, appends_putc].
  destruct flag; [|apply emits_ret]. apply emits_appends, appends_newline. lia.
Qed.
End values.

(** What closes an object, and an array, before the element is left. *)
Definition object_end : cst BUFFER unit :=
  b ← cget;
  _ ← (if negb (has_option (j_options (wb_json b)) BUFFER_JSON_OPTIONS_MINIFY) then
         _ ← buffer_putc LF; buffer_print_spaces (j_depth (wb_json b))
       else mret tt);
  buffer_putc "}".
Definition array_end : cst BUFFER unit :=
  b ← cget;
  _ ← (if has_option (j_options (wb_json b)) BUFFER_JSON_OPTIONS_NEWLINE_ON_ARRAY_ITEMS then
         _ ← buffer_putc LF; buffer_print_spaces (j_depth (wb_json b))
       else mret tt);
  buffer_putc "]".
Lemma object_close_end b : buffer_json_object_close b = (object_end ≫= λ _, _buffer_json_depth_pop) b.
Proof.
  unfold buffer_json_object_close, object_end. rewrite <- (cst_assoc cget). apply cst_bind_ext.
  intros x b'. apply cst_assoc.
Qed.
Lemma array_close_end b : buffer_json_array_close b = (array_end ≫= λ _, _buffer_json_depth_pop) b.
Proof.
  unfold buffer_json_array_close, array_end. rewrite <- (cst_assoc cget). apply cst_bind_ext.
  intros x b'. apply cst_assoc.
Qed.
Lemma emits_object_end o depth t c : 0 ≤ depth < 32 →
  emits object_end o depth t c (close_text (negb (minify o)) depth "}") c.
Proof.
  intros Hd. apply emits_get. intros b Hl. rewrite (lv_options _ _ _ _ _ Hl). by apply emits_close.
Qed.
Lemma emits_array_end o depth t c : 0 ≤ depth < 32 →
  emits array_end o depth t c (close_text (spread o) depth "]") c.
Proof.
  intros Hd. apply emits_get. intros b Hl. rewrite (lv_options _ _ _ _ _ Hl). by apply emits_close.
Qed.

(** *** Opening an element *)

Lemma opens_text m o depth t c d d' t' : opens m o depth t c d t' → d = d' → opens m o depth t c d' t'.
Proof. by intros H <-. Qed.
Lemma opens_ext m m' o depth t c d t' : (∀ b, m b = m' b) → opens m' o depth t c d t' → opens m o depth t c d t'.
Proof. intros E H b s Ht Hl Hlim. rewrite E. by apply H. Qed.

Section opening.
Context (o depth : Z) (t : BUFFER_JSON_NODE_TYPE) (c : Z).
Hypothesis Hdepth : 0 ≤ depth.
Hypothesis Hfit : depth + 1 < 32.
Hypothesis Hc : 0 ≤ c.
Hypothesis Hc' : c + 1 < 2 ^ 24.

Definition open_member (k : string) (bracket : string) (t' : BUFFER_JSON_NODE_TYPE) : cst BUFFER unit :=
  _ ← (_ ← buffer_print_json_comma_newline_spacing;
       _ ← buffer_print_json_key (Some k);
       buffer_fast_strcat (Some (String ":" bracket)) (len (chars (String ":" bracket))));
  _ ← count_one;
  _buffer_json_depth_push t'.
Lemma opens_member k bracket t' :
  opens (open_member k bracket t') o depth t c
    ((separator o depth t c ++ key_text (Some k)) ++ chars bracket) t'.
Proof using Hdepth Hfit Hc Hc'.
  apply opens_bind; [done..|]. eapply emits_text.
  { eapply emits_bind; [by apply emits_separator; lia|]. eapply emits_bind; [by apply emits_key|].
    apply emits_appends, appends_fast_strcat. }
  cbn [key_text]. rewrite <- !app_assoc. done.
Qed.
Lemma member_add_object_open k b :
  buffer_json_member_add_object (Some k) b = open_member k "{" BUFFER_JSON_OBJECT b.
Proof using Type.
  unfold buffer_json_member_add_object, open_member. rewrite <- cst_assoc. apply cst_bind_ext. intros _ b1.
  rewrite <- cst_assoc. done.
Qed.
Lemma member_add_array_open k b :
  buffer_json_member_add_array (Some k) b = open_member k "[" BUFFER_JSON_ARRAY b.
Proof using Type.
  unfold buffer_json_member_add_array, open_member. rewrite <- cst_assoc. apply cst_bind_ext. intros _ b1.
  done.
Qed.
Lemma opens_item_object :
  opens buffer_json_add_array_item_object o depth t c (separator o depth t c ++ ["{"%char]) BUFFER_JSON_OBJECT.
Proof using Hdepth Hfit Hc Hc'.
  eapply opens_ext; [intros b; apply (cst_assoc _ (λ _, buffer_putc "{"))|].
  apply opens_bind; [done..|]. eapply emits_bind; [by apply emits_separator; lia|].
  apply emits_appends, appends_putc.
Qed.
Lemma opens_item_array l :
  opens buffer_json_add_array_item_array o depth t c (lead o depth t c None (JArray l) ++ ["["%char]) BUFFER_JSON_ARRAY.
Proof using Hdepth Hfit Hc Hc'.
  unfold lead. rewrite app_nil_r.
  intros b s Ht Hl. unfold buffer_json_add_array_item_array. rewrite bind_get, bind_run, (top_level _ _ _ _ _ Hl).
  rewrite (lv_options _ _ _ _ _ Hl), (lv_depth _ _ _ _ _ Hl), cst_assoc. fold (minify o). cbn [jn_type].
  revert b s Ht Hl. apply opens_bind; [done..|]. eapply emits_bind; [|apply emits_appends, appends_putc].
  destruct (negb (minify o) && is_array t); [|by apply emits_separator; lia].
  eapply emits_bind; [apply emits_comma|]. apply emits_appends, appends_newline. lia.
Qed.
End opening.

(** *** Whole values *)

Lemma lead_plain o depth t c key v : (∀ l, v ≠ JArray l) → lead o depth t c key v = separator o depth t c ++ key_text key.
Proof. intros Hv. destruct key, v; done || (by destruct (Hv items)). Qed.
Lemma lead_member o depth t c k v : lead o depth t c (Some k) v = separator o depth t c ++ key_text (Some k).
Proof. done. Qed.
Lemma emit_array key l b : emit key (JArray l) b =
  (match key with
   | Some k => open_member k "[" BUFFER_JSON_ARRAY
   | None => buffer_json_add_array_item_array
   end ≫= λ _, emit_items l ≫= λ _, array_end ≫= λ _, _buffer_json_depth_pop) b.
Proof.
  change (emit key (JArray l)) with
    (match key with
     | Some _ => buffer_json_member_add_array key
     | None => buffer_json_add_array_item_array
     end ≫= λ _, emit_items l ≫= λ _, buffer_json_array_close).
  assert (E : ∀ b, (emit_items l ≫= λ _, buffer_json_array_close) b =
    (emit_items l ≫= λ _, array_end ≫= λ _, _buffer_json_depth_pop) b).
  { intros b'. apply cst_bind_ext. intros _. apply array_close_end. }
  apply cst_bind_cong; [|intros _; apply E]. destruct key; [apply member_add_array_open|done].
Qed.
Lemma emit_object key l b : emit key (JObject l) b =
  (match key with
   | Some k => open_member k "{" BUFFER_JSON_OBJECT
   | None => buffer_json_add_array_item_object
   end ≫= λ _, emit_members l ≫= λ _, object_end ≫= λ _, _buffer_json_depth_pop) b.
Proof.
  change (emit key (JObject l)) with
    (match key with
     | Some _ => buffer_json_member_add_object key
     | None => buffer_json_add_array_item_object
     end ≫= λ _, emit_members l ≫= λ _, buffer_json_object_close).
  assert (E : ∀ b, (emit_members l ≫= λ _, buffer_json_object_close) b =
    (emit_members l ≫= λ _, object_end ≫= λ _, _buffer_json_depth_pop) b).
  { intros b'. apply cst_bind_ext. intros _. apply object_close_end. }
  apply cst_bind_cong; [|intros _; apply E]. destruct key; [apply member_add_object_open|done].
Qed.
Lemma value_text_array o depth l : value_text o depth (JArray l) =
  ["["%char] ++ items_text o (depth + 1) 0 l ++ close_text (spread o) (depth + 1) "]".
Proof. reflexivity. Qed.
Lemma value_text_object o depth l : value_text o depth (JObject l) =
  ["{"%char] ++ members_text o (depth + 1) 0 l ++ close_text (negb (minify o)) (depth + 1) "}".
Proof.
  change (value_text o depth (JObject l)) with
    (["{"%char] ++ members_text o (depth + 1) 0 l ++ (if minify o then [] else newline (depth + 1)) ++ ["}"%char]).
  unfold close_text. by destruct (minify o).
Qed.

(** The calls that write a value append its text. *)
Definition emits_value (v : json) : Prop := ∀ o depth t c key, fits depth v → 0 ≤ depth < 32 →
  0 ≤ c → c + 1 < 2 ^ 24 →
  emits (emit key v) o depth t c (lead o depth t c key v ++ value_text o depth v) (c + 1).

Lemma emits_scalar key v m d o depth t c :
  (∀ l, v ≠ JArray l) → 0 ≤ depth < 32 → 0 ≤ c → c + 1 < 2 ^ 24 → value_text o depth v = d →
  emit key v = match key with Some k => member key m | None => array_item m end →
  emits m o depth t c d c →
  emits (emit key v) o depth t c (lead o depth t c key v ++ value_text o depth v) (c + 1).
Proof.
  intros Hv Hd Hc Hc' -> -> Hm. rewrite lead_plain by done.
  destruct key; [by apply emits_member|by apply emits_item].
Qed.
Lemma emits_items o depth l : 0 ≤ depth < 32 → Forall emits_value l → Forall (fits depth) l →
  ∀ c, 0 ≤ c → c + len l < 2 ^ 24 →
  emits (emit_items l) o depth BUFFER_JSON_ARRAY c (items_text o depth c l) (c + len l).
Proof.
  intros Hd. induction 1 as [|v l Hv _ IH]; intros Hf c Hc Hl.
  { change (len []) with 0. rewrite Z.add_0_r. apply emits_ret. }
  inversion Hf; subst. rewrite len_cons in *. pose proof (len_nonneg l).
  cbn [emit_items items_text]. eapply emits_bind; [apply Hv; (done || lia)|].
  replace (c + (1 + len l)) with (c + 1 + len l) by lia. apply IH; (done || lia).
Qed.
Lemma emits_members o depth t l : 0 ≤ depth < 32 → Forall (λ m, emits_value (snd m)) l →
  Forall (λ m, fits depth (snd m)) l → t = BUFFER_JSON_OBJECT → ∀ c, 0 ≤ c → c + len l < 2 ^ 24 →
  emits (emit_members l) o depth t c (members_text o depth c l) (c + len l).
Proof.
  intros Hd H. induction H as [|[k v] l Hv _ IH]; intros Hf -> c Hc Hl.
  { change (len []) with 0. rewrite Z.add_0_r. apply emits_ret. }
  inversion Hf; subst. rewrite len_cons in *. pose proof (len_nonneg l).
  cbn [emit_members members_text]. eapply emits_bind; [apply Hv; (done || lia)|].
  replace (c + (1 + len l)) with (c + 1 + len l) by lia. apply IH; (done || lia).
Qed.
Lemma emits_array l : Forall emits_value l → emits_value (JArray l).
Proof.
  intros Hl o depth t c key Hf Hd Hc Hc'. apply fits_array in Hf as (Hd1 & Hlen & Hf).
  eapply emits_ext; [apply emit_array|]. rewrite value_text_array, app_assoc.
  apply emits_element with (t' := BUFFER_JSON_ARRAY) (c' := 0 + len l); [lia| |apply emits_items; (done || lia)|apply emits_array_end; lia].
  destruct key; [rewrite lead_member; apply opens_member; lia|apply opens_item_array; lia].
Qed.
Lemma emits_object l : Forall (λ m, emits_value (snd m)) l → emits_value (JObject l).
Proof.
  intros Hl o depth t c key Hf Hd Hc Hc'. apply fits_object in Hf as (Hd1 & Hlen & Hf).
  eapply emits_ext; [apply emit_object|]. rewrite value_text_object, app_assoc.
  apply emits_element with (t' := BUFFER_JSON_OBJECT) (c' := 0 + len l); [lia| |apply emits_members; (done || lia)|apply emits_object_end; lia].
  rewrite lead_plain by done. destruct key; [apply opens_member; lia|].
  cbn [key_text]. rewrite app_nil_r. apply opens_item_object; lia.
Qed.
Lemma emits_values v : emits_value v.
Proof.
  induction v using json_ind'; [..|by apply emits_array|by apply emits_object];
    intros o depth t c key Hf Hd Hc Hc'.
  - apply emits_scalar with (m := buffer_json_add_string_value None) (d := chars "null"); try done.
    apply emits_null.
  - apply emits_scalar with (m := buffer_strcat (Some (bool_text v))) (d := chars (bool_text v)); try done.
    apply emits_appends, appends_strcat.
  - apply emits_scalar with (m := buffer_print_int64 n) (d := int64_text NUMBER_ENCODING_DECIMAL n); try done.
    apply emits_appends, (appends_int64 NUMBER_ENCODING_DECIMAL), Hf.
  - apply emits_scalar with (m := buffer_print_uint64 n) (d := uint64_text NUMBER_ENCODING_DECIMAL n); try done.
    apply emits_appends, (appends_uint64 NUMBER_ENCODING_DECIMAL).
  - apply emits_scalar with (m := buffer_json_add_string_value (Some s)) (d := quoted s); try done.
    apply emits_string.
Qed.
