(* ===== verification/JsonThms.v ===== *)
(** * JSON documents are read back

    A reader of JSON (RFC 8259; of the numbers, the integers), the text of a whole
    document from [buffer_json_initialize()] to [buffer_json_finalize()], and the
    round trip between the two, in every format the options select. *)

From S2P Require Import Prelude CString Inlined Memory WebBuffer WebBufferSpec WebBufferThms Json JsonSpec.
#[local] Open Scope string_scope.
#[local] Open Scope list_scope.
#[local] Open Scope Z_scope.

(** ** The reader *)

Definition is_ws (c : ascii) : bool :=
  Ascii.eqb c " " || Ascii.eqb c "009" || Ascii.eqb c LF || Ascii.eqb c "013".
Fixpoint skip_ws (t : list ascii) : list ascii :=
  match t with
  | c :: t' => if is_ws c then skip_ws t' else t
  | [] => []
  end.
(** The token [c]. *)
Definition expect (c : ascii) (t : list ascii) : option (list ascii) :=
  match skip_ws t with
  | x :: t => if Ascii.eqb x c then Some t else None
  | [] => None
  end.
(** The characters of a string, up to the closing quote. *)
Fixpoint parse_chars (fuel : nat) (t : list ascii) : option (list ascii * list ascii) :=
  match t, fuel with
  | [], _ | _, O => None
  | x :: t', S fuel =>
      if Ascii.eqb x DQ then Some ([], t')
      else match unescape_char t with
           | Some (c, t) => prod_map (cons c) id <$> parse_chars fuel t
           | None => None
           end
  end.
Definition parse_string (t : list ascii) : option (string * list ascii) :=
  t ← expect DQ t; prod_map str id <$> parse_chars (length t) t.
Definition parse_uint (t : list ascii) : option (Z * list ascii) :=
  match t with
  | c :: _ => if isdigit c then Some (digits_value (str t) 0, chars (digits_rest (str t))) else None
  | [] => None
  end.
Definition parse_literal (word : string) (v : json) (t : list ascii) : option (json * list ascii) :=
  if decide (take (String.length word) t = chars word) then Some (v, drop (String.length word) t) else None.

Section elements.
Context {A : Type} (element : list ascii → option (A * list ascii)) (close : ascii).
(** Elements between commas, up to the closing bracket. *)
Fixpoint parse_elements (fuel : nat) (t : list ascii) : option (list A * list ascii) :=
  match fuel with
  | O => None
  | S fuel =>
      match element t with
      | Some (x, t) =>
          match expect "," t with
          | Some t => prod_map (cons x) id <$> parse_elements fuel t
          | None => pair [x] <$> expect close t
          end
      | None => None
      end
  end.
Definition parse_list (fuel : nat) (t : list ascii) : option (list A * list ascii) :=
  match expect close t with
  | Some t => Some ([], t)
  | None => parse_elements fuel t
  end.
End elements.

Definition parse_member (value : list ascii → option (json * list ascii)) (t : list ascii) :
    option ((string * json) * list ascii) :=
  match parse_string t with
  | Some (k, t) => t ← expect ":" t; prod_map (pair k) id <$> value t
  | None => None
  end.
(** A value by its first character; [value] reads the values inside it. *)
Definition parse_token (value : list ascii → option (json * list ascii)) (fuel : nat) (c : ascii)
    (t : list ascii) : option (json * list ascii) :=
  if Ascii.eqb c "{" then prod_map JObject id <$> parse_list (parse_member value) "}" fuel t
  else if Ascii.eqb c "[" then prod_map JArray id <$> parse_list value "]" fuel t
  else if Ascii.eqb c DQ then prod_map JString id <$> parse_string (c :: t)
  else if Ascii.eqb c "-" then prod_map (λ n, JInt (- n)) id <$> parse_uint t
  else if Ascii.eqb c "n" then parse_literal "null" JNull (c :: t)
  else if Ascii.eqb c "t" then parse_literal "true" (JBool true) (c :: t)
  else if Ascii.eqb c "f" then parse_literal "false" (JBool false) (c :: t)
  else prod_map JInt id <$> parse_uint (c :: t).
Fixpoint parse_value (fuel : nat) (t : list ascii) : option (json * list ascii) :=
  match fuel with
  | O => None
  | S fuel =>
      match skip_ws t with
      | [] => None
      | c :: t => parse_token (parse_value fuel) fuel c t
      end
  end.
(** A document: one value and nothing else. *)
Definition parse (t : list ascii) : option json :=
  match parse_value (length t) t with
  | Some (v, t) => if decide (skip_ws t = []) then Some v else None
  | None => None
  end.
(** A reader does not tell the signed numbers from the unsigned ones. *)
Fixpoint norm (v : json) : json :=
  match v with
  | JUint n => JInt n
  | JArray l => JArray (map norm l)
  | JObject l => JObject (map (λ m, (fst m, norm (snd m))) l)
  | _ => v
  end.

(** ** Tokens *)

Lemma skip_ws_app w t : Forall (λ c, is_ws c = true) w → skip_ws (w ++ t) = skip_ws t.
Proof. induction 1 as [|c w Hc _ IH]; [done|]. cbn. by rewrite Hc. Qed.
Lemma newline_ws n : Forall (λ c, is_ws c = true) (newline n).
Proof. constructor; [done|]. by apply Forall_replicate. Qed.
Lemma expect_app w c t : Forall (λ c, is_ws c = true) w → is_ws c = false → expect c (w ++ c :: t) = Some t.
Proof.
  intros Hw Hc. unfold expect. rewrite skip_ws_app by done. cbn. by rewrite Hc, Ascii.eqb_refl.
Qed.
Lemma expect_here c t : is_ws c = false → expect c (c :: t) = Some t.
Proof. by apply (expect_app []). Qed.
Lemma expect_other w c x t : Forall (λ c, is_ws c = true) w → is_ws x = false → x ≠ c → expect c (w ++ x :: t) = None.
Proof.
  intros Hw Hx Hne. unfold expect. rewrite skip_ws_app by done. cbn. rewrite Hx.
  by destruct (Ascii.eqb_spec x c).
Qed.

Lemma escape_not_quote c t : ∃ x l, json_escape_char c ++ t = x :: l ∧ Ascii.eqb x DQ = false.
Proof. destruct c as [[] [] [] [] [] [] [] []]; by eexists _, _. Qed.
Lemma parse_chars_escape s : ∀ fuel rest, (length s < fuel)%nat →
  parse_chars fuel (escape json_escape_char s ++ DQ :: rest) = Some (s, rest).
Proof.
  induction s as [|c s IH]; intros fuel rest Hf; destruct fuel as [|fuel]; [cbn in Hf; lia|done|cbn in Hf; lia|].
  unfold escape. rewrite bind_cons, <- app_assoc. fold (escape json_escape_char s).
  set (t := escape json_escape_char s ++ DQ :: rest). pose proof (unescape_escaped c t) as Hu.
  destruct (escape_not_quote c t) as (x & l & E & Hx). rewrite E in *. cbn [parse_chars].
  rewrite Hx, Hu. unfold t. rewrite IH by (cbn in Hf; lia). done.
Qed.
Lemma escape_length s : (length s ≤ length (escape json_escape_char s))%nat.
Proof.
  induction s as [|c s IH]; [done|]. unfold escape in *. rewrite bind_cons, length_app.
  pose proof (escape_nonempty c). destruct (json_escape_char c); [done|]. cbn. lia.
Qed.
Lemma parse_quoted w s rest : Forall (λ c, is_ws c = true) w → parse_string (w ++ quoted s ++ rest) = Some (s, rest).
Proof.
  intros Hw. unfold parse_string, quoted. rewrite <- !app_assoc. cbn [app].
  rewrite expect_app by done. cbn [mbind option_bind].
  rewrite parse_chars_escape.
  - cbn. by rewrite str_chars.
  - rewrite length_app. cbn. pose proof (escape_length (chars s)). lia.
Qed.

(** What can follow a number. *)
Definition delimited (t : list ascii) : Prop :=
  match t with [] => True | c :: _ => isdigit c = false end.
Lemma chars_str l : chars (str l) = l.
Proof. apply String.list_ascii_of_string_of_list_ascii. Qed.
Lemma decimal_before n t : str (uint64_text NUMBER_ENCODING_DECIMAL n ++ t) = dec_aux 20 n (str t).
Proof.
  rewrite <- (str_chars (dec_aux 20 n (str t))), decimal_text. by rewrite chars_str.
Qed.
Lemma parse_decimal n t : 0 ≤ n < 2 ^ 64 → delimited t →
  parse_uint (uint64_text NUMBER_ENCODING_DECIMAL n ++ t) = Some (n, t).
Proof.
  intros Hn Ht. unfold parse_uint. rewrite decimal_before.
  destruct (digits_value_dec 20 n (str t)) as [E1 E2]; [split; [lia|]; etrans; [apply Hn|by vm_compute]|].
  rewrite E1, E2.
  assert (digits_value (str t) n = n ∧ digits_rest (str t) = str t) as [-> ->].
  { destruct t as [|c t]; [done|]. cbn in Ht |- *. by rewrite Ht. }
  rewrite chars_str. pose proof (decimal_print n) as Hp.
  destruct (print_u_head n) as (d & s & Hd & Hs). rewrite Hs in Hp.
  destruct (uint64_text NUMBER_ENCODING_DECIMAL n) as [|c l]; [done|]. injection Hp as -> _.
  cbn [app]. by rewrite isdigit_digit_char.
Qed.

(** ** Elements *)

(** The white space in front of an element. *)
Definition gap (o depth : Z) (t : BUFFER_JSON_NODE_TYPE) : list ascii :=
  if minify o || (is_array t && negb (spread o)) then [] else newline (depth + 1).
Definition blank (o depth : Z) (t : BUFFER_JSON_NODE_TYPE) (key : option string) (v : json) : list ascii :=
  match key, v with
  | None, JArray _ => if negb (minify o) && is_array t then newline (depth + 1) else gap o depth t
  | _, _ => gap o depth t
  end.
Lemma gap_ws o depth t : Forall (λ c, is_ws c = true) (gap o depth t).
Proof. unfold gap. case_match; [constructor|apply newline_ws]. Qed.
Lemma blank_ws o depth t key v : Forall (λ c, is_ws c = true) (blank o depth t key v).
Proof.
  unfold blank. repeat case_match; try apply gap_ws; apply newline_ws.
Qed.
Lemma lead_blank o depth t c key v : lead o depth t c key v = comma c ++ blank o depth t key v ++ key_text key.
Proof.
  unfold lead, blank, separator, gap, key_text. destruct key as [k|].
  - by rewrite <- app_assoc.
  - rewrite !app_nil_r. destruct v; try done. by case_match.
Qed.
(** The text of an element, without the comma. *)
Definition chunk (o depth : Z) (t : BUFFER_JSON_NODE_TYPE) (key : option string) (v : json) : list ascii :=
  blank o depth t key v ++ key_text key ++ value_text o depth v.
Lemma element_chunk o depth t c key v :
  lead o depth t c key v ++ value_text o depth v = comma c ++ chunk o depth t key v.
Proof. rewrite lead_blank. unfold chunk. by rewrite <- !app_assoc. Qed.

(** Chunks between commas. *)
Definition chunks (c : Z) (l : list (list ascii)) : list ascii :=
  match l with [] => [] | d :: l => comma c ++ d ++ (l ≫= λ d, ","%char :: d) end.
Lemma chunks_cons c d l : 0 ≤ c → (comma c ++ d) ++ chunks (c + 1) l = chunks c (d :: l).
Proof.
  intros Hc. unfold chunks. destruct l as [|d' l]; [cbn [mbind list_bind]; by rewrite !app_nil_r|].
  rewrite bind_cons. unfold comma at 2. destruct (Z.eqb_spec (c + 1) 0); [lia|].
  by rewrite <- !app_assoc.
Qed.
Lemma items_chunks o depth l : ∀ c, 0 ≤ c →
  items_text o depth c l = chunks c (chunk o depth BUFFER_JSON_ARRAY None <$> l).
Proof.
  induction l as [|v l IH]; intros c Hc; [done|]. cbn [items_text].
  by rewrite element_chunk, IH, chunks_cons by lia.
Qed.
Lemma members_chunks o depth l : ∀ c, 0 ≤ c →
  members_text o depth c l = chunks c ((λ m, chunk o depth BUFFER_JSON_OBJECT (Some (fst m)) (snd m)) <$> l).
Proof.
  induction l as [|[k v] l IH]; intros c Hc; [done|]. cbn [members_text].
  by rewrite element_chunk, IH, chunks_cons by lia.
Qed.

(** The text [d] of an element, read as [x] whatever follows. *)
Definition reads {A} (element : list ascii → option (A * list ascii)) (d : list ascii) (x : A) : Prop :=
  ∀ rest, delimited rest → element (d ++ rest) = Some (x, rest).
(** The text starts with something else than [c]. *)
Definition not_at (c : ascii) (d : list ascii) : Prop := ∀ rest, expect c (d ++ rest) = None.

Section lists.
Context {A : Type} (element : list ascii → option (A * list ascii)) (close : ascii) (w : list ascii).
Hypothesis Hw : Forall (λ c, is_ws c = true) w.
Hypothesis Hclose : is_ws close = false.
Hypothesis Hcomma : close ≠ ","%char.
Hypothesis Hdigit : isdigit close = false.

Lemma delimited_close rest : delimited (w ++ close :: rest).
Proof using Hw Hdigit.
  destruct Hw as [|c w' Hc _]; [done|]. cbn. unfold is_ws in Hc. clear -Hc. by destruct c as [[] [] [] [] [] [] [] []].
Qed.
Lemma parse_elements_spec rest ds : ∀ xs d x fuel, Forall2 (reads element) (d :: ds) (x :: xs) →
  (length ds < fuel)%nat →
  parse_elements element close fuel (d ++ (ds ≫= λ d, ","%char :: d) ++ w ++ close :: rest) = Some (x :: xs, rest).
Proof using Hw Hclose Hcomma Hdigit.
  induction ds as [|d' ds IH]; intros xs d x fuel Hr Hf; inversion Hr as [|? ? ? ? Hx Hxs]; subst;
    destruct fuel as [|fuel]; [cbn in Hf; lia| |cbn in Hf; lia|]; cbn [parse_elements].
  - inversion Hxs; subst. rewrite Hx by apply delimited_close.
    change (([] ≫= λ d, ","%char :: d) ++ w ++ close :: rest) with (w ++ close :: rest).
    rewrite expect_other, expect_app by done. done.
  - inversion Hxs as [|? x' ? xs' Hx' Hxs']; subst. rewrite bind_cons, <- app_assoc. cbn [app].
    rewrite Hx by done. rewrite expect_here by done.
    rewrite (IH xs' d' x' fuel) by (done || cbn in *; lia). done.
Qed.
Lemma parse_list_spec rest ds xs fuel : Forall2 (reads element) ds xs → Forall (not_at close) ds →
  (length ds ≤ fuel)%nat →
  parse_list element close fuel (chunks 0 ds ++ w ++ close :: rest) = Some (xs, rest).
Proof using Hw Hclose Hcomma Hdigit.
  intros Hr Hn Hf. unfold parse_list. destruct Hr as [|d x ds xs Hx Hr].
  - cbn [chunks app]. by rewrite expect_app by done.
  - inversion Hn; subst. cbn [chunks]. change (comma 0) with (@nil ascii). cbn [app].
    rewrite <- app_assoc. rewrite H1. apply parse_elements_spec; [by constructor|cbn in Hf; lia].
Qed.
End lists.

(** ** Values *)

Lemma parse_value_token fuel w x t : Forall (λ c, is_ws c = true) w → is_ws x = false →
  parse_value (S fuel) (w ++ x :: t) = parse_token (parse_value fuel) fuel x t.
Proof. intros Hw Hx. cbn [parse_value]. rewrite skip_ws_app by done. cbn. by rewrite Hx. Qed.
(** A number starts with a digit. *)
Lemma decimal_head n : ∃ d l, 0 ≤ d < 10 ∧ uint64_text NUMBER_ENCODING_DECIMAL n = digit_char d :: l.
Proof.
  pose proof (decimal_print n) as Hp. destruct (print_u_head n) as (d & s & Hd & Hs). rewrite Hs in Hp.
  exists d. destruct (uint64_text NUMBER_ENCODING_DECIMAL n) as [|c l]; [done|]. injection Hp as -> _. by eexists.
Qed.
Lemma digit_token value fuel d t : 0 ≤ d < 10 →
  is_ws (digit_char d) = false ∧ digit_char d ≠ "]"%char ∧
  parse_token value fuel (digit_char d) t = prod_map JInt id <$> parse_uint (digit_char d :: t).
Proof.
  intros Hd. assert (d = 0 ∨ d = 1 ∨ d = 2 ∨ d = 3 ∨ d = 4 ∨ d = 5 ∨ d = 6 ∨ d = 7 ∨ d = 8 ∨ d = 9) as H by lia.
  by repeat destruct H as [->|H]; [..|subst].
Qed.
Lemma value_head o depth v : ∃ x l, value_text o depth v = x :: l ∧ is_ws x = false ∧ x ≠ "]"%char.
Proof.
  assert (Hn : ∀ n, ∃ x l, uint64_text NUMBER_ENCODING_DECIMAL n = x :: l ∧ is_ws x = false ∧ x ≠ "]"%char).
  { intros n. destruct (decimal_head n) as (d & l & Hd & ->).
    destruct (digit_token (λ _, None) 0 d [] Hd) as (H1 & H2 & _). by exists (digit_char d), l. }
  destruct v as [|[]|n|n|s|l|l]; try (by eexists _, _); [|apply Hn].
  cbn [value_text]. unfold int64_text. case_match; [by eexists _, _|apply Hn].
Qed.
Lemma chunks_tail ds : (∀ d, d ∈ ds → length d ≤ length (ds ≫= λ d, ","%char :: d))%nat ∧
  (length ds ≤ length (ds ≫= λ d, ","%char :: d))%nat.
Proof.
  induction ds as [|d ds [IH1 IH2]]; [by split; [intros d Hd; inversion Hd|]|].
  rewrite bind_cons, length_app. cbn [length]. split; [|lia].
  intros d' [->|Hd']%elem_of_cons; [lia|]. specialize (IH1 d' Hd'). lia.
Qed.
Lemma chunks_length c ds : Forall (λ d, d ≠ []) ds →
  (∀ d, d ∈ ds → length d ≤ length (chunks c ds))%nat ∧ (length ds ≤ length (chunks c ds))%nat.
Proof.
  intros Hne. destruct Hne as [|d ds Hd _]; [by split; [intros d Hd; inversion Hd|]|].
  destruct (chunks_tail ds) as [H1 H2]. unfold chunks. rewrite !length_app.
  assert (1 ≤ length d)%nat by (destruct d; [done|cbn; lia]). split; [|cbn; lia].
  intros d' [->|Hd']%elem_of_cons; [lia|]. specialize (H1 d' Hd'). lia.
Qed.

Definition value_reads (v : json) : Prop := ∀ o depth fuel w, fits depth v →
  (length (value_text o depth v) ≤ fuel)%nat → Forall (λ c, is_ws c = true) w →
  reads (parse_value fuel) (w ++ value_text o depth v) (norm v).

Lemma uint_reads n fuel w : 0 ≤ n < 2 ^ 64 → Forall (λ c, is_ws c = true) w →
  reads (parse_value (S fuel)) (w ++ uint64_text NUMBER_ENCODING_DECIMAL n) (JInt n).
Proof.
  intros Hn Hw rest Hrest. pose proof (parse_decimal n rest Hn Hrest) as Hp.
  destruct (decimal_head n) as (d & l & Hd & E). rewrite E in *. rewrite <- app_assoc. cbn [app] in *.
  destruct (digit_token (parse_value fuel) fuel d (l ++ rest) Hd) as (H1 & _ & H3).
  by rewrite parse_value_token, H3, Hp.
Qed.
Lemma int_reads n fuel w : - 2 ^ 63 < n < 2 ^ 63 → Forall (λ c, is_ws c = true) w →
  reads (parse_value (S fuel)) (w ++ int64_text NUMBER_ENCODING_DECIMAL n) (JInt n).
Proof.
  intros Hn Hw. unfold int64_text. destruct (Z.ltb_spec n 0); [|apply uint_reads; (done || lia)].
  intros rest Hrest. rewrite <- app_assoc. cbn [app]. rewrite parse_value_token by done.
  change (parse_token _ _ "-" ?t) with (prod_map (λ n, JInt (- n)) id <$> parse_uint t).
  rewrite parse_decimal by (done || lia). cbn. by rewrite Z.opp_involutive.
Qed.
Lemma string_reads s fuel w : Forall (λ c, is_ws c = true) w →
  reads (parse_value (S fuel)) (w ++ quoted s) (JString s).
Proof.
  intros Hw rest Hrest. pose proof (parse_quoted [] s rest ltac:(constructor)) as Hp.
  unfold quoted in *. rewrite <- app_assoc. cbn [app] in *. rewrite parse_value_token by done.
  unfold parse_token. cbn [Ascii.eqb Bool.eqb]. by rewrite Hp.
Qed.
Lemma array_reads l : Forall value_reads l → value_reads (JArray l).
Proof.
  intros Hl o depth fuel w Hf Hfuel Hw rest Hrest. apply fits_array in Hf as (_ & _ & Hf).
  rewrite value_text_array in *. destruct fuel as [|fuel]; [cbn in Hfuel; lia|].
  rewrite items_chunks in * by lia. set (ds := chunk o (depth + 1) BUFFER_JSON_ARRAY None <$> l) in *.
  assert (Hne : Forall (λ d, d ≠ []) ds).
  { apply Forall_fmap, Forall_true. intros v. destruct (value_head o (depth + 1) v) as (x & t & E & _).
    unfold chunk. cbn. rewrite E. intros ?%app_eq_nil. naive_solver. }
  destruct (chunks_length 0 ds Hne) as [Hin Hlen]. rewrite !length_app in Hfuel. cbn [length] in Hfuel.
  rewrite <- !app_assoc. cbn [app]. rewrite parse_value_token by done. unfold parse_token.
  cbn [Ascii.eqb Bool.eqb]. unfold close_text. rewrite <- !app_assoc. cbn [app].
  rewrite (parse_list_spec _ _ _) with (xs := norm <$> l); try done.
  - case_match; [apply newline_ws|constructor].
  - apply Forall2_fmap_l, Forall2_fmap_r, Forall_Forall2_diag.
    rewrite Forall_forall in Hl, Hf |- *. intros v Hv. apply Hl; [done|by apply Hf| |apply blank_ws].
    specialize (Hin _ (list_elem_of_fmap_2 (chunk o (depth + 1) BUFFER_JSON_ARRAY None) _ _ Hv)).
    unfold chunk in Hin. rewrite !length_app in Hin. lia.
  - apply Forall_fmap, Forall_true. intros v rest'. unfold compose, chunk. rewrite <- !app_assoc. cbn [key_text app].
    destruct (value_head o (depth + 1) v) as (x & t & E & Hx & Hx'). rewrite E. cbn [app].
    apply expect_other; [apply blank_ws|done..].
  - lia.
Qed.
Lemma object_reads l : Forall (λ m, value_reads (snd m)) l → value_reads (JObject l).
Proof.
  intros Hl o depth fuel w Hf Hfuel Hw rest Hrest. apply fits_object in Hf as (_ & _ & Hf).
  rewrite value_text_object in *. destruct fuel as [|fuel]; [cbn in Hfuel; lia|].
  rewrite members_chunks in * by lia.
  set (ds := (λ m, chunk o (depth + 1) BUFFER_JSON_OBJECT (Some (fst m)) (snd m)) <$> l) in *.
  assert (Hne : Forall (λ d, d ≠ []) ds).
  { apply Forall_fmap, Forall_true. intros [k v]. unfold compose, chunk. intros [_ ?]%app_eq_nil. done. }
  destruct (chunks_length 0 ds Hne) as [Hin Hlen]. rewrite !length_app in Hfuel. cbn [length] in Hfuel.
  rewrite <- !app_assoc. cbn [app]. rewrite parse_value_token by done. unfold parse_token.
  cbn [Ascii.eqb Bool.eqb]. unfold close_text. rewrite <- !app_assoc. cbn [app].
  rewrite (parse_list_spec _ _ _) with (xs := (λ m, (fst m, norm (snd m))) <$> l); try done.
  - case_match; [apply newline_ws|constructor].
  - apply Forall2_fmap_l, Forall2_fmap_r, Forall_Forall2_diag.
    rewrite Forall_forall in Hl, Hf |- *. intros [k v] Hv rest' Hrest'. cbn [fst snd].
    specialize (Hin _ (list_elem_of_fmap_2 (λ m, chunk o (depth + 1) BUFFER_JSON_OBJECT (Some (fst m)) (snd m)) _ _ Hv)).
    unfold chunk in *. cbn [fst snd key_text] in *. rewrite !length_app in Hin. rewrite <- !app_assoc.
    unfold parse_member. rewrite parse_quoted by apply blank_ws.
    cbn [app]. rewrite expect_here by done. cbn [mbind option_bind].
    pose proof (Hl _ Hv o (depth + 1) fuel [] (Hf _ Hv)) as H. cbn [app snd] in H.
    rewrite H; [done|lia|constructor|done].
  - apply Forall_fmap, Forall_true. intros [k v] rest'. unfold compose, chunk, key_text, quoted.
    rewrite <- !app_assoc. cbn [app]. apply expect_other; [apply blank_ws|done..].
  - lia.
Qed.
Lemma fuel_pos o depth v fuel : (length (value_text o depth v) ≤ fuel)%nat → ∃ f, fuel = S f.
Proof.
  destruct (value_head o depth v) as (x & l & -> & _). destruct fuel as [|f]; [cbn; lia|by exists f].
Qed.
Lemma values_read v : value_reads v.
Proof.
  induction v as [|x|n|n|s|l IH|l IH] using json_ind'; [..|by apply array_reads|by apply object_reads];
    intros o depth fuel w Hf [f ->]%fuel_pos Hw.
  - intros rest _. rewrite <- app_assoc. change (value_text o depth JNull ++ rest) with ("n"%char :: chars "ull" ++ rest).
    by rewrite parse_value_token.
  - intros rest _. rewrite <- app_assoc. destruct x.
    + change (value_text o depth (JBool true) ++ rest) with ("t"%char :: chars "rue" ++ rest).
      by rewrite parse_value_token.
    + change (value_text o depth (JBool false) ++ rest) with ("f"%char :: chars "alse" ++ rest).
      by rewrite parse_value_token.
  - by apply int_reads.
  - by apply uint_reads.
  - by apply string_reads.
Qed.

(** ** Elements left open *)

(** The part of an element that is written: members of an object, items of an
    array. *)
Inductive container : Type :=
| Members (l : list (string * json)) | Items (l : list json).
Definition ctype (c : container) : BUFFER_JSON_NODE_TYPE :=
  match c with Members _ => BUFFER_JSON_OBJECT | Items _ => BUFFER_JSON_ARRAY end.
Definition cjson (c : container) : json :=
  match c with Members l => JObject l | Items l => JArray l end.
Definition cemit (c : container) : cst BUFFER unit :=
  match c with Members l => emit_members l | Items l => emit_items l end.
Definition ckey (c : container) (k : string) : option string :=
  match c with Members _ => Some k | Items _ => None end.
Definition cadd (c : container) (k : string) (v : json) : container :=
  match c with Members l => Members (l ++ [(k, v)]) | Items l => Items (l ++ [v]) end.
Definition clen (c : container) : Z := match c with Members l => len l | Items l => len l end.
Definition ctext (o depth : Z) (c : container) : list ascii :=
  match c with Members l => members_text o depth 0 l | Items l => items_text o depth 0 l end.
Definition copen (key : option string) (t : BUFFER_JSON_NODE_TYPE) : cst BUFFER unit :=
  match t, key with
  | BUFFER_JSON_ARRAY, Some _ => buffer_json_member_add_array key
  | BUFFER_JSON_ARRAY, None => buffer_json_add_array_item_array
  | _, Some _ => buffer_json_member_add_object key
  | _, None => buffer_json_add_array_item_object
  end.
Definition cclose (t : BUFFER_JSON_NODE_TYPE) : cst BUFFER unit :=
  match t with BUFFER_JSON_ARRAY => buffer_json_array_close | _ => buffer_json_object_close end.
Definition cend (o depth : Z) (t : BUFFER_JSON_NODE_TYPE) : list ascii :=
  match t with
  | BUFFER_JSON_ARRAY => close_text (spread o) depth "]"
  | _ => close_text (negb (minify o)) depth "}"
  end.

(** A document that is not closed: the elements that are open, each with what
    was written in it before the next one was opened. *)
Inductive unfinished : Type :=
| Leaf (c : container) | Within (c : container) (k : string) (p : unfinished).
Definition outer (p : unfinished) : container := match p with Leaf c | Within c _ _ => c end.
Fixpoint complete (p : unfinished) : container :=
  match p with
  | Leaf c => c
  | Within c k p => cadd c k (cjson (complete p))
  end.
Fixpoint emit_unfinished (p : unfinished) : cst BUFFER unit :=
  match p with
  | Leaf c => cemit c
  | Within c k p =>
      _ ← cemit c;
      _ ← copen (ckey c k) (ctype (outer p));
      emit_unfinished p
  end.
Fixpoint levels (p : unfinished) : nat := match p with Leaf _ => 1 | Within _ _ p => S (levels p) end.
Lemma complete_type p : ctype (complete p) = ctype (outer p).
Proof. destruct p as [c|c k p]; [done|]. by destruct c. Qed.

Lemma emit_cjson key c : emit key (cjson c) = (copen key (ctype c) ≫= λ _, cemit c ≫= λ _, cclose (ctype c)).
Proof. by destruct c, key. Qed.
Lemma cst_ret_r (m : cst BUFFER unit) b : (m ≫= λ _, mret tt) b = m b.
Proof. rewrite bind_run. by destruct (m b) as [[[] b']| |]. Qed.
Lemma cemit_add c k v b : cemit (cadd c k v) b = (cemit c ≫= λ _, emit (ckey c k) v) b.
Proof.
  destruct c as [l|l]; cbn [cadd cemit ckey]; revert b; (induction l as [|x l IH]; intros b).
  1,3: apply cst_ret_r.
  - destruct x as [k' v']. cbn [app emit_members]. rewrite <- cst_assoc. by apply cst_bind_ext.
  - cbn [app emit_items]. rewrite <- cst_assoc. by apply cst_bind_ext.
Qed.
Lemma value_text_cjson o depth c :
  value_text o depth (cjson c) = [if is_array (ctype c) then "["%char else "{"%char] ++ ctext o (depth + 1) c ++ cend o (depth + 1) (ctype c).
Proof. destruct c; [apply value_text_object|apply value_text_array]. Qed.
Lemma cemit_spec o depth c : fits (depth - 1) (cjson c) → 0 ≤ depth →
  emits (cemit c) o depth (ctype c) 0 (ctext o depth c) (clen c) ∧ clen c < 2 ^ 24.
Proof.
  intros Hf Hd. rewrite <- (Z.add_0_l (clen c)).
  destruct c as [l|l]; [apply fits_object in Hf as (Hd1 & Hlen & Hf)|apply fits_array in Hf as (Hd1 & Hlen & Hf)];
    rewrite Z.sub_add in *; (split; [|done]).
  - apply emits_members; [lia| |done..]. apply Forall_true. intros m. apply emits_values.
  - apply emits_items; [lia| |done..]. apply Forall_true. apply emits_values.
Qed.
Lemma fits_cadd depth c k v : fits depth (cjson (cadd c k v)) →
  fits depth (cjson c) ∧ fits (depth + 1) v ∧ clen c + 1 < 2 ^ 24 ∧ depth + 1 < 32.
Proof.
  destruct c as [l|l]; cbn [cadd cjson clen].
  - intros (H1 & H2 & H3)%fits_object. rewrite len_app in H2. change (len [(k, v)]) with 1 in H2.
    apply Forall_app in H3 as [H3 H4]. inversion H4; subst. split; [|split; [done|lia]].
    split; [done|]. split; [lia|]. clear H2 H4. induction H3; [done|by split].
  - intros (H1 & H2 & H3)%fits_array. rewrite len_app in H2. change (len [v]) with 1 in H2.
    apply Forall_app in H3 as [H3 H4]. inversion H4; subst. split; [|split; [done|lia]].
    split; [done|]. split; [lia|]. clear H2 H4. induction H3; [done|by split].
Qed.
Lemma copen_spec o depth c k c' : 0 ≤ depth → depth + 1 < 32 → clen c + 1 < 2 ^ 24 →
  opens (copen (ckey c k) (ctype c')) o depth (ctype c) (clen c)
    (lead o depth (ctype c) (clen c) (ckey c k) (cjson c') ++ [if is_array (ctype c') then "["%char else "{"%char])
    (ctype c').
Proof.
  intros Hd Hd' Hc. assert (0 ≤ clen c) by (destruct c; apply len_nonneg).
  destruct c as [l|l], c' as [l'|l']; cbn [ckey ctype copen cjson is_array] in *.
  - rewrite lead_member. eapply opens_ext; [intros b; apply member_add_object_open|]. by apply opens_member.
  - rewrite lead_member. eapply opens_ext; [intros b; apply member_add_array_open|]. by apply opens_member.
  - rewrite lead_plain by done. cbn [key_text]. rewrite app_nil_r. by apply opens_item_object.
  - by apply opens_item_array.
Qed.

(** ** Finishing a document *)

Definition anonymous (o : Z) : Prop := has_option o BUFFER_JSON_OPTIONS_NON_ANONYMOUS = false.

(** The loop closes the innermost element, and goes on. *)
Lemma finalize_step o depth t c b fuel : level b o depth t c → anonymous o → t ≠ BUFFER_JSON_EMPTY →
  (depth = 0 → t = BUFFER_JSON_OBJECT) →
  finalize_loop (S fuel) b = (cclose t ≫= λ _, finalize_loop fuel) b.
Proof.
  intros Hl Ho Ht Ht0. cbn [finalize_loop]. rewrite (lv_depth _ _ _ _ _ Hl), (lv_options _ _ _ _ _ Hl), Ho.
  pose proof (lv_range _ _ _ _ _ Hl). destruct (Z.ltb_spec depth 0); [lia|].
  rewrite bind_run, (top_level _ _ _ _ _ Hl). cbn [jn_type]. destruct t; [done| |done].
  cbn [negb]. by destruct (depth =? 0).
Qed.
Lemma items_text_app o depth l2 l1 : ∀ c,
  items_text o depth c (l1 ++ l2) = items_text o depth c l1 ++ items_text o depth (c + len l1) l2.
Proof.
  induction l1 as [|v l1 IH]; intros c; [cbn [app]; by rewrite Z.add_0_r|].
  cbn [app items_text]. rewrite IH, len_cons, app_assoc. by rewrite Z.add_assoc.
Qed.
Lemma members_text_app o depth l2 l1 : ∀ c,
  members_text o depth c (l1 ++ l2) = members_text o depth c l1 ++ members_text o depth (c + len l1) l2.
Proof.
  induction l1 as [|[k v] l1 IH]; intros c; [cbn [app]; by rewrite Z.add_0_r|].
  cbn [app members_text]. rewrite IH, len_cons, app_assoc. by rewrite Z.add_assoc.
Qed.
Lemma ctext_cadd o depth c k v : ctext o depth (cadd c k v) =
  ctext o depth c ++ lead o depth (ctype c) (clen c) (ckey c k) v ++ value_text o depth v.
Proof.
  destruct c; cbn [cadd ctext ctype clen ckey];
    rewrite ?items_text_app, ?members_text_app, Z.add_0_l; cbn [items_text members_text]; by rewrite app_nil_r.
Qed.
(** Finishing a document closes the elements that are open as the calls that
    close them would. *)
Lemma finalize_unfinished o p : anonymous o → ∀ depth fuel b s, text b s → level b o depth (ctype (outer p)) 0 →
  fits (depth - 1) (cjson (complete p)) → (depth = 0 → ctype (outer p) = BUFFER_JSON_OBJECT) →
  len s + len (ctext o depth (complete p)) + SLACK < LIMIT →
  (emit_unfinished p ≫= λ _, finalize_loop (levels p + fuel)) b =
  (cemit (complete p) ≫= λ _, cclose (ctype (complete p)) ≫= λ _, finalize_loop fuel) b.
Proof.
  intros Ho. induction p as [c|c k p IH]; intros depth fuel b s Ht Hl Hf Hobj Hlim;
    pose proof (proj1 (lv_range _ _ _ _ _ Hl)) as Hd; cbn [outer complete emit_unfinished levels] in *.
  { destruct (cemit_spec o depth c Hf Hd) as [Hc _]. destruct (Hc b s Ht Hl Hlim) as (b1 & K1 & _ & L1 & _).
    rewrite !bind_run, K1. eapply finalize_step; [exact L1|done|by destruct c|done]. }
  apply fits_cadd in Hf as (Hfc & Hfv & Hlen & _). rewrite Z.sub_add in *.
  assert (Hd' : depth + 1 < 32) by (by destruct (complete p); apply Hfv).
  rewrite ctext_cadd, !len_app, value_text_cjson, !len_app in Hlim. change (len [_]) with 1 in Hlim.
  pose proof (len_nonneg (cend o (depth + 1) (ctype (complete p)))).
  pose proof (len_nonneg (ctext o (depth + 1) (complete p))).
  pose proof (len_nonneg (lead o depth (ctype c) (clen c) (ckey c k) (cjson (complete p)))).
  assert (0 ≤ clen c) by (destruct c; apply len_nonneg).
  destruct (cemit_spec o depth c Hfc Hd) as [Hc _].
  destruct (Hc b s Ht Hl) as (b1 & K1 & T1 & L1 & _); [lia|].
  destruct (copen_spec o depth c k (complete p) Hd Hd' Hlen b1 _ T1 L1) as (b2 & K2 & T2 & L2 & _).
  { rewrite !len_app. change (len [_]) with 1. lia. }
  destruct (emits_values (cjson (complete p)) o depth (ctype c) (clen c) (ckey c k) Hfv ltac:(lia) ltac:(lia) Hlen
    b1 _ T1 L1) as (b3 & K3 & T3 & L3 & _).
  { rewrite !len_app, value_text_cjson, !len_app. change (len [_]) with 1. lia. }
  rewrite emit_cjson, bind_run, K2 in K3.
  assert (Hlhs : (emit_unfinished p ≫= λ _, finalize_loop (levels p + S fuel)) b2 = finalize_loop (S fuel) b3).
  { rewrite complete_type in L2. rewrite (IH (depth + 1) (S fuel) b2 _ T2 L2); [|by rewrite Z.add_simpl_r|lia|].
    - by rewrite cst_assoc, bind_run, K3.
    - rewrite !len_app. change (len [_]) with 1. lia. }
  rewrite <- cst_assoc, bind_run, K1, <- cst_assoc, bind_run, <- complete_type, K2.
  replace (S (levels p) + fuel)%nat with (levels p + S fuel)%nat by lia. rewrite Hlhs.
  rewrite (finalize_step o depth (ctype c) (clen c + 1) b3 fuel L3 Ho) by (by destruct c).
  rewrite (bind_run (cemit (cadd _ _ _))), cemit_add, (bind_run (cemit c)), K1, emit_cjson,
    (bind_run (copen _ _)), K2, K3.
  by destruct c.
Qed.

(** ** Whole documents *)

Definition document (o : Z) (p : unfinished) : cst BUFFER unit :=
  _ ← buffer_json_initialize QUOTE QUOTE 0 true o;
  _ ← emit_unfinished p;
  buffer_json_finalize 32.
Definition document_text (o : Z) (c : container) : list ascii :=
  value_text o (-1) (cjson c) ++ (if minify o then [] else [LF]).

Lemma update_json_run {A} f (k : unit → cst BUFFER A) b :
  (update_json f ≫= k) b = k tt (set_json (f (wb_json b)) b).
Proof. unfold update_json. by rewrite bind_modify. Qed.
Lemma initialize_spec o b s : text b s → length (j_stack (wb_json b)) = 32%nat →
  len s + 1 + SLACK < LIMIT → ∃ b', buffer_json_initialize QUOTE QUOTE 0 true o b = Ok (tt, b') ∧
  text b' (s ++ ["{"%char]) ∧ level b' o 0 BUFFER_JSON_OBJECT 0.
Proof.
  intros Ht Hs Hlim. unfold buffer_json_initialize.
  set (push := _buffer_json_depth_push BUFFER_JSON_OBJECT). rewrite update_json_run.
  set (b1 := set_json _ b). assert (T1 : text b1 s) by (by apply text_json).
  assert (∃ b2, push b1 = Ok (tt, b2) ∧ text b2 s ∧ level b2 (j_options (wb_json b)) 0 BUFFER_JSON_OBJECT 0)
    as (b2 & K2 & T2 & L2).
  { unfold push, _buffer_json_depth_push. rewrite update_json_run. set (b1' := set_json _ b1).
    assert (T1' : text b1' s) by (by apply text_json).
    destruct (lookup_lt_is_Some_2 (j_stack (wb_json b)) 0) as [[t1 c1] Hn]; [lia|].
    assert (L1 : level b1' (j_options (wb_json b)) 0 t1 c1) by (by split).
    destruct (set_top_spec _ 0 t1 b1' s c1 (JsonNode BUFFER_JSON_OBJECT 0) T1' L1) as (b2 & K2 & T2 & L2 & _).
    by exists b2. }
  rewrite bind_run, K2. destruct (appends_fast_strcat "{" b2 s T2 Hlim) as (b3 & K3 & T3 & M3).
  change (len (chars "{")) with 1 in K3. rewrite bind_run, K3. cbv zeta.
  rewrite update_json_run. eexists. split; [done|].
  apply (level_meta _ _ _ _ _ _ M3) in L2. destruct L2. split.
  - destruct T3 as (rest & [H1 H2 H3 H4]). exists rest. by split.
  - by split.
Qed.

Lemma fits_levels p : ∀ depth, fits depth (cjson (complete p)) → depth + Z.of_nat (levels p) < 32.
Proof.
  induction p as [c|c k p IH]; intros depth Hf; cbn [levels complete] in *; [by destruct c; apply Hf|].
  apply fits_cadd in Hf as (_ & Hf & _). specialize (IH _ Hf). lia.
Qed.
#[local] Ltac doc_len := rewrite ?len_app; change (len ["{"%char]) with 1; lia.
(** Closing the last element, and the newline. *)
Lemma finish_spec o c b s n : text b s → level b o 0 BUFFER_JSON_OBJECT c →
  len s + len (cend o 0 BUFFER_JSON_OBJECT) + SLACK < LIMIT → ∃ b',
  (cclose BUFFER_JSON_OBJECT ≫= λ _, finalize_loop n) b = Ok (tt, b') ∧
  text b' (s ++ cend o 0 BUFFER_JSON_OBJECT) ∧ j_options (wb_json b') = o.
Proof.
  intros Ht Hl Hlim. cbn [cclose]. rewrite bind_run, object_close_end, bind_run.
  destruct (emits_object_end o 0 BUFFER_JSON_OBJECT c ltac:(lia) b s Ht Hl) as (b1 & K1 & T1 & L1 & _).
  { cbn [cend] in Hlim. lia. }
  rewrite K1. unfold _buffer_json_depth_pop, update_json. destruct L1 as [_ _ Ho Hd _ _ _].
  exists (set_json (with_depth (-1) (wb_json b1)) b1). split; [|by split; [apply text_json|]].
  unfold cmodify. rewrite Hd. by destruct n.
Qed.

(** C19. The calls that write a document of any shape give its text, in a new
    buffer of any size, and a reader of JSON gets the document back: in every
    format the options select, whatever characters the keys and the strings
    have, and also when the last elements are left open, which
    [buffer_json_finalize()] closes.  The numbers are those of their types but
    the smallest [int64_t], the nesting is the 32 elements of the stack. *)
Theorem json_documents_round_trip size stats o p : 0 ≤ size < 2 ^ 31 → anonymous o →
  ctype (complete p) = BUFFER_JSON_OBJECT → fits (-1) (cjson (complete p)) →
  len (document_text o (complete p)) + SLACK < LIMIT →
  ∃ b0 b, buffer_create size stats = Ok b0 ∧ document o p b0 = Ok (tt, b) ∧
    contents b = Some (document_text o (complete p)) ∧
    parse (document_text o (complete p)) = Some (norm (cjson (complete p))).
Proof.
  intros Hs Ho Ht Hf Hlim. pose proof (fits_levels p _ Hf) as Hlev.
  assert (Hdoc : document_text o (complete p) = ["{"%char] ++ ctext o 0 (complete p) ++
    cend o 0 (ctype (complete p)) ++ (if minify o then [] else [LF])).
  { unfold document_text. rewrite value_text_cjson, Ht. by rewrite <- !app_assoc. }
  pose proof Hlim as Hlim'. rewrite Hdoc, !len_app in Hlim'. change (len ["{"%char]) with 1 in Hlim'.
  pose proof (len_nonneg (ctext o 0 (complete p))). pose proof (len_nonneg (cend o 0 (ctype (complete p)))).
  pose proof (len_nonneg (if minify o then [] else [LF])).
  destruct (create_spec size stats Hs) as (b0 & K0 & T0 & J0).
  destruct (initialize_spec o b0 [] T0) as (b1 & K1 & T1 & L1); [by rewrite J0|by lens; lia|].
  rewrite app_nil_l in T1. rewrite complete_type in Ht. rewrite complete_type in *. rewrite Ht in *.
  destruct (cemit_spec o 0 (complete p) Hf ltac:(lia)) as [Hc _]. rewrite complete_type, Ht in Hc.
  destruct (Hc b1 _ T1 L1) as (b2 & K2 & T2 & L2 & _); [doc_len|].
  destruct (finish_spec o _ b2 _ (32 - levels p) T2 L2) as (b3 & K3 & T3 & O3); [doc_len|].
  assert (Hfin : (emit_unfinished p ≫= λ _, finalize_loop 32) b1 = Ok (tt, b3)).
  { rewrite <- Ht in L1. replace 32%nat with (levels p + (32 - levels p))%nat by lia.
    rewrite (finalize_unfinished o p Ho 0 _ b1 _ T1 L1 Hf (λ _, Ht)) by doc_len.
    by rewrite bind_run, K2, complete_type, Ht. }
  assert (Hend : ∃ b4, (cget ≫= λ b, if negb (has_option (j_options (wb_json b)) BUFFER_JSON_OPTIONS_MINIFY)
      then buffer_fast_strcat (Some (String LF "")) 1 else mret tt) b3 = Ok (tt, b4) ∧
    text b4 (document_text o (complete p))).
  { rewrite bind_get, O3. fold (minify o). rewrite Hdoc, !app_assoc. rewrite <- !app_assoc in T3 |- *.
    destruct (minify o); cbn [negb].
    - exists b3. by rewrite app_nil_r.
    - destruct (appends_fast_strcat (String LF "") b3 _ T3) as (b4 & K4 & T4 & _).
      { change (len (chars (String LF ""))) with 1. change (len [LF]) with 1 in *. doc_len. }
      exists b4. split; [exact K4|]. by rewrite <- !app_assoc in T4. }
  destruct Hend as (b4 & K4 & T4). exists b0, b4. split; [done|]. split.
  - unfold document, buffer_json_finalize. rewrite bind_run, K1, cst_assoc, bind_run, Hfin. exact K4.
  - split; [by apply text_contents|]. unfold parse.
    pose proof (values_read (cjson (complete p)) o (-1) (length (document_text o (complete p))) [] Hf) as Hr.
    unfold document_text at 2. rewrite Hr; [|unfold document_text; rewrite length_app; lia|constructor|].
    + by destruct (minify o).
    + by destruct (minify o).
Qed.
Lemma json_documents_round_trip_witness : ∃ b0 b, buffer_create 8 None = Ok b0 ∧
  document 0 (Within (Members [("name", JString "ups")]) "loads" (Leaf (Items [JInt (-3); JUint 7; JNull]))) b0
    = Ok (tt, b) ∧
  contents b = Some (document_text 0 (Members [("name", JString "ups"); ("loads", JArray [JInt (-3); JUint 7; JNull])])) ∧
  parse (document_text 0 (Members [("name", JString "ups"); ("loads", JArray [JInt (-3); JUint 7; JNull])])) =
    Some (JObject [("name", JString "ups"); ("loads", JArray [JInt (-3); JInt 7; JNull])]).
Proof.
  apply (json_documents_round_trip 8 None 0
    (Within (Members [("name", JString "ups")]) "loads" (Leaf (Items [JInt (-3); JUint 7; JNull])))).
  - lia.
  - reflexivity.
  - reflexivity.
  - cbn. unfold len. cbn. repeat split; lia.
  - reflexivity.
Defined.
