(* ===== verification/SimplePattern.v ===== *)
(** * simple_pattern.c: lists of patterns with wildcards

    A C string is the list of its characters.  The structures linked by [child]
    are a list of parts, the patterns linked by [next] a list of those. *)

From S2P Require Import Prelude CString Inlined.
#[local] Open Scope string_scope.
#[local] Open Scope list_scope.
#[local] Open Scope Z_scope.

Abbreviation cstring := (list ascii).

Inductive SIMPLE_PREFIX_MODE : Set :=
| SIMPLE_PATTERN_EXACT | SIMPLE_PATTERN_PREFIX | SIMPLE_PATTERN_SUFFIX | SIMPLE_PATTERN_SUBSTRING.
Inductive SIMPLE_PATTERN_RESULT : Set :=
| SP_NOT_MATCHED | SP_MATCHED_NEGATIVE | SP_MATCHED_POSITIVE.

(** [match] is null for a part without text. *)
Record simple_pattern := Part {
  sp_match : option cstring;
  sp_mode : SIMPLE_PREFIX_MODE;
  sp_negative : bool;
  sp_case_sensitive : bool;
}.
(** [m->len] *)
Definition sp_len (m : simple_pattern) : nat := length (default [] (sp_match m)).
Definition set_mode (mode : SIMPLE_PREFIX_MODE) (m : simple_pattern) : simple_pattern :=
  Part (sp_match m) mode (sp_negative m) (sp_case_sensitive m).

(** ** Parsing one pattern *)

Definition STAR : ascii := "*".
Definition is_star (c : ascii) : bool := Ascii.eqb c STAR.
(** [while( *c == '*') c++;] the asterisks skipped, and the rest. *)
Fixpoint span_stars (s : cstring) : cstring * cstring :=
  match s with
  | c :: s' => if is_star c then let '(a, b) := span_stars s' in (c :: a, b) else ([], s)
  | [] => ([], [])
  end.
(** [while( *c && *c != '*') c++;] *)
Fixpoint span_plain (s : cstring) : cstring * cstring :=
  match s with
  | c :: s' => if is_star c then ([], s) else let '(a, b) := span_plain s' in (c :: a, b)
  | [] => ([], [])
  end.

(** What the text [s] of one part matches, and how. *)
Definition classify (s : cstring) (default_mode : SIMPLE_PREFIX_MODE) : cstring * SIMPLE_PREFIX_MODE :=
  let len := length s in
  let first := match s with c :: _ => is_star c | [] => false end in
  let last_ := match last s with Some c => is_star c | None => false end in
  if (2 <=? len)%nat && first && last_ then (tail (take (len - 1) s), SIMPLE_PATTERN_SUBSTRING)
  else if (1 <=? len)%nat && first then (tail s, SIMPLE_PATTERN_SUFFIX)
  else if (1 <=? len)%nat && last_ then (take (len - 1) s, SIMPLE_PATTERN_PREFIX)
  else (s, default_mode).
Definition new_part (s : cstring) (mode : SIMPLE_PREFIX_MODE) : simple_pattern :=
  match s with
  | [] => Part None SIMPLE_PATTERN_SUBSTRING false false
  | _ => Part (Some s) mode false false
  end.
(** [count] goes up to 1000: [n] is what is left of it.  The child is parsed from
    the asterisk on, and the text is then cut after that asterisk; what the child
    writes into its text is behind it. *)
Fixpoint parse_pattern (n : nat) (str : cstring) (default_mode : SIMPLE_PREFIX_MODE) : list simple_pattern :=
  match n with
  | O => []
  | S n =>
      let '(stars, rest) := span_stars str in
      let '(plain, c) := span_plain rest in
      let '(s, child) :=
        match c with
        | star :: _ :: _ => (stars ++ plain ++ [star], parse_pattern n c default_mode)
        | _ => (str, [])
        end in
      let '(s, mode) := classify s default_mode in
      new_part s mode :: child
  end.
Definition MAX_PARTS : nat := 1000.

(** ** Parsing a list *)

(** A [separators] argument: null or empty, the constant
    [SIMPLE_PATTERN_NO_SEPARATORS], or a string. *)
Inductive separators : Type := SepDefault | SepNone | SepOf (s : cstring).
Definition isseparator (sep : separators) (c : ascii) : bool :=
  match sep with
  | SepDefault | SepOf [] =>
      (code c =? 32) || (code c =? 9) || (code c =? 13) || (code c =? 10) || (code c =? 12) || (code c =? 11)
  | SepNone => false
  | SepOf s => existsb (Ascii.eqb c) s
  end.
Definition BACKSLASH : ascii := "\".
Fixpoint skip_separators (sep : separators) (s : cstring) : cstring :=
  match s with
  | c :: s' => if isseparator sep c then skip_separators sep s' else s
  | [] => []
  end.
(** The word up to the next separator without its backslashes, and what is behind
    the separator. *)
Fixpoint next_word (sep : separators) (s : cstring) (escape : bool) : cstring * cstring :=
  match s with
  | [] => ([], [])
  | c :: s' =>
      if Ascii.eqb c BACKSLASH && negb escape then next_word sep s' true
      else if isseparator sep c && negb escape then ([], s')
      else let '(w, rest) := next_word sep s' false in (c :: w, rest)
  end.
Definition set_first (negative case_sensitive : bool) (p : list simple_pattern) : list simple_pattern :=
  match p with
  | m :: child => Part (sp_match m) (sp_mode m) negative case_sensitive :: child
  | [] => []
  end.
(** [for(tm = m; tm->child ; tm = tm->child) ; tm->mode = SUBSTRING] *)
Fixpoint last_substring (p : list simple_pattern) : list simple_pattern :=
  match p with
  | [] => []
  | [m] => [set_mode SIMPLE_PATTERN_SUBSTRING m]
  | m :: p => m :: last_substring p
  end.
Definition make_substring (p : list simple_pattern) : list simple_pattern :=
  match p with
  | m :: child => last_substring (set_mode SIMPLE_PATTERN_SUBSTRING m :: child)
  | [] => []
  end.
Definition is_substring (mode : SIMPLE_PREFIX_MODE) : bool :=
  match mode with SIMPLE_PATTERN_SUBSTRING => true | _ => false end.
Definition create_one (w : cstring) (default_mode : SIMPLE_PREFIX_MODE) (negative case_sensitive : bool) :
    list simple_pattern :=
  let p := set_first negative case_sensitive (parse_pattern MAX_PARTS w default_mode) in
  if is_substring default_mode then make_substring p else p.
(** Each turn consumes a character. *)
Fixpoint create_loop (fuel : nat) (sep : separators) (s : cstring) (default_mode : SIMPLE_PREFIX_MODE)
    (case_sensitive : bool) : option (list (list simple_pattern)) :=
  match s, fuel with
  | [], _ => Some []
  | _, O => None
  | _, S fuel =>
      let s := skip_separators sep s in
      let '(negative, s) := match s with
                            | c :: s' => if Ascii.eqb c "!" then (true, s') else (false, s)
                            | [] => (false, s)
                            end in
      match s with
      | [] => Some []
      | _ =>
          let '(w, s) := next_word sep s false in
          match w with
          | [] => create_loop fuel sep s default_mode case_sensitive
          | _ => cons (create_one w default_mode negative case_sensitive) <$>
                   create_loop fuel sep s default_mode case_sensitive
          end
      end
  end.
Definition simple_pattern_create (list_ : cstring) (sep : separators) (default_mode : SIMPLE_PREFIX_MODE)
    (case_sensitive : bool) : option (list (list simple_pattern)) :=
  create_loop (length list_) sep list_ default_mode case_sensitive.

(** ** Matching *)

Definition char_same (case_sensitive : bool) (a b : ascii) : bool :=
  if case_sensitive then Ascii.eqb a b else Ascii.eqb (tolower a) (tolower b).
Definition sp_char_diff (case_sensitive : bool) (a b : ascii) : Z :=
  if case_sensitive then code a - code b else code (tolower a) - code (tolower b).
(** [strcmp()] and [strcasecmp()]; the terminator is a zero. *)
Fixpoint sp_strcmp (s1 s2 : cstring) (case_sensitive : bool) : Z :=
  match s1, s2 with
  | [], [] => 0
  | [], b :: _ => sp_char_diff case_sensitive NUL b
  | a :: _, [] => sp_char_diff case_sensitive a NUL
  | a :: s1, b :: s2 =>
      if sp_char_diff case_sensitive a b =? 0 then sp_strcmp s1 s2 case_sensitive else sp_char_diff case_sensitive a b
  end.
Definition sp_strncmp (s1 s2 : cstring) (n : nat) (case_sensitive : bool) : Z :=
  sp_strcmp (take n s1) (take n s2) case_sensitive.
(** [strstr()] and [strcasestr()]: the characters in front of the first
    occurrence of the needle, and the text from there on. *)
Fixpoint sp_strstr (haystack needle : cstring) (case_sensitive : bool) : option (cstring * cstring) :=
  if sp_strncmp haystack needle (length needle) case_sensitive =? 0 then Some ([], haystack)
  else match haystack with
       | [] => None
       | c :: haystack =>
           (λ '(a, s), (c :: a, s)) <$> sp_strstr haystack needle case_sensitive
       end.

(** The place where the characters matched by asterisks go: what was written,
    and what is left of its size; [None] when the caller passes null. *)
Definition wildcards : Type := option (cstring * nat).
Definition add_wildcarded (matched : cstring) (matched_size : nat) (w : wildcards) : wildcards :=
  match w with
  | Some (written, wildcarded_size) =>
      if negb (wildcarded_size =? 0)%nat && negb (length matched =? 0)%nat && negb (matched_size =? 0)%nat then
        let len := Nat.min matched_size (wildcarded_size - 1) in
        if negb (len =? 0)%nat then Some (written ++ take len matched, (wildcarded_size - len)%nat) else w
      else w
  | None => None
  end.

(** [str] has [len] characters; the result, and what was extracted. *)
Fixpoint match_pattern (p : list simple_pattern) (str : cstring) (len : nat) (w : wildcards) : bool * wildcards :=
  match p with
  | [] => (false, w)
  | m :: child =>
      let last_ := match child with [] => true | _ => false end in
      let match_ := default [] (sp_match m) in
      if (sp_len m <=? len)%nat then
        match sp_mode m with
        | SIMPLE_PATTERN_EXACT =>
            (if sp_strcmp str match_ (sp_case_sensitive m) =? 0 then last_ else false, w)
        | SIMPLE_PATTERN_SUBSTRING =>
            if (sp_len m =? 0)%nat then (true, w)
            else
              match sp_strstr str match_ (sp_case_sensitive m) with
              | Some (a, s) =>
                  let w := add_wildcarded str (length a) w in
                  let after := drop (sp_len m) s in
                  if last_ then (true, add_wildcarded after (len - (length a + sp_len m)) w)
                  else match_pattern child after (len - length a - sp_len m) w
              | None => (false, w)
              end
        | SIMPLE_PATTERN_PREFIX =>
            if sp_strncmp str match_ (sp_len m) (sp_case_sensitive m) =? 0 then
              let after := drop (sp_len m) str in
              if last_ then (true, add_wildcarded after (len - sp_len m) w)
              else match_pattern child after (len - sp_len m) w
            else (false, w)
        | SIMPLE_PATTERN_SUFFIX =>
            if sp_strcmp (drop (len - sp_len m) str) match_ (sp_case_sensitive m) =? 0
            then (last_, add_wildcarded str (len - sp_len m) w)
            else (false, w)
        end
      else (false, w)
  end.
(** [char *ws = wildcarded; if(ws) *ws = '\0';] for every pattern. *)
Fixpoint simple_pattern_matches_extract_with_length (l : list (list simple_pattern)) (str : cstring) (len : nat)
    (wildcarded_size : option nat) (w : wildcards) : SIMPLE_PATTERN_RESULT * wildcards :=
  match l with
  | [] => (SP_NOT_MATCHED, w)
  | p :: l =>
      let '(matched, w) := match_pattern p str len (pair [] <$> wildcarded_size) in
      if matched then
        (if match p with m :: _ => sp_negative m | [] => false end then SP_MATCHED_NEGATIVE else SP_MATCHED_POSITIVE, w)
      else simple_pattern_matches_extract_with_length l str len wildcarded_size w
  end.
Definition simple_pattern_matches_extract (l : list (list simple_pattern)) (str : option cstring)
    (wildcarded_size : option nat) : SIMPLE_PATTERN_RESULT * wildcards :=
  match l, str with
  | [], _ | _, None | _, Some [] => (SP_NOT_MATCHED, pair [] <$> wildcarded_size)
  | _, Some str =>
      simple_pattern_matches_extract_with_length l str (length str) wildcarded_size (pair [] <$> wildcarded_size)
  end.
(** A [STRING] is its text. *)
Definition simple_pattern_matches_string_extract (l : list (list simple_pattern)) (str : option cstring)
    (wildcarded_size : option nat) : SIMPLE_PATTERN_RESULT * wildcards :=
  match l, str with
  | [], _ | _, None => (SP_NOT_MATCHED, pair [] <$> wildcarded_size)
  | _, Some str =>
      simple_pattern_matches_extract_with_length l str (length str) wildcarded_size (pair [] <$> wildcarded_size)
  end.
(** A [BUFFER] is its contents; the guard is [buffer_strlen(str)], not its
    negation. *)
Definition simple_pattern_matches_buffer_extract (l : list (list simple_pattern)) (str : option cstring)
    (wildcarded_size : option nat) : SIMPLE_PATTERN_RESULT * wildcards :=
  match l, str with
  | [], _ | _, None | _, Some (_ :: _) => (SP_NOT_MATCHED, pair [] <$> wildcarded_size)
  | _, Some [] =>
      simple_pattern_matches_extract_with_length l [] 0 wildcarded_size (pair [] <$> wildcarded_size)
  end.

(** ** Questions about patterns *)

Record name_scan := Scan { ns_alpha : bool; ns_colon : bool; ns_wildcards : bool }.
Definition isalpha (c : ascii) : bool :=
  ((97 <=? code c) && (code c <=? 122)) || ((65 <=? code c) && (code c <=? 90)).
Definition LOCALHOST : cstring := ["l"; "o"; "c"; "a"; "l"; "h"; "o"; "s"; "t"]%char.
Definition is_exact (mode : SIMPLE_PREFIX_MODE) : bool :=
  match mode with SIMPLE_PATTERN_EXACT => true | _ => false end.
(** A part without text is looked at again and again. *)
Fixpoint scan_is_potential_name (fuel : nat) (p : list simple_pattern) (r : name_scan) : cres name_scan :=
  match p, fuel with
  | [], _ => Ok r
  | _, O => NoFuel
  | m :: child, S fuel =>
      match sp_match m with
      | Some match_ =>
          if is_exact (sp_mode m) && (sp_strcmp LOCALHOST match_ true =? 0)
          then scan_is_potential_name fuel child r
          else scan_is_potential_name fuel child
                 (Scan (ns_alpha r || existsb isalpha match_) (ns_colon r || existsb (Ascii.eqb ":") match_)
                       (ns_wildcards r || negb (is_exact (sp_mode m))))
      | None => scan_is_potential_name fuel p r
      end
  end.
Fixpoint potential_name_loop (fuel : nat) (l : list (list simple_pattern)) (r : name_scan) : cres name_scan :=
  match l with
  | [] => Ok r
  | p :: l =>
      r ← match p with
          | m :: _ =>
              r ← match sp_match m with
                  | Some _ => scan_is_potential_name fuel p r
                  | None => Ok r
                  end;
              Ok (if is_exact (sp_mode m) then r else Scan (ns_alpha r) (ns_colon r) true)
          | [] => Ok r
          end;
      potential_name_loop fuel l r
  end.
Definition simple_pattern_is_potential_name (fuel : nat) (l : list (list simple_pattern)) : cres bool :=
  r ← potential_name_loop fuel l (Scan false false false);
  Ok ((ns_alpha r || ns_wildcards r) && negb (ns_colon r)).

(** The text of the first part of the first pattern, and the other patterns. *)
Definition simple_pattern_iterate (l : list (list simple_pattern)) :
    cres (option cstring * list (list simple_pattern)) :=
  match l with
  | (m :: _) :: l => Ok (sp_match m, l)
  | _ => UB UB_null
  end.

Fixpoint contains_loop (sep : separators) (s : cstring) (escape : bool) : bool :=
  match s with
  | [] => false
  | c :: s =>
      if Ascii.eqb c BACKSLASH && negb escape then contains_loop sep s true
      else if negb escape && (isseparator sep c || is_star c) then true
      else contains_loop sep s false
  end.
Definition simple_pattern_contains_wildcards (str : option cstring) (sep : separators) : bool :=
  match str with
  | None | Some [] => false
  | Some (c :: s) => if Ascii.eqb c "!" then true else contains_loop sep (c :: s) false
  end.
