(* ===== verification/SimplePatternSpec.v ===== *)
(** * What the patterns match

    A pattern is a glob: [globs] relates its tokens to the texts it matches and to
    the characters the asterisks stand for.  The matcher decides that relation,
    extracts those characters, and a list of patterns is decided by the first
    one that matches. *)

From S2P Require Import Prelude CString Inlined SimplePattern.
#[local] Open Scope string_scope.
#[local] Open Scope list_scope.
#[local] Open Scope Z_scope.

(** ** Globs *)

Inductive token : Type :=
| Lit (case_sensitive : bool) (c : ascii) | Any.
(** [globs ts s g]: the tokens match [s], and the asterisks stand for [g]. *)
Inductive globs : list token → cstring → cstring → Prop :=
| globs_nil : globs [] [] []
| globs_lit cs c x ts s g : char_same cs x c = true → globs ts s g → globs (Lit cs c :: ts) (x :: s) g
| globs_skip ts s g : globs ts s g → globs (Any :: ts) s g
| globs_any x ts s g : globs (Any :: ts) s g → globs (Any :: ts) (x :: s) (x :: g).
#[local] Hint Constructors globs : core.

Definition same_text (cs : bool) : cstring → cstring → Prop := Forall2 (λ x c, char_same cs x c = true).
Definition lits (cs : bool) (w : cstring) : list token := Lit cs <$> w.
(** No character is the terminator. *)
Definition no_zero (s : cstring) : Prop := Forall (λ c, c ≠ NUL) s.

Lemma globs_lits cs w ts s g :
  globs (lits cs w ++ ts) s g ↔ ∃ b c, s = b ++ c ∧ same_text cs b w ∧ globs ts c g.
Proof.
  split.
  - revert s. induction w as [|x w IH]; intros s H.
    + exists [], s. split; [done|]. by split; [constructor|].
    + inversion H as [|? ? y ? s' ? Hc Hg| |]; subst. destruct (IH _ Hg) as (b & c & -> & Hb & Hg').
      exists (y :: b), c. split; [done|]. by split; [constructor|].
  - intros (b & c & -> & Hb & Hg). induction Hb; [done|]. cbn. by constructor.
Qed.
Lemma globs_star ts s g : globs (Any :: ts) s g ↔ ∃ a b g', s = a ++ b ∧ g = a ++ g' ∧ globs ts b g'.
Proof.
  split.
  - intros H. remember (Any :: ts) as l eqn:El. revert El.
    induction H as [| |? ? ? ? _|? ? ? ? ? IH]; intros [=]; subst.
    + by exists [], s, g.
    + destruct IH as (a & b & g' & -> & -> & H'); [done|]. by exists (x :: a), b, g'.
  - intros (a & b & g' & -> & -> & H). induction a as [|x a IH]; [by constructor|]. cbn. by constructor.
Qed.
Lemma globs_star_all s : globs [Any] s s.
Proof. induction s; auto. Qed.
(** An asterisk takes any characters in front, too. *)
Lemma globs_longer a ts s g : globs (Any :: ts) s g → globs (Any :: ts) (a ++ s) (a ++ g).
Proof. intros H. induction a as [|x a IH]; [done|]. cbn. by constructor. Qed.

(** ** Comparisons *)

Lemma char_diff_same cs a b : sp_char_diff cs a b = 0 ↔ char_same cs a b = true.
Proof.
  unfold sp_char_diff, char_same. destruct cs; rewrite Ascii.eqb_eq; (split; [|intros ->; lia]);
    intros H; apply code_inj; lia.
Qed.
Lemma tolower_nul c : tolower c = NUL → c = NUL.
Proof. destruct c as [[] [] [] [] [] [] [] []]; vm_compute; congruence. Qed.
Lemma char_diff_nul cs a : a ≠ NUL → sp_char_diff cs a NUL ≠ 0 ∧ sp_char_diff cs NUL a ≠ 0.
Proof.
  intros Ha. rewrite !char_diff_same. unfold char_same. change (tolower NUL) with NUL.
  destruct cs; rewrite !Ascii.eqb_eq; split; intros E; apply Ha; try done; by apply tolower_nul.
Qed.
Lemma strcmp_spec cs s1 s2 : no_zero s1 → no_zero s2 → sp_strcmp s1 s2 cs = 0 ↔ same_text cs s1 s2.
Proof.
  intros H1. revert s2. induction H1 as [|a s1 Ha _ IH]; intros s2 H2; destruct H2 as [|b s2 Hb H2]; cbn [sp_strcmp].
  - split; [by constructor|done].
  - split; [|intros E; inversion E]. intros E. by apply (char_diff_nul cs) in Hb as [_ Hb].
  - split; [|intros E; inversion E]. intros E. by apply (char_diff_nul cs) in Ha as [Ha _].
  - unfold same_text. rewrite Forall2_cons, <- char_diff_same, <- (IH s2 H2).
    destruct (Z.eqb_spec (sp_char_diff cs a b) 0); naive_solver.
Qed.
Lemma strncmp_spec cs s w : no_zero s → no_zero w → sp_strncmp s w (length w) cs = 0 ↔
  ∃ b c, s = b ++ c ∧ same_text cs b w.
Proof.
  intros Hs Hw. unfold sp_strncmp. rewrite (firstn_all w), strcmp_spec by (done || by apply Forall_take).
  split.
  - intros H. exists (take (length w) s), (drop (length w) s). by rewrite take_drop.
  - intros (b & c & -> & H). rewrite take_app_length' by (by apply Forall2_length in H). done.
Qed.
(** The first occurrence. *)
Lemma strstr_found cs w s : no_zero s → no_zero w → ∀ a t, sp_strstr s w cs = Some (a, t) →
  s = a ++ t ∧ ∃ b c, t = b ++ c ∧ same_text cs b w.
Proof.
  intros Hs Hw. induction Hs as [|x s Hx Hs IH]; intros a t; cbn [sp_strstr];
    match goal with |- context [if ?x =? 0 then _ else _] => destruct (Z.eqb_spec x 0) as [E|E] end.
  - intros [= <- <-]. split; [done|]. by apply strncmp_spec in E; [|constructor|].
  - done.
  - intros [= <- <-]. split; [done|]. by apply strncmp_spec in E; [|constructor|].
  - destruct (sp_strstr s w cs) as [[a' t']|] eqn:E'; [|done]. intros [= <- <-].
    destruct (IH a' t' eq_refl) as [-> H]. done.
Qed.
Lemma strstr_first cs w a b c : no_zero (a ++ b ++ c) → no_zero w → same_text cs b w →
  ∃ a' t, sp_strstr (a ++ b ++ c) w cs = Some (a', t) ∧ (length a' ≤ length a)%nat.
Proof.
  intros Hs Hw Hb. induction a as [|x a IH]; cbn [app] in *.
  - exists [], (b ++ c). split; [|cbn; lia].
    assert (E : sp_strncmp (b ++ c) w (length w) cs = 0) by (apply strncmp_spec; [done..|by exists b, c]).
    destruct (b ++ c); cbn [sp_strstr]; by rewrite E.
  - cbn [sp_strstr]. destruct (_ =? 0) eqn:E; [by exists [], (x :: a ++ b ++ c); split; [|cbn; lia]|].
    destruct IH as (a' & t & -> & Hl); [by inversion Hs|]. exists (x :: a'), t. split; [done|cbn; lia].
Qed.

(** ** The extracted text *)

(** [g] is added, as far as there is room for it. *)
Definition extend (g : cstring) (w : wildcards) : wildcards :=
  match w with
  | Some (written, size) =>
      let len := Nat.min (length g) (size - 1) in Some (written ++ take len g, (size - len)%nat)
  | None => None
  end.
Lemma extend_nil w : extend [] w = w.
Proof. destruct w as [[t n]|]; [|done]. cbn. by rewrite app_nil_r, Nat.sub_0_r. Qed.
Lemma extend_app g1 g2 w : extend (g1 ++ g2) w = extend g2 (extend g1 w).
Proof.
  destruct w as [[t n]|]; [|done]. cbn. rewrite <- app_assoc. f_equal. f_equal.
  - f_equal. rewrite length_app, take_app. f_equal; [|f_equal; lia].
    destruct (Nat.le_ge_cases (length g1) (n - 1)); [by rewrite !take_ge by lia|f_equal; lia].
  - rewrite length_app. lia.
Qed.
Lemma add_wildcarded_extend m n w : (n ≤ length m)%nat → add_wildcarded m n w = extend (take n m) w.
Proof.
  intros Hn. destruct w as [[t size]|]; [|done]. unfold add_wildcarded, extend. rewrite length_take, take_take.
  replace (Nat.min n (length m)) with n by lia.
  destruct (Nat.eqb_spec size 0), (Nat.eqb_spec (length m) 0), (Nat.eqb_spec n 0);
    destruct (Nat.eqb_spec (Nat.min n (size - 1)) 0) as [E|E]; cbn [negb andb]; try lia;
    try (by rewrite E, Nat.sub_0_r, take_0, app_nil_r).
  f_equal. f_equal. f_equal. f_equal. lia.
Qed.
(** The text never fills the place: there is room for the terminator. *)
Lemma extend_room g size : extend g (Some ([], size)) = Some (take (size - 1) g, (size - Nat.min (length g) (size - 1))%nat).
Proof.
  cbn. f_equal. f_equal. destruct (Nat.le_ge_cases (length g) (size - 1)).
  - rewrite Nat.min_l by done. by rewrite !take_ge.
  - by rewrite Nat.min_r.
Qed.

(** ** The shape of a pattern *)

Definition starless (w : cstring) : Prop := Forall (λ c, is_star c = false) w.
Fixpoint no_double (p : cstring) : bool :=
  match p with
  | c :: ((d :: _) as p') => negb (is_star c && is_star d) && no_double p'
  | _ => true
  end.
Definition lead_star (b : bool) : cstring := if b then [STAR] else [].
Definition count_stars (p : cstring) : nat := length (filter (λ c, is_star c = true) p).
(** The asterisks behind the first character: one less than the parts. *)
Definition inner_stars (p : cstring) : nat := count_stars (tail p).
Definition tok (cs : bool) (c : ascii) : token := if is_star c then Any else Lit cs c.
(** The first part has the mode of the pattern, the others ignore the case. *)
Definition tokens (cs : bool) (p : cstring) : list token :=
  let '(stars, rest) := span_stars p in
  let '(plain, c) := span_plain rest in
  (tok cs <$> stars) ++ (tok cs <$> plain) ++ (tok false <$> c).

Lemma is_star_eq c : is_star c = true → c = STAR.
Proof. apply Ascii.eqb_eq. Qed.
Lemma span_plain_app w t : starless w → (t = [] ∨ ∃ more, t = STAR :: more) → span_plain (w ++ t) = (w, t).
Proof.
  intros Hw Ht. induction Hw as [|c w Hc _ IH]; [destruct Ht as [->|[more ->]]; done|].
  cbn. by rewrite Hc, IH.
Qed.
Lemma span_plain_spec s : starless (fst (span_plain s)) ∧ s = fst (span_plain s) ++ snd (span_plain s) ∧
  (snd (span_plain s) = [] ∨ ∃ more, snd (span_plain s) = STAR :: more).
Proof.
  induction s as [|c s IH]; [split; [constructor|]; split; [done|by left]|]. cbn [span_plain].
  destruct (is_star c) eqn:E.
  - apply is_star_eq in E as ->. split; [constructor|]. split; [done|]. right. by exists s.
  - destruct (span_plain s) as [a b]. cbn in *. destruct IH as (H1 & -> & H3). by split; [constructor|].
Qed.
Lemma no_double_app a b : no_double (a ++ b) = true → no_double b = true.
Proof.
  induction a as [|c a IH]; [done|]. cbn. destruct (a ++ b) eqn:E; [|by intros [_ H]%andb_true_iff; auto].
  apply app_eq_nil in E as [_ ->]. done.
Qed.
Record shape (p : cstring) (lead : bool) (w t : cstring) : Prop := {
  sh_eq : p = lead_star lead ++ w ++ t;
  sh_ne : w ≠ [];
  sh_starless : starless w;
  sh_tail : t = [] ∨ ∃ more, t = STAR :: more;
}.
Lemma shape_of p : no_double p = true → p ≠ [] → p ≠ [STAR] → ∃ lead w t, shape p lead w t ∧ no_double t = true.
Proof.
  intros Hd Hne Hns. destruct p as [|c p]; [done|]. destruct (is_star c) eqn:Ec.
  - apply is_star_eq in Ec as ->. destruct p as [|d p]; [done|].
    cbn [no_double] in Hd. apply andb_true_iff in Hd as [Hd Hd'].
    destruct (span_plain_spec (d :: p)) as (H1 & H2 & H3).
    exists true, (fst (span_plain (d :: p))), (snd (span_plain (d :: p))). split.
    + split; [cbn [lead_star app]; by rewrite <- H2| |done|done].
      cbn [span_plain]. destruct (is_star d); [done|]. by destruct (span_plain p).
    + apply (no_double_app (fst (span_plain (d :: p)))). by rewrite <- H2.
  - destruct (span_plain_spec (c :: p)) as (H1 & H2 & H3).
    exists false, (fst (span_plain (c :: p))), (snd (span_plain (c :: p))). split.
    + split; [done| |done|done]. cbn [span_plain]. rewrite Ec. by destruct (span_plain p).
    + apply (no_double_app (fst (span_plain (c :: p)))). by rewrite <- H2.
Qed.
Lemma span_stars_shape p lead w t : shape p lead w t → span_stars p = (lead_star lead, w ++ t).
Proof.
  intros [-> Hne Hw Ht]. destruct w as [|c w]; [done|]. inversion Hw; subst.
  destruct lead; cbn; by rewrite H1.
Qed.
Lemma tokens_shape cs p lead w t : shape p lead w t →
  tokens cs p = (if lead then [Any] else []) ++ lits cs w ++ (tok false <$> t).
Proof.
  intros Hs. unfold tokens. rewrite (span_stars_shape p lead w t Hs). destruct Hs as [_ _ Hw Ht].
  rewrite span_plain_app by done. f_equal; [by destruct lead|]. f_equal.
  clear Ht. induction Hw as [|c w Hc _ IH]; [done|]. cbn. rewrite IH. unfold tok at 1. by rewrite Hc.
Qed.
Lemma span_stars_eq p : p = fst (span_stars p) ++ snd (span_stars p).
Proof.
  induction p as [|c p IH]; [done|]. cbn. destruct (is_star c); [|done]. destruct (span_stars p). cbn in *. by f_equal.
Qed.
Lemma tokens_nocase p : tokens false p = tok false <$> p.
Proof.
  unfold tokens. rewrite (span_stars_eq p) at 2. destruct (span_stars p) as [a b]. cbn.
  destruct (span_plain_spec b) as (_ & Hb & _). rewrite Hb at 2. destruct (span_plain b). by rewrite !fmap_app.
Qed.

(** ** Parsing *)

Definition part_mode (lead : bool) (t : cstring) (default_mode : SIMPLE_PREFIX_MODE) : SIMPLE_PREFIX_MODE :=
  match lead, t with
  | true, [] => SIMPLE_PATTERN_SUFFIX
  | true, _ => SIMPLE_PATTERN_SUBSTRING
  | false, [] => default_mode
  | false, _ => SIMPLE_PATTERN_PREFIX
  end.
Definition trail_star (t : cstring) : cstring := match t with [] => [] | _ => [STAR] end.
Lemma starless_ends w : starless w → w ≠ [] →
  ∃ a b, is_star a = false ∧ is_star b = false ∧ head w = Some a ∧ last w = Some b.
Proof.
  intros Hw Hne. destruct w as [|a w]; [done|]. destruct (last (a :: w)) as [b|] eqn:E; [|by apply last_None in E].
  exists a, b. rewrite last_Some in E. destruct E as [l E]. split; [by inversion Hw|]. split; [|done].
  rewrite E in Hw. apply Forall_app in Hw as [_ Hw]. by inversion Hw.
Qed.
Lemma classify_shape lead w t d : starless w → w ≠ [] →
  classify (lead_star lead ++ w ++ trail_star t) d = (w, part_mode lead t d).
Proof.
  intros Hw Hne. destruct (starless_ends w Hw Hne) as (a & b & Ha & Hb & Hh & Hl).
  unfold classify. destruct w as [|a' w]; [done|]. injection Hh as ->.
  assert (Hlast : ∀ l, last (l ++ a :: w) = Some b) by (intros l; by rewrite last_app, Hl).
  assert (Hlast' : ∀ l, last (l ++ (a :: w) ++ [STAR]) = Some STAR) by (intros l; by rewrite app_assoc, last_snoc).
  destruct lead, t; cbn [lead_star trail_star part_mode].
  - rewrite app_nil_r, Hlast, Hb. cbn. done.
  - rewrite Hlast'. rewrite !length_app. cbn [length app]. cbn [is_star andb Nat.leb].
    replace (1 + (S (length w) + 1) - 1)%nat with (1 + S (length w))%nat by lia.
    f_equal. cbn. rewrite take_app_length. done.
  - rewrite app_nil_r, app_nil_l, Hl, Hb. cbn. rewrite Ha. by destruct (length w).
  - rewrite (Hlast' []), app_nil_l. cbn [app length]. rewrite Ha. rewrite !length_app. cbn [length].
    replace (S (length w + 1) - 1)%nat with (S (length w)) by lia. cbn [Nat.leb andb is_star].
    rewrite andb_false_r. cbn [andb take]. change (is_star STAR) with true. cbn. by rewrite take_app_length.
Qed.
Lemma parse_shape n p lead w t d : shape p lead w t →
  parse_pattern (S n) p d =
    Part (Some w) (part_mode lead t d) false false :: match t with _ :: _ :: _ => parse_pattern n t d | _ => [] end.
Proof.
  intros Hs. cbn [parse_pattern]. rewrite (span_stars_shape p lead w t Hs).
  destruct Hs as [-> Hne Hw Ht]. rewrite span_plain_app by done.
  assert (Hn : ∀ m, new_part w m = Part (Some w) m false false) by (by destruct w).
  pose proof (classify_shape lead w t d Hw Hne) as Hc.
  destruct t as [|x [|y t]]; cbn [trail_star] in Hc.
  - by rewrite Hc, Hn.
  - destruct Ht as [?|[more [= -> <-]]]; [done|]. by rewrite Hc, Hn.
  - destruct Ht as [?|[more [= -> <-]]]; [done|]. by rewrite Hc, Hn.
Qed.
Lemma set_first_parsed n p d : set_first false false (parse_pattern n p d) = parse_pattern n p d.
Proof.
  destruct n as [|n]; [done|]. cbn [parse_pattern]. destruct (span_stars p) as [a b], (span_plain b) as [u v].
  destruct (match v with star :: _ :: _ => _ | _ => _ end) as [s child], (classify s d) as [x m].
  by destruct x.
Qed.

(** ** Matching *)

(** The result [r] of matching [s] against the tokens [ts]. *)
Definition decides (ts : list token) (s : cstring) (w : wildcards) (r : bool * wildcards) : Prop :=
  (fst r = true → ∃ g, globs ts s g ∧ snd r = extend g w) ∧ ((∃ g, globs ts s g) → fst r = true).

Lemma globs_exact cs w s g : globs (lits cs w) s g ↔ same_text cs s w ∧ g = [].
Proof.
  rewrite <- (app_nil_r (lits cs w)), globs_lits. split.
  - intros (b & c & -> & Hb & Hg). inversion Hg; subst. by rewrite app_nil_r.
  - intros [H ->]. exists s, []. by rewrite app_nil_r.
Qed.
Lemma globs_rest s g : globs [Any] s g ↔ s = g.
Proof.
  rewrite globs_star. split.
  - intros (a & b & g' & -> & -> & H). by inversion H; subst.
  - intros ->. exists g, [], []. by rewrite app_nil_r.
Qed.
Lemma same_length cs b w : same_text cs b w → length b = length w.
Proof. apply Forall2_length. Qed.

#[local] Ltac run_part :=
  cbn [match_pattern sp_mode sp_match sp_case_sensitive]; unfold sp_len; cbn [sp_match default from_option id].
Section parts.
Context (cs neg : bool) (w : cstring).
Hypothesis Hne : w ≠ [].
Hypothesis Hw : no_zero w.
#[local] Abbreviation part mode := (Part (Some w) mode neg cs).

Lemma exact_decides s wd : no_zero s → decides (lits cs w) s wd (match_pattern [part SIMPLE_PATTERN_EXACT] s (length s) wd).
Proof using Hw.
  intros Hs. unfold decides. setoid_rewrite globs_exact.
  run_part.
  destruct (Nat.leb_spec (length w) (length s)).
  - destruct (Z.eqb_spec (sp_strcmp s w cs) 0) as [E|E]; rewrite strcmp_spec in E by done; cbn.
    + split; [|done]. intros _. exists []. by rewrite extend_nil.
    + split; [done|]. naive_solver.
  - split; [done|]. intros (g & Hsame%same_length & _). lia.
Qed.
Lemma suffix_decides s wd : no_zero s →
  decides (Any :: lits cs w) s wd (match_pattern [part SIMPLE_PATTERN_SUFFIX] s (length s) wd).
Proof using Hw.
  intros Hs. unfold decides. setoid_rewrite globs_star. setoid_rewrite globs_exact.
  run_part.
  destruct (Nat.leb_spec (length w) (length s)).
  - set (k := (length s - length w)%nat).
    destruct (Z.eqb_spec (sp_strcmp (drop k s) w cs) 0) as [E|E];
      rewrite strcmp_spec in E by (done || by apply Forall_drop); cbn [fst snd].
    + split; [|done]. intros _. exists (take k s). rewrite add_wildcarded_extend by lia. split; [|done].
      exists (take k s), (drop k s), []. by rewrite take_drop, app_nil_r.
    + split; [done|]. intros (g & a & b & g' & -> & _ & Hb & _). destruct E. unfold k. apply same_length in Hb as Hlen.
      by rewrite length_app, drop_app_length' by lia.
  - split; [done|]. intros (g & a & b & g' & -> & _ & Hb & _). apply same_length in Hb. rewrite length_app in *. lia.
Qed.
(** A prefix, and what comes behind it. *)
Lemma prefix_decides child ts s wd : no_zero s →
  (∀ c wd, no_zero c → (length c ≤ length s)%nat →
     decides (Any :: ts) c wd
       (match child with [] => (true, add_wildcarded c (length c) wd) | _ => match_pattern child c (length c) wd end)) →
  decides (lits cs w ++ Any :: ts) s wd (match_pattern (part SIMPLE_PATTERN_PREFIX :: child) s (length s) wd).
Proof using Hw.
  intros Hs Hch. unfold decides. setoid_rewrite globs_lits.
  run_part.
  destruct (Nat.leb_spec (length w) (length s)).
  - destruct (Z.eqb_spec (sp_strncmp s w (length w) cs) 0) as [E|E]; rewrite strncmp_spec in E by done.
    + destruct E as (b & c & -> & Hb). apply same_length in Hb as Hlen. rewrite length_app in *.
      rewrite drop_app_length' by done. replace (length b + length c - length w)%nat with (length c) by lia.
      apply Forall_app in Hs as [_ Hs]. destruct (Hch c wd Hs ltac:(lia)) as [H1 H2].
      split.
      * intros Hm. destruct H1 as (g & Hg & Hx); [by destruct child|]. exists g. split; [by exists b, c|].
        by destruct child.
      * intros (g & b' & c' & Heq & Hb' & Hg). apply same_length in Hb' as Hlen'.
        apply app_inj_1 in Heq as [<- <-]; [|lia]. destruct child; apply H2; by exists g.
    + cbn. split; [done|]. intros (g & b & c & -> & Hb & _). destruct E. by exists b, c.
  - cbn. split; [done|]. intros (g & b & c & -> & Hb & _). apply same_length in Hb. rewrite length_app in *. lia.
Qed.
(** The first occurrence: if the rest matches behind a later one, it matches
    behind the first one too. *)
Lemma substring_decides child ts s wd : no_zero s →
  (∀ c wd, no_zero c → (length c ≤ length s)%nat →
     decides (Any :: ts) c wd
       (match child with [] => (true, add_wildcarded c (length c) wd) | _ => match_pattern child c (length c) wd end)) →
  decides (Any :: lits cs w ++ Any :: ts) s wd
    (match_pattern (part SIMPLE_PATTERN_SUBSTRING :: child) s (length s) wd).
Proof using Hw Hne.
  intros Hs Hch. unfold decides. setoid_rewrite globs_star. setoid_rewrite globs_lits. run_part.
  assert (Hw0 : (length w =? 0)%nat = false) by (by destruct w). rewrite Hw0.
  destruct (sp_strstr s w cs) as [[a t]|] eqn:Es.
  - destruct (strstr_found cs w s Hs Hw a t Es) as (-> & b & c & -> & Hb). apply same_length in Hb as Hlen.
    rewrite !length_app in *. destruct (Nat.leb_spec (length w) (length a + (length b + length c))); [|lia].
    rewrite drop_app_length' by done. rewrite (add_wildcarded_extend (a ++ b ++ c)) by (rewrite ?length_app; lia).
    rewrite take_app_length.
    replace (length a + (length b + length c) - (length a + length w))%nat with (length c) by lia.
    replace (length a + (length b + length c) - length a - length w)%nat with (length c) by lia.
    assert (Hc : no_zero c) by (by apply Forall_app in Hs as [_ [_ Hs]%Forall_app]).
    destruct (Hch c (extend a wd) Hc ltac:(lia)) as [H1 H2]. split.
    + intros Hm. destruct H1 as (g & Hg & Hx); [by destruct child|]. exists (a ++ g).
      rewrite extend_app. split; [|by destruct child]. exists a, (b ++ c), g. by split_and!; try exists b, c.
    + intros (g & a' & bc & g' & Heq & -> & b' & c' & -> & Hb' & Hg).
      destruct (strstr_first cs w a' b' c') as (a2 & t2 & Es2 & Hl2); [by rewrite <- Heq|done|done|].
      rewrite <- Heq, Es in Es2. injection Es2 as <- <-.
      assert (∃ x, c = x ++ c') as [x ->].
      { apply same_length in Hb' as Hlen'. rewrite !app_assoc in Heq.
        apply app_eq_inv in Heq as [(x & E & ->)|(x & _ & ->)]; [|by exists x].
        apply (f_equal length) in E. rewrite !length_app in E. destruct x; [by exists []|cbn in E; lia]. }
      apply (globs_longer x) in Hg. destruct child; apply H2; by eexists.
  - split; [by destruct (length w <=? length s)%nat|]. intros (g & a & bc & g' & -> & _ & b & c & -> & Hb & _). exfalso.
    destruct (strstr_first cs w a b c Hs Hw Hb) as (a2 & t2 & Es2 & _). congruence.
Qed.
End parts.

(** The parser and the matcher together. *)
Lemma inner_stars_shape p lead w t : shape p lead w (STAR :: t) → (inner_stars (STAR :: t) < inner_stars p)%nat.
Proof.
  intros [-> Hne _ _]. unfold inner_stars, count_stars. cbn [tail]. destruct w as [|c w]; [done|].
  assert (∀ l, length (filter (λ c, is_star c = true) t) < length (filter (λ c, is_star c = true) (l ++ STAR :: t)))%nat as H.
  { intros l. rewrite filter_app, length_app, filter_cons_True by done. cbn. lia. }
  destruct lead; cbn [lead_star app tail]; [apply (H (c :: w))|apply (H w)].
Qed.
Lemma no_zero_shape p lead w t : shape p lead w t → no_zero p → no_zero w ∧ no_zero t.
Proof. intros [-> _ _ _] H. by apply Forall_app in H as [_ H%Forall_app]. Qed.
Lemma pattern_decides n : ∀ p cs neg s wd, no_double p = true → p ≠ [] → p ≠ [STAR] →
  (inner_stars p < n)%nat → no_zero p → no_zero s →
  decides (tokens cs p) s wd
    (match_pattern (set_first neg cs (parse_pattern n p SIMPLE_PATTERN_EXACT)) s (length s) wd).
Proof.
  induction n as [|n IH]; intros p cs neg s wd Hd Hne Hns Hn Hp Hs; [lia|].
  destruct (shape_of p Hd Hne Hns) as (lead & w & t & Hsh & Ht).
  destruct (no_zero_shape p lead w t Hsh Hp) as [Hw Hpt].
  rewrite (tokens_shape cs p lead w t Hsh), (parse_shape n p lead w t _ Hsh). cbn [set_first sp_match sp_mode].
  destruct t as [|x t].
  { rewrite app_nil_r. destruct lead; [by apply suffix_decides|by apply exact_decides]. }
  destruct (sh_tail _ _ _ _ Hsh) as [?|[t' [= -> <-]]]; [done|].
  assert (Hch : ∀ c wd, no_zero c → (length c ≤ length s)%nat → decides (Any :: (tok false <$> t)) c wd
    (match (match t with [] => [] | _ :: _ => parse_pattern n (STAR :: t) SIMPLE_PATTERN_EXACT end) with
     | [] => (true, add_wildcarded c (length c) wd)
     | child => match_pattern child c (length c) wd end)).
  { intros c wd' Hc _. destruct t as [|y t].
    - split; [|done]. intros _. exists c. rewrite add_wildcarded_extend, firstn_all by done.
      split; [by apply globs_rest|done].
    - pose proof (inner_stars_shape _ _ _ _ Hsh).
      pose proof (IH (STAR :: y :: t) false false c wd' Ht ltac:(done) ltac:(done) ltac:(lia) Hpt Hc) as H'.
      rewrite tokens_nocase, set_first_parsed in H'. cbn [fmap list_fmap] in H' |- *.
      destruct (parse_pattern n (STAR :: y :: t) SIMPLE_PATTERN_EXACT) eqn:E; [|exact H'].
      destruct n; [lia|]. cbn [parse_pattern] in E. repeat case_match; discriminate. }
  replace (match STAR :: t with _ :: _ :: _ => parse_pattern n (STAR :: t) SIMPLE_PATTERN_EXACT | _ => [] end)
    with (match t with [] => [] | _ :: _ => parse_pattern n (STAR :: t) SIMPLE_PATTERN_EXACT end) by done.
  set (child := match t with [] => [] | _ :: _ => parse_pattern n (STAR :: t) SIMPLE_PATTERN_EXACT end) in *.
  clearbody child.
  destruct lead; cbn [part_mode]; change ((tok false <$> STAR :: t)) with (Any :: (tok false <$> t)).
  - apply (substring_decides cs neg w (sh_ne _ _ _ _ Hsh) Hw); [done|]. intros c wd' H1 H2. specialize (Hch c wd' H1 H2). by destruct child.
  - apply (prefix_decides cs neg w Hw); [done|]. intros c wd' H1 H2. specialize (Hch c wd' H1 H2). by destruct child.
Qed.

(** ** Lists of patterns *)

Definition word : Type := bool * cstring.
Definition needs_escape (sep : separators) (c : ascii) : bool :=
  Ascii.eqb c BACKSLASH || Ascii.eqb c "!" || isseparator sep c.
Definition escape_char (sep : separators) (c : ascii) : cstring := if needs_escape sep c then [BACKSLASH; c] else [c].
Definition word_text (sep : separators) (w : word) : cstring :=
  (if fst w then ["!"%char] else []) ++ (snd w ≫= escape_char sep).
(** The words, each followed by the separator [x]. *)
Definition list_text (sep : separators) (x : ascii) (l : list word) : cstring := l ≫= λ w, word_text sep w ++ [x].

Section lists.
Context (sep : separators) (x : ascii).
Hypothesis Hx : isseparator sep x = true.
Hypothesis Hback : isseparator sep BACKSLASH = false.
Hypothesis Hbang : isseparator sep "!" = false.

Lemma next_word_escaped w rest :
  next_word sep ((w ≫= escape_char sep) ++ rest) false =
  (w ++ fst (next_word sep rest false), snd (next_word sep rest false)).
Proof using Hback.
  induction w as [|c w IH]; [cbn; by destruct (next_word sep rest false)|].
  rewrite bind_cons, <- app_assoc. unfold escape_char at 1, needs_escape.
  destruct (Ascii.eqb_spec c BACKSLASH) as [->|Hc]; cbn [orb app next_word].
  - rewrite Ascii.eqb_refl. cbn [negb andb]. rewrite Hback. cbn [andb]. by rewrite IH.
  - destruct (Ascii.eqb c "!" || isseparator sep c) eqn:E; cbn [app next_word].
    + rewrite Ascii.eqb_refl. cbn [negb andb]. rewrite !andb_false_r. by rewrite IH.
    + apply orb_false_iff in E as [_ E]. rewrite E, (proj2 (Ascii.eqb_neq _ _) Hc). cbn [andb]. by rewrite IH.
Qed.
Lemma word_starts neg w rest : w ≠ [] → ∃ c t, word_text sep (neg, w) ++ rest = c :: t ∧
  isseparator sep c = false ∧
  (if Ascii.eqb c "!" then (true, t) else (false, c :: t)) = (neg, (w ≫= escape_char sep) ++ rest).
Proof using Hback Hbang.
  intros Hw. destruct neg; [by eexists _, _|]. destruct w as [|c w]; [done|].
  unfold word_text. cbn [fst snd app]. rewrite bind_cons. unfold escape_char at 1 3.
  destruct (needs_escape sep c) eqn:E; [by eexists _, _|].
  unfold needs_escape in E. apply orb_false_iff in E as [[_ E1]%orb_false_iff E2].
  eexists c, _. cbn [app]. split; [done|]. split; [done|]. by rewrite E1.
Qed.
Lemma skip_none c t : isseparator sep c = false → skip_separators sep (c :: t) = c :: t.
Proof using Type. intros H. cbn. by rewrite H. Qed.
Lemma create_list m cs l : Forall (λ w, snd w ≠ []) l → ∀ fuel, (length (list_text sep x l) ≤ fuel)%nat →
  create_loop fuel sep (list_text sep x l) m cs = Some ((λ w, create_one (snd w) m (fst w) cs) <$> l).
Proof using Hx Hback Hbang.
  induction 1 as [|[neg w] l Hw _ IH]; intros fuel Hf; [by destruct fuel|].
  unfold list_text in *. rewrite bind_cons, <- app_assoc in *. cbn [app snd fst] in *.
  set (rest := x :: (l ≫= λ w, word_text sep w ++ [x])) in *. destruct (word_starts neg w rest Hw) as (c & t & E & Hc & Hneg).
  rewrite E in *. destruct fuel as [|fuel]; [cbn in Hf; lia|]. cbn [create_loop].
  assert (Hxb : Ascii.eqb x BACKSLASH = false) by (apply Ascii.eqb_neq; congruence).
  assert (Hnext : next_word sep rest false = ([], l ≫= λ w, word_text sep w ++ [x])).
  { unfold rest. cbn [next_word]. by rewrite Hxb, Hx. }
  rewrite (skip_none c t Hc), Hneg, next_word_escaped, Hnext. cbn [fst snd]. rewrite app_nil_r.
  destruct ((w ≫= escape_char sep) ++ rest) eqn:E'; [by destruct (w ≫= escape_char sep)|].
  destruct w as [|c' w]; [done|]. rewrite IH; [done|].
  apply (f_equal length) in E. unfold rest in E. rewrite length_app in E. cbn [length] in *. lia.
Qed.
End lists.

(** A text matches a pattern. *)
Definition matches (cs : bool) (p s : cstring) : Prop := ∃ g, globs (tokens cs p) s g.
(** The patterns the theorems are about: no two asterisks in a row, and at most
    a thousand parts. *)
Record pattern_ok (p : cstring) : Prop := {
  po_ne : p ≠ [];
  po_double : no_double p = true;
  po_parts : (inner_stars p < MAX_PARTS)%nat;
  po_nul : no_zero p;
}.
(** The first pattern that matches decides. *)
Inductive decided (cs : bool) (s : cstring) : list word → SIMPLE_PATTERN_RESULT → Prop :=
| decided_none : decided cs s [] SP_NOT_MATCHED
| decided_here neg p l : matches cs p s →
    decided cs s ((neg, p) :: l) (if neg then SP_MATCHED_NEGATIVE else SP_MATCHED_POSITIVE)
| decided_later neg p l r : ¬ matches cs p s → decided cs s l r → decided cs s ((neg, p) :: l) r.

Lemma star_matches cs neg s wd : match_pattern (create_one [STAR] SIMPLE_PATTERN_EXACT neg cs) s (length s) wd = (true, wd).
Proof. done. Qed.
Lemma one_decides cs neg p s wd : pattern_ok p → p ≠ [STAR] → no_zero s →
  decides (tokens cs p) s wd (match_pattern (create_one p SIMPLE_PATTERN_EXACT neg cs) s (length s) wd).
Proof. intros [H1 H2 H3 H4] Hp Hs. by apply pattern_decides. Qed.
Lemma one_matches cs neg p s wd : pattern_ok p → no_zero s →
  fst (match_pattern (create_one p SIMPLE_PATTERN_EXACT neg cs) s (length s) wd) = true ↔ matches cs p s.
Proof.
  intros Hp Hs. destruct (decide (p = [STAR])) as [->|Hne].
  - rewrite star_matches. split; [|done]. intros _. exists s. apply globs_star_all.
  - destruct (one_decides cs neg p s wd Hp Hne Hs) as [H1 H2]. split; [|done].
    intros H. destruct (H1 H) as (g & Hg & _). by exists g.
Qed.
Lemma parse_cons n p d : ∃ m child, parse_pattern (S n) p d = m :: child.
Proof.
  cbn [parse_pattern]. destruct (span_stars p) as [a b], (span_plain b) as [u v].
  destruct (match v with star :: _ :: _ => _ | _ => _ end) as [s child], (classify s d) as [x m]. by eexists _, _.
Qed.
Lemma create_negative p cs neg :
  match create_one p SIMPLE_PATTERN_EXACT neg cs with m :: _ => sp_negative m | [] => false end = neg.
Proof.
  unfold create_one. destruct (parse_cons 999 p SIMPLE_PATTERN_EXACT) as (m & child & E).
  change MAX_PARTS with (S 999). by rewrite E.
Qed.
Lemma list_decides cs s size l : Forall (λ w, pattern_ok (snd w)) l → no_zero s → ∀ w,
  decided cs s l (fst (simple_pattern_matches_extract_with_length
    ((λ w, create_one (snd w) SIMPLE_PATTERN_EXACT (fst w) cs) <$> l) s (length s) size w)).
Proof.
  intros Hl Hs. induction Hl as [|[neg p] l Hp _ IH]; intros w; [constructor|].
  cbn [fmap list_fmap simple_pattern_matches_extract_with_length fst snd] in *.
  pose proof (one_matches cs neg p s (pair [] <$> size) Hp Hs) as Hm.
  destruct (match_pattern _ s (length s) _) as [b w'] eqn:E. cbn [fst] in Hm. destruct b.
  - rewrite create_negative by done. cbn [fst]. constructor. by apply Hm.
  - constructor; [|apply IH]. intros H. by apply Hm in H.
Qed.

(** C22. A list of patterns, written with any of its separators and with the
    special characters escaped, decides a text by the first of its patterns that
    matches it as a glob, negative patterns included; the parts behind the
    first asterisk ignore the case.  The patterns have no two asterisks in a row
    and at most a thousand parts. *)
Theorem simple_patterns_decide sep x cs l s size :
  isseparator sep x = true → isseparator sep BACKSLASH = false → isseparator sep "!" = false →
  Forall (λ w, pattern_ok (snd w)) l → s ≠ [] → no_zero s →
  ∃ ps r w, simple_pattern_create (list_text sep x l) sep SIMPLE_PATTERN_EXACT cs = Some ps ∧
    simple_pattern_matches_extract ps (Some s) size = (r, w) ∧ decided cs s l r.
Proof.
  intros Hx Hback Hbang Hl Hne Hs.
  exists ((λ w, create_one (snd w) SIMPLE_PATTERN_EXACT (fst w) cs) <$> l).
  pose proof (list_decides cs s size l Hl Hs (pair [] <$> size)) as H.
  destruct (simple_pattern_matches_extract_with_length _ _ _ _ _) as [r w] eqn:E in H. cbn [fst] in H.
  exists r. assert (∃ w, simple_pattern_matches_extract ((λ w, create_one (snd w) SIMPLE_PATTERN_EXACT (fst w) cs) <$> l)
    (Some s) size = (r, w)) as [w' Hw'].
  { destruct s as [|c s]; [done|]. destruct l as [|p l]; [|by exists w]. injection E as <- <-. by eexists. }
  exists w'. split; [|done]. apply create_list; [done..| |done].
  eapply Forall_impl; [exact Hl|]. by intros p [].
Qed.
Lemma simple_patterns_decide_witness : ∃ ps r w,
  simple_pattern_create (list_text SepDefault " " [(true, ["a"; "*"; "b"]); (false, ["*"])]%char) SepDefault
    SIMPLE_PATTERN_EXACT false = Some ps ∧
  simple_pattern_matches_extract ps (Some ["a"; "b"]%char) (Some 10%nat) = (r, w) ∧
  decided false ["a"; "b"]%char [(true, ["a"; "*"; "b"]); (false, ["*"])]%char r.
Proof.
  apply (simple_patterns_decide SepDefault " " false [(true, ["a"; "*"; "b"]); (false, ["*"])]%char ["a"; "b"]%char);
    try reflexivity; try discriminate.
  - repeat constructor; try discriminate; by apply Nat.ltb_lt.
  - repeat constructor; discriminate.
Defined.

(** When a pattern other than a lone asterisk matches, the characters its
    asterisks stand for are extracted, cut to the room there is for them: what is
    written, with its terminator, never exceeds the size of the place. *)
Theorem wildcards_extracted cs neg p s size : pattern_ok p → p ≠ [STAR] → no_zero s → matches cs p s →
  ∃ g left, globs (tokens cs p) s g ∧
    match_pattern (create_one p SIMPLE_PATTERN_EXACT neg cs) s (length s) (Some ([], size)) =
      (true, Some (take (size - 1) g, left)) ∧ (length (take (size - 1) g) + left = size)%nat.
Proof.
  intros Hp Hne Hs Hm. destruct (one_decides cs neg p s (Some ([], size)) Hp Hne Hs) as [H1 H2].
  destruct (match_pattern _ s (length s) _) as [b w]. cbn [fst snd] in *. specialize (H2 Hm) as ->.
  destruct (H1 eq_refl) as (g & Hg & ->). rewrite extend_room. eexists g, _. split; [done|]. split; [done|].
  rewrite length_take. lia.
Qed.
Lemma wildcards_extracted_witness : ∃ g left, globs (tokens true ["a"; "*"; "c"]%char) ["a"; "x"; "y"; "c"]%char g ∧
  match_pattern (create_one ["a"; "*"; "c"]%char SIMPLE_PATTERN_EXACT false true) ["a"; "x"; "y"; "c"]%char 4
    (Some ([], 2%nat)) = (true, Some (take 1 g, left)) ∧ (length (take 1 g) + left = 2)%nat.
Proof.
  apply (wildcards_extracted true false ["a"; "*"; "c"]%char ["a"; "x"; "y"; "c"]%char 2).
  - split; [done|done|by apply Nat.ltb_lt|repeat constructor; discriminate].
  - done.
  - repeat constructor; discriminate.
  - exists ["x"; "y"]%char. apply globs_lit; [done|]. apply globs_any, globs_any, globs_skip, globs_lit; [done|]. constructor.
Defined.

(** ** Patterns with two asterisks in a row *)

(** A part without text makes the scan of a pattern go on forever. *)
Lemma scan_stuck fuel m child r : sp_match m = None → scan_is_potential_name fuel (m :: child) r = NoFuel.
Proof. intros Hm. induction fuel as [|fuel IH]; [done|]. cbn. rewrite Hm. exact IH. Qed.
(** A pattern that ends in two asterisks makes
    [simple_pattern_is_potential_name()] never return: its last part has no text,
    and the scan only moves on from parts that have some. *)
Theorem potential_name_never_returns w neg cs fuel : w ≠ [] → starless w →
  simple_pattern_is_potential_name fuel [create_one (w ++ [STAR; STAR]) SIMPLE_PATTERN_EXACT neg cs] = NoFuel.
Proof.
  intros Hne Hw.
  assert (Hs : shape (w ++ [STAR; STAR]) false w [STAR; STAR]) by (split; [done|done|done|right; by eexists]).
  unfold create_one. change MAX_PARTS with (S 999). rewrite (parse_shape _ _ _ _ _ _ Hs).
  change (parse_pattern 999 [STAR; STAR] SIMPLE_PATTERN_EXACT) with [Part None SIMPLE_PATTERN_SUBSTRING false false].
  cbn [is_substring set_first sp_match sp_mode part_mode].
  unfold simple_pattern_is_potential_name. cbn [potential_name_loop sp_match].
  destruct fuel as [|fuel]; [done|]. cbn [scan_is_potential_name sp_match sp_mode is_exact andb].
  by rewrite scan_stuck.
Qed.
Lemma potential_name_never_returns_witness : simple_pattern_is_potential_name 100
  [create_one ["a"; "*"; "*"]%char SIMPLE_PATTERN_EXACT false true] = NoFuel.
Proof.
  apply (potential_name_never_returns ["a"%char]); [done|repeat constructor].
Defined.

(** The second of two asterisks is a character of the text to find. *)
Example double_asterisk_is_literal cs : let p := ["a"; "*"; "*"; "b"]%char in
  fst (match_pattern (create_one p SIMPLE_PATTERN_EXACT false cs) ["a"; "x"; "b"]%char 3 None) = false ∧
  fst (match_pattern (create_one p SIMPLE_PATTERN_EXACT false cs) ["a"; "*"; "b"]%char 3 None) = true ∧
  matches cs p ["a"; "x"; "b"]%char.
Proof.
  split; [by destruct cs|]. split; [by destruct cs|]. exists ["x"%char].
  apply globs_lit; [by destruct cs|]. apply globs_any, globs_skip, globs_skip, globs_lit; [by destruct cs|]. constructor.
Qed.
(** Only the first part of a pattern is case sensitive. *)
Example later_parts_ignore_case :
  fst (match_pattern (create_one ["a"; "*"; "b"]%char SIMPLE_PATTERN_EXACT false true) ["a"; "B"]%char 2 None) = true.
Proof. reflexivity. Qed.
(** A buffer with text is never matched. *)
Lemma buffers_never_match l c s size : fst (simple_pattern_matches_buffer_extract l (Some (c :: s)) size) = SP_NOT_MATCHED.
Proof. by destruct l. Qed.
