(* ===== verification/Url.v ===== *)
(** * url.c: percent encoding, UTF-8, HTTP requests

    A C string is the list of its characters; reading the terminator gives a
    zero, reading behind it is undefined. *)

From S2P Require Import Prelude CString Inlined SimplePattern.
#[local] Open Scope string_scope.
#[local] Open Scope list_scope.
#[local] Open Scope Z_scope.

Abbreviation bytes := (list ascii).

(** [s[i]] *)
Definition at_ (s : bytes) (i : nat) : cres ascii :=
  match s !! i with
  | Some c => Ok c
  | None => if (i =? length s)%nat then Ok NUL else UB UB_oob
  end.
Definition is_nul (c : ascii) : bool := Ascii.eqb c NUL.
(** A [char] as a signed number, and back. *)
Definition schar (c : ascii) : Z := wrap_s 8 (code c).
Definition to_char (z : Z) : ascii := chr (wrap_u 8 z).

(** ** Percent encoding *)

Definition from_hex (ch : ascii) : Z :=
  wrap_s 8 (if isdigit ch then schar ch - 48 else schar (tolower ch) - 97 + 10).
Definition to_hex (n : Z) : ascii := default NUL (String.list_ascii_of_string hex_digits_lower !! Z.to_nat (Z.land n 15)).

Definition isalnum (c : ascii) : bool :=
  isdigit c || ((65 <=? code c) && (code c <=? 90)) || ((97 <=? code c) && (code c <=? 122)).
Definition isprint (c : ascii) : bool := (32 <=? code c) && (code c <=? 126).
(** A character that is not encoded. *)
Definition url_plain (c : ascii) : bool :=
  isalnum c || Ascii.eqb c "-" || Ascii.eqb c "_" || Ascii.eqb c "." || Ascii.eqb c "~".
Definition url_encode_char (c : ascii) : bytes :=
  if url_plain c then [c]
  else if Ascii.eqb c " " then ["+"%char]
  else ["%"%char; to_hex (Z.shiftr (schar c) 4); to_hex (Z.land (schar c) 15)].
Definition url_encode (str : bytes) : bytes := str ≫= url_encode_char.

Definition url_percent_escape_decode (s : bytes) : cres ascii :=
  c1 ← at_ s 1;
  if is_nul c1 then Ok NUL
  else
    c2 ← at_ s 2;
    if is_nul c2 then Ok NUL
    else Ok (to_char (Z.lor (Z.shiftl (from_hex c1) 4) (from_hex c2))).

(** ** UTF-8 *)

Definition IS_UTF8_BYTE (c : ascii) : bool := negb (Z.land (code c) 128 =? 0).
Definition IS_UTF8_STARTBYTE (c : ascii) : bool := IS_UTF8_BYTE c && negb (Z.land (code c) 64 =? 0).

(** [while(c & 0x80) { length++; c <<= 1; }] *)
Fixpoint leading_ones (bits : nat) (c : Z) : Z :=
  match bits with
  | O => 0
  | S bits => if negb (Z.land c 128 =? 0) then 1 + leading_ones bits (wrap_u 8 (Z.shiftl c 1)) else 0
  end.
Definition url_utf8_get_byte_length (c : ascii) : Z :=
  if negb (IS_UTF8_BYTE c) then 1
  else
    let length := leading_ones 8 (code c) in
    if (4 <? length) || (length =? 1) then -1 else length.

(** The bytes of the escapes at [s], [to_read] of them, the first one when
    [first]; [None] when one of them is not part of a character. *)
Fixpoint multibyte_loop (to_read : nat) (first : bool) (s : bytes) : cres (option bytes) :=
  match to_read with
  | O => Ok (Some [])
  | S to_read =>
      c ← url_percent_escape_decode s;
      if negb (IS_UTF8_BYTE c) then Ok None
      else if negb first && IS_UTF8_STARTBYTE c then Ok None
      else
        r ← multibyte_loop to_read false (drop 3 s);
        Ok (option_map (cons c) r)
  end.
(** The bytes written to [d], where there is room for [room].  On failure the result is
    0, [d] is not moved, and the decoder returns; the bytes that the loop stored
    before the bad one, below [d_end], are behind what the caller reads. *)
Definition url_decode_multibyte_utf8 (s : bytes) (room : Z) : cres bytes :=
  first_byte ← url_percent_escape_decode s;
  if is_nul first_byte || negb (IS_UTF8_STARTBYTE first_byte) then Ok []
  else
    let byte_length := url_utf8_get_byte_length first_byte in
    if (byte_length <=? 0) || (room <=? byte_length) then Ok []
    else
      r ← multibyte_loop (Z.to_nat byte_length) true s;
      Ok (default [] r).

(** The first malformed sequence, if there is one; [s[0]] to [s[3]] are read only
    as far as no terminator was met. *)
Definition cont (s : bytes) (i : nat) : bool :=
  match s !! i with Some c => Z.land (code c) 192 =? 128 | None => false end.
Definition byte_at (s : bytes) (i : nat) : Z := code (default NUL (s !! i)).
(** The length of the sequence at [s], zero when it is malformed. *)
Definition utf8_sequence (s : bytes) : nat :=
  let b0 := byte_at s 0 in
  let b1 := byte_at s 1 in
  if b0 <? 128 then 1
  else if Z.land b0 224 =? 192 then
    if negb (cont s 1) || (Z.land b0 254 =? 192) then 0 else 2
  else if Z.land b0 240 =? 224 then
    if negb (cont s 1) || negb (cont s 2) || ((b0 =? 224) && (Z.land b1 224 =? 128)) ||
       ((b0 =? 237) && (Z.land b1 224 =? 160)) ||
       ((b0 =? 239) && (b1 =? 191) && (Z.land (byte_at s 2) 254 =? 190))
    then 0 else 3
  else if Z.land b0 248 =? 240 then
    if negb (cont s 1) || negb (cont s 2) || negb (cont s 3) || ((b0 =? 240) && (Z.land b1 240 =? 128)) ||
       ((b0 =? 244) && (143 <? b1)) || (244 <? b0)
    then 0 else 4
  else 0.
Fixpoint utf8_check_loop (fuel : nat) (s : bytes) : option bytes :=
  match s, fuel with
  | [], _ => None
  | _, O => Some s
  | _, S fuel =>
      match utf8_sequence s with
      | O => Some s
      | n => utf8_check_loop fuel (drop n s)
      end
  end.
Definition utf8_check (s : bytes) : option bytes := utf8_check_loop (length s) s.

(** ** Decoding *)

(** Whether the text was decoded, and what was written to [to]. *)
Fixpoint url_decode_loop (fuel : nat) (s : bytes) (out : bytes) (room : Z) : cres (bool * bytes) :=
  match s, fuel with
  | [], _ => Ok (true, out)
  | _, O => NoFuel
  | c :: s', S fuel =>
      if negb (0 <? room) then Ok (true, out)
      else if Ascii.eqb c "%" then
        t ← url_percent_escape_decode s;
        if IS_UTF8_BYTE t then
          written ← url_decode_multibyte_utf8 s room;
          match written with
          | [] => Ok (false, out)
          | _ => url_decode_loop fuel (drop (3 * length written) s) (out ++ written)
                   (room - Z.of_nat (length written))
          end
        else if negb (is_nul t) && isprint t then url_decode_loop fuel (drop 3 s) (out ++ [t]) (room - 1)
        else Ok (false, out)
      else if Ascii.eqb c "+" then url_decode_loop fuel s' (out ++ [" "%char]) (room - 1)
      else url_decode_loop fuel s' (out ++ [c]) (room - 1)
  end.
(** The result is null on failure; the text written so far is terminated. *)
Definition url_decode_r (url : bytes) (size : Z) : cres (bool * bytes) :=
  r ← url_decode_loop (length url) url [] (size - 1);
  Ok (fst r && match utf8_check (snd r) with Some _ => false | None => true end, snd r).

(** ** HTTP requests *)

Definition starts_with (p s : bytes) : bool := bool_decide (take (length p) s = p).
Definition HTTP_SLASH : bytes := [" "; "H"; "T"; "T"; "P"; "/"]%char.
(** The pointer [s] is what is left of the text from there; [None] is behind the
    terminator. *)
Fixpoint skip_to_space (s : bytes) : bytes :=
  match s with
  | c :: s' => if Ascii.eqb c " " then s else skip_to_space s'
  | [] => []
  end.
Fixpoint find_protocol_loop (fuel : nat) (s : option bytes) : cres bytes :=
  match s, fuel with
  | None, _ => UB UB_oob
  | Some [], _ => Ok []
  | _, O => NoFuel
  | Some s, S fuel =>
      let s := skip_to_space s in
      match s with
      | [] => find_protocol_loop fuel None
      | _ :: s' => if starts_with HTTP_SLASH s then Ok s else find_protocol_loop fuel (Some s')
      end
  end.
Definition url_find_protocol (s : bytes) : cres bytes := find_protocol_loop (S (length s)) (Some s).

Definition CRLF2 : bytes := ["013"; "010"; "013"; "010"]%char.
Definition chars_of (s : string) : bytes := String.list_ascii_of_string s.
Definition string_of (s : bytes) : string := String.string_of_list_ascii s.
Fixpoint skip_white (s : bytes) : bytes :=
  match s with
  | c :: s' => if isspace c then skip_white s' else s
  | [] => []
  end.
Fixpoint content_type_word (s : bytes) : bytes :=
  match s with
  | c :: s => if isspace c || Ascii.eqb c ";" then [] else c :: content_type_word s
  | [] => []
  end.
Definition ends_request (req : bytes) : bool :=
  match sp_strstr (drop (length req - 4) req) CRLF2 true with Some _ => true | None => false end.
(** [req] is the text from [begin] to [end]; the payload of a complete request that
    has one, and the words of its content type ([None]: plain text). *)
Definition url_is_request_complete_and_extract_payload (req : bytes) : bool * option (bytes * option bytes) :=
  if (length req <? 4)%nat then (false, None)
  else if starts_with (chars_of "GET ") req then (ends_request req, None)
  else if starts_with (chars_of "POST ") req || starts_with (chars_of "PUT ") req then
    match sp_strstr req (chars_of "Content-Length: ") false with
    | None => (false, None)
    | Some (before, cl) =>
        let cl := drop 16 cl in
        let content_length := str2ul (string_of cl) in
        match sp_strstr cl CRLF2 true with
        | None => (false, None)
        | Some (_, payload) =>
            let payload := drop 4 payload in
            if Z.of_nat (length payload) =? content_length then
              (true, Some (payload,
                 match sp_strstr req (chars_of "Content-Type: ") false with
                 | Some (_, ct) => Some (content_type_word (skip_white (drop 14 ct)))
                 | None => None
                 end))
            else (false, None)
        end
    end
  else (ends_request req, None).
