(* ===== verification/UrlSpec.v ===== *)
(** * What url.c promises

    Decoding what was encoded gives the text back; what is decoded is valid
    UTF-8, fits its place, and no escape makes a control character of a header;
    the two places where the code reads behind the end of a text. *)

From S2P Require Import Prelude CString Inlined SimplePattern SimplePatternSpec Url.
#[local] Open Scope string_scope.
#[local] Open Scope list_scope.
#[local] Open Scope Z_scope.

(** ** Single bytes *)

(** A computed implication. *)
#[local] Ltac by_cases := let H := fresh in intros H; first [discriminate H|split_and!; first [reflexivity|discriminate]].

Definition escape_of (c : ascii) : bytes :=
  ["%"%char; to_hex (Z.shiftr (schar c) 4); to_hex (Z.land (schar c) 15)].
Lemma decode_escape c rest : c ≠ NUL → url_percent_escape_decode (escape_of c ++ rest) = Ok c.
Proof.
  intros Hc. unfold url_percent_escape_decode, at_. cbn [escape_of app lookup list_lookup mbind cres_bind].
  clear rest. destruct c as [[] [] [] [] [] [] [] []]; first [done|vm_compute; reflexivity].
Qed.
Definition is_cont (c : ascii) : Prop := Z.land (code c) 192 = 128.
Lemma cont_byte c : is_cont c → IS_UTF8_BYTE c = true ∧ IS_UTF8_STARTBYTE c = false ∧ url_plain c = false ∧
  Ascii.eqb c " " = false ∧ c ≠ NUL.
Proof. unfold is_cont. destruct c as [[] [] [] [] [] [] [] []]; vm_compute; by_cases. Qed.
(** A byte that starts a sequence of [n]. *)
Definition is_lead (c : ascii) (n : Z) : Prop :=
  IS_UTF8_STARTBYTE c = true ∧ url_utf8_get_byte_length c = n ∧ url_plain c = false ∧
  Ascii.eqb c " " = false ∧ c ≠ NUL.
Lemma lead_byte c :
  (Z.land (code c) 224 = 192 → is_lead c 2) ∧ (Z.land (code c) 240 = 224 → is_lead c 3) ∧
  (Z.land (code c) 248 = 240 → is_lead c 4).
Proof.
  unfold is_lead. destruct c as [[] [] [] [] [] [] [] []]; vm_compute; split_and!; by_cases.
Qed.
Lemma start_is_byte c : IS_UTF8_STARTBYTE c = true → IS_UTF8_BYTE c = true.
Proof. intros [H _]%andb_true_iff. done. Qed.

(** ** Sequences *)

(** [q] is one character of several bytes. *)
Definition multibyte (q : bytes) : Prop :=
  ∃ b0 l, q = b0 :: l ∧ is_lead b0 (Z.of_nat (length q)) ∧ Forall is_cont l.

Lemma cont_inv s i : cont s i = true → ∃ c, s !! i = Some c ∧ is_cont c.
Proof. unfold cont. destruct (s !! i) as [c|]; [|done]. intros H%Z.eqb_eq. by exists c. Qed.
(** The text is empty, or starts with a character. *)
Lemma sequence_spec c s n : utf8_sequence (c :: s) = S n →
  (n = 0%nat ∧ code c < 128) ∨ ∃ q t, c :: s = q ++ t ∧ length q = S n ∧ multibyte q.
Proof.
  destruct (lead_byte c) as (L2 & L3 & L4). unfold utf8_sequence.
  change (byte_at (c :: s) 0) with (code c). destruct (Z.ltb_spec (code c) 128); [intros [= <-]; by left|].
  destruct (Z.eqb_spec (Z.land (code c) 224) 192) as [E2|_].
  { destruct (cont (c :: s) 1) eqn:C1; cbn [negb orb]; [|done].
    destruct (Z.land (code c) 254 =? 192); [done|]. intros [= <-]. right.
    apply cont_inv in C1 as (c1 & E1 & H1). destruct s as [|x1 s]; [done|]. injection E1 as ->.
    exists [c; c1], s. split; [done|]. split; [done|]. exists c, [c1]. split; [done|]. split; [by apply L2|].
    by repeat constructor. }
  destruct (Z.eqb_spec (Z.land (code c) 240) 224) as [E3|_].
  { destruct (cont (c :: s) 1) eqn:C1; cbn [negb orb]; [|done].
    destruct (cont (c :: s) 2) eqn:C2; cbn [negb orb]; [|done].
    case_match; [done|]. intros [= <-]. right.
    apply cont_inv in C1 as (c1 & E1 & H1). apply cont_inv in C2 as (c2 & E2 & H2).
    destruct s as [|x1 [|x2 s]]; [done|done|]. injection E1 as ->. injection E2 as ->.
    exists [c; c1; c2], s. split; [done|]. split; [done|]. exists c, [c1; c2]. split; [done|]. split; [by apply L3|].
    by repeat constructor. }
  destruct (Z.eqb_spec (Z.land (code c) 248) 240) as [E4|_]; [|done].
  destruct (cont (c :: s) 1) eqn:C1; cbn [negb orb]; [|done].
  destruct (cont (c :: s) 2) eqn:C2; cbn [negb orb]; [|done].
  destruct (cont (c :: s) 3) eqn:C3; cbn [negb orb]; [|done].
  case_match; [done|]. intros [= <-]. right.
  apply cont_inv in C1 as (c1 & E1 & H1). apply cont_inv in C2 as (c2 & E2 & H2). apply cont_inv in C3 as (c3 & E3 & H3).
  destruct s as [|x1 [|x2 [|x3 s]]]; [done|done|done|]. injection E1 as ->. injection E2 as ->. injection E3 as ->.
  exists [c; c1; c2; c3], s. split; [done|]. split; [done|]. exists c, [c1; c2; c3]. split; [done|]. split; [by apply L4|].
  by repeat constructor.
Qed.
(** Texts as sequences of characters, one after the other. *)
Inductive wellformed : bytes → Prop :=
| wf_nil : wellformed []
| wf_ascii c s : code c < 128 → wellformed s → wellformed (c :: s)
| wf_multi q s : multibyte q → wellformed s → wellformed (q ++ s).
Lemma check_wellformed fuel : ∀ s, utf8_check_loop fuel s = None → wellformed s.
Proof.
  induction fuel as [|fuel IH]; intros [|c s]; [constructor|done|constructor|]. cbn [utf8_check_loop].
  destruct (utf8_sequence (c :: s)) as [|n] eqn:E; [done|]. intros H%IH.
  destruct (sequence_spec c s n E) as [[-> Hc]|(q & t & Eq & Hl & Hq)].
  - by constructor.
  - rewrite Eq in H |- *. rewrite drop_app_length' in H by done. by constructor.
Qed.

(** ** Encoding *)

Lemma encode_escape l : Forall (λ c, url_plain c = false ∧ Ascii.eqb c " " = false) l → url_encode l = l ≫= escape_of.
Proof.
  induction 1 as [|c l [H1 H2] _ IH]; [done|]. unfold url_encode in *. rewrite !bind_cons, IH.
  unfold url_encode_char. by rewrite H1, H2.
Qed.
Lemma multibyte_decode l rest : Forall is_cont l → ∀ first, multibyte_loop (length l) first ((l ≫= escape_of) ++ rest) = Ok (Some l).
Proof.
  induction 1 as [|c l Hc _ IH]; intros first; [done|]. destruct (cont_byte c Hc) as (H1 & H2 & _ & _ & H3).
  rewrite bind_cons, <- app_assoc. cbn [multibyte_loop length].
  rewrite decode_escape by done. cbn [mbind cres_bind]. rewrite H1, H2, andb_false_r. cbn [negb].
  change (drop 3 (escape_of c ++ ?t)) with t. by rewrite IH.
Qed.
Lemma multibyte_written q rest room : multibyte q → Z.of_nat (length q) < room →
  url_decode_multibyte_utf8 ((q ≫= escape_of) ++ rest) room = Ok q.
Proof.
  intros (b0 & l & -> & (H1 & H2 & _ & _ & H3) & Hl) Hroom. unfold url_decode_multibyte_utf8.
  rewrite bind_cons, <- app_assoc, decode_escape by done. cbn [mbind cres_bind].
  unfold is_nul. rewrite (proj2 (Ascii.eqb_neq _ _) H3), H1, H2. cbn [orb negb].
  destruct (Z.leb_spec (Z.of_nat (length (b0 :: l))) 0); [cbn in *; lia|].
  destruct (Z.leb_spec room (Z.of_nat (length (b0 :: l)))); [lia|]. cbn [orb].
  rewrite Nat2Z.id. cbn [length multibyte_loop]. rewrite decode_escape by done. cbn [mbind cres_bind].
  rewrite (start_is_byte _ H1). cbn [negb andb]. change (drop 3 (escape_of b0 ++ ?t)) with t.
  by rewrite multibyte_decode.
Qed.
(** Printable, unless it is a byte of a longer character. *)
Definition printable (c : ascii) : Prop := 128 ≤ code c ∨ isprint c = true.
Lemma ascii_encoded c : code c < 128 → printable c →
  (url_plain c = true ∧ Ascii.eqb c "%" = false ∧ Ascii.eqb c "+" = false) ∨
  (url_plain c = false ∧ c = " "%char) ∨
  (url_plain c = false ∧ Ascii.eqb c " " = false ∧ IS_UTF8_BYTE c = false ∧ c ≠ NUL ∧ isprint c = true).
Proof.
  intros Hc [H|H]; [lia|]. revert H. clear Hc.
  destruct c as [[] [] [] [] [] [] [] []]; vm_compute; intros H; try discriminate;
    first [by left|right; left; by split|right; right; by split_and!].
Qed.

(** ** Decoding what was encoded *)

Lemma multibyte_encoded q : multibyte q → url_encode q = q ≫= escape_of ∧ ∃ t, q ≫= escape_of = "%"%char :: t.
Proof.
  intros (b0 & l & -> & (_ & _ & H3 & H4 & _) & Hl). split; [|by eexists].
  apply encode_escape. constructor; [done|]. eapply Forall_impl; [exact Hl|]. intros c Hc.
  by destruct (cont_byte c Hc) as (_ & _ & ? & ? & _).
Qed.
Lemma escapes_length q : length (q ≫= escape_of) = (3 * length q)%nat.
Proof. induction q as [|c q IH]; [done|]. rewrite bind_cons, length_app, IH. cbn. lia. Qed.
Lemma encode_app a b : url_encode (a ++ b) = url_encode a ++ url_encode b.
Proof. apply bind_app. Qed.
Lemma decode_encode s : wellformed s → Forall printable s → ∀ fuel out room,
  (length (url_encode s) ≤ fuel)%nat → Z.of_nat (length s) < room →
  url_decode_loop fuel (url_encode s) out room = Ok (true, out ++ s).
Proof.
  induction 1 as [|c s Hc Hwf IH|q s Hq Hwf IH]; intros Hp fuel out room Hf Hroom.
  - rewrite app_nil_r. by destruct fuel.
  - inversion Hp as [|? ? Hpc Hps]; subst. cbn [length] in Hroom.
    assert (Hroom0 : (0 <? room) = true) by (apply Z.ltb_lt; lia).
    unfold url_encode in *. rewrite bind_cons in *. fold (url_encode s) in *. rewrite length_app in Hf.
    replace (out ++ c :: s) with ((out ++ [c]) ++ s) by (by rewrite <- app_assoc).
    unfold url_encode_char in *.
    destruct (ascii_encoded c Hc Hpc) as [(H1 & H2 & H3)|[(H1 & ->)|(H1 & H2 & H3 & H4 & H5)]]; rewrite H1 in *.
    + cbn [app length] in *. destruct fuel as [|fuel]; [lia|]. cbn [url_decode_loop].
      rewrite Hroom0, H2, H3. apply IH; [done|lia|lia].
    + cbn [app length Ascii.eqb Bool.eqb] in *. destruct fuel as [|fuel]; [cbn in Hf; lia|]. cbn [url_decode_loop].
      rewrite Hroom0. cbn [negb Ascii.eqb Bool.eqb]. apply IH; [done|cbn in Hf; lia|lia].
    + rewrite H2 in *. fold (escape_of c) in *. destruct fuel as [|fuel]; [cbn in Hf; lia|].
      pose proof (decode_escape c (url_encode s) H4) as Hd.
      cbn [escape_of app] in Hd |- *. cbn [url_decode_loop]. rewrite Hroom0, Hd.
      cbn [negb Ascii.eqb Bool.eqb mbind cres_bind]. rewrite H3. unfold is_nul.
      rewrite (proj2 (Ascii.eqb_neq _ _) H4), H5. cbn [negb andb drop]. apply IH; [done|cbn in Hf; lia|lia].
  - apply Forall_app in Hp as [_ Hps]. rewrite length_app in Hroom.
    assert (Hroom0 : (0 <? room) = true) by (apply Z.ltb_lt; lia).
    destruct (multibyte_encoded q Hq) as [Eq [t Et]]. rewrite encode_app, Eq in *. rewrite length_app in Hf.
    pose proof (multibyte_written q (url_encode s) room Hq ltac:(lia)) as Hw.
    destruct Hq as (b0 & l & -> & (H1 & _ & _ & _ & H4) & _).
    assert (Hd : url_percent_escape_decode (((b0 :: l) ≫= escape_of) ++ url_encode s) = Ok b0).
    { rewrite bind_cons, <- app_assoc. by apply decode_escape. }
    rewrite escapes_length in Hf. destruct fuel as [|fuel]; [cbn in Hf; lia|].
    assert (Hdrop : drop (3 * length (b0 :: l)) (((b0 :: l) ≫= escape_of) ++ url_encode s) = url_encode s).
    { by rewrite drop_app_length' by (by rewrite escapes_length). }
    rewrite Et in *. cbn [app] in Hd, Hw, Hdrop |- *. cbn [url_decode_loop]. rewrite Hroom0, Hd.
    cbn [negb Ascii.eqb Bool.eqb mbind cres_bind]. rewrite (start_is_byte _ H1), Hw. cbn [mbind cres_bind].
    rewrite Hdrop. replace (out ++ b0 :: l ++ s) with ((out ++ b0 :: l) ++ s) by (by rewrite <- app_assoc). apply IH; [done|cbn in Hf; lia|lia].
Qed.

(** C23. Decoding what [url_encode()] made of a text gives the text back: every
    valid UTF-8 text without control characters, into a place with two bytes
    more than the text. *)
Theorem url_round_trip s size : utf8_check s = None → Forall printable s →
  Z.of_nat (length s) + 1 < size → url_decode_r (url_encode s) size = Ok (true, s).
Proof.
  intros Hu Hp Hsize. unfold url_decode_r.
  rewrite (decode_encode s (check_wellformed _ _ Hu) Hp) by lia. cbn [mbind cres_bind fst snd app]. by rewrite Hu.
Qed.
Lemma url_round_trip_witness : url_decode_r (url_encode ["a"; " "; "/"; "195"; "169"]%char) 10 =
  Ok (true, ["a"; " "; "/"; "195"; "169"]%char).
Proof.
  apply url_round_trip; [reflexivity| |cbn; lia].
  repeat (apply Forall_cons; split; [first [right; reflexivity|left; vm_compute; discriminate]|]). constructor.
Defined.

(** ** What decoding can give *)

Definition control (c : ascii) : bool := (code c <? 32) || (code c =? 127).
Lemma byte_not_control c : IS_UTF8_BYTE c = true → control c = false.
Proof. destruct c as [[] [] [] [] [] [] [] []]; vm_compute; congruence. Qed.
Lemma print_not_control c : isprint c = true → control c = false.
Proof. destruct c as [[] [] [] [] [] [] [] []]; vm_compute; congruence. Qed.
Lemma multibyte_loop_bytes n : ∀ first s l, multibyte_loop n first s = Ok (Some l) →
  length l = n ∧ Forall (λ c, IS_UTF8_BYTE c = true) l.
Proof.
  induction n as [|n IH]; intros first s l; cbn [multibyte_loop]; [intros [= <-]; by split|].
  intros (c & _ & H)%cres_bind_Ok. destruct (IS_UTF8_BYTE c) eqn:E; [|done]. cbn [negb] in H.
  destruct (negb first && IS_UTF8_STARTBYTE c); [done|].
  apply cres_bind_Ok in H as ([l'|] & H & [= <-]). destruct (IH _ _ _ H) as [<- Hl].
  split; [done|]. by constructor.
Qed.
Lemma written_bytes s room l : url_decode_multibyte_utf8 s room = Ok l → l ≠ [] →
  Z.of_nat (length l) < room ∧ Forall (λ c, IS_UTF8_BYTE c = true) l.
Proof.
  unfold url_decode_multibyte_utf8. intros (c & _ & H)%cres_bind_Ok Hne.
  destruct (is_nul c || negb (IS_UTF8_STARTBYTE c)); [congruence|].
  destruct (Z.leb_spec (url_utf8_get_byte_length c) 0); [cbn in H; congruence|].
  destruct (Z.leb_spec room (url_utf8_get_byte_length c)); [cbn in H; congruence|]. cbn [orb] in H.
  apply cres_bind_Ok in H as ([l'|] & H & [= <-]); [|done].
  destruct (multibyte_loop_bytes _ _ _ _ H) as [Hl Hb]. cbn. split; [lia|done].
Qed.
Definition decoded_ok (s out : bytes) : Prop :=
  Forall (λ c, control c = false) s → Forall (λ c, control c = false) out.
Lemma decode_loop_spec fuel : ∀ s out room ok to, 0 ≤ room → url_decode_loop fuel s out room = Ok (ok, to) →
  ∃ more, to = out ++ more ∧ Z.of_nat (length more) ≤ room ∧ decoded_ok s more.
Proof.
  assert (Hnil : ∀ s (out : bytes) room, 0 ≤ room → ∃ more, out = out ++ more ∧
    Z.of_nat (length more) ≤ room ∧ decoded_ok s more).
  { intros s out room Hr. exists []. rewrite app_nil_r. split; [done|]. split; [done|]. intros _. constructor. }
  assert (Hstep : ∀ s s' (out more : bytes) l room, (Forall (λ c, control c = false) s → Forall (λ c, control c = false) l ∧
      Forall (λ c, control c = false) s') → Z.of_nat (length more) ≤ room - Z.of_nat (length l) → decoded_ok s' more →
    ∃ more', (out ++ l) ++ more = out ++ more' ∧ Z.of_nat (length more') ≤ room ∧ decoded_ok s more').
  { intros s s' out more l room Hl Hm Hd. exists (l ++ more). rewrite <- app_assoc, length_app. split; [done|].
    split; [lia|]. intros Hs. apply Hl in Hs as [Hs1 Hs2]. apply Forall_app. split; [done|by apply Hd]. }
  induction fuel as [|fuel IH]; intros [|c s] out room ok to Hr; cbn [url_decode_loop];
    [intros [= <- <-]; by apply Hnil|done|intros [= <- <-]; by apply Hnil|].
  destruct (Z.ltb_spec 0 room) as [Hroom|]; cbn [negb]; [|intros [= <- <-]; by apply Hnil].
  destruct (Ascii.eqb c "%").
  - intros (t & _ & H)%cres_bind_Ok. destruct (IS_UTF8_BYTE t) eqn:Et.
    + apply cres_bind_Ok in H as (l & Hl & H). destruct l as [|b l]; [injection H as <- <-; by apply Hnil|].
      destruct (written_bytes _ _ _ Hl) as [Hlen Hb]; [done|].
      apply IH in H as (more & -> & Hm & Hd); [|lia].
      eapply Hstep; [|exact Hm|exact Hd]. intros Hs. split; [|by apply Forall_drop].
      eapply Forall_impl; [exact Hb|]. apply byte_not_control.
    + destruct (negb (is_nul t) && isprint t) eqn:Ep; [|injection H as <- <-; by apply Hnil].
      apply andb_true_iff in Ep as [_ Ep]. apply IH in H as (more & -> & Hm & Hd); [|lia].
      eapply Hstep; [|exact Hm|exact Hd]. intros Hs. split; [|by apply Forall_drop].
      constructor; [by apply print_not_control|constructor].
  - assert (Hone : ∀ x, (control c = false → control x = false) → url_decode_loop fuel s (out ++ [x]) (room - 1) = Ok (ok, to) →
      ∃ more, to = out ++ more ∧ Z.of_nat (length more) ≤ room ∧ decoded_ok (c :: s) more).
    { intros x Hx H. apply IH in H as (more & -> & Hm & Hd); [|lia].
      eapply Hstep; [|exact Hm|exact Hd]. intros Hs. inversion Hs; subst. split; [|done]. repeat constructor. auto. }
    destruct (Ascii.eqb c "+"); apply Hone; done.
Qed.

(** C24. Whatever is decoded, the text written and its terminator fit the
    place; a text that is accepted is valid UTF-8, and no escape puts a control
    character into it: without one in the request there is none in the result. *)
Theorem url_decode_safe url size ok to : 1 ≤ size → url_decode_r url size = Ok (ok, to) →
  Z.of_nat (length to) + 1 ≤ size ∧
  (Forall (λ c, control c = false) url → Forall (λ c, control c = false) to) ∧
  (ok = true → utf8_check to = None).
Proof.
  intros Hs (r & Hr & [= <- <-])%cres_bind_Ok. destruct r as [b t].
  apply decode_loop_spec in Hr as (more & Et & Hl & Hd); [|lia]. cbn in *. subst t.
  split; [lia|]. split; [exact Hd|]. intros [_ H]%andb_true_iff. by destruct (utf8_check_loop _ _).
Qed.
Lemma url_decode_safe_witness :
  Z.of_nat (length ["a"; "/"]%char) + 1 ≤ 3 ∧
  (Forall (λ c, control c = false) ["a"; "%"; "2"; "f"; "b"]%char → Forall (λ c, control c = false) ["a"; "/"]%char) ∧
  (true = true → utf8_check ["a"; "/"]%char = None).
Proof. apply (url_decode_safe ["a"; "%"; "2"; "f"; "b"]%char 3); [lia|reflexivity]. Defined.

(** ** Reading behind the end *)

Lemma plain_decoded p rest : Forall (λ c, url_plain c = true) p → ∀ fuel out room,
  (length p ≤ fuel)%nat → Z.of_nat (length p) < room →
  url_decode_loop fuel (p ++ rest) out room =
  url_decode_loop (fuel - length p) rest (out ++ p) (room - Z.of_nat (length p)).
Proof.
  induction 1 as [|c p Hc _ IH]; intros fuel out room Hf Hroom.
  { cbn [app length]. by rewrite app_nil_r, Nat.sub_0_r, Z.sub_0_r. }
  destruct fuel as [|fuel]; [cbn in Hf; lia|]. cbn [app url_decode_loop length] in *.
  assert ((0 <? room) = true) as -> by (apply Z.ltb_lt; lia). cbn [negb].
  assert (Ascii.eqb c "%" = false ∧ Ascii.eqb c "+" = false) as [-> ->].
  { clear -Hc. revert Hc. by destruct c as [[] [] [] [] [] [] [] []]. }
  rewrite IH by lia. rewrite <- app_assoc. cbn [app Nat.sub]. f_equal. lia.
Qed.
(** A request that ends in the escape of a first byte of a character makes
    the decoder read behind the terminator of the text: the second byte is looked
    for without checking that there is one. *)
Theorem url_decode_reads_past_the_end p size : Forall (λ c, url_plain c = true) p →
  Z.of_nat (length p) + 3 < size → url_decode_r (p ++ ["%"; "C"; "3"]%char) size = UB UB_oob.
Proof.
  intros Hp Hsize. unfold url_decode_r. rewrite plain_decoded by (done || rewrite ?length_app; lia).
  rewrite length_app. cbn [length]. replace (length p + 3 - length p)%nat with 3%nat by lia.
  cbn [url_decode_loop]. destruct (Z.ltb_spec 0 (size - 1 - Z.of_nat (length p))); [|lia].
  cbn [negb Ascii.eqb Bool.eqb]. unfold url_decode_multibyte_utf8.
  change (url_percent_escape_decode ["%"; "C"; "3"]%char) with (@Ok ascii "195"%char). cbn [mbind cres_bind].
  change (IS_UTF8_BYTE "195"%char) with true. cbn [negb]. change (is_nul "195"%char || negb (IS_UTF8_STARTBYTE "195"%char)) with false.
  change (url_utf8_get_byte_length "195"%char) with 2. cbn [orb Z.leb Z.compare].
  destruct (Z.leb_spec (size - 1 - Z.of_nat (length p)) 2); [lia|]. reflexivity.
Qed.
Lemma url_decode_reads_past_the_end_witness : url_decode_r ["a"; "%"; "C"; "3"]%char 100 = UB UB_oob.
Proof. apply (url_decode_reads_past_the_end ["a"%char]); [repeat constructor|cbn; lia]. Defined.

(** " HTTP/" is nowhere in the text. *)
Definition no_protocol (s : bytes) : Prop := ∀ a t, s = a ++ t → starts_with HTTP_SLASH t = false.
Lemma no_protocol_tail a s : no_protocol (a ++ s) → no_protocol s.
Proof. intros H b t ->. apply (H (a ++ b)). by rewrite app_assoc. Qed.
Lemma skip_to_space_spec s : ∃ a, s = a ++ skip_to_space s ∧ Forall (λ c, Ascii.eqb c " " = false) a ∧
  (skip_to_space s = [] ∨ ∃ t, skip_to_space s = " "%char :: t).
Proof.
  induction s as [|c s IH]; [exists []; split; [done|]; split; [constructor|by left]|]. cbn [skip_to_space].
  destruct (Ascii.eqb_spec c " ") as [->|Hc].
  - exists []. split; [done|]. split; [constructor|right; by eexists].
  - destruct IH as (a & E & Ha & H). exists (c :: a). split; [cbn; by rewrite <- E|].
    split; [constructor; [by apply Ascii.eqb_neq|done]|done].
Qed.
(** Without " HTTP/" in a request that does not end in a space,
    [url_find_protocol()] reads behind the terminator: at the end of the text it
    steps over the terminator and goes on. *)
Theorem find_protocol_reads_past_the_end s c : no_protocol (s ++ [c]) → c ≠ " "%char →
  url_find_protocol (s ++ [c]) = UB UB_oob.
Proof.
  intros Hno Hc. unfold url_find_protocol. generalize (le_n (S (length (s ++ [c])))).
  generalize (S (length (s ++ [c]))) at 2 3 as fuel. intros fuel. revert s Hno.
  induction fuel as [|fuel IH]; intros s Hno Hf; [lia|].
  cbn [find_protocol_loop]. destruct (skip_to_space_spec (s ++ [c])) as (a & E & Ha & [E'|[t E']]).
  - rewrite E'. destruct (s ++ [c]) eqn:Es; [by destruct s|]. by destruct fuel.
  - rewrite E'. rewrite E' in E. destruct (s ++ [c]) eqn:Es; [by destruct s|]. rewrite <- Es in *.
    rewrite (Hno a (" "%char :: t) E).
    destruct t as [|y t] using rev_ind.
    { apply app_inj_tail in E as [_ ->]. done. }
    change (a ++ " "%char :: t ++ [y]) with (a ++ (" "%char :: t) ++ [y]) in E. rewrite app_assoc in E.
    apply app_inj_tail in E as [-> ->]. apply IH.
    + apply (no_protocol_tail (a ++ [" "%char])). by rewrite <- !app_assoc in Hno |- *.
    + rewrite !length_app in *. cbn [length] in *. lia.
Qed.
Lemma find_protocol_reads_past_the_end_witness : url_find_protocol ["G"; "E"; "T"]%char = UB UB_oob.
Proof.
  apply (find_protocol_reads_past_the_end ["G"; "E"]%char "T"); [|done].
  intros a t E. destruct a as [|? [|? [|? [|]]]]; simplify_eq/=; done.
Defined.

(** ** Payloads *)

Lemma same_exact b w : same_text true b w → b = w.
Proof. induction 1 as [|x y b w H _ IH]; [done|]. apply Ascii.eqb_eq in H as ->. by f_equal. Qed.
(** C25. The payload of a request is taken only when all of it is there: it is
    what follows the empty line after the header with the length, and it has
    exactly that length. *)
Theorem request_payload_exact req payload ct : no_zero req →
  url_is_request_complete_and_extract_payload req = (true, Some (payload, ct)) →
  ∃ before name value after, req = before ++ name ++ value ++ CRLF2 ++ payload ∧
    same_text false name (chars_of "Content-Length: ") ∧
    after = value ++ CRLF2 ++ payload ∧ str2ul (string_of after) = Z.of_nat (length payload).
Proof.
  intros Hz. unfold url_is_request_complete_and_extract_payload.
  destruct (length req <? 4)%nat; [intros [=]|]. destruct (starts_with (chars_of "GET ") req); [intros [=]|].
  destruct (starts_with (chars_of "POST ") req || starts_with (chars_of "PUT ") req); [|intros [=]].
  destruct (sp_strstr req (chars_of "Content-Length: ") false) as [[before cl]|] eqn:E1; [|intros [=]].
  apply strstr_found in E1 as (-> & name & rest & -> & Hname); [|done|repeat constructor; discriminate].
  apply Forall_app in Hz as [_ [_ Hz]%Forall_app]. rewrite drop_app_length' by (by apply Forall2_length in Hname).
  destruct (sp_strstr rest CRLF2 true) as [[value t]|] eqn:E2; [|intros [=]].
  apply strstr_found in E2 as (-> & crlf & body & -> & ->%same_exact); [|done|repeat constructor; discriminate].
  change (drop 4 (CRLF2 ++ body)) with body.
  destruct (Z.eqb_spec (Z.of_nat (length body)) (str2ul (string_of (value ++ CRLF2 ++ body)))) as [E|]; [|intros [=]].
  intros [= <- _]. by exists before, name, value, (value ++ CRLF2 ++ body).
Qed.
Definition post_example : bytes :=
  chars_of "POST / HTTP/1.1" ++ ["013"; "010"]%char ++ chars_of "content-length: 2" ++ CRLF2 ++ chars_of "ok".
Lemma request_payload_exact_witness : ∃ before name value after,
  post_example = before ++ name ++ value ++ CRLF2 ++ chars_of "ok" ∧
  same_text false name (chars_of "Content-Length: ") ∧
  after = value ++ CRLF2 ++ chars_of "ok" ∧ str2ul (string_of after) = Z.of_nat (length (chars_of "ok")).
Proof.
  apply (request_payload_exact post_example (chars_of "ok") None); [|vm_compute; reflexivity].
  repeat constructor; discriminate.
Defined.
