(* ===== verification/Uuid.v ===== *)
(** * uuid.c: identifiers as text

    An [nd_uuid_t] is the list of its 16 bytes.  Every printed form of an
    identifier is parsed back, and the parser takes exactly pairs of
    hexadecimal digits with none or four hyphens in front of a pair. *)

From S2P Require Import Prelude CString Inlined SimplePattern Url.
#[local] Open Scope string_scope.
#[local] Open Scope list_scope.
#[local] Open Scope Z_scope.

Abbreviation nd_uuid_t := (list Z).
Definition byte (b : Z) : Prop := 0 ≤ b < 256.
Definition uuid_ok (u : nd_uuid_t) : Prop := length u = 16%nat ∧ Forall byte u.

(** ** Printing *)

Definition hex_at (hex_chars : bytes) (n : Z) : ascii := default NUL (hex_chars !! Z.to_nat (Z.land n 15)).
Definition hex_pair (hex_chars : bytes) (b : Z) : bytes := [hex_at hex_chars (Z.shiftr b 4); hex_at hex_chars b].
Definition hex_lower : bytes := chars_of hex_digits_lower.
Definition hex_upper : bytes := chars_of hex_digits.
Definition uuid_unparse_lower_compact (uuid : nd_uuid_t) : bytes := uuid ≫= hex_pair hex_lower.
(** [i == 4 || i == 6 || i == 8 || i == 10] *)
Definition hyphen_before (i : nat) : bool := (i =? 4)%nat || (i =? 6)%nat || (i =? 8)%nat || (i =? 10)%nat.
Fixpoint unparse_from (i : nat) (uuid : nd_uuid_t) (hex_chars : bytes) : bytes :=
  match uuid with
  | [] => []
  | b :: uuid =>
      (if hyphen_before i then ["-"%char] else []) ++ hex_pair hex_chars b ++ unparse_from (S i) uuid hex_chars
  end.
Definition nd_uuid_unparse_full (uuid : nd_uuid_t) (hex_chars : bytes) : bytes := unparse_from 0 uuid hex_chars.
Definition nd_uuid_unparse_lower (uuid : nd_uuid_t) : bytes := nd_uuid_unparse_full uuid hex_lower.
Definition nd_uuid_unparse_upper (uuid : nd_uuid_t) : bytes := nd_uuid_unparse_full uuid hex_upper.

(** ** Parsing *)

Definition hex_char_to_int (c : ascii) : Z :=
  if (48 <=? code c) && (code c <=? 57) then code c - 48
  else if (97 <=? code c) && (code c <=? 102) then code c - 97 + 10
  else if (65 <=? code c) && (code c <=? 70) then code c - 65 + 10
  else -1.
Definition isxdigit (c : ascii) : bool := isdigit c || ((65 <=? code c) && (code c <=? 70)) || ((97 <=? code c) && (code c <=? 102)).
(** [(high << 4) | low] as an [unsigned char] *)
Definition pair_value (high low : Z) : Z := wrap_u 8 (Z.lor (Z.shiftl high 4) low).

Fixpoint compact_loop (s : bytes) : option nd_uuid_t :=
  match s with
  | h :: l :: s =>
      let high := hex_char_to_int h in
      let low := hex_char_to_int l in
      if (high <? 0) || (low <? 0) then None else cons (pair_value high low) <$> compact_loop s
  | _ => Some []
  end.
Definition uuid_parse_compact (s : bytes) : option nd_uuid_t :=
  if (length s =? 32)%nat then compact_loop s else None.

(** The bytes parsed and the hyphens met, or the code of the error; [todo] is what
    is left of the 16 bytes. *)
Fixpoint flexi_loop (todo : nat) (s : bytes) (hyphens : Z) : Z + nd_uuid_t * Z :=
  match todo, s with
  | O, _ | _, [] => inr ([], hyphens)
  | S todo, c :: s' =>
      let '(s, hyphens) := if Ascii.eqb c "-" then (s', hyphens + 1) else (s, hyphens) in
      if Ascii.eqb c "-" && (4 <? hyphens) then inl (-2)
      else
        match s with
        | h :: s =>
            if isxdigit h then
              match s with
              | l :: s =>
                  if isxdigit l then
                    match flexi_loop todo s hyphens with
                    | inr (u, hyphens) => inr (pair_value (hex_char_to_int h) (hex_char_to_int l) :: u, hyphens)
                    | inl e => inl e
                    end
                  else inl (-3)
              | [] => inl (-3)
              end
            else inl (-4)
        | [] => inl (-4)
        end
  end.
(** The number of digits is twice the number of bytes, so that [-6] is never
    returned. *)
Definition uuid_parse_flexi (s : option bytes) : Z + nd_uuid_t :=
  match s with
  | None | Some [] => inl (-1)
  | Some s =>
      match flexi_loop 16 s 0 with
      | inl e => inl e
      | inr (u, hyphens) =>
          if (length u <? 16)%nat then inl (-5)
          else if negb (hyphens =? 0) && negb (hyphens =? 4) then inl (-7)
          else inr u
      end
  end.

(** ** Other operations *)

(** [XXH3_128bits()] is code of a library; the 16 bytes it gives become a
    version 4 identifier. *)
Definition update_byte (i : nat) (f : Z → Z) (u : list Z) : list Z := alter f i u.
Definition UUID_generate_from_hash (xxh3_128 : bytes → nd_uuid_t) (payload : bytes) : nd_uuid_t :=
  let uuid := xxh3_128 payload in
  let uuid := update_byte 6 (λ b, Z.lor (Z.land b 15) 64) uuid in
  update_byte 8 (λ b, Z.lor (Z.land b 63) 128) uuid.
(** [memcmp()]: the difference of the first bytes that differ. *)
Fixpoint nd_uuid_compare (uu1 uu2 : nd_uuid_t) : Z :=
  match uu1, uu2 with
  | a :: uu1, b :: uu2 => if a =? b then nd_uuid_compare uu1 uu2 else a - b
  | _, _ => 0
  end.
Definition nd_uuid_eq (uu1 uu2 : nd_uuid_t) : bool := nd_uuid_compare uu1 uu2 =? 0.
Definition UUID_ZERO : nd_uuid_t := replicate 16 0.
Definition nd_uuid_is_null (uu : nd_uuid_t) : bool := nd_uuid_compare uu UUID_ZERO =? 0.

(** ** Pairs of digits *)

Definition hex_table (t : bytes) : Prop := t = hex_lower ∨ t = hex_upper.
Lemma nibble_range b : byte b → 0 ≤ Z.land (Z.shiftr b 4) 15 < 16 ∧ 0 ≤ Z.land b 15 < 16.
Proof.
  intros Hb. change 15 with (Z.ones 4). rewrite !Z.land_ones by lia. split; apply Z.mod_pos_bound; lia.
Qed.
Lemma hex_digit_ok t n : hex_table t → 0 ≤ n < 16 →
  isxdigit (default NUL (t !! Z.to_nat n)) = true ∧ hex_char_to_int (default NUL (t !! Z.to_nat n)) = n ∧
  Ascii.eqb (default NUL (t !! Z.to_nat n)) "-" = false.
Proof.
  intros Ht Hn. assert (∃ k, (k < 16)%nat ∧ n = Z.of_nat k) as (k & Hk & ->) by (exists (Z.to_nat n); lia).
  rewrite Nat2Z.id. do 16 (destruct k as [|k]; [by destruct Ht as [-> | ->]|]). lia.
Qed.
Lemma pair_back b : byte b → pair_value (Z.land (Z.shiftr b 4) 15) (Z.land b 15) = b.
Proof.
  unfold byte. intros Hb. unfold pair_value. change 15 with (Z.ones 4).
  rewrite (Z.land_ones (Z.shiftr b 4)), Z.mod_small by (rewrite ?Z.shiftr_div_pow2; lia || (split; [apply Z.div_pos|apply Z.div_lt_upper_bound]; lia)).
  rewrite <- Z.ldiff_ones_r, Z.lor_ldiff_and by lia. apply wrap_u_id. lia.
Qed.
Lemma hex_pair_ok t b : hex_table t → byte b → ∃ h l, hex_pair t b = [h; l] ∧ isxdigit h = true ∧ isxdigit l = true ∧
  pair_value (hex_char_to_int h) (hex_char_to_int l) = b ∧ 0 ≤ hex_char_to_int h ∧ 0 ≤ hex_char_to_int l ∧
  Ascii.eqb h "-" = false.
Proof.
  intros Ht Hb. destruct (nibble_range b Hb) as [R1 R2]. eexists _, _. split; [done|]. unfold hex_at.
  destruct (hex_digit_ok t _ Ht R1) as (A1 & A2 & A3), (hex_digit_ok t _ Ht R2) as (B1 & B2 & _).
  rewrite A1, A2, A3, B1, B2, pair_back by done. split_and!; (done || lia).
Qed.

(** ** Round trips *)

(** A byte with an optional hyphen in front. *)
Definition item_text (t : bytes) (x : bool * Z) : bytes :=
  (if fst x then ["-"%char] else []) ++ hex_pair t (snd x).
Definition hyphens_of (l : list (bool * Z)) : Z := Z.of_nat (length (filter (λ x, fst x = true) l)).
Lemma hyphens_cons x l : hyphens_of (x :: l) = (if fst x then 1 else 0) + hyphens_of l.
Proof.
  unfold hyphens_of. destruct x as [[] b]; [rewrite filter_cons_True by done; cbn; lia|].
  by rewrite filter_cons_False.
Qed.
Lemma flexi_items t rest l : hex_table t → Forall (λ x, byte (snd x)) l → ∀ hyphens, 0 ≤ hyphens →
  hyphens + hyphens_of l ≤ 4 →
  flexi_loop (length l) ((l ≫= item_text t) ++ rest) hyphens = inr (snd <$> l, hyphens + hyphens_of l).
Proof.
  intros Ht. induction 1 as [|[hy b] l Hb _ IH]; intros hyphens Hh Hle.
  { cbn. by rewrite Z.add_0_r. }
  rewrite hyphens_cons in Hle |- *. cbn [fst snd] in *. assert (0 ≤ hyphens_of l) by (unfold hyphens_of; lia).
  destruct (hex_pair_ok t b Ht Hb) as (h & lo & E & Hh1 & Hl1 & Hv & _ & _ & Hd).
  rewrite bind_cons, <- app_assoc. unfold item_text at 1. cbn [fst snd]. rewrite E. cbn [length].
  destruct hy; cbn [app flexi_loop].
  - change (Ascii.eqb "-" "-") with true. cbn [andb].
    destruct (Z.ltb_spec 4 (hyphens + 1)); [lia|]. rewrite Hh1, Hl1, (IH (hyphens + 1)) by lia.
    rewrite Hv. cbn. do 2 f_equal. lia.
  - rewrite Hd. cbn [andb]. rewrite Hh1, Hl1, (IH hyphens) by lia. by rewrite Hv.
Qed.
(** The items of the printed forms. *)
Fixpoint full_items (i : nat) (u : nd_uuid_t) : list (bool * Z) :=
  match u with [] => [] | b :: u => (hyphen_before i, b) :: full_items (S i) u end.
Lemma full_items_text t i u : unparse_from i u t = full_items i u ≫= item_text t.
Proof.
  revert i. induction u as [|b u IH]; intros i; [done|]. cbn [unparse_from full_items].
  rewrite bind_cons, IH. unfold item_text at 2. cbn [fst snd]. by rewrite <- app_assoc.
Qed.
Lemma full_items_snd i u : snd <$> full_items i u = u.
Proof. revert i. induction u as [|b u IH]; intros i; [done|]. cbn. by rewrite IH. Qed.
Lemma full_items_bytes i u : Forall byte u → Forall (λ x, byte (snd x)) (full_items i u).
Proof. intros H. revert i. induction H; intros i; by constructor. Qed.
Lemma full_items_hyphens u : length u = 16%nat → hyphens_of (full_items 0 u) = 4.
Proof.
  intros H. do 16 (destruct u as [|? u]; [discriminate H|]). destruct u; [reflexivity|discriminate H].
Qed.
Lemma items_flexi t l u : hex_table t → l ≠ [] → length l = 16%nat → Forall (λ x, byte (snd x)) l → snd <$> l = u →
  hyphens_of l = 0 ∨ hyphens_of l = 4 → uuid_parse_flexi (Some (l ≫= item_text t)) = inr u.
Proof.
  intros Ht Hne Hlen Hb Hu Hhy. unfold uuid_parse_flexi.
  pose proof (flexi_items t [] l Ht Hb 0 ltac:(lia) ltac:(lia)) as H. rewrite Hlen, app_nil_r, Hu in H.
  destruct (l ≫= item_text t) as [|c s] eqn:E.
  - destruct l as [|[[] b] l]; [done|discriminate E|]. rewrite bind_cons in E. apply app_eq_nil in E as [E _].
    discriminate E.
  - rewrite H. assert (length u = 16%nat) as -> by (by rewrite <- Hu, length_fmap). cbn [Nat.ltb Nat.leb].
    by destruct Hhy as [-> | ->].
Qed.

(** C26. Every printed form of an identifier is parsed back: with hyphens in
    lower and in upper case, and without. *)
Theorem uuid_round_trip u : uuid_ok u →
  uuid_parse_flexi (Some (nd_uuid_unparse_lower u)) = inr u ∧
  uuid_parse_flexi (Some (nd_uuid_unparse_upper u)) = inr u ∧
  uuid_parse_flexi (Some (uuid_unparse_lower_compact u)) = inr u ∧
  uuid_parse_compact (uuid_unparse_lower_compact u) = Some u ∧
  length (nd_uuid_unparse_lower u) = 36%nat ∧ length (uuid_unparse_lower_compact u) = 32%nat.
Proof.
  intros [Hlen Hb]. assert (Hlen' : ∀ i, length (full_items i u) = length u).
  { intros i. by rewrite <- (full_items_snd i u) at 2; rewrite length_fmap. }
  assert (Hfull : ∀ t, hex_table t → uuid_parse_flexi (Some (nd_uuid_unparse_full u t)) = inr u).
  { intros t Ht. unfold nd_uuid_unparse_full. rewrite full_items_text.
    apply items_flexi; [done| |by rewrite Hlen'|by apply full_items_bytes|apply full_items_snd|].
    - by destruct u.
    - right. by apply full_items_hyphens. }
  assert (Hcompact : ∀ t, u ≫= hex_pair t = (pair false <$> u) ≫= item_text t).
  { intros t. clear. induction u as [|b u IH]; [done|]. cbn [fmap list_fmap]. by rewrite !bind_cons, IH. }
  split; [apply Hfull; by left|]. split; [apply Hfull; by right|]. split; [|split].
  - unfold uuid_unparse_lower_compact. rewrite Hcompact. apply items_flexi; [by left|by destruct u|by rewrite length_fmap| | |].
    + by apply Forall_fmap.
    + rewrite <- list_fmap_compose. apply list_fmap_id.
    + left. unfold hyphens_of. clear. induction u as [|b u IH]; [done|]. cbn [fmap list_fmap]. by rewrite filter_cons_False.
  - unfold uuid_parse_compact. assert (Hl : length (uuid_unparse_lower_compact u) = (2 * length u)%nat).
    { clear. unfold uuid_unparse_lower_compact. induction u as [|b u IH]; [done|]. rewrite bind_cons, length_app, IH. cbn. lia. }
    rewrite Hl, Hlen. change ((2 * 16 =? 32)%nat) with true. cbn [andb]. clear -Hb. unfold uuid_unparse_lower_compact.
    induction Hb as [|b u Hb _ IH]; [done|]. rewrite bind_cons.
    destruct (hex_pair_ok hex_lower b (or_introl eq_refl) Hb) as (h & lo & -> & _ & _ & Hv & H1 & H2 & _).
    cbn [app compact_loop]. destruct (Z.ltb_spec (hex_char_to_int h) 0); [lia|].
    destruct (Z.ltb_spec (hex_char_to_int lo) 0); [lia|]. cbn [orb]. by rewrite IH, Hv.
  - clear -Hlen. do 16 (destruct u as [|? u]; [discriminate Hlen|]). by destruct u.
Qed.
Definition uuid_example : nd_uuid_t := [35; 233; 61; 252; 203; 246; 78; 17; 170; 200; 88; 185; 65; 13; 138; 130].
Lemma uuid_round_trip_witness :
  uuid_parse_flexi (Some (nd_uuid_unparse_lower uuid_example)) = inr uuid_example ∧
  uuid_parse_flexi (Some (nd_uuid_unparse_upper uuid_example)) = inr uuid_example ∧
  uuid_parse_flexi (Some (uuid_unparse_lower_compact uuid_example)) = inr uuid_example ∧
  uuid_parse_compact (uuid_unparse_lower_compact uuid_example) = Some uuid_example ∧
  length (nd_uuid_unparse_lower uuid_example) = 36%nat ∧ length (uuid_unparse_lower_compact uuid_example) = 32%nat.
Proof. apply uuid_round_trip. split; [reflexivity|]. repeat constructor; lia. Defined.

(** ** Comparison and generation *)

Lemma compare_eq u1 : ∀ u2, length u1 = length u2 → nd_uuid_eq u1 u2 = true ↔ u1 = u2.
Proof.
  unfold nd_uuid_eq. induction u1 as [|a u1 IH]; intros [|b u2] Hl; try discriminate Hl; [done|]. cbn [nd_uuid_compare].
  destruct (Z.eqb_spec a b) as [->|Hne].
  - rewrite IH by (cbn in Hl; lia). naive_solver.
  - split; [|congruence]. intros H%Z.eqb_eq. lia.
Qed.
(** The identifier of a hash has version 4 and the standard variant; the other
    bits are those of the hash. *)
Lemma generated_version xxh3_128 payload : uuid_ok (xxh3_128 payload) →
  let u := UUID_generate_from_hash xxh3_128 payload in
  uuid_ok u ∧ (∀ i, i ≠ 6%nat → i ≠ 8%nat → u !! i = xxh3_128 payload !! i) ∧
  (∃ b, u !! 6%nat = Some b ∧ Z.shiftr b 4 = 4) ∧ (∃ b, u !! 8%nat = Some b ∧ Z.shiftr b 6 = 2).
Proof.
  intros [Hlen Hb] u. unfold u, UUID_generate_from_hash, update_byte.
  set (h := xxh3_128 payload) in *. clearbody h.
  assert (Hbits : ∀ b, byte b → byte (Z.lor (Z.land b 15) 64) ∧ byte (Z.lor (Z.land b 63) 128) ∧
    Z.shiftr (Z.lor (Z.land b 15) 64) 4 = 4 ∧ Z.shiftr (Z.lor (Z.land b 63) 128) 6 = 2).
  { unfold byte. intros b Hb'. assert (∃ k, (k < 256)%nat ∧ b = Z.of_nat k) as (k & Hk & ->) by (exists (Z.to_nat b); lia).
    clear -Hk. revert k Hk. assert (H : Forall (λ k, 0 ≤ Z.lor (Z.land (Z.of_nat k) 15) 64 < 256 ∧
      0 ≤ Z.lor (Z.land (Z.of_nat k) 63) 128 < 256 ∧ Z.shiftr (Z.lor (Z.land (Z.of_nat k) 15) 64) 4 = 4 ∧
      Z.shiftr (Z.lor (Z.land (Z.of_nat k) 63) 128) 6 = 2) (seq 0 256)).
    { cbn [seq]. repeat (constructor; [vm_compute; split_and!; congruence|]). constructor. }
    intros k Hk. rewrite Forall_forall in H. apply H, elem_of_seq. lia. }
  destruct (lookup_lt_is_Some_2 h 6) as [b6 E6]; [lia|]. destruct (lookup_lt_is_Some_2 h 8) as [b8 E8]; [lia|].
  assert (H6 : byte b6) by (by eapply Forall_lookup_1). assert (H8 : byte b8) by (by eapply Forall_lookup_1).
  split; [split|split; [|split]].
  - by rewrite !length_alter.
  - apply Forall_alter; [apply Forall_alter; [done|]|]; intros x; [intros _ Hx; by apply Hbits|].
    intros _ Hx. by apply Hbits.
  - intros i Hi Hi'. by rewrite !list_lookup_alter_ne.
  - eexists. rewrite list_lookup_alter_ne by done. rewrite list_lookup_alter_eq, E6. split; [done|]. by apply Hbits.
  - eexists. rewrite list_lookup_alter_eq, list_lookup_alter_ne, E8 by done. split; [done|]. by apply Hbits.
Qed.
