(* ===== verification/Avl.v ===== *)
(** * avl.c: balanced trees linked through their items

    The items are caller's memory; the tree is the pointers in them.  The memory is
    a finite map from addresses to nodes; the address of [tree->root], which the
    code casts to a node to use it as the parent of the root, is [Holder]. *)

From S2P Require Import Prelude.
#[local] Open Scope Z_scope.

Abbreviation addr := nat.
Abbreviation ptr := (option nat).
Record avl_t := Avl_t { avl_link0 : ptr; avl_link1 : ptr; avl_balance : Z }.
Record avl_tree_type := Tree { root : ptr; heap : gmap addr avl_t }.
(** A pointer to a node that may also be the address of the root. *)
Inductive parent : Type := Holder | At (a : addr).
#[global] Instance parent_eq_dec : EqDecision parent.
Proof. solve_decision. Defined.

(** [AVL_MAX_HEIGHT] *)
Definition AVL_MAX_HEIGHT : nat := 92.

(** ** Memory *)

(** Direction 0 is [false]. *)
Definition link (d : bool) (n : avl_t) : ptr := if d then avl_link1 n else avl_link0 n.
Definition set_link (d : bool) (p : ptr) (n : avl_t) : avl_t :=
  if d then Avl_t (avl_link0 n) p (avl_balance n) else Avl_t p (avl_link1 n) (avl_balance n).
Definition set_balance (b : Z) (n : avl_t) : avl_t := Avl_t (avl_link0 n) (avl_link1 n) b.

Definition deref (p : ptr) : cst avl_tree_type addr :=
  match p with Some a => mret a | None => cfail UB_null end.
Definition read (a : addr) : cst avl_tree_type avl_t := fun t =>
  match heap t !! a with Some n => Ok (n, t) | None => UB UB_oob end.
Definition write (a : addr) (n : avl_t) : cst avl_tree_type unit :=
  cmodify (λ t, Tree (root t) (<[a := n]> (heap t))).
Definition modify (a : addr) (f : avl_t → avl_t) : cst avl_tree_type unit :=
  n ← read a; write a (f n).
Definition get_link (p : parent) (d : bool) : cst avl_tree_type ptr :=
  match p with
  | Holder => if d then cfail UB_oob else (t ← cget; mret (root t))
  | At a => n ← read a; mret (link d n)
  end.
Definition put_link (p : parent) (d : bool) (q : ptr) : cst avl_tree_type unit :=
  match p with
  | Holder => if d then cfail UB_oob else cmodify (λ t, Tree q (heap t))
  | At a => modify a (set_link d q)
  end.
Definition get_balance (a : addr) : cst avl_tree_type Z := n ← read a; mret (avl_balance n).
Definition put_balance (a : addr) (b : Z) : cst avl_tree_type unit := modify a (set_balance b).

(** The stacks [pa] and [da], the newest first. *)
Abbreviation stack := (list (parent * bool)).

(** The function [compar] of the tree. *)
Section operations.
Context (compar : addr → addr → Z).

(** ** Searching *)

Fixpoint search_loop (fuel : nat) (p : ptr) (item : addr) : cst avl_tree_type ptr :=
  match p with
  | None => mret None
  | Some a =>
      match fuel with
      | O => fun _ => NoFuel
      | S fuel =>
          let cmp := compar item a in
          if cmp <? 0 then q ← get_link (At a) false; search_loop fuel q item
          else if 0 <? cmp then q ← get_link (At a) true; search_loop fuel q item
          else mret (Some a)
      end
  end.
(** The walk down the tree meets a node at most once. *)
Definition avl_search (item : addr) : cst avl_tree_type ptr :=
  t ← cget; search_loop (size (heap t)) (root t) item.

(** ** Rotations *)

Definition sign (d : bool) : Z := if d then 1 else -1.
(** The double rotation of [x], the child of [y] on the side [d]: the code has it
    once for each side, in [avl_insert()] and in [avl_remove()]. *)
Definition rotate_double (y x : addr) (d : bool) : cst avl_tree_type addr :=
  w ← get_link (At x) (negb d); w ← deref w;
  q ← get_link (At w) d; _ ← put_link (At x) (negb d) q;
  _ ← put_link (At w) d (Some x);
  q ← get_link (At w) (negb d); _ ← put_link (At y) d q;
  _ ← put_link (At w) (negb d) (Some y);
  b ← get_balance w;
  _ ← (if b =? sign d then _ ← put_balance x 0; put_balance y (- sign d)
       else if b =? 0 then _ ← put_balance x 0; put_balance y 0
       else _ ← put_balance x (sign d); put_balance y 0);
  _ ← put_balance w 0;
  mret w.
(** [y->avl_link[d] = x->avl_link[!d]; x->avl_link[!d] = y;] *)
Definition rotate_single (y x : addr) (d : bool) : cst avl_tree_type unit :=
  q ← get_link (At x) (negb d); _ ← put_link (At y) d q;
  put_link (At x) (negb d) (Some y).

(** ** Inserting *)

Inductive place : Type :=
| Duplicate (a : addr)
| Place (q : parent) (dir : bool) (z : parent) (y : ptr) (da : list bool).
(** [da[k++] = dir], an array of [AVL_MAX_HEIGHT] elements. *)
Definition push {A} (x : A) (l : list A) : cst avl_tree_type (list A) :=
  if (length l <? AVL_MAX_HEIGHT)%nat then mret (l ++ [x]) else cfail UB_oob.
Fixpoint find_place (fuel : nat) (item : addr) (q : parent) (p : ptr) (dir : bool) (z : parent) (y : ptr)
    (da : list bool) : cst avl_tree_type place :=
  match p with
  | None => mret (Place q dir z y da)
  | Some a =>
      match fuel with
      | O => fun _ => NoFuel
      | S fuel =>
          let cmp := compar item a in
          if cmp =? 0 then mret (Duplicate a)
          else
            b ← get_balance a;
            let '(z, y, da) := if negb (b =? 0) then (q, Some a, []) else (z, y, da) in
            let dir := 0 <? cmp in
            da ← push dir da;
            next ← get_link (At a) dir;
            find_place fuel item (At a) next dir z y da
      end
  end.
(** [for (p = y, k = 0; p != n; p = p->avl_link[da[k]], k++)] *)
Fixpoint adjust (p : ptr) (n : addr) (da : list bool) : cst avl_tree_type unit :=
  if decide (p = Some n) then mret tt
  else
    match da with
    | [] => cfail UB_oob
    | d :: da =>
        a ← deref p;
        b ← get_balance a;
        _ ← put_balance a (b + sign d);
        next ← get_link (At a) d;
        adjust next n da
    end.
(** The rotation at [y] when it is too deep on the side [d]; the new root of the
    subtree. *)
Definition insert_rotate (y : addr) (d : bool) : cst avl_tree_type addr :=
  x ← get_link (At y) d; x ← deref x;
  b ← get_balance x;
  if b =? sign d then
    _ ← rotate_single y x d;
    _ ← put_balance y 0;
    _ ← put_balance x 0;
    mret x
  else rotate_double y x d.
(** [z->avl_link[y != z->avl_link[0]] = w;] *)
Definition relink (z : parent) (y w : addr) : cst avl_tree_type unit :=
  l ← get_link z false;
  put_link z (negb (bool_decide (l = Some y))) (Some w).
Definition avl_insert (item : addr) : cst avl_tree_type addr :=
  t ← cget;
  r ← find_place (size (heap t)) item Holder (root t) false Holder (root t) [];
  match r with
  | Duplicate a => mret a
  | Place q dir z y da =>
      _ ← put_link q dir (Some item);
      _ ← write item (Avl_t None None 0);
      match y with
      | None => mret item
      | Some y =>
          _ ← adjust (Some y) item da;
          b ← get_balance y;
          if b =? -2 then w ← insert_rotate y false; _ ← relink z y w; mret item
          else if b =? 2 then w ← insert_rotate y true; _ ← relink z y w; mret item
          else mret item
      end
  end.

(** ** Removing *)

Definition push_pa (x : parent * bool) (st : stack) : cst avl_tree_type stack :=
  if (length st <? AVL_MAX_HEIGHT)%nat then mret (x :: st) else cfail UB_oob.
Fixpoint find_node (fuel : nat) (item : addr) (p : parent) (cmp : Z) (st : stack) :
    cst avl_tree_type (option (addr * stack)) :=
  match fuel with
  | O => fun _ => NoFuel
  | S fuel =>
      let dir := 0 <? cmp in
      st ← push_pa (p, dir) st;
      q ← get_link p dir;
      match q with
      | None => mret None
      | Some a =>
          let cmp := compar item a in
          if cmp =? 0 then mret (Some (a, st)) else find_node fuel item (At a) cmp st
      end
  end.
(** The node [s] that comes next after [p], its parent [r], and the stack of the
    nodes between them. *)
Fixpoint find_next (fuel : nat) (r : addr) (st : stack) (room : nat) : cst avl_tree_type (addr * addr * stack) :=
  match fuel with
  | O => fun _ => NoFuel
  | S fuel =>
      if (length st + room <? AVL_MAX_HEIGHT)%nat then
        let st := (At r, false) :: st in
        s ← get_link (At r) false; s ← deref s;
        l ← get_link (At s) false;
        match l with
        | None => mret (s, r, st)
        | Some _ => find_next fuel s st room
        end
      else cfail UB_oob
  end.
(** The top of the stack is the parent of the subtree that lost a level. *)
Definition link_top (st : stack) (q : ptr) : cst avl_tree_type unit :=
  match st with
  | (p, d) :: _ => put_link p d q
  | [] => cfail UB_oob
  end.
(** Taking [p] out: the stack of the nodes to look at afterwards. *)
Definition unlink (fuel : nat) (p : addr) (st : stack) : cst avl_tree_type stack :=
  r ← get_link (At p) true;
  match r with
  | None =>
      q ← get_link (At p) false;
      _ ← link_top st q;
      mret st
  | Some r =>
      l ← get_link (At r) false;
      match l with
      | None =>
          q ← get_link (At p) false; _ ← put_link (At r) false q;
          b ← get_balance p; _ ← put_balance r b;
          _ ← link_top st (Some r);
          push_pa (At r, true) st
      | Some _ =>
          '(s, r, between) ← find_next fuel r [] (S (length st));
          q ← get_link (At p) false; _ ← put_link (At s) false q;
          q ← get_link (At s) true; _ ← put_link (At r) false q;
          q ← get_link (At p) true; _ ← put_link (At s) true q;
          b ← get_balance p; _ ← put_balance s b;
          _ ← link_top st (Some s);
          mret (between ++ (At s, true) :: st)
      end
  end.
(** [while (--k > 0)]: the subtree of [y] on the side [d] lost a level. *)
Fixpoint rebalance (st : stack) : cst avl_tree_type unit :=
  match st with
  | (At y, d) :: up =>
      match up with
      | [] => mret tt
      | _ =>
          b ← get_balance y;
          let b := b - sign d in
          _ ← put_balance y b;
          if b =? - sign d then mret tt
          else if b =? -2 * sign d then
            x ← get_link (At y) (negb d); x ← deref x;
            bx ← get_balance x;
            if bx =? sign d then
              w ← rotate_double y x (negb d);
              _ ← link_top up (Some w);
              rebalance up
            else
              _ ← rotate_single y x (negb d);
              _ ← link_top up (Some x);
              if bx =? 0 then
                _ ← put_balance x (sign d);
                put_balance y (- sign d)
              else
                _ ← put_balance y 0;
                _ ← put_balance x 0;
                rebalance up
          else rebalance up
      end
  | _ => mret tt
  end.
Definition avl_remove (item : addr) : cst avl_tree_type ptr :=
  t ← cget;
  r ← find_node (S (size (heap t))) item Holder (-1) [];
  match r with
  | None => mret None
  | Some (p, st) =>
      st ← unlink (size (heap t)) p st;
      _ ← rebalance st;
      mret (Some p)
  end.

End operations.

(** ** Traversing *)

(** [callback] gets the data of the caller and changes it; the tree does not
    change meanwhile. *)
Section traversal.
Context {D : Type} (callback : addr → D → Z * D).
(** [total += ret], of an [int] *)
Definition add_int (total ret : Z) : cres Z := if total + ret <=? 2 ^ 31 - 1 then Ok (total + ret) else UB UB_overflow.
Fixpoint avl_walker (fuel : nat) (t : avl_tree_type) (node : addr) (data : D) : cres (Z * D) :=
  match fuel with
  | O => NoFuel
  | S fuel =>
      match heap t !! node with
      | None => UB UB_oob
      | Some n =>
          '(total, data) ← match avl_link0 n with
                           | Some l => avl_walker fuel t l data
                           | None => Ok (0, data)
                           end;
          if total <? 0 then Ok (total, data)
          else
            let '(ret, data) := callback node data in
            if ret <? 0 then Ok (ret, data)
            else
              total ← add_int total ret;
              match avl_link1 n with
              | Some r =>
                  '(ret, data) ← avl_walker fuel t r data;
                  if (ret : Z) <? 0 then Ok (ret, data) else total ← add_int total ret; Ok (total, data)
              | None => Ok (total, data)
              end
      end
  end.
Definition avl_traverse (t : avl_tree_type) (data : D) : cres (Z * D) :=
  match root t with
  | Some a => avl_walker (size (heap t)) t a data
  | None => Ok (0, data)
  end.
End traversal.
Definition avl_init : avl_tree_type := Tree None ∅.
