(* ===== verification/AvlSpec.v ===== *)
(** * The trees behind avl.c

    The memory of a tree is described by a tree of addresses and balance factors.
    A node on the way from the root to a place is a [frame]: the side where the
    way goes on, and the other subtree.  Here are the layout of such trees in
    memory, their order and balance, and what the rotations do to them. *)

From Stdlib Require Export Sorted.
From S2P Require Import Prelude Avl.
#[local] Open Scope Z_scope.

(** ** Trees *)

Inductive tree : Type := E | T (a : addr) (b : Z) (l r : tree).
Definition ptr_of (t : tree) : ptr := match t with E => None | T a _ _ _ => Some a end.
Fixpoint inorder (t : tree) : list addr :=
  match t with E => [] | T a _ l r => inorder l ++ a :: inorder r end.
Fixpoint height (t : tree) : Z :=
  match t with E => 0 | T _ _ l r => 1 + Z.max (height l) (height r) end.
Definition bal (t : tree) : Z := match t with E => 0 | T _ b _ _ => b end.
Fixpoint balanced (t : tree) : Prop :=
  match t with
  | E => True
  | T _ b l r => b = height r - height l ∧ -1 ≤ b ≤ 1 ∧ balanced l ∧ balanced r
  end.
Fixpoint stored (h : gmap addr avl_t) (t : tree) : Prop :=
  match t with
  | E => True
  | T a b l r => h !! a = Some (Avl_t (ptr_of l) (ptr_of r) b) ∧ stored h l ∧ stored h r
  end.
(** A node with the subtree [t] on the side [d] and [s] on the other one, and its
    contents. *)
Definition node (d : bool) (a : addr) (b : Z) (s t : tree) : tree := if d then T a b s t else T a b t s.
Definition cell (d : bool) (b : Z) (s t : ptr) : avl_t := if d then Avl_t s t b else Avl_t t s b.

Lemma height_nonneg t : 0 ≤ height t.
Proof. induction t; cbn; lia. Qed.
Lemma height_zero t : height t = 0 → t = E.
Proof. destruct t; [done|]. cbn. pose proof (height_nonneg t1). lia. Qed.
Lemma height_node d a b s t : height (node d a b s t) = 1 + Z.max (height s) (height t).
Proof. destruct d; cbn; lia. Qed.
Lemma balanced_node d a b s t : balanced (node d a b s t) ↔
  b = sign d * (height t - height s) ∧ -1 ≤ b ≤ 1 ∧ balanced s ∧ balanced t.
Proof. destruct d; cbn; [|rewrite (and_comm (balanced t))]; split; intros (-> & ?); (split; [lia|done]). Qed.
Lemma stored_node h d a b s t : stored h (node d a b s t) ↔
  h !! a = Some (cell d b (ptr_of s) (ptr_of t)) ∧ stored h s ∧ stored h t.
Proof. destruct d; cbn; [done|]. by rewrite (and_comm (stored h t)). Qed.
Lemma ptr_of_node d a b s t : ptr_of (node d a b s t) = Some a.
Proof. by destruct d. Qed.
Lemma bal_node d a b s t : bal (node d a b s t) = b.
Proof. by destruct d. Qed.
Lemma tree_node d t : t = E ∨ ∃ a b s u, t = node d a b s u.
Proof. destruct t as [|a b l r]; [by left|]. right. destruct d; [by exists a, b, l, r|by exists a, b, r, l]. Qed.
Lemma elem_of_node d x a b s t : x ∈ inorder (node d a b s t) ↔ x = a ∨ x ∈ inorder s ∨ x ∈ inorder t.
Proof. destruct d; cbn; rewrite elem_of_app, elem_of_cons; naive_solver. Qed.
Lemma NoDup_node d a b s t : NoDup (inorder (node d a b s t)) →
  NoDup (inorder s) ∧ NoDup (inorder t) ∧ (a ∉ inorder s) ∧ (a ∉ inorder t) ∧
  (∀ x, x ∈ inorder s → x ∉ inorder t).
Proof.
  destruct d; cbn; intros (H1 & H2 & H3)%NoDup_app; apply NoDup_cons in H3 as [H4 H3];
    (split_and!; [done|done|set_solver|set_solver|set_solver]).
Qed.
Lemma stored_other h h' t : (∀ a, a ∈ inorder t → h' !! a = h !! a) → stored h t → stored h' t.
Proof.
  induction t as [|a b l IHl r IHr]; [done|]. cbn. intros H (H1 & H2 & H3).
  rewrite H by set_solver. split; [done|]. split; [apply IHl|apply IHr]; set_solver.
Qed.
Lemma stored_insert h a n t : a ∉ inorder t → stored h t → stored (<[a := n]> h) t.
Proof. intros Ha. apply stored_other. intros x Hx. apply lookup_insert_ne. set_solver. Qed.

(** *** Cells *)

Lemma link_cell d b s t : link d (cell d b s t) = t.
Proof. by destruct d. Qed.
Lemma link_cell_neg d b s t : link (negb d) (cell d b s t) = s.
Proof. by destruct d. Qed.
Lemma set_link_cell d b s t u : set_link d u (cell d b s t) = cell d b s u.
Proof. by destruct d. Qed.
Lemma set_link_cell_neg d b s t u : set_link (negb d) u (cell d b s t) = cell d b u t.
Proof. by destruct d. Qed.
Lemma balance_cell d b s t : avl_balance (cell d b s t) = b.
Proof. by destruct d. Qed.
Lemma set_balance_cell d b s t b' : set_balance b' (cell d b s t) = cell d b' s t.
Proof. by destruct d. Qed.
Lemma cell_neg d b s t : cell (negb d) b s t = cell d b t s.
Proof. by destruct d. Qed.
Lemma node_neg d a b s t : node (negb d) a b s t = node d a b t s.
Proof. by destruct d. Qed.
Lemma cell_swap (b : Z) (p q : ptr) : Avl_t p q b = cell true b p q.
Proof. done. Qed.
Lemma link_cell_neg' d b s t : link d (cell (negb d) b s t) = s.
Proof. by destruct d. Qed.
Lemma set_link_cell_neg' d b s t u : set_link d u (cell (negb d) b s t) = cell (negb d) b u t.
Proof. by destruct d. Qed.
Create Rewrite HintDb avl.
#[export] Hint Rewrite link_cell link_cell_neg link_cell_neg' set_link_cell set_link_cell_neg set_link_cell_neg'
  balance_cell set_balance_cell ptr_of_node negb_involutive : avl.

(** *** Running the code *)

Lemma run_get_link a d n r h : h !! a = Some n → get_link (At a) d (Tree r h) = Ok (link d n, Tree r h).
Proof. intros H. unfold get_link. rewrite bind_run. unfold read. cbn. by rewrite H. Qed.
Lemma run_put_link a d q n r h : h !! a = Some n →
  put_link (At a) d q (Tree r h) = Ok (tt, Tree r (<[a := set_link d q n]> h)).
Proof. intros H. unfold put_link, modify. rewrite bind_run. unfold read. cbn. by rewrite H. Qed.
Lemma run_get_balance a n r h : h !! a = Some n → get_balance a (Tree r h) = Ok (avl_balance n, Tree r h).
Proof. intros H. unfold get_balance. rewrite bind_run. unfold read. cbn. by rewrite H. Qed.
Lemma run_put_balance a b n r h : h !! a = Some n →
  put_balance a b (Tree r h) = Ok (tt, Tree r (<[a := set_balance b n]> h)).
Proof. intros H. unfold put_balance, modify. rewrite bind_run. unfold read. cbn. by rewrite H. Qed.
Lemma run_deref a st : deref (Some a) st = Ok (a, st).
Proof. done. Qed.

(** One step of a program on a memory whose cells are known. *)
Ltac lookup := repeat first [rewrite lookup_insert_eq; reflexivity
  |rewrite lookup_insert_ne by congruence|eassumption].
Ltac hstep :=
  rewrite bind_run;
  first [erewrite run_get_link by lookup|erewrite run_put_link by lookup
        |erewrite run_get_balance by lookup|erewrite run_put_balance by lookup|rewrite run_deref];
  autorewrite with avl.
Ltac hlast :=
  first [erewrite run_put_link by lookup|erewrite run_put_balance by lookup]; autorewrite with avl.

(** ** Rotations *)

(** Nothing but the cells of [l] differs. *)
Definition changes (l : list addr) (h h' : gmap addr avl_t) : Prop := ∀ a, a ∉ l → h' !! a = h !! a.
Lemma changes_refl l h : changes l h h.
Proof. done. Qed.
Lemma changes_trans l h1 h2 h3 : changes l h1 h2 → changes l h2 h3 → changes l h1 h3.
Proof. intros H1 H2 a Ha. by rewrite H2, H1. Qed.
Lemma changes_mono l l' h h' : changes l h h' → l ⊆ l' → changes l' h h'.
Proof. intros H Hl a Ha. apply H. set_solver. Qed.
Lemma changes_insert l a n h : a ∈ l → changes l h (<[a := n]> h).
Proof. intros Ha x Hx. apply lookup_insert_ne. set_solver. Qed.
Lemma stored_changes l h h' t : changes l h h' → (∀ a, a ∈ inorder t → a ∉ l) → stored h t → stored h' t.
Proof. intros H Hl. apply stored_other. intros a Ha. apply H. by apply Hl. Qed.

Lemma rotate_single_run r h y x e by_ bx s p q : x ≠ y →
  h !! y = Some (cell e by_ s (Some x)) → h !! x = Some (cell e bx p q) →
  ∃ h', rotate_single y x e (Tree r h) = Ok (tt, Tree r h') ∧
    h' !! y = Some (cell e by_ s p) ∧ h' !! x = Some (cell e bx (Some y) q) ∧ changes [x; y] h h'.
Proof.
  intros Hne Hy Hx. eexists. split.
  { unfold rotate_single. do 2 hstep. hlast. reflexivity. }
  split_and!; [lookup|lookup|]. intros a Ha. rewrite !lookup_insert_ne by set_solver. done.
Qed.
(** The balance factors after a double rotation. *)
Definition double_x (e : bool) (bw : Z) : Z := if bw =? sign e then 0 else if bw =? 0 then 0 else sign e.
Definition double_y (e : bool) (bw : Z) : Z := if bw =? sign e then - sign e else 0.
Lemma rotate_double_run r h y x w e by_ bx bw s a wn we : x ≠ y → w ≠ x → w ≠ y →
  h !! y = Some (cell e by_ s (Some x)) → h !! x = Some (cell e bx (Some w) a) → h !! w = Some (cell e bw wn we) →
  ∃ h', rotate_double y x e (Tree r h) = Ok (w, Tree r h') ∧
    h' !! y = Some (cell e (double_y e bw) s wn) ∧ h' !! x = Some (cell e (double_x e bw) we a) ∧
    h' !! w = Some (cell e 0 (Some y) (Some x)) ∧ changes [x; y; w] h h'.
Proof.
  intros N1 N2 N3 Hy Hx Hw. unfold rotate_double, double_x, double_y. do 9 hstep.
  destruct (bw =? sign e); [|destruct (bw =? 0)];
    (eexists; split; [rewrite bind_run; hstep; hlast; hstep; reflexivity|];
     split_and!; [lookup|lookup|lookup|]; intros z Hz; rewrite !lookup_insert_ne by set_solver; done).
Qed.

Lemma inorder_single e y x by_ bx by' bx' s p q :
  inorder (node e x bx' (node e y by' s p) q) = inorder (node e y by_ s (node e x bx p q)).
Proof. destruct e; cbn; by rewrite <- !app_assoc. Qed.
Lemma inorder_double e y x w by_ bx bw by' bx' bw' s a wn we :
  inorder (node e w bw' (node e y by' s wn) (node e x bx' we a)) =
  inorder (node e y by_ s (node e x bx (node e w bw wn we) a)).
Proof. destruct e; cbn; rewrite <- !app_assoc; cbn; by rewrite <- ?app_assoc. Qed.

Lemma rotate_single_tree r h e y x by_ bx s p q : let t := node e y by_ s (node e x bx p q) in
  stored h t → NoDup (inorder t) → ∃ h', rotate_single y x e (Tree r h) = Ok (tt, Tree r h') ∧
    stored h' (node e x bx (node e y by_ s p) q) ∧ changes (inorder t) h h'.
Proof.
  intros t Ht Hd. unfold t in *. apply NoDup_node in Hd as (Ds & Dx & Ys & Yx & Sx).
  apply NoDup_node in Dx as (Dp & Dq & Xp & Xq & Pq).
  apply stored_node in Ht as (Hy & Hs & (Hx & Hp & Hq)%stored_node). rewrite ptr_of_node in Hy.
  assert (Hne : x ≠ y) by (intros ->; apply Yx; rewrite elem_of_node; auto).
  destruct (rotate_single_run r h y x e by_ bx _ _ _ Hne Hy Hx) as (h' & K & Hy' & Hx' & Hc).
  exists h'. split; [done|]. assert (∀ u, x ∉ inorder u → y ∉ inorder u → stored h u → stored h' u) as Hother.
  { intros u U1 U2. eapply stored_changes; [exact Hc|]. set_solver. }
  split.
  - rewrite !stored_node, ptr_of_node. split_and!; try done; apply Hother; try done; intros ?;
      first [by eapply Sx; [eassumption|]; rewrite elem_of_node; auto|by apply Yx; rewrite elem_of_node; auto].
  - eapply changes_mono; [exact Hc|]. intros z. rewrite !elem_of_node. set_solver.
Qed.
Lemma rotate_double_tree r h e y x w by_ bx bw s a wn we :
  let t := node e y by_ s (node e x bx (node e w bw wn we) a) in
  stored h t → NoDup (inorder t) → ∃ h', rotate_double y x e (Tree r h) = Ok (w, Tree r h') ∧
    stored h' (node e w 0 (node e y (double_y e bw) s wn) (node e x (double_x e bw) we a)) ∧ changes (inorder t) h h'.
Proof.
  intros t Ht Hd. unfold t in *. apply NoDup_node in Hd as (Ds & Dx & Ys & Yx & Sx).
  apply NoDup_node in Dx as (Dw & Da & Xw & Xa & Wa). apply NoDup_node in Dw as (Dn & De & Wn & We & Ne).
  apply stored_node in Ht as (Hy & Hs & (Hx & (Hw & Hwn & Hwe)%stored_node & Ha)%stored_node).
  rewrite !ptr_of_node in *.
  assert (N1 : x ≠ y) by (intros ->; apply Yx; rewrite !elem_of_node; auto).
  assert (N2 : w ≠ x) by (intros ->; apply Xw; rewrite !elem_of_node; auto).
  assert (N3 : w ≠ y) by (intros ->; apply Yx; rewrite !elem_of_node; auto).
  destruct (rotate_double_run r h y x w e by_ bx bw _ _ _ _ N1 N2 N3 Hy Hx Hw) as (h' & K & Hy' & Hx' & Hw' & Hc).
  exists h'. split; [done|].
  assert (∀ u, x ∉ inorder u → y ∉ inorder u → w ∉ inorder u → stored h u → stored h' u) as Hother.
  { intros u U1 U2 U3. eapply stored_changes; [exact Hc|]. set_solver. }
  split.
  - rewrite !stored_node, !ptr_of_node. split_and!; try done; apply Hother; try done; intros ?;
      first [by eapply Sx; [eassumption|]; rewrite !elem_of_node; auto
            |by apply Yx; rewrite !elem_of_node; auto
            |by apply Xw; rewrite !elem_of_node; auto
            |by eapply Wa; [|eassumption]; rewrite !elem_of_node; auto].
  - eapply changes_mono; [exact Hc|]. intros z. rewrite !elem_of_node. set_solver.
Qed.

(** ** Ways down a tree *)

Record frame := Frame { f_dir : bool; f_addr : addr; f_bal : Z; f_sib : tree }.
Definition fnode (f : frame) (t : tree) : tree := node (f_dir f) (f_addr f) (f_bal f) (f_sib f) t.
(** The tree with [t] at the end of the way. *)
Fixpoint fill (fs : list frame) (t : tree) : tree :=
  match fs with [] => t | f :: fs => fnode f (fill fs t) end.
Fixpoint before (fs : list frame) : list addr :=
  match fs with
  | [] => []
  | f :: fs => if f_dir f then inorder (f_sib f) ++ f_addr f :: before fs else before fs
  end.
Fixpoint after (fs : list frame) : list addr :=
  match fs with
  | [] => []
  | f :: fs => if f_dir f then after fs else after fs ++ f_addr f :: inorder (f_sib f)
  end.
(** The pointer to the tree, when [p] is the pointer at the end of the way. *)
Definition top (fs : list frame) (p : ptr) : ptr := match fs with f :: _ => Some (f_addr f) | [] => p end.
Fixpoint stored_path (h : gmap addr avl_t) (fs : list frame) (p : ptr) : Prop :=
  match fs with
  | [] => True
  | f :: fs => h !! f_addr f = Some (cell (f_dir f) (f_bal f) (ptr_of (f_sib f)) (top fs p)) ∧
      stored h (f_sib f) ∧ stored_path h fs p
  end.
Definition path_addrs (fs : list frame) : list addr := before fs ++ after fs.
(** The node at the end of the way, and the side where the way leaves it. *)
Definition parent_of (fs : list frame) : parent :=
  match last fs with Some f => At (f_addr f) | None => Holder end.
Definition dir_of (fs : list frame) : bool := match last fs with Some f => f_dir f | None => false end.
Definition dirs (fs : list frame) : list bool := f_dir <$> fs.

Lemma fill_app fs1 fs2 t : fill (fs1 ++ fs2) t = fill fs1 (fill fs2 t).
Proof. induction fs1 as [|f fs1 IH]; [done|]. cbn. by rewrite IH. Qed.
Lemma ptr_of_fill fs t : ptr_of (fill fs t) = top fs (ptr_of t).
Proof. destruct fs as [|f fs]; [done|]. apply ptr_of_node. Qed.
Lemma top_app fs1 fs2 p : top (fs1 ++ fs2) p = top fs1 (top fs2 p).
Proof. by destruct fs1. Qed.
Lemma inorder_fill fs t : inorder (fill fs t) = before fs ++ inorder t ++ after fs.
Proof.
  induction fs as [|[d a b s] fs IH]; cbn; [by rewrite app_nil_r|]. unfold fnode. destruct d; cbn; rewrite IH.
  - by rewrite <- app_assoc.
  - by rewrite <- !app_assoc.
Qed.
Lemma stored_fill h fs t : stored h (fill fs t) ↔ stored_path h fs (ptr_of t) ∧ stored h t.
Proof.
  induction fs as [|f fs IH]; cbn [fill stored_path]; [naive_solver|].
  unfold fnode. rewrite stored_node, ptr_of_fill, IH. naive_solver.
Qed.
Lemma stored_path_app h fs1 fs2 p : stored_path h (fs1 ++ fs2) p ↔ stored_path h fs1 (top fs2 p) ∧ stored_path h fs2 p.
Proof.
  induction fs1 as [|f fs1 IH]; cbn [app stored_path]; [naive_solver|]. rewrite top_app, IH. naive_solver.
Qed.
Lemma path_addrs_cons f fs x : x ∈ path_addrs (f :: fs) ↔ x = f_addr f ∨ x ∈ inorder (f_sib f) ∨ x ∈ path_addrs fs.
Proof.
  unfold path_addrs. cbn. destruct (f_dir f); rewrite !elem_of_app, elem_of_cons; naive_solver.
Qed.
Lemma path_addrs_app fs1 fs2 x : x ∈ path_addrs (fs1 ++ fs2) ↔ x ∈ path_addrs fs1 ∨ x ∈ path_addrs fs2.
Proof. induction fs1 as [|f fs1 IH]; cbn [app]; [set_solver|]. rewrite !path_addrs_cons, IH. naive_solver. Qed.
Lemma stored_path_other h h' fs p : (∀ a, a ∈ path_addrs fs → h' !! a = h !! a) → stored_path h fs p → stored_path h' fs p.
Proof.
  induction fs as [|f fs IH]; cbn [stored_path]; [done|]. intros H (H1 & H2 & H3).
  rewrite H by (rewrite path_addrs_cons; auto). split; [done|]. split.
  - eapply stored_other; [|done]. intros a Ha. apply H. rewrite path_addrs_cons. auto.
  - apply IH; [|done]. intros a Ha. apply H. rewrite path_addrs_cons. auto.
Qed.
Lemma stored_path_changes l h h' fs p : changes l h h' → (∀ a, a ∈ path_addrs fs → a ∉ l) →
  stored_path h fs p → stored_path h' fs p.
Proof. intros H Hl. apply stored_path_other. intros a Ha. apply H. by apply Hl. Qed.
(** The addresses of a whole tree are distinct: what is on the way is not below
    its end. *)
Lemma NoDup_fill fs t : NoDup (inorder (fill fs t)) → NoDup (path_addrs fs) ∧ NoDup (inorder t) ∧
  ∀ a, a ∈ path_addrs fs → a ∉ inorder t.
Proof.
  rewrite inorder_fill. intros (H1 & H2 & (H3 & H4 & H5)%NoDup_app)%NoDup_app. split; [|split; [done|]].
  - apply NoDup_app. split; [done|]. split; [set_solver|done].
  - unfold path_addrs. set_solver.
Qed.
Lemma NoDup_path_cons f fs : NoDup (path_addrs (f :: fs)) →
  (f_addr f ∉ inorder (f_sib f)) ∧ (f_addr f ∉ path_addrs fs) ∧ NoDup (path_addrs fs) ∧
  (∀ a, a ∈ inorder (f_sib f) → a ∉ path_addrs fs).
Proof.
  unfold path_addrs. cbn. destruct (f_dir f).
  - rewrite <- app_assoc. cbn. intros (H1 & H2 & [H3 H4]%NoDup_cons)%NoDup_app.
    split; [set_solver|]. split; [done|]. split; [done|set_solver].
  - rewrite app_assoc. intros (H1 & H2 & [H3 H4]%NoDup_cons)%NoDup_app.
    split; [done|]. split; [set_solver|]. split; [done|set_solver].
Qed.

(** The state holds the way [fs], with [p] at its end. *)
Definition holds_path (st : avl_tree_type) (fs : list frame) (p : ptr) : Prop :=
  root st = top fs p ∧ stored_path (heap st) fs p.
Definition holds (st : avl_tree_type) (t : tree) : Prop := root st = ptr_of t ∧ stored (heap st) t.
Lemma holds_fill st fs t : holds st (fill fs t) ↔ holds_path st fs (ptr_of t) ∧ stored (heap st) t.
Proof. unfold holds, holds_path. rewrite ptr_of_fill, stored_fill. naive_solver. Qed.

Lemma parent_snoc fs f : parent_of (fs ++ [f]) = At (f_addr f) ∧ dir_of (fs ++ [f]) = f_dir f.
Proof. unfold parent_of, dir_of. by rewrite last_snoc. Qed.
(** The pointer at the end of a way can be read, and changed. *)
Lemma get_hole st fs p : holds_path st fs p → get_link (parent_of fs) (dir_of fs) st = Ok (p, st).
Proof.
  destruct fs as [|f fs _] using rev_ind; intros [Hr Hs].
  - cbn in *. by rewrite <- Hr.
  - destruct (parent_snoc fs f) as [-> ->]. apply stored_path_app in Hs as [_ (Hf & _ & _)].
    destruct st as [r h]. by rewrite (run_get_link _ _ _ _ _ Hf), link_cell.
Qed.
Lemma stored_path_put h fs f p q : stored_path h (fs ++ [f]) p → NoDup (path_addrs (fs ++ [f])) →
  stored_path (<[f_addr f := cell (f_dir f) (f_bal f) (ptr_of (f_sib f)) q]> h) (fs ++ [f]) q.
Proof.
  intros Hs Hd. apply stored_path_app in Hs as [Hs (Hf & Hsib & _)].
  assert (Hdis : (f_addr f ∉ path_addrs fs) ∧ (f_addr f ∉ inorder (f_sib f))).
  { clear -Hd. induction fs as [|g fs IH]; [apply NoDup_path_cons in Hd as (H & _ & _ & _); split; [set_solver|done]|].
    apply NoDup_path_cons in Hd as (_ & H1 & H2 & H3). destruct (IH H2) as [IH1 IH2]. split; [|done].
    rewrite path_addrs_cons. assert (f_addr f ∈ path_addrs (fs ++ [f])) as Hin.
    { rewrite path_addrs_app, path_addrs_cons. auto. }
    intros [Eq|[H|H]]; [apply H1; by rewrite <- Eq|by eapply H3|done]. }
  destruct Hdis as [D1 D2]. apply stored_path_app. split; [|split; [|split; [|done]]].
  - eapply stored_path_other; [|exact Hs]. intros a Ha. cbn. apply lookup_insert_ne. set_solver.
  - by rewrite lookup_insert_eq.
  - by apply stored_insert.
Qed.
Lemma put_hole st fs p q : holds_path st fs p → NoDup (path_addrs fs) → ∃ st',
  put_link (parent_of fs) (dir_of fs) q st = Ok (tt, st') ∧ holds_path st' fs q ∧
  changes (path_addrs fs) (heap st) (heap st').
Proof.
  destruct fs as [|f fs _] using rev_ind; intros [Hr Hs] Hd.
  - eexists. split; [done|]. split; [by split|]. apply changes_refl.
  - destruct (parent_snoc fs f) as [-> ->]. pose proof Hs as [_ (Hf & _ & _)]%stored_path_app.
    destruct st as [r h]. eexists. split; [by apply run_put_link|]. cbn [heap root] in *. rewrite set_link_cell.
    split; [split|].
    + by rewrite top_app in *.
    + by eapply stored_path_put.
    + apply changes_insert. rewrite path_addrs_app, path_addrs_cons. auto.
Qed.

(** ** Balance along a way *)

Fixpoint ctx_height (fs : list frame) (k : Z) : Z :=
  match fs with [] => k | f :: fs => 1 + Z.max (height (f_sib f)) (ctx_height fs k) end.
(** The nodes on the way are balanced if the tree at its end has height [k]. *)
Fixpoint ctx_ok (fs : list frame) (k : Z) : Prop :=
  match fs with
  | [] => True
  | f :: fs => f_bal f = sign (f_dir f) * (ctx_height fs k - height (f_sib f)) ∧ -1 ≤ f_bal f ≤ 1 ∧
      balanced (f_sib f) ∧ ctx_ok fs k
  end.
Lemma height_fill fs t : height (fill fs t) = ctx_height fs (height t).
Proof. induction fs as [|f fs IH]; [done|]. cbn [fill ctx_height]. unfold fnode. by rewrite height_node, IH. Qed.
Lemma balanced_fill fs t : balanced (fill fs t) ↔ ctx_ok fs (height t) ∧ balanced t.
Proof.
  induction fs as [|f fs IH]; cbn [fill ctx_ok]; [naive_solver|].
  unfold fnode. rewrite balanced_node, height_fill, IH. naive_solver.
Qed.
Lemma ctx_height_app fs1 fs2 k : ctx_height (fs1 ++ fs2) k = ctx_height fs1 (ctx_height fs2 k).
Proof. induction fs1 as [|f fs1 IH]; [done|]. cbn. by rewrite IH. Qed.
Lemma ctx_ok_app fs1 fs2 k : ctx_ok (fs1 ++ fs2) k ↔ ctx_ok fs1 (ctx_height fs2 k) ∧ ctx_ok fs2 k.
Proof.
  induction fs1 as [|f fs1 IH]; cbn [app ctx_ok]; [naive_solver|]. rewrite ctx_height_app, IH. naive_solver.
Qed.
Lemma ctx_height_length fs k : 0 ≤ k → Z.of_nat (length fs) + k ≤ ctx_height fs k.
Proof. intros Hk. induction fs as [|f fs IH]; cbn [length ctx_height]; lia. Qed.

(** *** Heights *)

(** The number of nodes a balanced tree of height [h] has at least. *)
Fixpoint min_nodes (h : nat) : Z * Z :=
  match h with
  | O => (0, 1)
  | S h => let '(a, b) := min_nodes h in (b, a + b + 1)
  end.
Definition nodes (t : tree) : Z := Z.of_nat (length (inorder t)).
Lemma min_nodes_grows h : 0 ≤ fst (min_nodes h) ≤ snd (min_nodes h).
Proof. induction h as [|h IH]; cbn; [lia|]. destruct (min_nodes h). cbn in *. lia. Qed.
Lemma min_nodes_step h : fst (min_nodes (S (S h))) = fst (min_nodes h) + fst (min_nodes (S h)) + 1.
Proof. cbn. destruct (min_nodes h). cbn. lia. Qed.
Lemma min_nodes_next h : fst (min_nodes (S h)) = snd (min_nodes h).
Proof. cbn. by destruct (min_nodes h). Qed.
Lemma balanced_nodes t : balanced t → fst (min_nodes (Z.to_nat (height t))) ≤ nodes t.
Proof.
  induction t as [|a b l IHl r IHr]; [done|]. intros (Hb & Hr & Hl & Hr').
  specialize (IHl Hl). specialize (IHr Hr'). unfold nodes in *. cbn [inorder]. rewrite length_app. cbn [length].
  pose proof (height_nonneg l). pose proof (height_nonneg r).
  assert (Hge : ∃ h, Z.to_nat (height (T a b l r)) = S h ∧
    (Z.to_nat (height l) = h ∨ Z.to_nat (height r) = h) ∧
    (h ≤ S (Z.to_nat (height l)))%nat ∧ (h ≤ S (Z.to_nat (height r)))%nat).
  { exists (Z.to_nat (Z.max (height l) (height r))). cbn [height]. split; [lia|]. split; [lia|]. lia. }
  assert (Hmono : ∀ k h, (h ≤ S k)%nat → fst (min_nodes (pred h)) ≤ fst (min_nodes k)).
  { assert (Hm : ∀ k h, (h ≤ k)%nat → fst (min_nodes h) ≤ fst (min_nodes k)).
    { intros k h Hle. induction Hle as [|k _ IH]; [done|]. rewrite min_nodes_next.
      pose proof (min_nodes_grows k). lia. }
    intros k h Hle. apply Hm. lia. }
  destruct Hge as (h & -> & Hh & H1 & H2). pose proof (Hmono _ _ H1). pose proof (Hmono _ _ H2).
  destruct h as [|h].
  - cbn. lia.
  - rewrite min_nodes_step. cbn [pred] in *. destruct Hh as [<-|<-]; lia.
Qed.
(** A tree in an address space of 64 bits is at most 91 levels high, so that the stacks of
    [AVL_MAX_HEIGHT] elements hold a way down it and the root pointer. *)
Lemma balanced_height t : balanced t → nodes t < 2 ^ 64 → height t ≤ 91.
Proof.
  intros Hb Hn. apply balanced_nodes in Hb. destruct (Z.le_gt_cases (height t) 91) as [|Hgt]; [done|]. exfalso.
  assert (Hm : ∀ k h, (h ≤ k)%nat → fst (min_nodes h) ≤ fst (min_nodes k)).
  { intros k h Hle. induction Hle as [|k _ IH]; [done|]. rewrite min_nodes_next.
    pose proof (min_nodes_grows k). lia. }
  specialize (Hm (Z.to_nat (height t)) 92%nat ltac:(lia)).
  assert (2 ^ 64 ≤ fst (min_nodes 92)) by (by vm_compute). lia.
Qed.

(** ** Order *)

(** What [compar] must be: the comparison of a total preorder. *)
Class Comparison (compar : addr → addr → Z) : Prop := {
  compar_opp a b : compar a b < 0 ↔ 0 < compar b a;
  compar_trans a b c : compar a b ≤ 0 → compar b c ≤ 0 → compar a c ≤ 0;
}.
Section order.
Context (compar : addr → addr → Z) `{!Comparison compar}.
Definition before_ (a b : addr) : Prop := compar a b < 0.
Definition sorted : list addr → Prop := StronglySorted before_.

Lemma compar_refl a : compar a a = 0.
Proof using Type*. pose proof (compar_opp a a). lia. Qed.
Lemma before_trans a b c : before_ a b → before_ b c → before_ a c.
Proof using Type*.
  unfold before_. intros H1 H2. destruct (Z.lt_ge_cases (compar a c) 0) as [|H]; [done|]. exfalso.
  pose proof (compar_opp a c). assert (compar b a ≤ 0) by (apply (compar_trans b c a); lia).
  pose proof (compar_opp a b). lia.
Qed.
(** Equal items are before the same items. *)
Lemma before_equal_l a b c : compar a b = 0 → before_ b c → before_ a c.
Proof using Type*.
  unfold before_. intros H1 H2. destruct (Z.lt_ge_cases (compar a c) 0) as [|H]; [done|]. exfalso.
  pose proof (compar_opp a c). assert (compar c b ≤ 0) by (apply (compar_trans c a b); lia).
  pose proof (compar_opp b c). lia.
Qed.
Lemma compar_sym a b : compar a b = 0 → compar b a = 0.
Proof using Type*. intros H. pose proof (compar_opp a b). pose proof (compar_opp b a). lia. Qed.
Lemma sorted_NoDup l : sorted l → NoDup l.
Proof using Type*.
  induction 1 as [|a l _ IH Ha]; constructor; [|done]. intros Hin. rewrite Forall_forall in Ha.
  specialize (Ha a Hin). unfold before_ in Ha. rewrite compar_refl in Ha. lia.
Qed.
Lemma sorted_app l1 l2 : sorted (l1 ++ l2) ↔ sorted l1 ∧ sorted l2 ∧ ∀ a b, a ∈ l1 → b ∈ l2 → before_ a b.
Proof using Type*.
  induction l1 as [|a l1 IH]; cbn [app].
  - split; [intros H; split; [constructor|]; split; [done|set_solver]|by intros (_ & H & _)].
  - split.
    + intros H. inversion H as [|? ? Hs Ha]; subst. apply IH in Hs as (H1 & H2 & H3). apply Forall_app in Ha as [Ha1 Ha2].
      split; [by constructor|]. split; [done|]. intros x y [->|Hx]%elem_of_cons Hy; [|by apply H3].
      rewrite Forall_forall in Ha2. by apply Ha2.
    + intros (H1 & H2 & H3). inversion H1 as [|? ? Hs Ha]; subst. constructor.
      * apply IH. split; [done|]. split; [done|]. set_solver.
      * apply Forall_app. split; [done|]. apply Forall_forall. set_solver.
Qed.
End order.
