(* ===== verification/AvlInsert.v ===== *)
(** * Inserting

    [avl_insert()] on the trees of AvlSpec: the way down to the place of an item,
    the balance factors on it, the rotation, and that order
    and balance are kept. *)

From S2P Require Import Prelude Avl AvlSpec.
#[local] Open Scope Z_scope.

Lemma sign_cases d : sign d = 1 ∨ sign d = -1.
Proof. destruct d; auto. Qed.

Section insert.
Context (compar : addr → addr → Z) (item : addr).

(** ** The way down *)

(** [y] is the last node on the way with a balance factor, or the root. *)
Definition calm (C1 C2 : list frame) : Prop :=
  match C2 with
  | [] => C1 = []
  | f :: fs => (C1 = [] ∨ f_bal f ≠ 0) ∧ Forall (λ f, f_bal f = 0) fs
  end.
Definition routed (fs : list frame) : Prop :=
  Forall (λ f, compar item (f_addr f) ≠ 0 ∧ f_dir f = (0 <? compar item (f_addr f))) fs.

Lemma calm_next C1 C2 f : calm C1 C2 → ∃ C1' C2', C1' ++ C2' = (C1 ++ C2) ++ [f] ∧ calm C1' C2' ∧
  (if negb (f_bal f =? 0) then C1' = C1 ++ C2 ∧ C2' = [f] else C1' = C1 ∧ C2' = C2 ++ [f]).
Proof.
  intros Hc. destruct (Z.eqb_spec (f_bal f) 0) as [H0|H0]; cbn [negb].
  - exists C1, (C2 ++ [f]). split; [by rewrite app_assoc|]. split; [|done].
    destruct C2 as [|g fs]; cbn in *; [by split; [left|constructor]|].
    destruct Hc as [H1 H2]. split; [done|]. apply Forall_app. split; [done|]. by constructor.
  - exists (C1 ++ C2), [f]. split; [done|]. split; [|done]. split; [by right|constructor].
Qed.

Definition found (T : tree) (P : tree) (r : place) : Prop :=
  match r with
  | Duplicate a => a ∈ inorder P ∧ compar item a = 0
  | Place q dir z y da => ∃ D1 D2, fill (D1 ++ D2) E = T ∧ calm D1 D2 ∧ routed (D1 ++ D2) ∧
      q = parent_of (D1 ++ D2) ∧ dir = dir_of (D1 ++ D2) ∧ z = parent_of D1 ∧ y = ptr_of (fill D2 E) ∧ da = dirs D2
  end.
Lemma find_place_spec P : ∀ fuel C1 C2 st, holds st (fill (C1 ++ C2) P) → calm C1 C2 → routed (C1 ++ C2) →
  (length (inorder P) ≤ fuel)%nat → Z.of_nat (length C2) + height P ≤ 92 →
  ∃ r, find_place compar fuel item (parent_of (C1 ++ C2)) (ptr_of P) (dir_of (C1 ++ C2)) (parent_of C1)
         (ptr_of (fill C2 P)) (dirs C2) st = Ok (r, st) ∧ found (fill (C1 ++ C2) P) P r.
Proof.
  assert (Hstep : ∀ dir a b s t fuel C1 C2 st,
    (∀ C1 C2, holds st (fill (C1 ++ C2) t) → calm C1 C2 → routed (C1 ++ C2) → Z.of_nat (length C2) + height t ≤ 92 →
       ∃ r, find_place compar fuel item (parent_of (C1 ++ C2)) (ptr_of t) (dir_of (C1 ++ C2)) (parent_of C1)
         (ptr_of (fill C2 t)) (dirs C2) st = Ok (r, st) ∧ found (fill (C1 ++ C2) t) t r) →
    holds st (fill (C1 ++ C2) (node dir a b s t)) → calm C1 C2 → routed (C1 ++ C2) →
    compar item a ≠ 0 → dir = (0 <? compar item a) → Z.of_nat (length C2) + height (node dir a b s t) ≤ 92 →
    ∃ r, find_place compar (S fuel) item (parent_of (C1 ++ C2)) (Some a) (dir_of (C1 ++ C2)) (parent_of C1)
         (ptr_of (fill C2 (node dir a b s t))) (dirs C2) st = Ok (r, st) ∧
      found (fill (C1 ++ C2) (node dir a b s t)) (node dir a b s t) r).
  { intros dir a b s t fuel C1 C2 st IH Hh Hc Hrt Hne Hdir Hlen.
    pose proof (height_nonneg t). rewrite height_node in Hlen.
    set (f := Frame dir a b s). destruct (calm_next C1 C2 f Hc) as (C1' & C2' & Eq & Hc' & Hcase).
    assert (Hfill : fill (C1 ++ C2) (node dir a b s t) = fill (C1' ++ C2') t) by (by rewrite Eq, (fill_app (C1 ++ C2) [f])).
    rewrite Hfill in *. destruct (IH C1' C2' Hh Hc') as (r & Hr & Hf).
    { rewrite Eq. apply Forall_app. split; [done|]. by repeat constructor. }
    { destruct (negb (f_bal f =? 0)); destruct Hcase as [-> ->]; [cbn; lia|]. rewrite length_app. cbn. lia. }
    exists r. split.
    2:{ destruct r as [x|q d' z y da]; [|exact Hf]. destruct Hf as [Hf1 Hf2]. split; [|done].
        rewrite elem_of_node. auto. }
    rewrite Eq in Hr. destruct (parent_snoc (C1 ++ C2) f) as [Ep Ed]. rewrite Ep, Ed in Hr. cbn [f_addr f_dir] in Hr.
    cbn [find_place]. destruct (Z.eqb_spec (compar item a) 0); [done|].
    assert (Hcell : heap st !! a = Some (cell dir b (ptr_of s) (ptr_of t))).
    { rewrite <- Hfill in Hh. apply holds_fill in Hh as [_ Hh]. by apply stored_node in Hh as (Hh & _). }
    destruct st as [rt h]. cbn [heap] in Hcell. rewrite bind_run, (run_get_balance _ _ _ _ Hcell), balance_cell.
    rewrite <- Hdir. cbn [f_bal f] in Hcase. destruct (negb (b =? 0)); destruct Hcase as [-> ->].
    - rewrite bind_run. unfold push. cbn [length app]. change ((0 <? AVL_MAX_HEIGHT)%nat) with true. cbn [mret cst_ret].
      rewrite bind_run, (run_get_link _ _ _ _ _ Hcell), link_cell. unfold fill in Hr at 1.
      unfold fnode in Hr. rewrite ptr_of_node in Hr. exact Hr.
    - rewrite bind_run. unfold push, dirs. rewrite length_fmap.
      assert ((length C2 <? AVL_MAX_HEIGHT)%nat = true) as -> by (apply Nat.ltb_lt; unfold AVL_MAX_HEIGHT; lia).
      cbn [mret cst_ret]. rewrite bind_run, (run_get_link _ _ _ _ _ Hcell), link_cell.
      unfold dirs in Hr. rewrite fmap_app in Hr. rewrite fill_app in Hr. exact Hr. }
  induction P as [|a b l IHl r IHr]; intros fuel C1 C2 st Hh Hc Hrt Hfuel Hlen.
  { eexists. split; [by destruct fuel|]. by exists C1, C2. }
  cbn [inorder] in Hfuel. rewrite length_app in Hfuel. cbn [length] in Hfuel.
  destruct fuel as [|fuel]; [lia|]. cbn [ptr_of]. destruct (Z.eq_dec (compar item a) 0) as [H0|H0].
  { exists (Duplicate a). split; [|split; [cbn; set_solver|done]]. cbn [find_place]. by rewrite H0. }
  destruct (0 <? compar item a) eqn:Hd.
  - apply (Hstep true a b l r); try done. intros D1 D2 ? ? ? ?. apply IHr; (done || lia).
  - apply (Hstep false a b r l); try done. intros D1 D2 ? ? ? ?. apply IHl; (done || lia).
Qed.
End insert.

(** ** The balance factors on the way *)

Definition bump1 (f : frame) : frame := Frame (f_dir f) (f_addr f) (f_bal f + sign (f_dir f)) (f_sib f).
Definition bump (fs : list frame) : list frame := bump1 <$> fs.
Lemma top_bump fs p : top (bump fs) p = top fs p.
Proof. by destruct fs. Qed.
Lemma order_bump fs : before (bump fs) = before fs ∧ after (bump fs) = after fs.
Proof. induction fs as [|f fs [IH1 IH2]]; [done|]. cbn. unfold bump in *. by rewrite IH1, IH2. Qed.
Lemma adjust_spec n r fs : ∀ h, stored_path h fs (Some n) → NoDup (path_addrs fs) → n ∉ path_addrs fs →
  ∃ h', adjust (top fs (Some n)) n (dirs fs) (Tree r h) = Ok (tt, Tree r h') ∧
    stored_path h' (bump fs) (Some n) ∧ changes (path_addrs fs) h h'.
Proof.
  induction fs as [|f fs IH]; intros h Hs Hd Hn.
  { exists h. split; [|split; [done|apply changes_refl]]. cbn. by rewrite decide_True. }
  destruct Hs as (Hf & Hsib & Hs). apply NoDup_path_cons in Hd as (D1 & D2 & D3 & D4).
  rewrite path_addrs_cons in Hn. set (h1 := <[f_addr f := set_balance (f_bal f + sign (f_dir f)) (cell (f_dir f) (f_bal f) (ptr_of (f_sib f)) (top fs (Some n)))]> h).
  destruct (IH h1) as (h' & K & Hs' & Hc); [|done|auto|].
  { eapply stored_path_other; [|exact Hs]. intros a Ha. apply lookup_insert_ne. intros <-. done. }
  exists h'. split; [|split].
  - cbn [top dirs fmap list_fmap adjust]. rewrite decide_False by (intros [= ?]; apply Hn; auto).
    do 4 hstep. unfold h1 in K. by rewrite set_balance_cell in K.
  - cbn [bump fmap list_fmap stored_path bump1 f_addr f_dir f_bal f_sib]. fold (bump fs). rewrite top_bump.
    split; [|split; [|done]].
    + rewrite Hc by done. unfold h1. by rewrite lookup_insert_eq, set_balance_cell.
    + eapply stored_changes; [exact Hc|done|]. by apply stored_insert.
  - apply changes_trans with h1; [apply changes_insert; rewrite path_addrs_cons; auto|].
    eapply changes_mono; [exact Hc|]. intros x Hx. rewrite path_addrs_cons. auto.
Qed.

(** ** The tree after the balance factors are changed *)

Definition leaf (n : addr) : tree := T n 0 E E.
(** Below [y] the balance factors were zero: every subtree on the way is one
    level higher now, and is balanced. *)
Lemma bump_calm n fs : ctx_ok fs 0 → Forall (λ f, f_bal f = 0) fs →
  balanced (fill (bump fs) (leaf n)) ∧ height (fill (bump fs) (leaf n)) = ctx_height fs 0 + 1 ∧
  (fs ≠ [] → bal (fill (bump fs) (leaf n)) ≠ 0).
Proof.
  induction fs as [|f fs IH]; intros Hok Hz; [by split_and!|]. destruct Hok as (Hb & Hr & Hsib & Hok).
  inversion Hz as [|? ? H0 Hz']; subst. destruct (IH Hok Hz') as (I1 & I2 & _). cbn [bump fmap list_fmap fill].
  fold (bump fs). unfold fnode, bump1. cbn [f_dir f_addr f_bal f_sib ctx_height]. rewrite H0 in *.
  rewrite balanced_node, height_node, bal_node, I2. pose proof (sign_cases (f_dir f)).
  split_and!; try done; try lia; nia.
Qed.

(** New balance factors for the two nodes of a single rotation. *)
Lemma single_balances h h' e x y bx by_ bx' by' s p q : let t := node e x bx (node e y by_ s p) q in
  stored h t → NoDup (inorder t) →
  h' !! x = set_balance bx' <$> h !! x → h' !! y = set_balance by' <$> h !! y → changes [x; y] h h' →
  stored h' (node e x bx' (node e y by' s p) q).
Proof.
  intros t Ht Hd Hx' Hy' Hc. unfold t in *. apply NoDup_node in Hd as (Dy & Dq & Xy & Xq & Yq).
  apply NoDup_node in Dy as (Ds & Dp & Ys & Yp & Sp).
  apply stored_node in Ht as (Hx & (Hy & Hs & Hp)%stored_node & Hq). rewrite ptr_of_node in Hx.
  assert (∀ u, x ∉ inorder u → y ∉ inorder u → stored h u → stored h' u) as Hother.
  { intros u U1 U2. eapply stored_changes; [exact Hc|]. set_solver. }
  rewrite Hx, Hy in *. cbn [fmap option_fmap option_map] in *. rewrite set_balance_cell in *.
  rewrite !stored_node, ptr_of_node. split_and!; try done; apply Hother; try done; intros ?;
    first [by apply Xy; rewrite elem_of_node; auto|by eapply Yq; [|eassumption]; rewrite elem_of_node; auto].
Qed.
Lemma put_two_balances r h x y b1 b2 n1 n2 : x ≠ y → h !! x = Some n1 → h !! y = Some n2 → ∃ h',
  (∀ A (k : cst avl_tree_type A), (_ ← put_balance y b2; _ ← put_balance x b1; k) (Tree r h) = k (Tree r h')) ∧
  h' !! x = set_balance b1 <$> h !! x ∧ h' !! y = set_balance b2 <$> h !! y ∧ changes [x; y] h h'.
Proof.
  intros Hne H1 H2. eexists. split; [intros A k; do 2 hstep; reflexivity|]. rewrite H1, H2.
  split_and!; [lookup|lookup|]. intros a Ha. by rewrite !lookup_insert_ne by set_solver.
Qed.

Lemma double_balances e bw hn he hs ha : bw = sign e * (he - hn) → -1 ≤ bw ≤ 1 → hs = Z.max hn he → ha = hs →
  double_y e bw = sign e * (hn - hs) ∧ double_x e bw = sign e * (ha - he) ∧
  -1 ≤ double_y e bw ≤ 1 ∧ -1 ≤ double_x e bw ≤ 1.
Proof.
  intros -> Hr -> ->. unfold double_x, double_y. destruct e; cbn [sign] in *; repeat case_match; lia.
Qed.
(** A node that is two levels higher on the side [d]. *)
Lemma insert_rotate_spec r h d y s x : let t := node d y (2 * sign d) s x in
  stored h t → NoDup (inorder t) → balanced s → balanced x → height x = height s + 2 → bal x ≠ 0 →
  ∃ h' W w, insert_rotate y d (Tree r h) = Ok (w, Tree r h') ∧ ptr_of W = Some w ∧ stored h' W ∧
    inorder W = inorder t ∧ balanced W ∧ height W = height x ∧ changes (inorder t) h h'.
Proof.
  intros t Ht Hd Hbs Hbx Hh Hb0. pose proof (height_nonneg s).
  destruct (tree_node d x) as [->|(xa & bx & P & Q & ->)]; [cbn in Hh; lia|].
  rewrite bal_node in Hb0. apply balanced_node in Hbx as (Ebx & Rbx & HP & HQ). rewrite height_node in *.
  pose proof (proj1 (stored_node _ _ _ _ _ _) Ht) as (Hy & Hs & Hx). rewrite ptr_of_node in Hy.
  pose proof (proj1 (stored_node _ _ _ _ _ _) Hx) as (Hxc & _ & _).
  unfold insert_rotate. do 3 hstep. destruct (Z.eqb_spec bx (sign d)) as [Eb|Nb].
  - destruct (rotate_single_tree r h d y xa _ bx s P Q Ht Hd) as (h1 & K1 & S1 & C1).
    rewrite bind_run, K1. assert (Hd1 : NoDup (inorder (node d xa bx (node d y (2 * sign d) s P) Q))).
    { by rewrite (inorder_single d y xa (2 * sign d) bx). }
    pose proof (proj1 (stored_node _ _ _ _ _ _) S1) as (X1 & (Y1 & _ & _)%stored_node & _).
    assert (Hne : xa ≠ y).
    { apply NoDup_node in Hd1 as (_ & _ & Hd1 & _). intros ->. apply Hd1. rewrite elem_of_node. auto. }
    destruct (put_two_balances r h1 xa y 0 0 _ _ Hne X1 Y1) as (h2 & K2 & X2 & Y2 & C2).
    exists h2, (node d xa 0 (node d y 0 s P) Q), xa. split.
    { by rewrite K2. }
    split; [by rewrite ptr_of_node|]. split; [by eapply single_balances|]. split; [apply inorder_single|].
    rewrite !balanced_node, !height_node. pose proof (sign_cases d).
    assert (height P = height Q - 1 ∧ height s = height P) as [E1 E2] by (rewrite Eb in *; destruct d; cbn in *; lia).
    split; [split_and!; try done; lia|]. split; [lia|]. apply changes_trans with h1; [done|].
    eapply changes_mono; [exact C2|]. intros z Hz. unfold t. rewrite !elem_of_node. set_solver.
  - assert (Eb : bx = - sign d) by (destruct d; cbn in *; lia).
    destruct (tree_node d P) as [->|(wa & bw & Wn & We & ->)].
    { exfalso. cbn in *. pose proof (height_nonneg Q). destruct d; cbn in *; lia. }
    apply balanced_node in HP as (Ebw & Rbw & HWn & HWe). rewrite height_node in *.
    destruct (rotate_double_tree r h d y xa wa _ bx bw s Q Wn We Ht Hd) as (h1 & K1 & S1 & C1).
    exists h1, (node d wa 0 (node d y (double_y d bw) s Wn) (node d xa (double_x d bw) We Q)), wa.
    split; [done|]. split; [by rewrite ptr_of_node|]. split; [done|]. split; [apply inorder_double|].
    assert (height Q = Z.max (height Wn) (height We) ∧ height s = height Q) as [E1 E2].
    { rewrite Eb in Ebx. destruct d; cbn in *; lia. }
    destruct (double_balances d bw (height Wn) (height We) (height s) (height Q) Ebw Rbw ltac:(lia) ltac:(lia))
      as (B1 & B2 & B3 & B4).
    rewrite !balanced_node, !height_node. split; [|split; [lia|done]].
    split_and!; try done; destruct d; cbn in *; lia.
Qed.

(** ** The whole insertion *)

Lemma stored_size h t : stored h t → NoDup (inorder t) → (length (inorder t) ≤ size h)%nat.
Proof.
  intros Hs Hd. rewrite <- (size_list_to_set (C := gset addr)) by done. rewrite <- size_dom.
  apply subseteq_size. intros a Ha%elem_of_list_to_set. clear Hd.
  induction t as [|x b l IHl r IHr]; [inversion Ha|]. destruct Hs as (Hx & Hl & Hr). cbn in Ha.
  apply elem_of_app in Ha as [Ha|[->|Ha]%elem_of_cons]; [by apply IHl|by apply elem_of_dom|by apply IHr].
Qed.
Lemma routed_sorted compar `{!Comparison compar} item fs : routed compar item fs → sorted compar (before fs ++ after fs) →
  (∀ x, x ∈ before fs → before_ compar x item) ∧ (∀ x, x ∈ after fs → before_ compar item x).
Proof.
  induction 1 as [|f fs [Hne Hdir] _ IH]; [set_solver|]. intros Hs.
  destruct f as [d a b s]. cbn [f_dir f_addr f_sib before after] in *. destruct d.
  - symmetry in Hdir. apply Z.ltb_lt in Hdir. assert (Ha : before_ compar a item) by (by apply compar_opp).
    rewrite <- app_assoc in Hs. apply (sorted_app compar) in Hs as (H1 & H2 & H3). cbn in H2.
    inversion H2 as [|? ? H4 H5]; subst. destruct (IH H4) as [I1 I2]. split; [|done].
    intros x [Hx|[->|Hx]%elem_of_cons]%elem_of_app; [|done|by apply I1].
    eapply (before_trans compar); [|exact Ha]. apply H3; [done|]. set_solver.
  - assert (Ha : before_ compar item a) by (unfold before_; symmetry in Hdir; apply Z.ltb_ge in Hdir; lia).
    rewrite app_assoc in Hs. apply (sorted_app compar) in Hs as (H1 & H2 & H3).
    inversion H2 as [|? ? H4 H5]; subst. destruct (IH H1) as [I1 I2]. split; [done|].
    intros x [Hx|[->|Hx]%elem_of_cons]%elem_of_app; [by apply I2|done|].
    eapply (before_trans compar); [exact Ha|]. rewrite Forall_forall in H5. by apply H5.
Qed.
(** [z->avl_link[y != z->avl_link[0]]] is the link to [y]. *)
Lemma relink_hole st fs y w : holds_path st fs (Some y) → NoDup (path_addrs fs) → y ∉ path_addrs fs →
  relink (parent_of fs) y w st = put_link (parent_of fs) (dir_of fs) (Some w) st.
Proof.
  intros Hh Hd Hy. unfold relink. destruct fs as [|f fs _] using rev_ind.
  - destruct Hh as [Hr _], st as [r h]. cbn in Hr. subst r. cbn. unfold mbind, cst_bind. cbn.
    by rewrite bool_decide_true.
  - destruct Hh as [_ Hs]. apply stored_path_app in Hs as [_ (Hf & Hsib & _)].
    destruct (parent_snoc fs f) as [-> ->]. destruct st as [r h]. rewrite bind_run, (run_get_link _ _ _ _ _ Hf).
    f_equal. destruct (f_dir f) eqn:Ed; cbn.
    + rewrite bool_decide_false; [done|]. intros Hp. apply Hy. rewrite path_addrs_app, path_addrs_cons. right. right. left.
      destruct (f_sib f); [done|]. injection Hp as ->. cbn. set_solver.
    + by rewrite bool_decide_true.
Qed.

(** The state holds a tree the code can work on. *)
Record valid (compar : addr → addr → Z) (st : avl_tree_type) (t : tree) : Prop := Valid {
  valid_holds : holds st t;
  valid_sorted : sorted compar (inorder t);
  valid_balanced : balanced t;
  valid_nodes : nodes t < 2 ^ 64;
}.

(** The item is linked at the end of the way. *)
Lemma link_leaf st fs item : holds st (fill fs E) → NoDup (path_addrs fs) → item ∉ path_addrs fs →
  ∃ st', (∀ A (k : cst avl_tree_type A),
      (_ ← put_link (parent_of fs) (dir_of fs) (Some item); _ ← write item (Avl_t None None 0); k) st = k st') ∧
    holds st' (fill fs (leaf item)) ∧ changes (item :: path_addrs fs) (heap st) (heap st').
Proof.
  intros [Hp _]%holds_fill Hd Hi. destruct (put_hole st fs None (Some item) Hp Hd) as (st1 & K & [Hr Hs] & Hc).
  exists (Tree (root st1) (<[item := Avl_t None None 0]> (heap st1))). split; [|split].
  - intros A k. rewrite bind_run, K. by rewrite bind_run.
  - apply holds_fill. split.
    + split; [done|]. cbn [heap]. eapply stored_path_other; [|exact Hs].
      intros a Ha. apply lookup_insert_ne. by intros ->.
    + cbn. by rewrite lookup_insert_eq.
  - apply changes_trans with (heap st1); [eapply changes_mono; [exact Hc|set_solver]|]. apply changes_insert. set_solver.
Qed.
(** The balance factors below [y] are brought up to date. *)
Lemma adjust_below st D1 D2 item : let t := fill (D1 ++ D2) (leaf item) in
  holds st t → NoDup (inorder t) → ∃ st', adjust (top D2 (Some item)) item (dirs D2) st = Ok (tt, st') ∧
    holds st' (fill D1 (fill (bump D2) (leaf item))) ∧ changes (inorder t) (heap st) (heap st').
Proof.
  intros t [Hr Hs] Hd. unfold t in *. clear t. rewrite fill_app in *. destruct st as [r h]. cbn [root heap] in *.
  apply NoDup_fill in Hd as (N1 & N2 & N3). rewrite inorder_fill in N2, N3.
  assert (Hd2 : NoDup (inorder (fill D2 (leaf item)))) by (by rewrite inorder_fill).
  apply NoDup_fill in Hd2 as (N4 & _ & N5).
  apply stored_fill in Hs as [S1 [S2 S3]%stored_fill].
  destruct (adjust_spec item r D2 h S2 N4) as (h' & K & S4 & Hc).
  { intros Hin. by apply N5 in Hin; cbn in Hin; set_solver. }
  exists (Tree r h'). split; [done|]. split; [split|].
  - cbn [root]. rewrite Hr, !ptr_of_fill. by rewrite top_bump.
  - cbn [heap]. apply stored_fill. split; [|apply stored_fill; split; [done|]].
    + rewrite ptr_of_fill in *. cbn [ptr_of leaf] in *. rewrite top_bump. eapply stored_path_changes; [exact Hc| |exact S1].
      intros a Ha Hin. apply (N3 a Ha). unfold path_addrs in Hin. set_solver.
    + eapply stored_changes; [exact Hc| |exact S3]. set_solver.
  - cbn [heap]. eapply changes_mono; [exact Hc|]. intros a Ha. rewrite !inorder_fill. unfold path_addrs in Ha. set_solver.
Qed.
(** The end of a way is replaced by a tree that is already in memory. *)
Lemma relink_fill st D1 y Y W w : holds_path st D1 (Some y) → stored (heap st) W → ptr_of W = Some w →
  inorder W = inorder Y → y ∈ inorder Y → NoDup (inorder (fill D1 Y)) →
  ∃ st', relink (parent_of D1) y w st = Ok (tt, st') ∧ holds st' (fill D1 W) ∧
    changes (inorder (fill D1 Y)) (heap st) (heap st').
Proof.
  intros Hp HW Hw HY Hy Hd. apply NoDup_fill in Hd as (N1 & N2 & N3).
  rewrite relink_hole; [|done|done|by intros H; apply (N3 y)].
  destruct (put_hole st D1 _ (Some w) Hp N1) as (st' & K & H & Hc). exists st'. split; [done|]. split.
  - apply holds_fill. rewrite Hw. split; [done|]. eapply stored_changes; [exact Hc| |exact HW]. rewrite HY. set_solver.
  - eapply changes_mono; [exact Hc|]. rewrite inorder_fill. unfold path_addrs. set_solver.
Qed.
(** What is left of [avl_insert()] when [y] is known. *)
Definition settle (z : parent) (y item : addr) : cst avl_tree_type addr :=
  b ← get_balance y;
  if b =? -2 then w ← insert_rotate y false; _ ← relink z y w; mret item
  else if b =? 2 then w ← insert_rotate y true; _ ← relink z y w; mret item
  else mret item.
Lemma settle_balance z y item r h n d : h !! y = Some n → avl_balance n = 2 * sign d →
  settle z y item (Tree r h) = (w ← insert_rotate y d; _ ← relink z y w; mret item) (Tree r h).
Proof. intros H1 H2. unfold settle. rewrite bind_run, (run_get_balance _ _ _ _ H1), H2. by destruct d. Qed.
Lemma settle_spec st D1 f F item : let t := fill D1 (fill (bump (f :: F)) (leaf item)) in
  holds st t → NoDup (inorder t) → ctx_ok (D1 ++ f :: F) 0 → calm D1 (f :: F) →
  ∃ st' t', settle (parent_of D1) (f_addr f) item st = Ok (item, st') ∧ holds st' t' ∧ balanced t' ∧
    inorder t' = inorder t ∧ changes (inorder t) (heap st) (heap st').
Proof.
  intros t Hh Hd [Hok1 Hok2]%ctx_ok_app [Hcalm1 Hcalm2]. destruct f as [d a b s].
  destruct Hok2 as (Hb & Hr & Hsib & Hok2). cbn [f_dir f_addr f_bal f_sib ctx_height] in *.
  destruct (bump_calm item F Hok2 Hcalm2) as (X1 & X2 & X3). set (X := fill (bump F) (leaf item)) in *.
  set (Y := node d a (b + sign d) s X). assert (Et : t = fill D1 Y) by done. clearbody t. subst t.
  destruct st as [r h]. apply holds_fill in Hh as [Hp HY]. cbn [heap] in *.
  pose proof (proj1 (stored_node _ _ _ _ _ _) HY) as (Ha & _). unfold Y in Hp. rewrite ptr_of_node in Hp. fold Y in Hp.
  pose proof (height_nonneg s). pose proof (sign_cases d).
  assert (Hcase : b = sign d ∨ (b ≠ sign d ∧ (b = 0 ∨ b = - sign d))) by (destruct d; cbn [sign] in *; lia).
  destruct Hcase as [Hbd|[Hbd Hb2]].
  - assert (Hk : ctx_height F 0 = height s + 1) by (rewrite Hbd in Hb; destruct d; cbn [sign] in *; lia).
    assert (HF : F ≠ []) by (intros ->; cbn in Hk; lia).
    pose proof (NoDup_fill _ _ Hd) as (_ & DY & DD).
    assert (EY : b + sign d = 2 * sign d) by lia. unfold Y in *. rewrite EY in *.
    destruct (insert_rotate_spec r h d a s X HY DY Hsib X1 ltac:(lia) (X3 HF)) as (h1 & W & w & K1 & W1 & W2 & W3 & W4 & W5 & C1).
    destruct (relink_fill (Tree r h1) D1 a (node d a (2 * sign d) s X) W w) as (st2 & K2 & H2 & C2);
      [|done|done|done|rewrite elem_of_node; auto|done|].
    { split; [exact (proj1 Hp)|]. eapply stored_path_changes; [exact C1|exact DD|exact (proj2 Hp)]. }
    exists st2, (fill D1 W). split.
    { rewrite (settle_balance _ _ _ _ _ _ d Ha) by apply balance_cell. rewrite bind_run, K1. by rewrite bind_run, K2. }
    split; [done|]. split.
    { apply balanced_fill. split; [|done]. rewrite W5, X2. by replace (ctx_height F 0 + 1) with (1 + Z.max (height s) (ctx_height F 0)) by lia. }
    split; [by rewrite !inorder_fill, W3|]. cbn [heap] in *. apply changes_trans with h1; [|done].
    eapply changes_mono; [exact C1|]. rewrite inorder_fill. set_solver.
  - exists (Tree r h), (fill D1 Y). split.
    { unfold settle. rewrite bind_run, (run_get_balance _ _ _ _ Ha), balance_cell.
      destruct (Z.eqb_spec (b + sign d) (-2)); [destruct d; cbn [sign] in *; lia|].
      destruct (Z.eqb_spec (b + sign d) 2); [destruct d; cbn [sign] in *; lia|done]. }
    split; [apply holds_fill; unfold Y at 1; by rewrite ptr_of_node|]. split; [|split; [done|apply changes_refl]].
    assert (HbY : balanced Y).
    { apply balanced_node. split; [rewrite X2; destruct d; cbn [sign] in *; lia|]. split; [destruct d; cbn [sign] in *; lia|done]. }
    apply balanced_fill. split; [|done]. destruct Hb2 as [Hb0|Hb0].
    + destruct Hcalm1 as [->|Hcalm1]; [done|]. by rewrite Hb0 in Hcalm1.
    + unfold Y. rewrite height_node, X2. replace (Z.max (height s) (ctx_height F 0 + 1)) with (Z.max (height s) (ctx_height F 0)); [done|].
      rewrite Hb0 in Hb. destruct d; cbn [sign] in *; lia.
Qed.

Section insertion.
Context (compar : addr → addr → Z) `{!Comparison compar}.

Lemma insert_new st t item D1 D2 : valid compar st t → item ∉ inorder t → nodes t + 1 < 2 ^ 64 →
  fill (D1 ++ D2) E = t → calm D1 D2 → routed compar item (D1 ++ D2) →
  ∃ st' t', (_ ← put_link (parent_of (D1 ++ D2)) (dir_of (D1 ++ D2)) (Some item);
     _ ← write item (Avl_t None None 0);
     match ptr_of (fill D2 E) with
     | None => mret item
     | Some y => _ ← adjust (Some y) item (dirs D2); settle (parent_of D1) y item
     end) st = Ok (item, st') ∧ valid compar st' t' ∧
    inorder t' = before (D1 ++ D2) ++ item :: after (D1 ++ D2) ∧
    changes (item :: inorder t) (heap st) (heap st').
Proof using Type*.
  intros [Hh Hs Hb Hn] Hi Hn' <- Hcalm Hrt. pose proof (sorted_NoDup compar _ Hs) as Hd.
  apply NoDup_fill in Hd as (Hd & _ & _). rewrite inorder_fill in Hi, Hs. cbn in Hi, Hs.
  destruct (link_leaf st (D1 ++ D2) item Hh Hd Hi) as (st1 & K1 & H1 & C1).
  destruct (routed_sorted compar item (D1 ++ D2) Hrt Hs) as [R1 R2].
  assert (Hs' : sorted compar (before (D1 ++ D2) ++ item :: after (D1 ++ D2))).
  { apply (sorted_app compar) in Hs as (S1 & S2 & S3). apply (sorted_app compar). split; [done|]. split.
    - constructor; [done|]. apply Forall_forall. intros x. apply R2.
    - intros x y Hx [->|Hy]%elem_of_cons; [by apply R1|by apply S3]. }
  assert (Hv : ∀ st' t', inorder t' = before (D1 ++ D2) ++ item :: after (D1 ++ D2) → holds st' t' → balanced t' → valid compar st' t').
  { intros st' t' Ht' Hh' Hb'. split; [done|by rewrite Ht'|done|]. unfold nodes in *. rewrite Ht', length_app. cbn [length].
    rewrite inorder_fill, !length_app in Hn'. cbn [length inorder] in Hn'. lia. }
  assert (Ht1 : inorder (fill (D1 ++ D2) (leaf item)) = before (D1 ++ D2) ++ item :: after (D1 ++ D2)) by (by rewrite inorder_fill).
  assert (C0 : changes (item :: inorder (fill (D1 ++ D2) E)) (heap st) (heap st1)) by (by rewrite inorder_fill).
  rewrite K1. destruct D2 as [|f F].
  { cbn in Hcalm. subst D1. exists st1, (leaf item). split; [done|]. split; [by apply Hv|done]. }
  pose proof (sorted_NoDup compar _ Hs') as Hd'. rewrite <- Ht1 in Hd'.
  destruct (adjust_below st1 D1 (f :: F) item H1 Hd') as (st2 & K2 & H2 & C2).
  assert (Ht2 : inorder (fill D1 (fill (bump (f :: F)) (leaf item))) = inorder (fill (D1 ++ f :: F) (leaf item))).
  { rewrite fill_app, (inorder_fill D1), (inorder_fill D1). f_equal. f_equal.
    rewrite !inorder_fill. by destruct (order_bump (f :: F)) as [-> ->]. }
  apply balanced_fill in Hb as [Hb _].
  destruct (settle_spec st2 D1 f F item H2) as (st3 & t3 & K3 & H3 & B3 & I3 & C3); [by rewrite Ht2|done|done|].
  exists st3, t3. split.
  { cbn [fill]. unfold fnode at 1. rewrite ptr_of_node. cbn [top] in K2. by rewrite bind_run, K2. }
  split; [apply Hv; [|done|done]; by rewrite I3, Ht2|]. split; [by rewrite I3, Ht2|].
  assert (Hsub : inorder (fill (D1 ++ f :: F) (leaf item)) ⊆ item :: inorder (fill (D1 ++ f :: F) E)).
  { rewrite Ht1, inorder_fill. cbn [inorder app]. set_solver. }
  eapply changes_trans; [exact C0|]. eapply changes_trans; (eapply changes_mono; [eassumption|]); [done|by rewrite Ht2].
Qed.
Lemma routed_none item gs : routed compar item gs → sorted compar (inorder (fill gs E)) →
  ∀ x, x ∈ inorder (fill gs E) → compar item x ≠ 0.
Proof using Type*.
  rewrite inorder_fill. cbn [inorder app]. intros Hr Hs x Hx Heq. destruct (routed_sorted compar item gs Hr Hs) as [R1 R2].
  pose proof (compar_opp x item). pose proof (compar_opp item x).
  apply elem_of_app in Hx as [Hx|Hx]; [apply R1 in Hx|apply R2 in Hx]; unfold before_ in Hx; lia.
Qed.
(** [avl_insert()]. *)
Lemma avl_insert_spec st t item : valid compar st t → nodes t + 1 < 2 ^ 64 →
  (∃ a, avl_insert compar item st = Ok (a, st) ∧ a ∈ inorder t ∧ compar item a = 0) ∨
  (∃ st' t' l1 l2, avl_insert compar item st = Ok (item, st') ∧ valid compar st' t' ∧
     inorder t = l1 ++ l2 ∧ inorder t' = l1 ++ item :: l2 ∧
     (∀ x, x ∈ inorder t → compar item x ≠ 0) ∧ changes (item :: inorder t) (heap st) (heap st')).
Proof using Type*.
  intros Hv Hn'. pose proof Hv as [Hh Hs Hb Hn]. pose proof (sorted_NoDup compar _ Hs) as Hd.
  destruct (find_place_spec compar item t (size (heap st)) [] [] st) as (r & K & Hr); try done.
  { by constructor. }
  { apply stored_size; [apply Hh|done]. }
  { cbn. pose proof (balanced_height t Hb Hn). lia. }
  unfold avl_insert. rewrite bind_run. cbn [cget]. rewrite bind_run.
  cbn [app parent_of last dir_of fill dirs fmap list_fmap] in K, Hr. rewrite (proj1 Hh), K.
  destruct r as [a|q dir z y da]; [left; by exists a|right].
  destruct Hr as (D1 & D2 & Ht & Hcalm & Hrt & -> & -> & -> & -> & ->).
  assert (Hnone : ∀ x, x ∈ inorder t → compar item x ≠ 0) by (subst t; by apply routed_none).
  assert (Hi : item ∉ inorder t) by (intros Hi%Hnone; by rewrite (compar_refl compar) in Hi).
  destruct (insert_new st t item D1 D2 Hv Hi Hn' Ht Hcalm Hrt) as (st' & t' & K' & Hv' & Ho & Hc).
  exists st', t', (before (D1 ++ D2)), (after (D1 ++ D2)). split; [exact K'|]. split; [done|].
  split; [|done]. subst t. by rewrite inorder_fill.
Qed.
End insertion.
