(* ===== verification/AvlRemove.v ===== *)
(** * Searching and removing

    [avl_search()] and [avl_remove()] on the trees of AvlSpec: the stack of the way
    down, the three ways to take a node out, and the rebalancing on the way up. *)

From S2P Require Import Prelude Avl AvlSpec AvlInsert.
#[local] Open Scope Z_scope.

(** ** The stacks [pa] and [da] *)

Definition ent (f : frame) : parent * bool := (At (f_addr f), f_dir f).
Definition stk (fs : list frame) : stack := (ent <$> rev fs) ++ [(Holder, false)].
Lemma stk_app fs gs : stk (fs ++ gs) = (ent <$> rev gs) ++ stk fs.
Proof. unfold stk. by rewrite rev_app_distr, fmap_app, <- app_assoc. Qed.
Lemma stk_snoc fs f : stk (fs ++ [f]) = ent f :: stk fs.
Proof. by rewrite stk_app. Qed.
Lemma stk_length fs : length (stk fs) = S (length fs).
Proof. unfold stk. rewrite length_app, length_fmap, length_rev. cbn. lia. Qed.
Lemma link_top_stk fs q : link_top (stk fs) q = put_link (parent_of fs) (dir_of fs) q.
Proof.
  destruct fs as [|f fs _] using rev_ind; [done|]. rewrite stk_snoc. by destruct (parent_snoc fs f) as [-> ->].
Qed.
(** The end of a way is replaced by another tree that is in memory. *)
Lemma link_top_fill st fs p W : holds_path st fs p → NoDup (path_addrs fs) → stored (heap st) W →
  (∀ a, a ∈ path_addrs fs → a ∉ inorder W) →
  ∃ st', link_top (stk fs) (ptr_of W) st = Ok (tt, st') ∧ holds st' (fill fs W) ∧
    changes (path_addrs fs) (heap st) (heap st').
Proof.
  intros Hp Hd HW Hdis. rewrite link_top_stk. destruct (put_hole st fs p (ptr_of W) Hp Hd) as (st' & K & H & Hc).
  exists st'. split; [done|]. split; [|done]. apply holds_fill. split; [done|].
  eapply stored_changes; [exact Hc| |exact HW]. set_solver.
Qed.
Lemma holds_path_changes l r h h' fs p : holds_path (Tree r h) fs p → changes l h h' →
  (∀ a, a ∈ path_addrs fs → a ∉ l) → holds_path (Tree r h') fs p.
Proof. intros [Hr Hs] Hc Hl. split; [done|]. by eapply stored_path_changes. Qed.

(** ** Finding the item *)

Section search.
Context (compar : addr → addr → Z) `{!Comparison compar} (item : addr).

(** [find_node] after the top of the stack is pushed. *)
Definition find_below (fuel : nat) (fs : list frame) : cst avl_tree_type (option (addr * stack)) :=
  q ← get_link (parent_of fs) (dir_of fs);
  match q with
  | None => mret None
  | Some a => if compar item a =? 0 then mret (Some (a, stk fs)) else find_node compar fuel item (At a) (compar item a) (stk fs)
  end.
Lemma find_node_step fuel fs d a b s st : compar item a ≠ 0 → d = (0 <? compar item a) → (length fs < 91)%nat →
  find_node compar (S fuel) item (At a) (compar item a) (stk fs) st = find_below fuel (fs ++ [Frame d a b s]) st.
Proof using Type.
  intros Hne Hd Hlen. cbn [find_node]. rewrite bind_run. unfold push_pa. rewrite stk_length.
  assert ((S (length fs) <? AVL_MAX_HEIGHT)%nat = true) as -> by (apply Nat.ltb_lt; unfold AVL_MAX_HEIGHT; lia).
  cbn [mret cst_ret]. unfold find_below. destruct (parent_snoc fs (Frame d a b s)) as [-> ->]. cbn [f_addr f_dir].
  rewrite stk_snoc. unfold ent. cbn [f_addr f_dir]. by rewrite <- Hd.
Qed.
Lemma find_below_spec P : ∀ fuel fs st, holds st (fill fs P) → routed compar item fs →
  (length (inorder P) ≤ fuel)%nat → Z.of_nat (length fs) + height P ≤ 91 →
  (find_below fuel fs st = Ok (None, st) ∧ ∃ gs, fill fs P = fill gs E ∧ routed compar item gs) ∨
  (∃ gs p b l r, find_below fuel fs st = Ok (Some (p, stk gs), st) ∧ fill fs P = fill gs (T p b l r) ∧
     compar item p = 0).
Proof using Type.
  assert (Hstep : ∀ d a b s t fuel fs st, compar item a ≠ 0 → d = (0 <? compar item a) →
    holds st (fill fs (node d a b s t)) → Z.of_nat (length fs) + height (node d a b s t) ≤ 91 →
    find_below (S fuel) fs st = find_below fuel (fs ++ [Frame d a b s]) st).
  { intros d a b s t fuel fs st Hne Hd Hh Hlen. rewrite <- (find_node_step fuel fs d a b s) by
      (try done; rewrite height_node in Hlen; pose proof (height_nonneg t); pose proof (height_nonneg s); lia).
    unfold find_below. apply holds_fill in Hh as [Hp _]. rewrite bind_run, (get_hole _ _ _ Hp), ptr_of_node.
    by destruct (Z.eqb_spec (compar item a) 0). }
  induction P as [|a b l IHl r IHr]; intros fuel fs st Hh Hrt Hfuel Hlen.
  { left. split; [|by exists fs]. apply holds_fill in Hh as [Hp _]. unfold find_below.
    by rewrite bind_run, (get_hole _ _ _ Hp). }
  cbn [inorder] in Hfuel. rewrite length_app in Hfuel. cbn [length] in Hfuel.
  destruct fuel as [|fuel]; [lia|]. destruct (Z.eq_dec (compar item a) 0) as [H0|H0].
  { right. exists fs, a, b, l, r. split_and!; try done. apply holds_fill in Hh as [Hp _]. unfold find_below.
    rewrite bind_run, (get_hole _ _ _ Hp). cbn [ptr_of]. by rewrite H0. }
  assert (Hr : ∀ d s, d = (0 <? compar item a) → routed compar item (fs ++ [Frame d a b s])).
  { intros d s Hd. apply Forall_app. split; [done|]. by repeat constructor. }
  cbn [height] in Hlen. destruct (0 <? compar item a) eqn:Hd.
  - change (T a b l r) with (node true a b l r) in *. rewrite (Hstep true a b l r) by (try done; rewrite height_node; lia).
    assert (Hf : fill fs (node true a b l r) = fill (fs ++ [Frame true a b l]) r) by (by rewrite fill_app).
    rewrite Hf in *. apply IHr; [done|by apply Hr|lia|]. rewrite length_app. cbn. lia.
  - change (T a b l r) with (node false a b r l) in *. rewrite (Hstep false a b r l) by (try done; rewrite height_node; lia).
    assert (Hf : fill fs (node false a b r l) = fill (fs ++ [Frame false a b r]) l) by (by rewrite fill_app).
    rewrite Hf in *. apply IHl; [done|by apply Hr|lia|]. rewrite length_app. cbn. lia.
Qed.
(** [avl_search()]. *)
Lemma search_loop_spec t : ∀ fuel st, stored (heap st) t → sorted compar (inorder t) → (length (inorder t) ≤ fuel)%nat →
  (∃ a, search_loop compar fuel (ptr_of t) item st = Ok (Some a, st) ∧ a ∈ inorder t ∧ compar item a = 0) ∨
  (search_loop compar fuel (ptr_of t) item st = Ok (None, st) ∧ ∀ x, x ∈ inorder t → compar item x ≠ 0).
Proof using Type*.
  induction t as [|a b l IHl r IHr]; intros fuel st Hs Ho Hfuel; [right; destruct fuel; set_solver|].
  cbn [inorder ptr_of] in *. rewrite length_app in Hfuel. cbn [length] in Hfuel. destruct fuel as [|fuel]; [lia|].
  destruct Hs as (Ha & Hl & Hr). apply (sorted_app compar) in Ho as (O1 & O2 & O3).
  inversion O2 as [|? ? O4 O5]; subst. rewrite Forall_forall in O5. cbn [search_loop].
  destruct st as [rt h]. cbn [heap] in *.
  destruct (Z.ltb_spec (compar item a) 0) as [H1|H1]; [|destruct (Z.ltb_spec 0 (compar item a)) as [H2|H2]].
  - rewrite bind_run, (run_get_link _ _ _ _ _ Ha). cbn [link avl_link0].
    destruct (IHl fuel (Tree rt h) Hl O1) as [(x & K & Hx & Hx0)|[K Hx]]; [lia| |]; [left|right].
    + exists x. split; [done|]. split; [set_solver|done].
    + split; [done|]. intros x [Hin|Hin]%elem_of_app; [by apply Hx|]. enough (before_ compar item x) by (unfold before_ in *; lia).
      apply elem_of_cons in Hin as [->|Hin]; [done|]. eapply (before_trans compar); [exact H1|by apply O5].
  - rewrite bind_run, (run_get_link _ _ _ _ _ Ha). cbn [link avl_link1].
    destruct (IHr fuel (Tree rt h) Hr O4) as [(x & K & Hx & Hx0)|[K Hx]]; [lia| |]; [left|right].
    + exists x. split; [done|]. split; [set_solver|done].
    + split; [done|]. apply compar_opp in H2. intros x [Hin|[->|Hin]%elem_of_cons]%elem_of_app; [|pose proof (compar_opp a item); lia|by apply Hx].
      enough (before_ compar x item) by (pose proof (compar_opp x item); unfold before_ in *; lia).
      eapply (before_trans compar); [|exact H2]. apply O3; [done|set_solver].
  - left. exists a. split; [done|]. split; [set_solver|lia].
Qed.
Lemma avl_search_spec st t : valid compar st t →
  (∃ a, avl_search compar item st = Ok (Some a, st) ∧ a ∈ inorder t ∧ compar item a = 0) ∨
  (avl_search compar item st = Ok (None, st) ∧ ∀ x, x ∈ inorder t → compar item x ≠ 0).
Proof using Type*.
  intros [[Hr Hs] Ho Hb Hn]. unfold avl_search. rewrite bind_run. cbn [cget]. rewrite Hr.
  apply search_loop_spec; [done|done|]. apply stored_size; [done|]. by apply (sorted_NoDup compar).
Qed.
End search.

(** ** Taking a node out *)

(** [s] is at the end of the leftmost way. *)
Definition leftmost (fs : list frame) : Prop := Forall (λ f, f_dir f = false) fs.
Lemma leftmost_before fs : leftmost fs → before fs = [].
Proof. induction 1 as [|f fs Hf _ IH]; [done|]. cbn. by rewrite Hf. Qed.
Lemma find_next_spec t : ∀ fuel x rb rr st room rt h, t ≠ E → stored h (T x rb t rr) →
  (length (inorder t) ≤ fuel)%nat → Z.of_nat (length st + room) + height t ≤ 92 →
  ∃ L g s sb sr, T x rb t rr = fill (L ++ [g]) (T s sb E sr) ∧ leftmost (L ++ [g]) ∧
    find_next fuel x st room (Tree rt h) = Ok ((s, f_addr g, (ent <$> rev (L ++ [g])) ++ st), Tree rt h).
Proof.
  induction t as [|s sb l IHl r IHr]; intros fuel x rb rr st room rt h Ht Hs Hfuel Hlen; [done|]. clear Ht IHr.
  cbn [inorder] in Hfuel. rewrite length_app in Hfuel. cbn [length] in Hfuel. destruct fuel as [|fuel]; [lia|].
  destruct Hs as (Hx & Hl & Hrr). pose proof Hl as (Hsc & _ & _). cbn [ptr_of height] in *.
  pose proof (height_nonneg l). pose proof (height_nonneg r). cbn [find_next].
  assert ((length st + room <? AVL_MAX_HEIGHT)%nat = true) as -> by (apply Nat.ltb_lt; unfold AVL_MAX_HEIGHT; lia).
  rewrite bind_run, (run_get_link _ _ _ _ _ Hx). cbn [link avl_link0]. rewrite bind_run, run_deref.
  rewrite bind_run, (run_get_link _ _ _ _ _ Hsc). cbn [link avl_link0].
  destruct l as [|y yb ly ry].
  - exists [], (Frame false x rb rr), s, sb, r. split; [done|]. split; [by repeat constructor|done].
  - cbn [ptr_of]. destruct (IHl fuel s sb r ((At x, false) :: st) room rt h) as (L & g & s' & sb' & sr' & E1 & E2 & K);
      [done|done|lia|cbn [length height] in *; lia|].
    exists (Frame false x rb rr :: L), g, s', sb', sr'. split; [|split; [by constructor|]].
    + cbn [app fill]. by rewrite <- E1.
    + rewrite K. cbn [app rev]. rewrite !fmap_app. cbn. by rewrite <- !app_assoc.
Qed.

(** What [unlink] leaves: the ways it ends at, one level lower. *)
Definition unlinked (st : avl_tree_type) (t : tree) (l : list addr) (r : cres (stack * avl_tree_type)) : Prop :=
  ∃ st' gs u, r = Ok (stk gs, st') ∧ holds st' (fill gs u) ∧ ctx_ok gs (height u + 1) ∧ balanced u ∧
    inorder (fill gs u) = l ∧ changes (inorder t) (heap st) (heap st').
Lemma unlink_no_right fuel st fs p b l : let t := fill fs (T p b l E) in
  holds st t → NoDup (inorder t) → balanced t →
  unlinked st t (before fs ++ inorder l ++ after fs) (unlink fuel p (stk fs) st).
Proof.
  intros t Hh Hd Hb. unfold t in *. clear t. pose proof (NoDup_fill _ _ Hd) as (D1 & D2 & D3).
  destruct st as [rt h]. pose proof Hh as [Hp (Hpc & Hl & _)]%holds_fill. apply balanced_fill in Hb as [Hok (Eb & Rb & Hbl & _)].
  cbn [heap height inorder ptr_of] in *.
  destruct (link_top_fill (Tree rt h) fs _ l Hp D1 Hl) as (st' & K & H' & Hc); [set_solver|].
  exists st', fs, l. split_and!; try done.
  - unfold unlink. rewrite bind_run, (run_get_link _ _ _ _ _ Hpc). cbn [link avl_link1].
    rewrite bind_run, (run_get_link _ _ _ _ _ Hpc). cbn [link avl_link0]. by rewrite bind_run, K.
  - replace (height l + 1) with (1 + Z.max (height l) 0); [done|]. pose proof (height_nonneg l). lia.
  - by rewrite inorder_fill.
  - eapply changes_mono; [exact Hc|]. rewrite inorder_fill. unfold path_addrs. set_solver.
Qed.
Lemma unlink_right fuel st fs p b l ra rb rr : let t := fill fs (T p b l (T ra rb E rr)) in
  holds st t → NoDup (inorder t) → balanced t → height t ≤ 91 →
  unlinked st t (before fs ++ inorder l ++ inorder (T ra rb E rr) ++ after fs) (unlink fuel p (stk fs) st).
Proof.
  intros t Hh Hd Hb Hlen. unfold t in *. clear t. pose proof (NoDup_fill _ _ Hd) as (D1 & D2 & D3).
  destruct st as [rt h]. pose proof Hh as [Hp (Hpc & Hl & (Hrc & _ & Hrr))]%holds_fill.
  apply balanced_fill in Hb as [Hok (Eb & Rb & Hbl & (Eb' & Rb' & _ & Hbr))]. rewrite height_fill in Hlen.
  cbn [heap height inorder ptr_of app] in *. pose proof (height_nonneg rr). pose proof (height_nonneg l).
  set (W := T ra b l rr). apply NoDup_app in D2 as (N1 & N2 & [N3 N4]%NoDup_cons).
  apply NoDup_cons in N4 as [N4 N5]. assert (Hne : ra ≠ p) by set_solver.
  assert (HW : stored (<[ra := Avl_t (ptr_of l) (ptr_of rr) b]> h) W).
  { cbn. split; [by rewrite lookup_insert_eq|]. split; apply stored_insert; set_solver. }
  destruct (link_top_fill (Tree rt (<[ra := Avl_t (ptr_of l) (ptr_of rr) b]> h)) fs (Some p) W) as (st' & K & H' & Hc).
  { eapply holds_path_changes; [exact Hp|by apply (changes_insert [ra]); set_solver|]. set_solver. }
  { done. } { done. } { unfold W. cbn. set_solver. }
  exists st', (fs ++ [Frame true ra b l]), rr. split_and!.
  - unfold unlink. rewrite bind_run, (run_get_link _ _ _ _ _ Hpc). cbn [link avl_link1].
    rewrite bind_run, (run_get_link _ _ _ _ _ Hrc). cbn [link avl_link0]. do 4 hstep.
    unfold set_balance. cbn [set_link link avl_link0 avl_link1 avl_balance]. rewrite insert_insert_eq.
    rewrite bind_run. unfold W in K. cbn [ptr_of] in K. rewrite K. unfold push_pa. rewrite stk_length, stk_snoc.
    assert ((S (length fs) <? AVL_MAX_HEIGHT)%nat = true) as ->; [|done].
    apply Nat.ltb_lt. unfold AVL_MAX_HEIGHT.
    pose proof (ctx_height_length fs (1 + Z.max (height l) (1 + Z.max 0 (height rr))) ltac:(lia)). lia.
  - by rewrite fill_app.
  - apply ctx_ok_app. cbn [ctx_height ctx_ok f_sib f_bal f_dir sign].
    replace (height rr + 1) with (1 + Z.max 0 (height rr)) by lia. split_and!; (done || lia).
  - done.
  - rewrite fill_app, inorder_fill. cbn. by rewrite <- !app_assoc.
  - cbn [heap] in *. apply changes_trans with (<[ra := Avl_t (ptr_of l) (ptr_of rr) b]> h).
    + apply changes_insert. rewrite inorder_fill. cbn. set_solver.
    + eapply changes_mono; [exact Hc|]. rewrite inorder_fill. unfold path_addrs. set_solver.
Qed.
(** The memory after [s], at the end of the way [L ++ [g]], has taken the place
    of [p]. *)
Lemma stored_splice h h' L g s sb sr p b l : let t := T p b l (fill (L ++ [g]) (T s sb E sr)) in
  stored h t → NoDup (inorder t) →
  h' !! s = Some (Avl_t (ptr_of l) (ptr_of (fill (L ++ [g]) sr)) b) →
  h' !! f_addr g = Some (cell (f_dir g) (f_bal g) (ptr_of (f_sib g)) (ptr_of sr)) →
  changes [s; f_addr g] h h' → stored h' (T s b l (fill (L ++ [g]) sr)).
Proof.
  intros t (_ & Hl & [HL (_ & _ & Hsr)]%stored_fill) Hd Hs Hg Hc. unfold t in Hd. clear t. cbn [inorder] in Hd.
  apply NoDup_app in Hd as (N1 & N2 & [_ N4]%NoDup_cons).
  assert (Hsin : s ∈ inorder (fill (L ++ [g]) (T s sb E sr))) by (rewrite inorder_fill; cbn; set_solver).
  assert (Hgin : f_addr g ∈ path_addrs (L ++ [g])) by (rewrite path_addrs_app, path_addrs_cons; auto).
  assert (Hgin' : f_addr g ∈ inorder (fill (L ++ [g]) (T s sb E sr))).
  { rewrite inorder_fill. unfold path_addrs in Hgin. set_solver. }
  apply NoDup_fill in N4 as (N5 & N6 & N7). cbn [inorder app] in N6, N7. apply NoDup_cons in N6 as [N8 N9].
  split; [done|]. split; [|apply stored_fill; split].
  - eapply stored_changes; [exact Hc| |exact Hl]. set_solver.
  - eapply stored_path_other; [|eapply stored_path_put; [exact HL|done]]. intros a Ha.
    destruct (decide (a = f_addr g)) as [->|Hne]; [by rewrite Hg, lookup_insert_eq|].
    rewrite lookup_insert_ne by done. apply Hc. set_solver.
  - eapply stored_changes; [exact Hc| |exact Hsr]. set_solver.
Qed.
(** The code of [unlink] when [s] takes the place of [p], on the cells it reads. *)
Lemma unlink_next_run fuel rt h st p b l x r s sr g gb gs between rb y' rr sb :
  h !! p = Some (Avl_t l r b) → h !! x = Some (Avl_t (Some y') rr rb) →
  find_next fuel x [] (S (length st)) (Tree rt h) = Ok ((s, g, between), Tree rt h) →
  h !! s = Some (Avl_t None sr sb) → h !! g = Some (cell false gb gs (Some s)) → r = Some x →
  s ≠ g → p ≠ s → p ≠ g → ∃ h',
  (∀ st2, link_top st (Some s) (Tree rt h') = Ok (tt, st2) →
     unlink fuel p st (Tree rt h) = Ok (between ++ (At s, true) :: st, st2)) ∧
  h' !! s = Some (Avl_t l r b) ∧ h' !! g = Some (cell false gb gs sr) ∧ changes [s; g] h h'.
Proof.
  intros Hpc Hxc K Hsc Hgc -> Hsg Hps Hpg. eexists. split; [|split_and!].
  - intros st2 K2. unfold unlink. rewrite bind_run, (run_get_link _ _ _ _ _ Hpc). cbn [link avl_link1].
    rewrite bind_run, (run_get_link _ _ _ _ _ Hxc). cbn [link avl_link0]. rewrite bind_run, K. do 8 hstep.
    rewrite bind_run. rewrite K2. done.
  - lookup.
  - lookup.
  - intros a Ha. rewrite !lookup_insert_ne by set_solver. done.
Qed.
Lemma unlink_next fuel st fs p b l x rb y rr : let r := T x rb y rr in let t := fill fs (T p b l r) in
  y ≠ E → holds st t → NoDup (inorder t) → balanced t → height t ≤ 91 → (length (inorder t) ≤ fuel)%nat →
  unlinked st t (before fs ++ inorder l ++ inorder r ++ after fs) (unlink fuel p (stk fs) st).
Proof.
  intros r t Hy Hh Hd Hb Hlen Hfuel. unfold t in *. clear t. pose proof (NoDup_fill _ _ Hd) as (D1 & D2 & D3).
  destruct st as [rt h]. pose proof Hh as [Hp HT]%holds_fill. pose proof HT as (Hpc & Hl & Hr).
  apply balanced_fill in Hb as [Hok (Eb & Rb & Hbl & Hbr)]. rewrite height_fill in Hlen. cbn [heap] in *.
  pose proof (height_nonneg l). pose proof (height_nonneg r). cbn [height] in Hlen, Hok.
  pose proof (ctx_height_length fs (1 + Z.max (height l) (height r)) ltac:(lia)) as Hfs.
  destruct (find_next_spec y fuel x rb rr [] (S (length (stk fs))) rt h Hy Hr) as (L & g & s & sb & sr & Er & HL & K).
  { rewrite inorder_fill in Hfuel. unfold r in Hfuel. cbn [inorder] in Hfuel. rewrite !length_app in Hfuel.
    cbn [length] in Hfuel. rewrite length_app in Hfuel. lia. }
  { rewrite stk_length. cbn [length Nat.add]. unfold r in Hlen, Hfs. cbn [height] in Hlen, Hfs. lia. }
  fold r in Er. rewrite app_nil_r in K. assert (Hx : ptr_of r = Some x) by done.
  assert (Hyx : ∃ y', ptr_of y = Some y') by (destruct y; [done|by eexists]). destruct Hyx as [y' Hy'].
  assert (Hxc : h !! x = Some (Avl_t (Some y') (ptr_of rr) rb)) by (destruct Hr as (Hr & _); by rewrite Hr, Hy').
  clearbody r. subst r.
  pose proof HT as (_ & _ & [HLs (Hsc & _ & _)]%stored_fill). apply stored_path_app in HLs as [_ (Hgc & _ & _)].
  assert (Hg : f_dir g = false) by (apply Forall_app in HL as [_ HL]; by inversion HL).
  set (r := fill (L ++ [g]) (T s sb E sr)) in *. set (W := T s b l (fill (L ++ [g]) sr)).
  assert (Hin : s ∈ inorder r ∧ f_addr g ∈ inorder r).
  { unfold r. rewrite inorder_fill. split; [cbn; set_solver|].
    assert (Hgin : f_addr g ∈ path_addrs (L ++ [g])) by (rewrite path_addrs_app, path_addrs_cons; auto).
    unfold path_addrs in Hgin. set_solver. }
  assert (Hsg : s ≠ f_addr g).
  { cbn [inorder] in D2. apply NoDup_app in D2 as (_ & _ & [_ D4]%NoDup_cons). unfold r in D4.
    apply NoDup_fill in D4 as (_ & _ & D4). intros ->. apply (D4 (f_addr g)); [rewrite path_addrs_app, path_addrs_cons; auto|].
    cbn. set_solver. }
  assert (Hps : p ≠ s ∧ p ≠ f_addr g).
  { cbn [inorder] in D2. apply NoDup_app in D2 as (_ & _ & [D4 _]%NoDup_cons). destruct Hin. split; by intros ->. }
  destruct Hps as [Hps Hpg]. cbn [ptr_of top] in *. rewrite Hg in Hgc.
  destruct (unlink_next_run fuel rt h (stk fs) p b _ x _ s _ _ _ _ _ _ _ _ _ Hpc Hxc K Hsc Hgc Hx Hsg Hps Hpg)
    as (h' & Hrun & Hs' & Hg' & Hc'). rewrite <- Hg in Hg'.
  assert (HW : stored h' W).
  { eapply stored_splice; [exact HT|exact D2| |exact Hg'|exact Hc']. rewrite Hs'. unfold r. by rewrite !ptr_of_fill, !top_app. }
  assert (HiW : inorder W = inorder l ++ inorder r).
  { unfold W, r. cbn [inorder]. rewrite !inorder_fill, (leftmost_before _ HL). done. }
  destruct (link_top_fill (Tree rt h') fs (Some p) W) as (st2 & K2 & H2 & C2); [|done|done| |].
  { eapply holds_path_changes; [exact Hp|exact Hc'|]. cbn [inorder] in D3. set_solver. }
  { rewrite HiW. cbn [inorder] in D3. set_solver. }
  exists st2, (fs ++ [Frame true s b l] ++ L ++ [g]), sr. split_and!.
  - rewrite (Hrun st2 K2). rewrite (app_assoc fs), stk_app, stk_snoc. done.
  - rewrite fill_app. exact H2.
  - assert (Hk : ctx_height (L ++ [g]) (height sr + 1) = height r).
    { unfold r. rewrite height_fill. cbn [height]. pose proof (height_nonneg sr). f_equal. lia. }
    unfold r in Hbr. apply balanced_fill in Hbr as [Hok' _]. cbn [height] in Hok'.
    replace (1 + Z.max 0 (height sr)) with (height sr + 1) in Hok' by (pose proof (height_nonneg sr); lia).
    apply ctx_ok_app. cbn [app ctx_height ctx_ok f_sib f_bal f_dir sign]. rewrite Hk. split_and!; (done || lia).
  - unfold r in Hbr. by apply balanced_fill in Hbr as (_ & _ & _ & _ & Hbr).
  - rewrite fill_app, inorder_fill. change (fill ([Frame true s b l] ++ L ++ [g]) sr) with W. by rewrite HiW, <- !app_assoc.
  - cbn [heap] in *. rewrite inorder_fill. apply changes_trans with h'; eapply changes_mono; [exact Hc'| |exact C2|].
    + cbn [inorder]. set_solver.
    + unfold path_addrs. set_solver.
Qed.
(** [unlink] in every case. *)
Lemma unlink_spec fuel st fs p b l r : let t := fill fs (T p b l r) in
  holds st t → NoDup (inorder t) → balanced t → height t ≤ 91 → (length (inorder t) ≤ fuel)%nat →
  unlinked st t (before fs ++ inorder l ++ inorder r ++ after fs) (unlink fuel p (stk fs) st).
Proof.
  intros t Hh Hd Hb Hlen Hfuel. destruct r as [|x rb y rr]; [by apply unlink_no_right|].
  destruct (decide (ptr_of y = None)) as [Hy|Hy]; [destruct y; [|done]; by apply unlink_right|].
  apply unlink_next; try done. by intros ->.
Qed.

(** ** The way up *)

(** The rotation of [rebalance]. *)
Definition rotate_up (y : addr) (d : bool) (up : stack) : cst avl_tree_type unit :=
  x ← get_link (At y) (negb d); x ← deref x;
  bx ← get_balance x;
  if bx =? sign d then
    w ← rotate_double y x (negb d); _ ← link_top up (Some w); rebalance up
  else
    _ ← rotate_single y x (negb d); _ ← link_top up (Some x);
    if bx =? 0 then _ ← put_balance x (sign d); put_balance y (- sign d)
    else _ ← put_balance y 0; _ ← put_balance x 0; rebalance up.
Lemma rebalance_run fs f r h p : h !! f_addr f = Some (cell (f_dir f) (f_bal f) (ptr_of (f_sib f)) p) →
  let b := f_bal f - sign (f_dir f) in
  let st1 := Tree r (<[f_addr f := cell (f_dir f) b (ptr_of (f_sib f)) p]> h) in
  rebalance (stk (fs ++ [f])) (Tree r h) =
  (if b =? - sign (f_dir f) then Ok (tt, st1)
   else if b =? -2 * sign (f_dir f) then rotate_up (f_addr f) (f_dir f) (stk fs) st1
   else rebalance (stk fs) st1).
Proof.
  intros Hf b st1. rewrite stk_snoc. cbn [rebalance ent].
  destruct (stk fs) as [|e up] eqn:Es; [by apply (f_equal length) in Es; rewrite stk_length in Es|]. rewrite <- Es.
  do 2 hstep. fold b. fold st1. by repeat case_match.
Qed.
(** A subtree one level lower than before, or as high as before: the code goes on
    upwards, or stops. *)
Definition moved_up (fs : list frame) (k : Z) (t : tree) (st : avl_tree_type) (r : cres (unit * avl_tree_type)) : Prop :=
  ∃ st' W, holds st' (fill fs W) ∧ balanced W ∧ inorder W = inorder t ∧
    changes (inorder (fill fs t)) (heap st) (heap st') ∧
    ((r = Ok (tt, st') ∧ height W = k) ∨ (r = rebalance (stk fs) st' ∧ height W = k - 1)).

(** [x] is the child on the higher side, and leans the other way. *)
Lemma rotate_up_double fs e y x w bx bw u P Wn We st : let t := node e y (2 * sign e) u (node e x bx (node e w bw Wn We) P) in
  holds st (fill fs t) → NoDup (inorder (fill fs t)) → balanced u → balanced (node e x bx (node e w bw Wn We) P) →
  height (node e x bx (node e w bw Wn We) P) = height u + 2 → bx = - sign e →
  moved_up fs (height u + 3) t st (rotate_up y (negb e) (stk fs) st).
Proof.
  intros t Hh Hd Hbu Hbx Hk Eb. pose proof (NoDup_fill _ _ Hd) as (D1 & D2 & D3). destruct st as [r h].
  apply holds_fill in Hh as [Hp Ht]. cbn [heap] in *. pose proof (proj1 (stored_node _ _ _ _ _ _) Ht) as (Hy & _ & (Hx & _ & _)%stored_node).
  destruct (rotate_double_tree r h e y x w _ bx bw u P Wn We Ht D2) as (h1 & K1 & S1 & C1). fold t in C1.
  set (W := node e w 0 _ _) in S1. assert (HW : inorder W = inorder t) by apply inorder_double.
  destruct (link_top_fill (Tree r h1) fs (ptr_of t) W) as (st2 & K2 & H2 & C2); [|done|done|by rewrite HW|].
  { by eapply holds_path_changes. }
  exists st2, W. split; [done|]. apply balanced_node in Hbx as (Ebx & _ & (Ebw & Rbw & HWn & HWe)%balanced_node & HP).
  rewrite !height_node in *. rewrite ptr_of_node in Hy.
  assert (height P = height u ∧ height u = Z.max (height Wn) (height We)) as [E1 E2].
  { rewrite Eb in Ebx. destruct e; cbn [sign] in *; lia. }
  destruct (double_balances e bw (height Wn) (height We) (height u) (height P) Ebw Rbw E2 E1) as (B1 & B2 & B3 & B4).
  split. { unfold W. rewrite !balanced_node, !height_node. split_and!; try done; destruct e; cbn [sign] in *; lia. }
  split; [done|]. split.
  { cbn [heap] in *. rewrite inorder_fill. apply changes_trans with h1; eapply changes_mono; [exact C1|set_solver|exact C2|].
    unfold path_addrs. set_solver. }
  right. split; [|unfold W; rewrite !height_node; lia].
  unfold rotate_up. rewrite negb_involutive. do 3 hstep. rewrite Eb.
  assert ((- sign e =? sign (negb e)) = true) as -> by (by destruct e).
  rewrite bind_run, K1. unfold W in K2. rewrite ptr_of_node in K2. by rewrite bind_run, K2.
Qed.
(** New balance factors after a single rotation, in either order. *)
Lemma put_balances_fill r h fs e x y bx by_ bx' by' u P Q : let t := node e x bx (node e y by_ u P) Q in
  holds (Tree r h) (fill fs t) → NoDup (inorder (fill fs t)) → ∃ h',
  (∀ A (k : cst avl_tree_type A), (_ ← put_balance y by'; _ ← put_balance x bx'; k) (Tree r h) = k (Tree r h')) ∧
  (∀ A (k : cst avl_tree_type A), (_ ← put_balance x bx'; _ ← put_balance y by'; k) (Tree r h) = k (Tree r h')) ∧
  holds (Tree r h') (fill fs (node e x bx' (node e y by' u P) Q)) ∧ changes (inorder (fill fs t)) h h'.
Proof.
  intros t Hh Hd. pose proof (NoDup_fill _ _ Hd) as (D1 & D2 & D3). apply holds_fill in Hh as [Hp Ht]. cbn [heap] in *.
  pose proof (proj1 (stored_node _ _ _ _ _ _) Ht) as (X1 & (Y1 & _ & _)%stored_node & _).
  assert (Hxy : x ∈ inorder t ∧ y ∈ inorder t) by (unfold t; rewrite !elem_of_node; auto). destruct Hxy as [Hx Hy].
  assert (Hne : x ≠ y).
  { unfold t in D2. apply NoDup_node in D2 as (_ & _ & D2 & _). intros ->. apply D2. rewrite elem_of_node. auto. }
  destruct (put_two_balances r h x y bx' by' _ _ Hne X1 Y1) as (h2 & K2 & X2 & Y2 & C2).
  destruct (put_two_balances r h y x by' bx' _ _ (not_eq_sym Hne) Y1 X1) as (h3 & K3 & Y3 & X3 & C3).
  assert (h3 = h2) as ->.
  { apply map_eq. intros a. destruct (decide (a = x)) as [->|]; [congruence|].
    destruct (decide (a = y)) as [->|]; [congruence|]. rewrite C2, C3; set_solver. }
  exists h2. split; [done|]. split; [done|]. split.
  - apply holds_fill. split; [|by eapply single_balances]. rewrite ptr_of_node. unfold t in Hp. rewrite ptr_of_node in Hp.
    eapply holds_path_changes; [exact Hp|exact C2|]. set_solver.
  - eapply changes_mono; [exact C2|]. rewrite inorder_fill. set_solver.
Qed.
Lemma bind_unit {S} (m : cst S unit) (a : unit) (st st' : S) : (_ ← m; mret tt) st = Ok (a, st') → m st = Ok (tt, st').
Proof. rewrite bind_run. destruct (m st) as [[[] s']| |]; [|done|done]. by intros [= _ ->]. Qed.
(** [x] is the child on the higher side, and does not lean the other way. *)
Lemma rotate_up_single fs e y x bx u P Q st : let t := node e y (2 * sign e) u (node e x bx P Q) in
  holds st (fill fs t) → NoDup (inorder (fill fs t)) → balanced u → balanced (node e x bx P Q) →
  height (node e x bx P Q) = height u + 2 → bx ≠ - sign e →
  moved_up fs (height u + 3) t st (rotate_up y (negb e) (stk fs) st).
Proof.
  intros t Hh Hd Hbu Hbx Hk Nb. pose proof (NoDup_fill _ _ Hd) as (D1 & D2 & D3). destruct st as [r h].
  apply holds_fill in Hh as [Hp Ht]. cbn [heap] in *. pose proof (proj1 (stored_node _ _ _ _ _ _) Ht) as (Hy & _ & (Hx & _ & _)%stored_node).
  destruct (rotate_single_tree r h e y x _ bx u P Q Ht D2) as (h1 & K1 & S1 & C1). fold t in C1.
  set (W := node e x bx (node e y (2 * sign e) u P) Q) in S1. assert (HW : inorder W = inorder t) by apply inorder_single.
  destruct (link_top_fill (Tree r h1) fs (ptr_of t) W) as (st2 & K2 & H2 & C2); [|done|done|by rewrite HW|].
  { by eapply holds_path_changes. }
  apply balanced_node in Hbx as (Ebx & Rbx & HP & HQ). rewrite height_node in Hk. rewrite ptr_of_node in Hy.
  assert (Hch : changes (inorder (fill fs t)) h (heap st2)).
  { cbn [heap] in *. rewrite inorder_fill. apply changes_trans with h1; eapply changes_mono; [exact C1|set_solver|exact C2|].
    unfold path_addrs. set_solver. }
  assert (Hd2 : NoDup (inorder (fill fs W))) by (by rewrite inorder_fill, HW, <- inorder_fill).
  assert (Hin : inorder (fill fs W) = inorder (fill fs t)) by (by rewrite !inorder_fill, HW).
  assert (Hrun : rotate_up y (negb e) (stk fs) (Tree r h) =
    (if bx =? 0 then _ ← put_balance x (- sign e); put_balance y (sign e)
     else _ ← put_balance y 0; _ ← put_balance x 0; rebalance (stk fs)) st2).
  { unfold rotate_up. rewrite negb_involutive. do 3 hstep.
    assert ((bx =? sign (negb e)) = false) as -> by (apply Z.eqb_neq; by destruct e).
    rewrite bind_run, K1. unfold W in K2. rewrite ptr_of_node in K2. rewrite bind_run, K2. by destruct e. }
  destruct st2 as [r2 h2]. cbn [heap] in *. rewrite Hrun.
  destruct (put_balances_fill r2 h2 fs e x y bx (2 * sign e) (if bx =? 0 then - sign e else 0) (if bx =? 0 then sign e else 0) u P Q H2 Hd2)
    as (h3 & K3 & K4 & H3 & C3).
  exists (Tree r2 h3), (node e x (if bx =? 0 then - sign e else 0) (node e y (if bx =? 0 then sign e else 0) u P) Q).
  split; [done|]. rewrite !balanced_node, !height_node, (inorder_single e y x (2 * sign e) bx).
  fold W in C3. rewrite Hin in C3. cbn [heap].
  destruct (Z.eqb_spec bx 0) as [E0|E0].
  - assert (height P = height Q ∧ height P = height u + 1) as [E1 E2] by (destruct e; cbn [sign] in *; lia).
    split; [split_and!; try done; destruct e; cbn [sign] in *; lia|]. split; [done|]. split; [by eapply changes_trans|].
    left. split; [|lia]. pose proof (K4 _ (mret tt)) as K5. rewrite bind_run in K5. rewrite bind_run.
    destruct (put_balance x (- sign e) (Tree r2 h2)) as [[? ?]| |]; [|done|done]. by apply bind_unit in K5.
  - assert (height P + 1 = height Q ∧ height P = height u) as [E1 E2] by (destruct e; cbn [sign] in *; lia).
    split; [split_and!; try done; lia|]. split; [done|]. split; [by eapply changes_trans|].
    right. split; [by rewrite K3|lia].
Qed.
Lemma rotate_up_spec fs d y s u st : let t := node d y (-2 * sign d) s u in
  holds st (fill fs t) → NoDup (inorder (fill fs t)) → balanced u → balanced s → height s = height u + 2 →
  moved_up fs (height u + 3) t st (rotate_up y d (stk fs) st).
Proof.
  intros t. pose proof (height_nonneg u). unfold t. rewrite <- (negb_involutive d). set (e := negb d). rewrite node_neg.
  assert (-2 * sign (negb e) = 2 * sign e) as -> by (by destruct e). intros Hh Hd Hbu Hbs Hk.
  destruct (tree_node e s) as [->|(x & bx & P & Q & ->)]; [cbn in Hk; lia|].
  destruct (Z.eq_dec bx (- sign e)) as [Eb|Nb]; [|by apply rotate_up_single].
  destruct (tree_node e P) as [->|(w & bw & Wn & We & ->)]; [|by apply rotate_up_double].
  exfalso. apply balanced_node in Hbs as (Eb' & _). rewrite height_node in Hk. pose proof (height_nonneg Q).
  cbn [height] in *. rewrite Eb in Eb'. destruct e; cbn [sign] in *; lia.
Qed.
(** One turn of the loop. *)
Lemma rebalance_step fs f u st : let t := fnode f u in
  holds st (fill fs t) → NoDup (inorder (fill fs t)) → ctx_ok [f] (height u + 1) → balanced u →
  moved_up fs (ctx_height [f] (height u + 1)) t st (rebalance (stk (fs ++ [f])) st).
Proof.
  intros t Hh Hd (Eb & Rb & Hsib & _) Hbu. pose proof (NoDup_fill _ _ Hd) as (D1 & D2 & D3). destruct st as [r h].
  destruct f as [d y b s]. unfold t, fnode in *. clear t. cbn [ctx_height f_dir f_addr f_bal f_sib] in *.
  apply holds_fill in Hh as [Hp Ht]. cbn [heap] in *. rewrite ptr_of_node in Hp.
  pose proof (proj1 (stored_node _ _ _ _ _ _) Ht) as (Hy & Hs & Hu).
  pose proof (NoDup_node _ _ _ _ _ D2) as (_ & _ & Ys & Yu & _).
  set (b' := b - sign d). set (t1 := node d y b' s u). set (h1 := <[y := cell d b' (ptr_of s) (ptr_of u)]> h).
  assert (Hi : inorder t1 = inorder (node d y b s u)) by (unfold t1; by destruct d).
  assert (H1 : holds (Tree r h1) (fill fs t1)).
  { apply holds_fill. unfold t1. rewrite ptr_of_node. split.
    - eapply holds_path_changes; [exact Hp|apply (changes_insert [y]); set_solver|].
      intros a Ha Hay. apply (D3 a Ha). apply list_elem_of_singleton in Hay as ->. rewrite elem_of_node. auto.
    - cbn [heap]. apply stored_node. split; [apply lookup_insert_eq|]. split; by apply stored_insert. }
  assert (C1 : changes (inorder (fill fs (node d y b s u))) h h1).
  { apply changes_insert. rewrite inorder_fill, !elem_of_app, elem_of_node. auto. }
  assert (Hstay : ∀ rr, balanced t1 → (rr = Ok (tt, Tree r h1) ∧ height t1 = 1 + Z.max (height s) (height u + 1)) ∨
      (rr = rebalance (stk fs) (Tree r h1) ∧ height t1 = 1 + Z.max (height s) (height u + 1) - 1) →
    moved_up fs (1 + Z.max (height s) (height u + 1)) (node d y b s u) (Tree r h) rr).
  { intros rr Hb1 Hrr. by exists (Tree r h1), t1. }
  rewrite (rebalance_run fs (Frame d y b s) r h (ptr_of u) Hy). cbn [f_dir f_addr f_bal f_sib]. fold b' h1.
  assert (Hb1 : -1 ≤ b' ≤ 1 → balanced t1).
  { intros Rb'. unfold t1. apply balanced_node. split; [unfold b'; destruct d; cbn [sign] in *; lia|done]. }
  destruct (Z.eqb_spec b' (- sign d)) as [E1|N1]; [|destruct (Z.eqb_spec b' (-2 * sign d)) as [E2|N2]].
  - apply Hstay; [apply Hb1; destruct d; cbn [sign] in *; lia|]. left. split; [done|]. unfold t1. rewrite height_node.
    unfold b' in E1. destruct d; cbn [sign] in *; lia.
  - assert (Hk : height s = height u + 2) by (unfold b' in E2; destruct d; cbn [sign] in *; lia).
    rewrite Hk. replace (1 + Z.max (height u + 2) (height u + 1)) with (height u + 3) by lia.
    unfold t1 in H1, Hi. rewrite E2 in H1, Hi.
    destruct (rotate_up_spec fs d y s u (Tree r h1)) as (st' & W & M1 & M2 & M3 & M4 & M5); try done.
    { by rewrite inorder_fill, Hi, <- inorder_fill. }
    exists st', W. split; [done|]. split; [done|]. split; [by rewrite M3|]. split; [|done].
    cbn [heap] in *. eapply changes_trans; [exact C1|]. eapply changes_mono; [exact M4|].
    rewrite (inorder_fill fs (node d y (-2 * sign d) s u)), Hi, <- inorder_fill. done.
  - apply Hstay; [apply Hb1; unfold b' in *; destruct d; cbn [sign] in *; lia|]. right. split; [done|]. unfold t1. rewrite height_node.
    unfold b' in *. destruct d; cbn [sign] in *; lia.
Qed.
Lemma rebalance_spec gs : ∀ st u, holds st (fill gs u) → NoDup (inorder (fill gs u)) → ctx_ok gs (height u + 1) → balanced u →
  ∃ st' t', rebalance (stk gs) st = Ok (tt, st') ∧ holds st' t' ∧ balanced t' ∧ inorder t' = inorder (fill gs u) ∧
    changes (inorder (fill gs u)) (heap st) (heap st').
Proof.
  induction gs as [|f fs IH] using rev_ind; intros st u Hh Hd Hok Hbu.
  { exists st, u. by split_and!. }
  rewrite fill_app in *. apply ctx_ok_app in Hok as [Hok Hokf].
  destruct (rebalance_step fs f u st Hh Hd Hokf Hbu) as (st1 & W & H1 & B1 & I1 & C1 & Hcase).
  assert (Hin : inorder (fill fs W) = inorder (fill fs (fill [f] u))).
  { by rewrite (inorder_fill fs W), (inorder_fill fs (fill [f] u)), I1. }
  destruct Hcase as [[-> Hk]|[-> Hk]].
  - exists st1, (fill fs W). split_and!; try done. apply balanced_fill. by rewrite Hk.
  - destruct (IH st1 W) as (st' & t' & K & H2 & B2 & I2 & C2); [done|by rewrite Hin| |done|].
    { replace (height W + 1) with (ctx_height [f] (height u + 1)) by lia. done. }
    exists st', t'. rewrite Hin in *. split_and!; try done. by eapply changes_trans.
Qed.

(** ** The whole removal *)

Section removal.
Context (compar : addr → addr → Z) `{!Comparison compar}.

Lemma sorted_remove l1 x l2 : sorted compar (l1 ++ x :: l2) → sorted compar (l1 ++ l2).
Proof using Type*.
  intros (S1 & S2 & S3)%(sorted_app compar). inversion S2; subst. apply (sorted_app compar). split; [done|].
  split; [done|]. set_solver.
Qed.
(** [avl_remove()]. *)
Lemma avl_remove_spec st t item : valid compar st t →
  (avl_remove compar item st = Ok (None, st) ∧ ∀ x, x ∈ inorder t → compar item x ≠ 0) ∨
  (∃ p st' t' l1 l2, avl_remove compar item st = Ok (Some p, st') ∧ valid compar st' t' ∧ compar item p = 0 ∧
     inorder t = l1 ++ p :: l2 ∧ inorder t' = l1 ++ l2 ∧ changes (inorder t) (heap st) (heap st')).
Proof using Type*.
  intros [Hh Hs Hb Hn]. pose proof (sorted_NoDup compar _ Hs) as Hd. pose proof (balanced_height t Hb Hn) as Hlen.
  pose proof (stored_size _ _ (proj2 Hh) Hd) as Hsz.
  assert (Hfind : find_node compar (S (size (heap st))) item Holder (-1) [] st = find_below compar item (size (heap st)) [] st) by done.
  unfold avl_remove. rewrite bind_run. cbn [cget]. rewrite bind_run, Hfind.
  destruct (find_below_spec compar item t (size (heap st)) [] st) as [[-> (gs & Et & Hr)]|(gs & p & b & l & r & -> & Et & Hp)];
    [done|by constructor|done|cbn; lia| |]; cbn [fill] in Et; subst t.
  - left. split; [done|]. by apply (routed_none compar).
  - right. destruct (unlink_spec (size (heap st)) st gs p b l r Hh Hd Hb Hlen Hsz) as (st1 & gs' & u & K1 & H1 & Hok & Bu & I1 & C1).
    rewrite inorder_fill in Hs. cbn [inorder] in Hs. rewrite <- !app_assoc, app_assoc in Hs. cbn [app] in Hs.
    assert (Hs1 : sorted compar (inorder (fill gs' u))).
    { rewrite I1, app_assoc. by eapply sorted_remove. }
    destruct (rebalance_spec gs' st1 u H1 (sorted_NoDup compar _ Hs1) Hok Bu) as (st2 & t' & K2 & H2 & B2 & I2 & C2).
    exists p, st2, t', (before gs ++ inorder l), (inorder r ++ after gs). split; [by rewrite bind_run, K1, bind_run, K2|].
    split_and!; [|done| | |].
    + split; [done|by rewrite I2|done|]. unfold nodes in *. rewrite I2, I1. rewrite inorder_fill in Hn.
      cbn [inorder] in Hn. rewrite !length_app in *. cbn [length] in Hn. lia.
    + rewrite inorder_fill. cbn [inorder]. rewrite <- !app_assoc. by cbn.
    + by rewrite I2, I1, <- !app_assoc.
    + eapply changes_trans; [exact C1|]. eapply changes_mono; [exact C2|]. rewrite I1, inorder_fill. cbn [inorder]. set_solver.
Qed.
End removal.
