(* ===== verification/AvlThms.v ===== *)
(** * avl.c implements a sorted set

    The abstract set is the list of the items in order.  Any sequence of calls of
    [avl_search()], [avl_insert()] and [avl_remove()] on the memory returns what the
    set returns, and [avl_traverse()] visits the set in order. *)

From S2P Require Import Prelude Avl AvlSpec AvlInsert AvlRemove.
#[local] Open Scope Z_scope.

(** ** The abstract set *)

Section set.
Context (compar : addr → addr → Z).

Inductive avl_op : Type := Search (item : addr) | Insert (item : addr) | Remove (item : addr).
Definition equal_item (item : addr) (l : list addr) : option addr := find (λ x, compar item x =? 0) l.
Definition set_insert (item : addr) (l : list addr) : list addr :=
  filter (λ x, compar x item < 0) l ++ item :: filter (λ x, compar item x < 0) l.
Definition set_op (o : avl_op) (l : list addr) : ptr * list addr :=
  match o with
  | Search item => (equal_item item l, l)
  | Insert item => match equal_item item l with Some a => (Some a, l) | None => (Some item, set_insert item l) end
  | Remove item => match equal_item item l with Some a => (Some a, filter (λ x, x ≠ a) l) | None => (None, l) end
  end.
Fixpoint set_ops (os : list avl_op) (l : list addr) : list ptr * list addr :=
  match os with
  | [] => ([], l)
  | o :: os => let '(p, l) := set_op o l in let '(ps, l) := set_ops os l in (p :: ps, l)
  end.

(** The same calls on the memory. *)
Definition run_op (o : avl_op) : cst avl_tree_type ptr :=
  match o with
  | Search item => avl_search compar item
  | Insert item => a ← avl_insert compar item; mret (Some a)
  | Remove item => avl_remove compar item
  end.
Fixpoint run_ops (os : list avl_op) : cst avl_tree_type (list ptr) :=
  match os with
  | [] => mret []
  | o :: os => p ← run_op o; ps ← run_ops os; mret (p :: ps)
  end.
End set.

(** ** Lists in order *)

Lemma filter_all_in (P : addr → Prop) `{!∀ x, Decision (P x)} (l : list addr) : (∀ x, x ∈ l → P x) → filter P l = l.
Proof.
  induction l as [|x l IH]; intros Hl; [done|]. rewrite filter_cons_True by (apply Hl; set_solver). f_equal.
  apply IH. set_solver.
Qed.
Lemma filter_none_in (P : addr → Prop) `{!∀ x, Decision (P x)} (l : list addr) : (∀ x, x ∈ l → ¬ P x) → filter P l = [].
Proof.
  induction l as [|x l IH]; intros Hl; [done|]. rewrite filter_cons_False by (apply Hl; set_solver).
  apply IH. set_solver.
Qed.

Section lists.
Context (compar : addr → addr → Z) `{!Comparison compar}.

Lemma equal_item_none item l : (∀ x, x ∈ l → compar item x ≠ 0) → equal_item compar item l = None.
Proof using Type*.
  induction l as [|x l IH]; intros H; [done|]. cbn. destruct (Z.eqb_spec (compar item x) 0) as [E|_].
  - exfalso. apply (H x); [set_solver|done].
  - apply IH. set_solver.
Qed.
(** Two items of the set are never equal. *)
Lemma equal_item_some item a l : sorted compar l → a ∈ l → compar item a = 0 → equal_item compar item l = Some a.
Proof using Type*.
  induction 1 as [|x l _ IH Hx]; intros Ha H0; [set_solver|]. rewrite Forall_forall in Hx.
  unfold equal_item in *. cbn [find]. apply elem_of_cons in Ha as [->|Ha]; [by rewrite H0|].
  destruct (Z.eqb_spec (compar item x) 0) as [E|_]; [|by apply IH]. exfalso.
  specialize (Hx a Ha). pose proof (before_equal_l compar item x a E Hx) as Hb. unfold before_ in Hb. lia.
Qed.
Lemma set_insert_at item l1 l2 : sorted compar (l1 ++ item :: l2) → set_insert compar item (l1 ++ l2) = l1 ++ item :: l2.
Proof using Type*.
  intros (S1 & S2 & S3)%(sorted_app compar). inversion S2 as [|? ? S4 S5]; subst. rewrite Forall_forall in S5.
  assert (H1 : ∀ x, x ∈ l1 → compar x item < 0 ∧ ¬ compar item x < 0).
  { intros x Hx. specialize (S3 x item Hx ltac:(set_solver)). unfold before_ in S3. pose proof (compar_opp item x). pose proof (compar_opp x item). lia. }
  assert (H2 : ∀ x, x ∈ l2 → compar item x < 0 ∧ ¬ compar x item < 0).
  { intros x Hx. specialize (S5 x Hx). unfold before_ in S5. pose proof (compar_opp item x). pose proof (compar_opp x item). lia. }
  unfold set_insert. rewrite !filter_app.
  rewrite (filter_all_in _ l1) by (intros x Hx; by apply H1). rewrite (filter_none_in _ l2) by (intros x Hx; by apply H2).
  rewrite (filter_none_in _ l1) by (intros x Hx; by apply H1). rewrite (filter_all_in _ l2) by (intros x Hx; by apply H2).
  by rewrite app_nil_r.
Qed.
Lemma filter_remove p l1 l2 : sorted compar (l1 ++ p :: l2) → filter (λ x, x ≠ p) (l1 ++ p :: l2) = l1 ++ l2.
Proof using Type*.
  intros (N1 & N2 & [N3 _]%NoDup_cons)%(sorted_NoDup compar)%NoDup_app. rewrite filter_app, filter_cons_False by (intros H; by apply H).
  rewrite !filter_all_in; [done| |]; [intros x Hx ->; done|intros x Hx ->; by apply (N2 p Hx), elem_of_cons; left].
Qed.

(** ** Refinement *)

Lemma run_op_spec o st t : valid compar st t → nodes t + 1 < 2 ^ 64 → ∃ st' t',
  run_op compar o st = Ok (fst (set_op compar o (inorder t)), st') ∧ valid compar st' t' ∧
  inorder t' = snd (set_op compar o (inorder t)).
Proof using Type*.
  intros Hv Hn. pose proof (valid_sorted _ _ _ Hv) as Hs. destruct o as [item|item|item]; cbn [run_op set_op].
  - exists st, t. cbn [snd fst]. split; [|done].
    destruct (avl_search_spec compar item st t Hv) as [(a & -> & Ha & H0)|[-> H]]; cbn [fst].
    + by rewrite (equal_item_some item a).
    + by rewrite equal_item_none.
  - rewrite bind_run. destruct (avl_insert_spec compar st t item Hv Hn) as [(a & -> & Ha & H0)|(st' & t' & l1 & l2 & -> & Hv' & E1 & E2 & H & _)].
    + exists st, t. by rewrite (equal_item_some item a).
    + exists st', t'. rewrite equal_item_none by done. split; [done|]. split; [done|]. cbn [snd].
      rewrite E1, set_insert_at, E2; [done|]. rewrite <- E2. by apply Hv'.
  - destruct (avl_remove_spec compar st t item Hv) as [[-> H]|(p & st' & t' & l1 & l2 & -> & Hv' & H0 & E1 & E2 & _)].
    + exists st, t. by rewrite equal_item_none.
    + exists st', t'. rewrite (equal_item_some item p); [|done|rewrite E1; set_solver|done].
      split; [done|]. split; [done|]. cbn [snd]. rewrite E1 in *. by rewrite E2, filter_remove.
Qed.
(** A call adds at most one item. *)
Lemma set_op_length o l : (length (snd (set_op compar o l)) ≤ S (length l))%nat.
Proof using Type*.
  destruct o as [item|item|item]; cbn [set_op]; [cbn; lia| |]; destruct (equal_item compar item l) as [a|]; cbn [snd]; try lia.
  - unfold set_insert. rewrite length_app. cbn [length]. enough (length (filter (λ x, (compar x item < 0)%Z) l) +
      length (filter (λ x, (compar item x < 0)%Z) l) ≤ length l)%nat by lia.
    clear -Comparison0. induction l as [|x l IH]; [done|]. rewrite !filter_cons. pose proof (compar_opp x item).
    repeat case_decide; cbn [length]; lia.
  - pose proof (length_filter (λ x : addr, x ≠ a) l). lia.
Qed.
Lemma run_ops_spec os : ∀ st t, valid compar st t → nodes t + Z.of_nat (length os) < 2 ^ 64 → ∃ st' t',
  run_ops compar os st = Ok (fst (set_ops compar os (inorder t)), st') ∧ valid compar st' t' ∧
  inorder t' = snd (set_ops compar os (inorder t)).
Proof using Type*.
  induction os as [|o os IH]; intros st t Hv Hn; [by exists st, t|]. cbn [run_ops set_ops length] in *.
  destruct (run_op_spec o st t Hv ltac:(lia)) as (st1 & t1 & K1 & Hv1 & E1). rewrite bind_run, K1.
  pose proof (set_op_length o (inorder t)) as Hl. destruct (set_op compar o (inorder t)) as [p l]. cbn [fst snd] in *.
  destruct (IH st1 t1 Hv1) as (st2 & t2 & K2 & Hv2 & E2); [unfold nodes in *; rewrite E1; lia|].
  exists st2, t2. rewrite bind_run, K2, E1 in *. destruct (set_ops compar os l) as [ps l']. by cbn in *.
Qed.
End lists.

(** ** Traversal *)

Section visits.
Context {D : Type} (callback : addr → D → Z * D) (m : Z).
Hypothesis callback_small : ∀ a d, fst (callback a d) ≤ m.
(** The items are visited in turn, until the callback returns a negative number. *)
Fixpoint visit (l : list addr) (data : D) (total : Z) : Z * D :=
  match l with
  | [] => (total, data)
  | a :: l => let '(ret, data) := callback a data in if ret <? 0 then (ret, data) else visit l data (total + ret)
  end.

Lemma visit_app l1 l2 : ∀ data total, 0 ≤ total → visit (l1 ++ l2) data total =
  let '(ret, data) := visit l1 data total in if ret <? 0 then (ret, data) else visit l2 data ret.
Proof using Type.
  induction l1 as [|a l1 IH]; intros data total Ht; cbn [app visit].
  { by destruct (Z.ltb_spec total 0); [lia|]. }
  destruct (callback a data) as [ret d]. destruct (Z.ltb_spec ret 0) as [Hr|Hr]; [by destruct (Z.ltb_spec ret 0); [|lia]|].
  apply IH. lia.
Qed.
Lemma visit_total l : ∀ data total, 0 ≤ total → visit l data total =
  let '(ret, data) := visit l data 0 in (if ret <? 0 then ret else total + ret, data).
Proof using Type.
  induction l as [|a l IH]; intros data total Ht; cbn [visit]; [cbn; f_equal; lia|].
  destruct (callback a data) as [ret d]. destruct (Z.ltb_spec ret 0) as [Hr|Hr]; [by destruct (Z.ltb_spec ret 0); [|lia]|].
  rewrite (IH d (total + ret)), (IH d (0 + ret)) by lia. destruct (visit l d 0) as [r d'].
  destruct (Z.ltb_spec r 0); [by destruct (Z.ltb_spec r 0); [|lia]|]. destruct (Z.ltb_spec (0 + ret + r) 0); [lia|]. f_equal; lia.
Qed.
Lemma visit_bound l : 0 ≤ m → ∀ data total, 0 ≤ total → fst (visit l data total) ≤ total + m * Z.of_nat (length l).
Proof using callback_small.
  intros Hm. induction l as [|a l IH]; intros data total Ht; cbn [visit length]; [cbn; lia|].
  pose proof (callback_small a data) as Ha. destruct (callback a data) as [ret d]. cbn in Ha.
  destruct (Z.ltb_spec ret 0); [cbn; nia|]. specialize (IH d (total + ret) ltac:(lia)). lia.
Qed.
Lemma walker_spec st t : 0 ≤ m → m * nodes t ≤ 2 ^ 31 - 1 → ∀ fuel data, stored (heap st) t →
  (length (inorder t) ≤ fuel)%nat →
  match ptr_of t with Some a => avl_walker callback fuel st a data | None => Ok (0, data) end = Ok (visit (inorder t) data 0).
Proof using callback_small.
  intros Hm. unfold nodes. induction t as [|a b l IHl r IHr]; intros Hn fuel data Hs Hfuel; [done|].
  destruct Hs as (Ha & Hl & Hr). cbn [ptr_of inorder] in *. rewrite length_app in *. cbn [length] in *.
  destruct fuel as [|fuel]; [lia|]. cbn [avl_walker]. rewrite Ha. cbn [avl_link0 avl_link1].
  rewrite (IHl ltac:(nia) fuel data Hl) by lia. cbn [mbind cres_bind]. rewrite visit_app by lia. cbn [visit].
  pose proof (visit_bound (inorder l) Hm data 0 ltac:(lia)) as B1. destruct (visit (inorder l) data 0) as [total d1]. cbn [fst] in B1.
  destruct (Z.ltb_spec total 0) as [|Ht]; [done|]. pose proof (callback_small a d1) as B2.
  destruct (callback a d1) as [ret d2]. cbn [fst] in B2. destruct (Z.ltb_spec ret 0) as [|Hret]; [done|].
  unfold add_int. destruct (Z.leb_spec (total + ret) (2 ^ 31 - 1)); [cbn [mbind cres_bind]|nia].
  specialize (IHr ltac:(nia) fuel d2 Hr ltac:(lia)). rewrite (visit_total (inorder r)) by lia.
  pose proof (visit_bound (inorder r) Hm d2 0 ltac:(lia)) as B3.
  destruct r as [|ra rb rl rr]; [cbn; by rewrite Z.add_0_r|]. cbn [ptr_of] in *. rewrite IHr. cbn [mbind cres_bind].
  destruct (visit (inorder (T ra rb rl rr)) d2 0) as [r2 d3]. cbn [fst] in B3.
  destruct (Z.ltb_spec r2 0); [done|]. destruct (Z.leb_spec (total + ret + r2) (2 ^ 31 - 1)); [done|nia].
Qed.
End visits.

(** C18. Any sequence of [avl_search()], [avl_insert()] and [avl_remove()] on a tree runs to its
    end (no access outside the memory or the stacks of [AVL_MAX_HEIGHT] elements),
    returns what the same calls on the sorted set of the items return, and leaves a
    tree that is ordered, balanced, and has the items of that set. *)
Theorem avl_refines_sorted_set compar `{!Comparison compar} st t os :
  valid compar st t → nodes t + Z.of_nat (length os) < 2 ^ 64 → ∃ st' t',
    run_ops compar os st = Ok (fst (set_ops compar os (inorder t)), st') ∧ valid compar st' t' ∧
    inorder t' = snd (set_ops compar os (inorder t)).
Proof. apply run_ops_spec. done. Qed.


(** ** An example *)

Definition by_number (a b : addr) : Z := Z.of_nat a - Z.of_nat b.
#[global] Instance by_number_comparison : Comparison by_number.
Proof. split; unfold by_number; lia. Qed.
Lemma avl_init_valid compar : valid compar avl_init E.
Proof. by split; try constructor. Qed.
Definition example_ops : list avl_op :=
  [Insert 5; Insert 3; Insert 4; Insert 9; Insert 7; Insert 8; Insert 4; Search 7; Remove 5; Remove 6; Remove 3; Search 5]%nat.
Lemma avl_refines_sorted_set_witness : ∃ st' t',
  run_ops by_number example_ops avl_init =
    Ok ([Some 5; Some 3; Some 4; Some 9; Some 7; Some 8; Some 4; Some 7; Some 5; None; Some 3; None]%nat, st') ∧
  valid by_number st' t' ∧ inorder t' = [4; 7; 8; 9]%nat.
Proof.
  apply (avl_refines_sorted_set by_number avl_init E example_ops).
  - apply avl_init_valid.
  - vm_compute. reflexivity.
Defined.
