(* ===== verification/Sanitize.v ===== *)
(** * sanitizers: names, labels and commands made harmless

    [text_sanitize()] and its callers.  The place the result is written to is a
    block of bytes; the source is another text, or the place itself
    ([netdata_fix_chart_name()] sanitizes in place), so that every write of the
    code is seen by its later reads.  Pointers are offsets. *)

From S2P Require Import Prelude CString Inlined SimplePattern Url.
#[local] Open Scope string_scope.
#[local] Open Scope list_scope.
#[local] Open Scope Z_scope.

(** ** Memory *)

Inductive source : Type := Text (s : bytes) | Self.
Definition get_byte (i : nat) : cst bytes ascii := fun m => match m !! i with Some c => Ok (c, m) | None => UB UB_oob end.
Definition put_byte (i : nat) (c : ascii) : cst bytes unit := fun m =>
  if (i <? length m)%nat then Ok (tt, <[i := c]> m) else UB UB_oob.
(** [src[i]] *)
Definition fetch (src : source) (i : nat) : cst bytes ascii :=
  match src with Text s => clift (at_ s i) | Self => get_byte i end.
(** [strncpyz(dst + i, s, n)] *)
Fixpoint strncpyz (i : nat) (s : bytes) (n : nat) : cst bytes unit :=
  match s, n with
  | c :: s, S n => _ ← put_byte i c; strncpyz (S i) s n
  | _, _ => put_byte i NUL
  end.
(** [strlen(dst + i)] *)
Fixpoint strlen_from (fuel : nat) (i : nat) : cst bytes nat :=
  match fuel with
  | O => fun _ => NoFuel
  | S fuel => c ← get_byte i; if is_nul c then mret 0%nat else n ← strlen_from fuel (S i); mret (S n)
  end.

(** ** text_sanitize *)

Definition char_map_t : Type := ascii → ascii.
(** [c] is not a byte of a multi-byte character, and is not visible. *)
Definition is_hidden (c : ascii) : bool :=
  negb (is_nul c) && negb (IS_UTF8_BYTE c) && (isspace c || (code c <? 32) || (code c =? 127) || negb (isprint c)).
Definition is_continuation (c : ascii) : bool := IS_UTF8_BYTE c && negb (IS_UTF8_STARTBYTE c).
Fixpoint skip_leading (fuel : nat) (src : source) (i : nat) : cst bytes nat :=
  match fuel with
  | O => fun _ => NoFuel
  | S fuel => c ← fetch src i; if is_hidden c then skip_leading fuel src (S i) else mret i
  end.
(** [strncpyz((char * )dst, empty, dst_size); dst[dst_size - 1] = '\0';] *)
Definition put_empty (empty : bytes) (dst_size : nat) : cst bytes (Z * Z) :=
  _ ← strncpyz 0 empty dst_size;
  _ ← put_byte (dst_size - 1) NUL;
  n ← strlen_from dst_size 0;
  mret (Z.of_nat n, Z.of_nat n).

Definition utf8_character_bytes (c : ascii) : nat :=
  if Z.land (code c) 224 =? 192 then 2
  else if Z.land (code c) 240 =? 224 then 3
  else if Z.land (code c) 248 =? 240 then 4
  else 1.
(** The [n] bytes at [i] continue a character. *)
Fixpoint all_continue (n : nat) (src : source) (i : nat) : cst bytes bool :=
  match n with
  | O => mret true
  | S n =>
      c ← fetch src i;
      if negb (IS_UTF8_BYTE c) || IS_UTF8_STARTBYTE c then mret false else all_continue n src (S i)
  end.
Definition valid_sequence (src : source) (i : nat) (n : nat) : cst bytes bool :=
  if (n =? 1)%nat then mret false else all_continue (n - 1) src (S i).
(** [*d++ = *src++], [n] times *)
Fixpoint copy_bytes (n : nat) (src : source) (i d : nat) : cst bytes unit :=
  match n with
  | O => mret tt
  | S n => c ← fetch src i; _ ← put_byte d c; copy_bytes n src (S i) (S d)
  end.
(** A byte as two hexadecimal digits; the second one if [d <= end]. *)
Definition put_hex (src : source) (end_ i d : nat) : cst bytes nat :=
  c ← fetch src i;
  _ ← put_byte d (to_hex (Z.shiftr (Z.land (code c) 240) 4));
  if (S d <=? end_)%nat then
    c ← fetch src i;
    _ ← put_byte (S d) (to_hex (Z.land (code c) 15));
    mret (S (S d))
  else mret (S d).
Fixpoint put_hex_rest (fuel : nat) (src : source) (end_ i d : nat) : cst bytes (nat * nat) :=
  match fuel with
  | O => fun _ => NoFuel
  | S fuel =>
      c ← fetch src i;
      if is_continuation c && (d <=? end_)%nat then
        d ← put_hex src end_ i d;
        put_hex_rest fuel src end_ (S i) d
      else mret (i, d)
  end.
Fixpoint skip_continuation (fuel : nat) (src : source) (i : nat) : cst bytes nat :=
  match fuel with
  | O => fun _ => NoFuel
  | S fuel => c ← fetch src i; if is_continuation c then skip_continuation fuel src (S i) else mret i
  end.

Section text_sanitize.
Context (char_map : char_map_t) (utf : bool) (src : source) (end_ : nat).

(** The loop: [i] is [src], [d] is [d - dst].  The end: [d] and [mblen]. *)
Fixpoint copy_loop (fuel : nat) (i d : nat) (last_is_space mblen : Z) : cst bytes (nat * Z) :=
  match fuel with
  | O => fun _ => NoFuel
  | S fuel =>
      c ← fetch src i;
      if negb (is_nul c) && (d <? end_)%nat then
        if IS_UTF8_STARTBYTE c then
          let n := utf8_character_bytes c in
          valid ← valid_sequence src i n;
          if utf then
            if valid && (d + n <=? end_)%nat then
              _ ← copy_bytes n src i d;
              copy_loop fuel (i + n) (d + n) 0 (mblen + 1)
            else
              d ← put_hex src end_ i d;
              '(i, d) ← put_hex_rest fuel src end_ (S i) d;
              copy_loop fuel i d 0 (mblen + 1)
          else
            _ ← put_byte d "_"%char;
            i ← skip_continuation fuel src (S i);
            copy_loop fuel i (S d) 0 (mblen + 1)
        else
          let c := char_map c in
          if Ascii.eqb c " " then
            if last_is_space =? 0 then
              _ ← put_byte d c;
              copy_loop fuel (S i) (S d) (last_is_space + 1) (mblen + 1)
            else copy_loop fuel (S i) d (last_is_space + 1) mblen
          else
            _ ← put_byte d c;
            copy_loop fuel (S i) (S d) 0 (mblen + 1)
      else mret (d, mblen)
  end.
(** [while(d > dst && !IS_UTF8_BYTE( *(d - 1)) && *(d - 1) == ' ')] *)
Fixpoint trim_loop (d : nat) (mblen : Z) : cst bytes (nat * Z) :=
  match d with
  | O => mret (O, mblen)
  | S d' =>
      c ← get_byte d';
      if negb (IS_UTF8_BYTE c) && Ascii.eqb c " " then trim_loop d' (mblen - 1) else mret (d, mblen)
  end.
(** [while( *t == '_') t++; *t == '\0'] *)
Fixpoint only_underscores (fuel : nat) (t : nat) : cst bytes bool :=
  match fuel with
  | O => fun _ => NoFuel
  | S fuel => c ← get_byte t; if Ascii.eqb c "_" then only_underscores fuel (S t) else mret (is_nul c)
  end.
End text_sanitize.

(** The fuel covers the source and the place. *)
Definition source_length (src : source) (m : bytes) : nat := match src with Text s => length s | Self => length m end.
(** The number of bytes, and of characters ([multibyte_length]).  [None]: the
    source is a null pointer. *)
Definition text_sanitize (src : option source) (dst_size : nat) (char_map : char_map_t) (utf : bool) (empty : bytes) :
    cst bytes (Z * Z) :=
  if (dst_size =? 0)%nat then mret (0, 0)
  else
    match src with
    | None => put_empty empty dst_size
    | Some src =>
        m ← cget;
        let fuel := S (source_length src m + length m) in
        i ← skip_leading fuel src 0;
        c ← fetch src i;
        if is_nul c then put_empty empty dst_size
        else
          let end_ := (dst_size - 1)%nat in
          '(d, mblen) ← copy_loop char_map utf src end_ fuel i 0 1 0;
          '(d, mblen) ← trim_loop d mblen;
          _ ← put_byte d NUL;
          c ← get_byte 0;
          blank ← (if Ascii.eqb c "_" then only_underscores fuel 0 else mret false);
          _ ← (if (blank : bool) then put_byte 0 NUL else mret tt);
          c ← get_byte 0;
          if is_nul c then put_empty empty dst_size
          else mret (Z.of_nat d, mblen)
    end.

(** ** The tables *)

(** The images of the visible characters, from the space to the tilde; the other
    characters become spaces. *)
Definition table (images : string) : char_map_t := fun c =>
  if is_nul c then NUL
  else if (32 <=? code c) && (code c <=? 126)
  then default NUL (String.list_ascii_of_string images !! Z.to_nat (code c - 32))
  else " "%char.
Definition label_values_char_map : char_map_t := table
  " _______()_+.-./0123456789::_:__@ABCDEFGHIJKLMNOPQRSTUVWXYZ[/]___abcdefghijklmnopqrstuvwxyz____".
Definition chart_names_allowed_chars : char_map_t := table
  " !_#____()__.-./0123456789:;<_>__ABCDEFGHIJKLMNOPQRSTUVWXYZ[/]___abcdefghijklmnopqrstuvwxyz{_}~".
Definition external_plugins_map : char_map_t := table
  " __#$%&_()*+,-./0123456789:;<_>?@ABCDEFGHIJKLMNOPQRSTUVWXYZ[/]^__abcdefghijklmnopqrstuvwxyz{_}~".
Definition functions_allowed_chars : char_map_t := table
  " !'#$%&'()*+,-./0123456789:;<=>?@ABCDEFGHIJKLMNOPQRSTUVWXYZ[\]^_`abcdefghijklmnopqrstuvwxyz{|}~".
(** [initialize_labels_keys_char_map()] *)
Definition label_names_char_map : char_map_t := fun c =>
  if existsb (Ascii.eqb c) ["="; ":"; "+"; ";"; "@"; "("; ")"]%char then "_"%char
  else if Ascii.eqb c "\" then "/"%char
  else label_values_char_map c.
Definition prometheus_label_names_char_map : char_map_t := fun c =>
  if is_nul c then NUL
  else if isalnum c || Ascii.eqb c ":" then c
  else "_"%char.

(** ** The sanitizers *)

(** [if(dst[i] == ' ') dst[i] = '_'], for [n] bytes *)
Fixpoint replace_spaces (n : nat) (i : nat) : cst bytes unit :=
  match n with
  | O => mret tt
  | S n =>
      c ← get_byte i;
      _ ← (if Ascii.eqb c " " then put_byte i "_"%char else mret tt);
      replace_spaces n (S i)
  end.
Definition rrdlabels_sanitize_name (src : option source) (dst_size : nat) : cst bytes Z :=
  '(rc, _) ← text_sanitize src dst_size label_names_char_map false [];
  _ ← replace_spaces (Z.to_nat rc) 0;
  mret rc.
Definition rrdlabels_sanitize_value (src : option source) (dst_size : nat) : cst bytes Z :=
  '(rc, _) ← text_sanitize src dst_size label_values_char_map true (chars_of "[none]");
  mret rc.
Definition prometheus_rrdlabels_sanitize_name (src : option source) (dst_size : nat) : cst bytes Z :=
  '(rc, _) ← text_sanitize src dst_size prometheus_label_names_char_map false [];
  mret rc.
Definition external_plugins_sanitize (src : option source) (dst_len : nat) : cst bytes Z :=
  '(rc, _) ← text_sanitize src dst_len external_plugins_map true [];
  mret rc.
Definition rrd_functions_sanitize (src : option source) (dst_len : nat) : cst bytes Z :=
  '(rc, _) ← text_sanitize src dst_len functions_allowed_chars true [];
  mret rc.

(** [while( *d) { if( *d == ' ') *d = '_'; d++; }] *)
Fixpoint spaces_to_underscores (fuel : nat) (d : nat) : cst bytes unit :=
  match fuel with
  | O => fun _ => NoFuel
  | S fuel =>
      c ← get_byte d;
      if is_nul c then mret tt
      else
        _ ← (if Ascii.eqb c " " then put_byte d "_"%char else mret tt);
        spaces_to_underscores fuel (S d)
  end.
Definition sanitize_chart_name (src : source) (dst_size : nat) : cst bytes unit :=
  _ ← text_sanitize (Some src) dst_size chart_names_allowed_chars true [];
  c ← get_byte 0;
  _ ← (if Ascii.eqb c "!" then put_byte 0 "_"%char else mret tt);
  m ← cget;
  spaces_to_underscores (length m) 0.
Definition netdata_fix_chart_name : cst bytes unit :=
  m ← cget;
  n ← strlen_from (length m) 0;
  sanitize_chart_name Self (S n).
Definition netdata_fix_chart_id : cst bytes unit :=
  m ← cget;
  n ← strlen_from (length m) 0;
  sanitize_chart_name Self (S n).
Definition rrdset_strncpyz_name (src : source) (dst_size_minus_1 : nat) : cst bytes unit :=
  sanitize_chart_name src (S dst_size_minus_1).
(** True if the name was changed. *)
Definition rrdvar_fix_name : cst bytes bool :=
  m ← cget;
  len ← strlen_from (length m) 0;
  _ ← sanitize_chart_name Self (S len);
  m' ← cget;
  mret (negb (bool_decide (take (S len) m = take (S len) m'))).
Definition is_netdata_api_valid_character (c : ascii) : bool :=
  IS_UTF8_BYTE c
  || (let t := chart_names_allowed_chars c in Ascii.eqb t c && negb (Ascii.eqb t " ") && negb (Ascii.eqb t "!")).
