(* ===== verification/SanitizeSpec.v ===== *)
(** * What the sanitizers write

    The reference is a function on characters: [sanitized] drops the hidden
    characters in front, maps, squeezes and trims spaces, and empties what is only
    underscores.  On valid UTF-8 that fits its place the code writes exactly that,
    in place or not.  On other texts it needs one byte more than it is given. *)

From S2P Require Import Prelude CString Inlined SimplePattern Url UrlSpec Sanitize.
#[local] Open Scope string_scope.
#[local] Open Scope list_scope.
#[local] Open Scope Z_scope.

(** ** The reference *)

Section reference.
Context (char_map : char_map_t) (utf : bool).

Definition hidden_char (u : bytes) : bool := match u with [c] => is_hidden c | _ => false end.
Fixpoint drop_hidden (us : list bytes) : list bytes :=
  match us with u :: us' => if hidden_char u then drop_hidden us' else us | [] => [] end.
(** The image of a character. *)
Definition image (u : bytes) : bytes := match u with [c] => [char_map c] | _ => if utf then u else ["_"%char] end.
Definition space : bytes := [" "%char].
(** One space is kept of several; [sp]: the previous character is a space. *)
Fixpoint squeeze (sp : bool) (us : list bytes) : list bytes :=
  match us with
  | [] => []
  | u :: us =>
      if bool_decide (image u = space) then (if sp then squeeze true us else space :: squeeze true us)
      else image u :: squeeze false us
  end.
Fixpoint trim_end (us : list bytes) : list bytes :=
  match us with
  | [] => []
  | u :: us => match trim_end us with [] => if bool_decide (u = space) then [] else [u] | t => u :: t end
  end.
Definition underscore : bytes := ["_"%char].
Definition sanitized (us : list bytes) : list bytes :=
  let out := trim_end (squeeze true (drop_hidden us)) in
  if forallb (λ u, bool_decide (u = underscore)) out then [] else out.
End reference.

(** A character of valid UTF-8. *)
Definition plain_char (u : bytes) : Prop := ∃ c, u = [c] ∧ code c < 128 ∧ c ≠ NUL.
Definition uchar (u : bytes) : Prop := plain_char u ∨ multibyte u.
Definition good_map (char_map : char_map_t) : Prop := ∀ c, code c < 128 → c ≠ NUL →
  code (char_map c) < 128 ∧ char_map c ≠ NUL.

(** *** Bytes *)

Lemma start_byte c : IS_UTF8_STARTBYTE c = true →
  url_utf8_get_byte_length c = -1 ∨
  (url_utf8_get_byte_length c = Z.of_nat (utf8_character_bytes c) ∧ (2 ≤ utf8_character_bytes c)%nat).
Proof. destruct c as [[] [] [] [] [] [] [] []]; vm_compute; first [discriminate|intros _; by left|intros _; right; split; [done|lia]]. Qed.
Lemma multibyte_inv u : multibyte u → ∃ b0 l, u = b0 :: l ∧ IS_UTF8_STARTBYTE b0 = true ∧ b0 ≠ NUL ∧
  utf8_character_bytes b0 = length u ∧ l ≠ [] ∧ Forall (λ c, is_continuation c = true) l.
Proof.
  intros (b0 & l & -> & (Hs & Hn & _ & _ & H0) & Hl). exists b0, l.
  destruct (start_byte b0 Hs) as [E|[E1 E2]]; [lia|]. assert (Hu : utf8_character_bytes b0 = length (b0 :: l)) by lia.
  split_and!; try done.
  - intros ->. cbn in Hu. lia.
  - eapply Forall_impl; [exact Hl|]. intros c Hc. unfold is_continuation. by destruct (cont_byte c Hc) as (-> & -> & _).
Qed.
Lemma plain_byte c : code c < 128 → IS_UTF8_BYTE c = false ∧ IS_UTF8_STARTBYTE c = false.
Proof. destruct c as [[] [] [] [] [] [] [] []]; vm_compute; first [discriminate|done]. Qed.
Lemma is_nul_spec c : is_nul c = true ↔ c = NUL.
Proof. unfold is_nul. apply Ascii.eqb_eq. Qed.
Lemma uchar_head u : uchar u → ∃ c l, u = c :: l ∧ c ≠ NUL ∧ is_continuation c = false.
Proof.
  intros [(c & -> & Hc & H0)|(b0 & l & -> & Hs & H0 & _)%multibyte_inv].
  - exists c, []. unfold is_continuation. by destruct (plain_byte c Hc) as [-> _].
  - exists b0, l. unfold is_continuation. by rewrite Hs, andb_false_r.
Qed.
Lemma uchar_no_nul u : uchar u → NUL ∉ u.
Proof.
  intros [(c & -> & Hc & H0)|(b0 & l & -> & Hs & H0 & _ & _ & Hl)%multibyte_inv]; [set_solver|].
  intros [?|Hin]%elem_of_cons; [done|]. rewrite Forall_forall in Hl. by apply Hl in Hin.
Qed.

(** ** Reading and writing the place

    [D] is written, [R] is the rest of the place; [rest] is what is left of the
    source at [i]. *)

Definition reads (src : source) (D R : bytes) (i : nat) (rest : bytes) : Prop :=
  match src with
  | Text s => (i ≤ length s)%nat ∧ drop i s = rest
  | Self => (length D ≤ i)%nat ∧ ∃ junk, drop (i - length D) R = rest ++ NUL :: junk
  end.
Lemma reads_fetch src D R i rest j : reads src D R i rest → (j ≤ length rest)%nat →
  fetch src (i + j) (D ++ R) = Ok (default NUL (rest !! j), D ++ R).
Proof.
  destruct src as [s|]; cbn [reads fetch].
  - intros [Hi <-] Hj. unfold clift, at_. rewrite lookup_drop. rewrite length_drop in Hj.
    destruct (s !! (i + j)%nat) eqn:E; [done|]. apply lookup_ge_None in E.
    by rewrite (proj2 (Nat.eqb_eq _ _)) by lia.
  - intros [Hi (junk & E)] Hj. unfold get_byte. rewrite lookup_app_r by lia.
    replace (i + j - length D)%nat with (i - length D + j)%nat by lia. rewrite <- lookup_drop, E.
    destruct (decide (j = length rest)) as [->|].
    + rewrite lookup_app_r, Nat.sub_diag by lia. by rewrite (proj2 (lookup_ge_None rest (length rest))) by lia.
    + rewrite lookup_app_l by lia. destruct (lookup_lt_is_Some_2 rest j) as [c ->]; [lia|done].
Qed.
Lemma reads_fetch0 src D R i rest : reads src D R i rest → fetch src i (D ++ R) = Ok (default NUL (rest !! 0%nat), D ++ R).
Proof. intros H. rewrite <- (Nat.add_0_r i) at 1. apply reads_fetch; [done|lia]. Qed.
Lemma reads_head src D R i c rest : reads src D R i (c :: rest) → fetch src i (D ++ R) = Ok (c, D ++ R).
Proof. apply reads_fetch0. Qed.
Lemma reads_end src D R i : reads src D R i [] → fetch src i (D ++ R) = Ok (NUL, D ++ R).
Proof. apply reads_fetch0. Qed.
Lemma reads_skip src D R i u rest : reads src D R i (u ++ rest) → reads src D R (i + length u) rest.
Proof.
  destruct src as [s|]; cbn [reads].
  - intros [Hi E]. assert (Hl := f_equal length E). rewrite length_drop, length_app in Hl. split; [lia|].
    by rewrite <- drop_drop, E, drop_app_length.
  - intros [Hi (junk & E)]. split; [lia|]. exists junk. replace (i + length u - length D)%nat with (i - length D + length u)%nat by lia.
    by rewrite <- drop_drop, E, <- app_assoc, drop_app_length.
Qed.
(** The source is not behind what is written. *)
Lemma reads_write src D x R i c rest y : reads src D (x :: R) i (c :: rest) → reads src (D ++ [y]) R (S i) rest.
Proof.
  destruct src as [s|]; cbn [reads].
  - intros [Hi E]. assert (Hl := f_equal length E). rewrite length_drop in Hl. cbn in Hl. split; [lia|].
    replace (S i) with (i + 1)%nat by lia. by rewrite <- drop_drop, E.
  - rewrite length_app. cbn [length]. intros [Hi (junk & E)]. split; [lia|]. exists junk.
    replace (S i - (length D + 1))%nat with (i - length D)%nat by lia. destruct (i - length D)%nat as [|k] eqn:Ek.
    + injection E as -> E. done.
    + cbn [drop] in E. replace (S k) with (k + 1)%nat by lia. by rewrite <- drop_drop, E.
Qed.
Lemma reads_room src D R i c rest : reads src D R i (c :: rest) → (length (c :: rest) < length R)%nat → ∃ x R', R = x :: R'.
Proof. destruct R as [|x R]; [cbn; lia|]. eauto. Qed.
Lemma run_store D x R y : put_byte (length D) y (D ++ x :: R) = Ok (tt, (D ++ [y]) ++ R).
Proof.
  unfold put_byte. rewrite length_app. cbn [length]. rewrite (proj2 (Nat.ltb_lt _ _)) by lia.
  by rewrite insert_app_r_alt, Nat.sub_diag, <- app_assoc by lia.
Qed.

Lemma copy_bytes_spec src u : ∀ D R i rest, reads src D R i (u ++ rest) → (length u ≤ length R)%nat → ∃ R',
  copy_bytes (length u) src i (length D) (D ++ R) = Ok (tt, (D ++ u) ++ R') ∧
  reads src (D ++ u) R' (i + length u) rest ∧ length R = (length u + length R')%nat.
Proof.
  induction u as [|c u IH]; intros D R i rest Hr Hlen; cbn [length copy_bytes].
  { exists R. rewrite app_nil_r, Nat.add_0_r. done. }
  destruct R as [|x R]; [cbn in Hlen; lia|]. rewrite bind_run, (reads_head _ _ _ _ _ _ Hr).
  rewrite bind_run, run_store. destruct (IH (D ++ [c]) R (S i) rest) as (R' & K & Hr' & HR); [by eapply reads_write|cbn in Hlen; lia|].
  exists R'. rewrite length_app in K. cbn [length] in K. rewrite Nat.add_1_r in K. rewrite <- (app_assoc D [c] u) in K, Hr'. rewrite K.
  replace (i + S (length u))%nat with (S i + length u)%nat by lia. cbn [length]. split_and!; [done|done|lia].
Qed.
Lemma all_continue_spec src D R u : ∀ i rest, reads src D R i (u ++ rest) → Forall (λ c, is_continuation c = true) u →
  all_continue (length u) src i (D ++ R) = Ok (true, D ++ R).
Proof.
  induction u as [|c u IH]; intros i rest Hr Hu; [done|]. inversion Hu as [|? ? Hc Hu']; subst.
  cbn [length all_continue]. rewrite bind_run, (reads_head _ _ _ _ _ _ Hr).
  unfold is_continuation in Hc. apply andb_true_iff in Hc as [-> Hc]. apply negb_true_iff in Hc. rewrite Hc. cbn [negb orb].
  apply (IH (S i) rest); [|done]. replace (S i) with (i + length [c])%nat by (cbn; lia). by apply reads_skip.
Qed.
Lemma skip_continuation_spec src D R u : ∀ fuel i rest, reads src D R i (u ++ rest) → Forall (λ c, is_continuation c = true) u →
  is_continuation (default NUL (rest !! 0%nat)) = false → (length u < fuel)%nat →
  skip_continuation fuel src i (D ++ R) = Ok ((i + length u)%nat, D ++ R).
Proof.
  induction u as [|c u IH]; intros fuel i rest Hr Hu Hend Hf; (destruct fuel as [|fuel]; [lia|]); cbn [length skip_continuation].
  - rewrite bind_run, (reads_fetch0 _ _ _ _ _ Hr). cbn [app]. by rewrite Hend, Nat.add_0_r.
  - inversion Hu as [|? ? Hc Hu']; subst. rewrite bind_run, (reads_head _ _ _ _ _ _ Hr).
    rewrite Hc. rewrite (IH fuel (S i) rest); [f_equal; f_equal; lia| |done|done|cbn in Hf; lia].
    replace (S i) with (i + length [c])%nat by (cbn; lia). by apply reads_skip.
Qed.

(** ** The loop *)

Lemma concat_head us : Forall uchar us → is_continuation (default NUL (concat us !! 0%nat)) = false.
Proof. destruct 1 as [|u us (c & l & -> & _ & Hc)%uchar_head _]; [done|]. exact Hc. Qed.
Section copying.
Context (char_map : char_map_t) (utf : bool) (src : source) (end_ : nat).

(** One character that is not copied as it is. *)
Lemma store_step D R i c l rest y : reads src D R i ((c :: l) ++ rest) → (length D + length ((c :: l) ++ rest) ≤ end_)%nat →
  (end_ < length (D ++ R))%nat → ∃ R', put_byte (length D) y (D ++ R) = Ok (tt, (D ++ [y]) ++ R') ∧
    reads src (D ++ [y]) R' (S i) (l ++ rest) ∧ length ((D ++ [y]) ++ R') = length (D ++ R).
Proof.
  intros Hr H1 H2. rewrite !length_app in *. cbn [length] in H1. destruct R as [|x R]; [cbn in H2; lia|].
  exists R. split; [apply run_store|]. split; [by eapply reads_write|]. rewrite !length_app. cbn [length]. lia.
Qed.
(** What the loop leaves: [out] behind [D]. *)
Definition copied (out : list bytes) (fuel i : nat) (D R : bytes) (last mblen : Z) : Prop :=
  ∃ R', copy_loop char_map utf src end_ fuel i (length D) last mblen (D ++ R) =
      Ok (length (D ++ concat out), mblen + Z.of_nat (length out), (D ++ concat out) ++ R') ∧
    length ((D ++ concat out) ++ R') = length (D ++ R).
(** A turn that writes [v]. *)
Lemma copied_emit v out fuel i i' D R R1 last last' mblen :
  copy_loop char_map utf src end_ (S fuel) i (length D) last mblen (D ++ R) =
    copy_loop char_map utf src end_ fuel i' (length (D ++ v)) last' (mblen + 1) ((D ++ v) ++ R1) →
  length ((D ++ v) ++ R1) = length (D ++ R) → copied out fuel i' (D ++ v) R1 last' (mblen + 1) →
  copied (v :: out) (S fuel) i D R last mblen.
Proof using Type.
  intros K L (R' & K' & L'). exists R'. rewrite K, K'. cbn [concat length]. rewrite (app_assoc D v (concat out)).
  split; [|exact (eq_trans L' L)]. rewrite Nat2Z.inj_succ. do 2 f_equal. f_equal. lia.
Qed.
Lemma copy_loop_spec us : Forall uchar us → ∀ fuel D R i last mblen, reads src D R i (concat us) →
  (length D + length (concat us) ≤ end_)%nat → (end_ < length (D ++ R))%nat → (length (concat us) < fuel)%nat → 0 ≤ last →
  copied (squeeze char_map utf (negb (last =? 0)) us) fuel i D R last mblen.
Proof using Type.
  induction 1 as [|u us Hu Hus IH]; intros fuel D R i last mblen Hr Hroom Hend Hfuel Hlast; (destruct fuel as [|fuel]; [lia|]).
  { exists R. cbn. rewrite bind_run, (reads_end _ _ _ _ Hr). cbn. by rewrite !app_nil_r, Z.add_0_r. }
  cbn [concat] in Hr, Hroom, Hfuel. rewrite length_app in Hroom, Hfuel.
  destruct (uchar_head u Hu) as (c & l & -> & Hc0 & _).
  assert (Hnul : is_nul c = false) by (apply not_true_is_false; by rewrite is_nul_spec).
  assert (Hlt : (length D <? end_)%nat = true) by (apply Nat.ltb_lt; cbn [length] in Hroom; lia).
  cbn [length] in Hroom, Hfuel. destruct Hu as [(c' & [= -> ->] & Hc' & _)|Hm].
  - destruct (plain_byte c' Hc') as [_ Hns]. cbn [squeeze image length] in *.
    destruct (Ascii.eqb_spec (char_map c') " ") as [Es|Es].
    + rewrite (bool_decide_true ([char_map c'] = space)) by (by rewrite Es).
      destruct (Z.eqb_spec last 0) as [->|Hl]; cbn [negb].
      * destruct (store_step D R i c' [] (concat us) " "%char Hr) as (R1 & K1 & Hr1 & L1); [cbn; lia|done|].
        eapply (copied_emit [" "%char] _ fuel i (S i) D R R1 0 (0 + 1)); [|done|].
        -- cbn [copy_loop]. rewrite bind_run, (reads_head _ _ _ _ _ _ Hr), Hnul, Hlt, Hns. cbn [negb andb]. rewrite Es.
           cbn [Z.eqb]. rewrite Ascii.eqb_refl, bind_run, K1. by rewrite length_app, Nat.add_1_r.
        -- apply (IH fuel _ _ _ (0 + 1)); [done|rewrite length_app; cbn [length]; lia|by rewrite L1|lia|lia].
      * assert (Hr1 := reads_skip _ _ _ _ [c'] _ Hr). cbn [length] in Hr1. rewrite Nat.add_1_r in Hr1.
        destruct (IH fuel D R (S i) (last + 1) mblen Hr1) as (R' & K' & L'); [lia|done|lia|lia|].
        assert ((last + 1 =? 0) = false) as E0 by (apply Z.eqb_neq; lia). rewrite E0 in K', L'. exists R'. split; [|done].
        cbn [copy_loop]. rewrite bind_run, (reads_head _ _ _ _ _ _ Hr), Hnul, Hlt, Hns. cbn [negb andb]. rewrite Es.
        rewrite Ascii.eqb_refl, (proj2 (Z.eqb_neq last 0)) by done. exact K'.
    + rewrite bool_decide_false by (by intros [= ?]).
      destruct (store_step D R i c' [] (concat us) (char_map c') Hr) as (R1 & K1 & Hr1 & L1); [cbn; lia|done|].
      eapply (copied_emit [char_map c'] _ fuel i (S i) D R R1 last 0); [|done|].
      -- cbn [copy_loop]. rewrite bind_run, (reads_head _ _ _ _ _ _ Hr), Hnul, Hlt, Hns. cbn [negb andb].
         rewrite (proj2 (Ascii.eqb_neq _ _)) by done. rewrite bind_run, K1. by rewrite length_app, Nat.add_1_r.
      -- apply (IH fuel _ _ _ 0); [done|rewrite length_app; cbn [length]; lia|by rewrite L1|lia|lia].
  - destruct (multibyte_inv _ Hm) as (b0 & l' & [= <- <-] & Hs & _ & Hn & Hl0 & Hl). cbn [squeeze].
    assert (Himg : image char_map utf (c :: l) = if utf then c :: l else underscore) by (by destruct l).
    rewrite Himg. rewrite bool_decide_false by (destruct utf; [destruct l; [done|by intros [=]]|done]).
    assert (Hlen : (S (length l) =? 1)%nat = false) by (apply Nat.eqb_neq; destruct l; [done|cbn; lia]).
    assert (Hv : valid_sequence src i (S (length l)) (D ++ R) = Ok (true, D ++ R)).
    { unfold valid_sequence. rewrite Hlen. cbn [Nat.sub]. rewrite Nat.sub_0_r. eapply all_continue_spec; [|exact Hl].
      replace (S i) with (i + length [c])%nat by (cbn; lia). apply reads_skip. exact Hr. }
    destruct utf eqn:Eutf.
    + destruct (copy_bytes_spec src (c :: l) D R i (concat us) Hr) as (R1 & K1 & Hr1 & L1); [rewrite length_app in Hend; cbn; lia|].
      assert (HL : length ((D ++ c :: l) ++ R1) = length (D ++ R)) by (rewrite !length_app; lia).
      eapply (copied_emit (c :: l) _ fuel i (i + S (length l))%nat D R R1 last 0); [|done|].
      * cbn [copy_loop]. rewrite bind_run, (reads_head _ _ _ _ _ _ Hr), Hnul, Hlt, Hs, Hn. cbn [negb andb length].
        rewrite bind_run, Hv. cbn [andb]. rewrite (proj2 (Nat.leb_le _ _)) by lia. rewrite Eutf, bind_run. cbn [length] in K1.
        rewrite K1, length_app. done.
      * apply (IH fuel _ _ _ 0); [done|rewrite length_app; cbn [length]; lia|by rewrite HL|lia|lia].
    + destruct (store_step D R i c l (concat us) "_"%char Hr) as (R1 & K1 & Hr1 & L1); [rewrite length_app; cbn [length]; lia|done|].
      eapply (copied_emit underscore _ fuel i (S i + length l)%nat D R R1 last 0); [|done|].
      * cbn [copy_loop]. rewrite bind_run, (reads_head _ _ _ _ _ _ Hr), Hnul, Hlt, Hs, Hn. cbn [negb andb length].
        rewrite bind_run, Hv, Eutf, bind_run, K1, bind_run.
        rewrite (skip_continuation_spec src _ _ l fuel (S i) (concat us) Hr1 Hl (concat_head us Hus)) by lia.
        by rewrite (length_app D), Nat.add_1_r.
      * apply (IH fuel _ _ _ 0); [by apply reads_skip|unfold underscore; rewrite length_app; cbn [length]; lia|unfold underscore; by rewrite L1|lia|lia].
Qed.
End copying.

(** ** Before and after the loop *)

Lemma skip_leading_spec src m us : Forall uchar us → ∀ fuel i, reads src [] m i (concat us) → (length (concat us) < fuel)%nat →
  ∃ i', skip_leading fuel src i m = Ok (i', m) ∧ reads src [] m i' (concat (drop_hidden us)).
Proof.
  induction 1 as [|u us Hu Hus IH]; intros fuel i Hr Hf; (destruct fuel as [|fuel]; [lia|]); cbn [skip_leading].
  { exists i. rewrite bind_run. change m with ([] ++ m) at 1. by rewrite (reads_end _ _ _ _ Hr). }
  destruct (uchar_head u Hu) as (c & l & -> & Hc0 & _). cbn [concat] in Hr, Hf. rewrite length_app in Hf. cbn [length] in Hf.
  rewrite bind_run. change m with ([] ++ m) at 1. rewrite (reads_head _ _ _ _ _ _ Hr). cbn [app drop_hidden hidden_char].
  assert (Hh : is_hidden c = match l with [] => is_hidden c | _ => false end).
  { destruct l as [|x l]; [done|]. destruct Hu as [(c' & [=] & _)|(b0 & l' & [= <- <-] & Hs & _)%multibyte_inv].
    unfold is_hidden. apply start_is_byte in Hs. rewrite Hs. cbn. by rewrite andb_false_r. }
  rewrite Hh. destruct l as [|x l]; [|by exists i]. destruct (is_hidden c); [|by exists i].
  apply (IH fuel (S i)); [|cbn in Hf; lia]. replace (S i) with (i + length [c])%nat by (cbn; lia). by apply reads_skip.
Qed.
Lemma trim_end_snoc us u : trim_end (us ++ [u]) = if bool_decide (u = space) then trim_end us else us ++ [u].
Proof.
  induction us as [|v us IH]; cbn [app trim_end]; [done|]. rewrite IH. destruct (bool_decide (u = space)); [done|].
  by destruct us.
Qed.
Lemma last_byte u : uchar u → ∃ l c, u = l ++ [c] ∧ (u = space ∨ negb (IS_UTF8_BYTE c) && Ascii.eqb c " " = false).
Proof.
  intros [(c & -> & Hc & _)|(b0 & l & -> & _ & _ & _ & Hl0 & Hl)%multibyte_inv].
  - exists [], c. split; [done|]. destruct (Ascii.eqb_spec c " ") as [->|]; [by left|]. right. apply andb_false_r.
  - destruct l as [|c l _] using rev_ind; [done|]. exists (b0 :: l), c. split; [done|]. right.
    apply Forall_app in Hl as [_ Hl]. inversion Hl as [|? ? Hc _]; subst. apply andb_true_iff in Hc as [-> _]. done.
Qed.
Lemma concat_snoc (us : list bytes) u : concat (us ++ [u]) = concat us ++ u.
Proof. rewrite concat_app. cbn. by rewrite app_nil_r. Qed.
Lemma ok_pair (a a' : nat) (b b' : Z) (m : bytes) : a = a' → b = b' → Ok (a, b, m) = Ok (a', b', m).
Proof. by intros -> ->. Qed.
Lemma trim_loop_spec us : Forall uchar us → ∀ R mblen, ∃ R',
  trim_loop (length (concat us)) mblen (concat us ++ R) =
    Ok (length (concat (trim_end us)), mblen - Z.of_nat (length us) + Z.of_nat (length (trim_end us)), concat us ++ R) ∧
  concat us ++ R = concat (trim_end us) ++ R'.
Proof.
  induction us as [|u us IH] using rev_ind; intros Hus R mblen.
  { exists R. split; [|done]. apply ok_pair; cbn; lia. }
  apply Forall_app in Hus as [Hus Hu]. inversion Hu as [|? ? Hu' _]; subst. rewrite trim_end_snoc, concat_snoc.
  destruct (last_byte u Hu') as (l & c & -> & Hc). rewrite (app_assoc (concat us) l [c]), length_app. cbn [length].
  rewrite Nat.add_1_r. cbn [trim_loop]. rewrite bind_run. unfold get_byte. rewrite <- (app_assoc (concat us ++ l) [c] R).
  rewrite lookup_app_r, Nat.sub_diag by lia. cbn [app lookup list_lookup].
  destruct (decide (l ++ [c] = space)) as [E|E].
  - rewrite bool_decide_true by done. destruct l as [|? [|? ?]]; [|done|done]. injection E as ->.
    rewrite app_nil_r. destruct (IH Hus (" "%char :: R) (mblen - 1)) as (R' & K & E'). exists R'. cbn [IS_UTF8_BYTE].
    change (negb (IS_UTF8_BYTE " ") && Ascii.eqb " " " ") with true. cbn [andb]. rewrite K, length_app. cbn [length]. split; [|done].
    apply ok_pair; [done|lia].
  - rewrite bool_decide_false by done. destruct Hc as [Hc|Hc]; [done|]. rewrite Hc. exists R. rewrite !length_app, concat_snoc, !length_app.
    cbn [length]. split; [|by rewrite <- !app_assoc]. apply ok_pair; lia.
Qed.
Lemma only_underscores_spec B R : ∀ A fuel, NUL ∉ B → (length B < fuel)%nat →
  only_underscores fuel (length A) (A ++ B ++ NUL :: R) = Ok (forallb (λ c, Ascii.eqb c "_") B, A ++ B ++ NUL :: R).
Proof.
  induction B as [|c B IH]; intros A fuel HB Hf; (destruct fuel as [|fuel]; [cbn in Hf; lia|]); cbn [only_underscores].
  - rewrite bind_run. unfold get_byte. by rewrite lookup_app_r, Nat.sub_diag by lia.
  - rewrite bind_run. unfold get_byte. rewrite lookup_app_r, Nat.sub_diag by lia. cbn [app lookup list_lookup forallb].
    destruct (Ascii.eqb_spec c "_") as [->|]; cbn [andb].
    + change (A ++ "_"%char :: B ++ NUL :: R) with (A ++ ["_"%char] ++ B ++ NUL :: R). rewrite (app_assoc A).
      rewrite <- (IH (A ++ ["_"%char]) fuel); [|set_solver|cbn in Hf; lia]. by rewrite length_app, Nat.add_1_r.
    + assert (is_nul c = false) as ->; [|done]. apply not_true_is_false. rewrite is_nul_spec. set_solver.
Qed.
Lemma strlen_spec B R : ∀ A fuel, NUL ∉ B → (length B < fuel)%nat →
  strlen_from fuel (length A) (A ++ B ++ NUL :: R) = Ok (length B, A ++ B ++ NUL :: R).
Proof.
  induction B as [|c B IH]; intros A fuel HB Hf; (destruct fuel as [|fuel]; [cbn in Hf; lia|]); cbn [strlen_from].
  - rewrite bind_run. unfold get_byte. by rewrite lookup_app_r, Nat.sub_diag by lia.
  - rewrite bind_run. unfold get_byte. rewrite lookup_app_r, Nat.sub_diag by lia. cbn [app lookup list_lookup].
    assert (is_nul c = false) as ->. { apply not_true_is_false. rewrite is_nul_spec. set_solver. }
    rewrite bind_run. change (A ++ c :: B ++ NUL :: R) with (A ++ [c] ++ B ++ NUL :: R). rewrite (app_assoc A).
    specialize (IH (A ++ [c]) fuel). rewrite length_app, Nat.add_1_r in IH. rewrite IH; [done|set_solver|cbn in Hf; lia].
Qed.
Lemma strncpyz_spec s : ∀ A R n, (length s < length R)%nat → (length s ≤ n)%nat → ∃ R',
  strncpyz (length A) s n (A ++ R) = Ok (tt, A ++ s ++ NUL :: R') ∧ length R = S (length s + length R').
Proof.
  induction s as [|c s IH]; intros A R n HR Hn; (destruct R as [|x R]; [cbn in HR; lia|]).
  - exists R. cbn [strncpyz]. rewrite run_store. by rewrite <- app_assoc.
  - destruct n as [|n]; [cbn in Hn; lia|]. cbn [strncpyz]. rewrite bind_run, run_store.
    destruct (IH (A ++ [c]) R n) as (R' & K & L); [cbn in HR; lia|cbn in Hn; lia|]. rewrite length_app, Nat.add_1_r in K.
    exists R'. rewrite K, <- app_assoc. cbn [length]. split; [done|lia].
Qed.
Lemma put_empty_spec empty dst_size m : (length empty < dst_size ≤ length m)%nat → NUL ∉ empty → ∃ R,
  put_empty empty dst_size m = Ok (Z.of_nat (length empty), Z.of_nat (length empty), empty ++ NUL :: R) ∧
  length (empty ++ NUL :: R) = length m.
Proof.
  intros Hs He. unfold put_empty. destruct (strncpyz_spec empty [] m dst_size) as (R & K & L); [lia|lia|]. cbn [length app] in K.
  rewrite bind_run, K, bind_run. unfold put_byte. rewrite length_app. cbn [length].
  rewrite (proj2 (Nat.ltb_lt _ _)) by lia.
  assert (∃ R', <[(dst_size - 1)%nat := NUL]> (empty ++ NUL :: R) = empty ++ NUL :: R' ∧ length R' = length R) as (R' & -> & L').
  { rewrite insert_app_r_alt by lia. destruct (dst_size - 1 - length empty)%nat as [|k]; [by exists R|].
    exists (<[k := NUL]> R). by rewrite length_insert. }
  exists R'. rewrite bind_run. pose proof (strlen_spec empty R' [] dst_size He ltac:(lia)) as K'. cbn [length app] in K'.
  rewrite K'. split; [done|]. rewrite length_app. cbn [length]. lia.
Qed.

(** ** The whole function *)

Lemma drop_hidden_uchar us : Forall uchar us → Forall uchar (drop_hidden us).
Proof. induction 1 as [|u us Hu Hus IH]; [done|]. cbn. destruct (hidden_char u); [done|by constructor]. Qed.
Lemma trim_end_uchar us : Forall uchar us → Forall uchar (trim_end us).
Proof.
  induction 1 as [|u us Hu Hus IH]; [done|]. cbn. destruct (trim_end us); [|by constructor].
  destruct (bool_decide (u = space)); by repeat first [done|constructor].
Qed.
Lemma one_plain c : code c < 128 → c ≠ NUL → uchar [c].
Proof. intros. left. by exists c. Qed.
Lemma image_uchar char_map utf u : good_map char_map → uchar u → uchar (image char_map utf u).
Proof.
  intros Hm Hu. destruct Hu as [(c & -> & Hc & H0)|Hu].
  - cbn. destruct (Hm c Hc H0). by apply one_plain.
  - destruct (multibyte_inv _ Hu) as (b0 & [|x l] & -> & _ & _ & _ & ? & _); [done|]. cbn.
    destruct utf; [by right|by apply one_plain].
Qed.
Lemma squeeze_uchar char_map utf us : good_map char_map → Forall uchar us → ∀ sp, Forall uchar (squeeze char_map utf sp us).
Proof.
  intros Hm. induction 1 as [|u us Hu Hus IH]; intros sp; [constructor|]. cbn [squeeze].
  destruct (bool_decide (image char_map utf u = space)).
  - destruct sp; [done|]. constructor; [by apply one_plain|done].
  - constructor; [by apply image_uchar|done].
Qed.
Lemma all_underscores us : Forall uchar us →
  forallb (λ u, bool_decide (u = underscore)) us = forallb (λ c, Ascii.eqb c "_") (concat us).
Proof.
  induction 1 as [|u us Hu Hus IH]; [done|]. cbn [forallb concat]. rewrite forallb_app, IH. f_equal.
  destruct Hu as [(c & -> & _)|Hu].
  - cbn. rewrite andb_true_r. destruct (Ascii.eqb_spec c "_") as [->|]; [done|]. by apply bool_decide_eq_false_2; intros [= ?].
  - destruct (multibyte_inv _ Hu) as (b0 & l & -> & Hs & _). cbn. destruct (Ascii.eqb_spec b0 "_") as [->|]; [done|].
    by apply bool_decide_eq_false_2; intros [= ?].
Qed.
Lemma concat_no_nul us : Forall uchar us → NUL ∉ concat us.
Proof. induction 1 as [|u us Hu%uchar_no_nul Hus IH]; [set_solver|]. cbn. set_solver. Qed.

(** The text, and the number of its characters. *)
Definition result_text (out : list bytes) (empty : bytes) : bytes := match out with [] => empty | _ => concat out end.
Definition result_chars (out : list bytes) (empty : bytes) : Z := Z.of_nat (match out with [] => length empty | _ => length out end).
(** What is left of [text_sanitize] after the loop. *)
Definition finish (fuel dst_size : nat) (empty : bytes) (d : nat) (mblen : Z) : cst bytes (Z * Z) :=
  '(d, mblen) ← trim_loop d mblen;
  _ ← put_byte d NUL;
  c ← get_byte 0;
  blank ← (if Ascii.eqb c "_" then only_underscores fuel 0 else mret false);
  _ ← (if (blank : bool) then put_byte 0 NUL else mret tt);
  c ← get_byte 0;
  if is_nul c then put_empty empty dst_size else mret (Z.of_nat d, mblen).
Lemma finish_writes fuel dst_size empty us R : Forall uchar us → (length empty < dst_size)%nat → NUL ∉ empty →
  (length (concat us) < dst_size ≤ length (concat us ++ R))%nat → (length (concat us) < fuel)%nat →
  let t := trim_end us in let out := if forallb (λ u, bool_decide (u = underscore)) t then [] else t in
  ∃ R', finish fuel dst_size empty (length (concat us)) (Z.of_nat (length us)) (concat us ++ R) =
      Ok (Z.of_nat (length (result_text out empty)), result_chars out empty, result_text out empty ++ NUL :: R') ∧
    length (result_text out empty ++ NUL :: R') = length (concat us ++ R).
Proof.
  intros Hus He1 He2 Hlen Hf t out. unfold finish. destruct (trim_loop_spec us Hus R (Z.of_nat (length us))) as (R1 & K1 & E1).
  rewrite bind_run, K1. rewrite E1 in *. fold t. pose proof (trim_end_uchar us Hus) as Ht. fold t in Ht, E1, Hlen.
  assert (Hle : (length (concat t) ≤ length (concat us))%nat).
  { clear -us t. unfold t. induction us as [|u us IH]; [done|]. cbn. destruct (trim_end us); cbn in *;
      [destruct (bool_decide (u = space)); cbn; rewrite !length_app; cbn; lia|rewrite !length_app in *; lia]. }
  rewrite length_app in Hlen. destruct R1 as [|x R1]; [cbn in Hlen; lia|]. rewrite bind_run, run_store, <- app_assoc. cbn [app].
  pose proof (concat_no_nul t Ht) as Hnn. set (m1 := concat t ++ NUL :: R1).
  assert (Hm1 : length m1 = length (concat t ++ x :: R1)) by (unfold m1; rewrite !length_app; done).
  assert (Hput : ∀ m2, length m2 = length m1 → ∃ R', put_empty empty dst_size m2 =
      Ok (Z.of_nat (length empty), Z.of_nat (length empty), empty ++ NUL :: R') ∧ length (empty ++ NUL :: R') = length (concat t ++ x :: R1)).
  { intros m2 L2. rewrite <- Hm1, <- L2. apply put_empty_spec; [|done]. rewrite L2, Hm1, length_app. cbn [length] in *. lia. }
  rewrite bind_run. pose proof (only_underscores_spec (concat t) R1 [] fuel Hnn ltac:(lia)) as K2. cbn [length app] in K2.
  rewrite <- all_underscores in K2 by done. fold m1 in K2. subst out.
  destruct t as [|u t'] eqn:Et.
  { cbn [forallb concat app] in *. unfold get_byte. cbn [m1 lookup list_lookup]. change (Ascii.eqb NUL "_") with false. cbn match.
    rewrite bind_run. cbn [mret cst_ret]. rewrite bind_run. cbn [mret cst_ret]. rewrite bind_run. cbn [lookup list_lookup].
    change (is_nul NUL) with true. cbn match. apply Hput. done. }
  inversion Ht as [|? ? Hu Ht']; subst. destruct (uchar_head u Hu) as (c & l & Eu & Hc0 & _).
  assert (Hl0 : get_byte 0 m1 = Ok (c, m1)) by (unfold m1; rewrite Eu; done). rewrite Hl0.
  assert (Hblank : forallb (λ u, bool_decide (u = underscore)) (u :: t') = true → c = "_"%char).
  { cbn [forallb]. intros [H%bool_decide_eq_true _]%andb_true_iff. rewrite Eu in H. by injection H. }
  destruct (forallb (λ u, bool_decide (u = underscore)) (u :: t')) eqn:Eb.
  - rewrite (Hblank eq_refl). rewrite Ascii.eqb_refl, bind_run, K2, bind_run. unfold put_byte.
    rewrite (proj2 (Nat.ltb_lt 0 (length m1))) by (rewrite Hm1, length_app; cbn; lia). rewrite bind_run.
    assert (get_byte 0 (<[0%nat := NUL]> m1) = Ok (NUL, <[0%nat := NUL]> m1)) as ->.
    { unfold get_byte. rewrite list_lookup_insert_eq; [done|]. rewrite Hm1, length_app. cbn. lia. }
    change (is_nul NUL) with true. cbn match. apply Hput. by rewrite length_insert.
  - exists R1. split; [|exact Hm1]. rewrite bind_run.
    assert (is_nul c = false) as Hn by (apply not_true_is_false; by rewrite is_nul_spec).
    destruct (Ascii.eqb c "_"); [rewrite K2|cbn [mret cst_ret]]; rewrite bind_run; cbn [mret cst_ret]; rewrite bind_run, Hl0, Hn;
      (by rewrite Z.sub_diag, Z.add_0_l).
Qed.
