(* ===== verification/SanitizeThms.v ===== *)
(** * What the sanitizers promise

    On valid UTF-8 that fits, in place or not, the text is the reference's.  On any
    text, a place one byte larger than the size given is enough; with exactly that
    size a character at the end of the place makes the code write behind it.
    Chart names of valid characters are kept. *)

From S2P Require Import Prelude CString Inlined SimplePattern Url UrlSpec Sanitize SanitizeSpec.
#[local] Open Scope string_scope.
#[local] Open Scope list_scope.
#[local] Open Scope Z_scope.

(** ** The reference *)

Lemma squeeze_length char_map utf us : Forall uchar us → ∀ sp,
  (length (concat (squeeze char_map utf sp us)) ≤ length (concat us))%nat.
Proof.
  induction 1 as [|u us Hu Hus IH]; intros sp; [done|]. cbn [squeeze concat]. rewrite length_app.
  assert (Hi : (length (image char_map utf u) ≤ length u)%nat).
  { destruct (uchar_head u Hu) as (c & [|x l] & -> & _); [done|]. destruct utf; cbn; lia. }
  destruct (bool_decide_reflect (image char_map utf u = space)) as [E|_].
  - rewrite E in Hi. specialize (IH true). destruct sp; [lia|]. cbn [concat]. rewrite length_app. lia.
  - specialize (IH false). cbn [concat]. rewrite length_app. lia.
Qed.
Lemma drop_hidden_length us : (length (concat (drop_hidden us)) ≤ length (concat us))%nat.
Proof. induction us as [|u us IH]; [done|]. cbn. destruct (hidden_char u); cbn; rewrite length_app; lia. Qed.
Lemma sanitize_valid char_map utf src us dst_size empty m : good_map char_map → Forall uchar us →
  reads src [] m 0 (concat us) → (length (concat us) < dst_size ≤ length m)%nat →
  (length empty < dst_size)%nat → NUL ∉ empty →
  let out := sanitized char_map utf us in
  ∃ R, text_sanitize (Some src) dst_size char_map utf empty m =
      Ok (Z.of_nat (length (result_text out empty)), result_chars out empty, result_text out empty ++ NUL :: R) ∧
    length (result_text out empty ++ NUL :: R) = length m.
Proof.
  intros Hmap Hus Hr Hlen He1 He2 out. unfold text_sanitize. destruct dst_size as [|n]; [lia|]. cbn [Nat.eqb].
  set (fuel := S (source_length src m + length m)). rewrite bind_run. cbn [cget]. fold fuel. rewrite bind_run.
  destruct (skip_leading_spec src m us Hus fuel 0 Hr) as (i & K1 & Hr1); [unfold fuel; lia|]. rewrite K1, bind_run.
  pose proof (drop_hidden_uchar us Hus) as Hd. pose proof (drop_hidden_length us) as Hdl. unfold sanitized in out.
  pose proof (reads_fetch0 _ _ _ _ _ Hr1) as K2. cbn [app] in K2. rewrite K2. clear K2.
  subst out. generalize dependent (drop_hidden us). intros us1 Hr1 Hd Hdl.
  destruct us1 as [|u us'] eqn:E; [cbn; apply put_empty_spec; [lia|done]|]. rewrite <- E in *.
  assert (is_nul (default NUL (concat us1 !! 0%nat)) = false) as ->.
  { rewrite E in *. inversion Hd as [|? ? Hu _]; subst. destruct (uchar_head u Hu) as (c & l & -> & Hc & _). cbn.
    apply not_true_is_false. by rewrite is_nul_spec. }
  replace (S n - 1)%nat with n by lia. rewrite bind_run.
  destruct (copy_loop_spec char_map utf src n us1 Hd fuel [] m i 1 0 Hr1) as (R & K3 & L3);
    [cbn; lia|cbn; lia|unfold fuel; lia|lia|]. cbn [length app] in K3, L3. rewrite K3. cbn [Z.eqb negb] in *. rewrite Z.add_0_l.
  pose proof (squeeze_length char_map utf _ Hd true) as Hsl.
  destruct (finish_writes fuel (S n) empty _ R (squeeze_uchar char_map utf _ Hmap Hd true) He1 He2) as (R' & K4 & L4); [lia|unfold fuel; lia|].
  exists R'. split; [exact K4|]. by rewrite L4.
Qed.

(** ** Any text *)

Section safety.
Context (s : bytes) (end_ : nat).

Lemma fetch_text i m : (i ≤ length s)%nat → ∃ c, fetch (Text s) i m = Ok (c, m) ∧ (c = NUL ∨ (i < length s)%nat).
Proof using Type.
  intros Hi. cbn [fetch]. unfold clift, at_. destruct (s !! i) as [c|] eqn:E.
  - exists c. split; [done|]. right. by apply lookup_lt_Some in E.
  - apply lookup_ge_None in E. rewrite (proj2 (Nat.eqb_eq _ _)) by lia. eauto.
Qed.
Lemma continuation_inside c i : c = NUL ∨ (i < length s)%nat → is_continuation c = true → (i < length s)%nat.
Proof using Type. by intros [->|]. Qed.
Lemma store_safe d c m : (d < length m)%nat → ∃ m', put_byte d c m = Ok (tt, m') ∧ length m' = length m.
Proof using Type. intros Hd. unfold put_byte. rewrite (proj2 (Nat.ltb_lt _ _)) by done. eexists. split; [done|]. apply length_insert. Qed.
Lemma all_continue_safe n m : ∀ i, (i ≤ length s)%nat → ∃ b, all_continue n (Text s) i m = Ok (b, m) ∧
  (b = true → (i + n ≤ length s)%nat).
Proof using Type.
  induction n as [|n IH]; intros i Hi; cbn [all_continue]; [exists true; split; [done|lia]|].
  destruct (fetch_text i m Hi) as (c & K & Hc). rewrite bind_run, K.
  destruct (negb (IS_UTF8_BYTE c) || IS_UTF8_STARTBYTE c) eqn:E; [by exists false|].
  apply orb_false_iff in E as [E1 E2]. assert (Hlt : (i < length s)%nat).
  { eapply continuation_inside; [exact Hc|]. unfold is_continuation. apply negb_false_iff in E1. by rewrite E1, E2. }
  destruct (IH (S i) ltac:(lia)) as (b & K' & Hb). exists b. split; [done|]. intros ->. specialize (Hb eq_refl). lia.
Qed.
Lemma copy_bytes_safe n : ∀ i d m, (i + n ≤ length s)%nat → (d + n ≤ length m)%nat →
  ∃ m', copy_bytes n (Text s) i d m = Ok (tt, m') ∧ length m' = length m.
Proof using Type.
  induction n as [|n IH]; intros i d m Hi Hd; cbn [copy_bytes]; [by exists m|].
  destruct (fetch_text i m ltac:(lia)) as (c & K & _). rewrite bind_run, K.
  destruct (store_safe d c m ltac:(lia)) as (m1 & K1 & L1). rewrite bind_run, K1.
  destruct (IH (S i) (S d) m1 ltac:(lia) ltac:(lia)) as (m2 & K2 & L2). exists m2. split; [done|congruence].
Qed.
Lemma put_hex_safe i d m : (i ≤ length s)%nat → (d ≤ end_)%nat → length m = S (S end_) →
  ∃ d' m', put_hex (Text s) end_ i d m = Ok (d', m') ∧ (d < d' ≤ S end_)%nat ∧ length m' = length m.
Proof using Type.
  intros Hi Hd Hm. destruct (fetch_text i m Hi) as (c & K & _). unfold put_hex. rewrite bind_run, K.
  destruct (store_safe d (to_hex (Z.shiftr (Z.land (code c) 240) 4)) m ltac:(lia)) as (m1 & K1 & L1). rewrite bind_run, K1.
  destruct (Nat.leb_spec (S d) end_) as [Hle|Hgt]; [|exists (S d), m1; split_and!; [done|lia|lia|done]].
  destruct (fetch_text i m1 Hi) as (c1 & K2 & _). rewrite bind_run, K2.
  destruct (store_safe (S d) (to_hex (Z.land (code c1) 15)) m1 ltac:(lia)) as (m2 & K3 & L2). rewrite bind_run, K3.
  exists (S (S d)), m2. split_and!; [done|lia|lia|congruence].
Qed.
Lemma put_hex_rest_safe fuel : ∀ i d m, (i ≤ length s)%nat → (length s - i < fuel)%nat → (d ≤ S end_)%nat → length m = S (S end_) →
  ∃ i' d' m', put_hex_rest fuel (Text s) end_ i d m = Ok (i', d', m') ∧ (i ≤ i' ≤ length s)%nat ∧ (d' ≤ S end_)%nat ∧ length m' = length m.
Proof using Type.
  induction fuel as [|fuel IH]; intros i d m Hi Hf Hd Hm; [lia|]. cbn [put_hex_rest].
  destruct (fetch_text i m Hi) as (c & K & Hc). rewrite bind_run, K.
  destruct (is_continuation c) eqn:Ec; cbn [andb]; [|exists i, d, m; split_and!; (done || lia)].
  destruct (Nat.leb_spec d end_) as [Hle|Hgt]; [|exists i, d, m; split_and!; (done || lia)].
  pose proof (continuation_inside c i Hc Ec).
  destruct (put_hex_safe i d m Hi Hle Hm) as (d1 & m1 & K1 & D1 & L1). rewrite bind_run, K1.
  destruct (IH (S i) d1 m1) as (i' & d' & m' & K2 & I2 & D2 & L2); [lia|lia|lia|congruence|].
  exists i', d', m'. split_and!; [done|lia|lia|done|congruence].
Qed.
Lemma skip_continuation_safe fuel m : ∀ i, (i ≤ length s)%nat → (length s - i < fuel)%nat →
  ∃ i', skip_continuation fuel (Text s) i m = Ok (i', m) ∧ (i ≤ i' ≤ length s)%nat.
Proof using Type.
  induction fuel as [|fuel IH]; intros i Hi Hf; [lia|]. cbn [skip_continuation].
  destruct (fetch_text i m Hi) as (c & K & Hc). rewrite bind_run, K.
  destruct (is_continuation c) eqn:Ec; [|exists i; split; [done|lia]]. pose proof (continuation_inside c i Hc Ec).
  destruct (IH (S i)) as (i' & K' & Hi'); [lia|lia|]. exists i'. split; [done|lia].
Qed.
Lemma copy_loop_safe char_map utf fuel : ∀ i d last mblen m, (i ≤ length s)%nat → (length s - i < fuel)%nat →
  (d ≤ S end_)%nat → length m = S (S end_) →
  ∃ d' mb' m', copy_loop char_map utf (Text s) end_ fuel i d last mblen m = Ok (d', mb', m') ∧ (d' ≤ S end_)%nat ∧ length m' = length m.
Proof using Type.
  induction fuel as [|fuel IH]; intros i d last mblen m Hi Hf Hd Hm; [lia|]. cbn [copy_loop].
  destruct (fetch_text i m Hi) as (c & K & Hc). rewrite bind_run, K.
  destruct (is_nul c) eqn:En; cbn [negb andb]; [by exists d, mblen, m|].
  assert (Hlt : (i < length s)%nat) by (destruct Hc as [->|]; [done|done]).
  destruct (Nat.ltb_spec d end_) as [Hde|Hde]; [|by exists d, mblen, m].
  assert (Hnext : ∀ i' d' last' mb' m1, (S i ≤ i' ≤ length s)%nat → (d' ≤ S end_)%nat → length m1 = length m →
    ∃ d2 mb2 m2, copy_loop char_map utf (Text s) end_ fuel i' d' last' mb' m1 = Ok (d2, mb2, m2) ∧ (d2 ≤ S end_)%nat ∧ length m2 = length m).
  { intros i' d' last' mb' m1 Hi' Hd' Hm1. rewrite <- Hm1. apply IH; (lia || congruence). }
  assert (Hput : ∀ y i' last' mb', (S i ≤ i' ≤ length s)%nat → ∃ d2 mb2 m2,
    (_ ← put_byte d y; copy_loop char_map utf (Text s) end_ fuel i' (S d) last' mb') m = Ok (d2, mb2, m2) ∧ (d2 ≤ S end_)%nat ∧ length m2 = length m).
  { intros y i' last' mb' Hi'. destruct (store_safe d y m ltac:(lia)) as (m1 & K1 & L1). rewrite bind_run, K1. apply Hnext; lia. }
  destruct (IS_UTF8_STARTBYTE c).
  - rewrite bind_run. set (n := utf8_character_bytes c).
    assert (∃ b, valid_sequence (Text s) i n m = Ok (b, m) ∧ (b = true → (i + n ≤ length s)%nat ∧ (0 < n)%nat)) as (b & -> & Hb).
    { unfold valid_sequence. destruct (Nat.eqb_spec n 1); [by exists false|].
      destruct (all_continue_safe (n - 1) m (S i) ltac:(lia)) as (b & -> & Hb). exists b. split; [done|]. intros ->.
      specialize (Hb eq_refl). unfold n in *. unfold utf8_character_bytes in *. repeat case_match; lia. }
    destruct utf.
    + destruct (b && (d + n <=? end_)%nat) eqn:Ev.
      * apply andb_true_iff in Ev as [-> Ev%Nat.leb_le]. destruct (Hb eq_refl) as [Hb1 Hb2].
        destruct (copy_bytes_safe n i d m Hb1 ltac:(lia)) as (m1 & K1 & L1). rewrite bind_run, K1. apply Hnext; lia.
      * destruct (put_hex_safe i d m Hi ltac:(lia) Hm) as (d1 & m1 & K1 & D1 & L1). rewrite bind_run, K1.
        destruct (put_hex_rest_safe fuel (S i) d1 m1) as (i2 & d2 & m2 & K2 & I2 & D2 & L2); [lia|lia|lia|congruence|].
        rewrite bind_run, K2. apply Hnext; (lia || congruence).
    + destruct (store_safe d "_"%char m ltac:(lia)) as (m1 & K1 & L1). rewrite bind_run, K1.
      destruct (skip_continuation_safe fuel m1 (S i) ltac:(lia) ltac:(lia)) as (i2 & K2 & I2). rewrite bind_run, K2. apply Hnext; lia.
  - destruct (Ascii.eqb (char_map c) " "); [destruct (last =? 0)|]; [apply Hput; lia|apply Hnext; lia|apply Hput; lia].
Qed.
Lemma skip_leading_safe fuel m : ∀ i, (i ≤ length s)%nat → (length s - i < fuel)%nat →
  ∃ i', skip_leading fuel (Text s) i m = Ok (i', m) ∧ (i' ≤ length s)%nat.
Proof using Type.
  induction fuel as [|fuel IH]; intros i Hi Hf; [lia|]. cbn [skip_leading].
  destruct (fetch_text i m Hi) as (c & K & Hc). rewrite bind_run, K.
  destruct (is_hidden c) eqn:Eh; [|by exists i]. apply IH; [|destruct Hc as [->|]; [done|lia]].
  destruct Hc as [->|]; [done|lia].
Qed.
End safety.

(** A terminator at [k] ends every scan in front of it. *)
Lemma strlen_safe k m : m !! k = Some NUL → ∀ fuel i, (i ≤ k)%nat → (k - i < fuel)%nat →
  ∃ n, strlen_from fuel i m = Ok (n, m) ∧ (i + n ≤ k)%nat ∧ m !! (i + n)%nat = Some NUL.
Proof.
  intros Hk. induction fuel as [|fuel IH]; intros i Hi Hf; [lia|]. cbn [strlen_from]. rewrite bind_run. unfold get_byte at 1.
  destruct (m !! i) as [c|] eqn:E; [|apply lookup_ge_None in E; apply lookup_lt_Some in Hk; lia].
  destruct (is_nul c) eqn:En.
  - apply is_nul_spec in En as ->. exists 0%nat. rewrite Nat.add_0_r. split_and!; [done|done|done].
  - destruct (decide (i = k)) as [->|Hne]; [rewrite Hk in E; injection E as <-; done|].
    destruct (IH (S i) ltac:(lia) ltac:(lia)) as (n & K & H1 & H2). rewrite bind_run, K. exists (S n).
    replace (i + S n)%nat with (S i + n)%nat by lia. done.
Qed.
Lemma only_underscores_safe k m : m !! k = Some NUL → ∀ fuel i, (i ≤ k)%nat → (k - i < fuel)%nat →
  ∃ b, only_underscores fuel i m = Ok (b, m).
Proof.
  intros Hk. induction fuel as [|fuel IH]; intros i Hi Hf; [lia|]. cbn [only_underscores]. rewrite bind_run. unfold get_byte at 1.
  destruct (m !! i) as [c|] eqn:E; [|apply lookup_ge_None in E; apply lookup_lt_Some in Hk; lia].
  destruct (Ascii.eqb_spec c "_") as [->|]; [|by eexists].
  destruct (decide (i = k)) as [->|]; [by rewrite Hk in E|]. apply IH; lia.
Qed.
Lemma trim_loop_safe m d : ∀ mblen, (d ≤ length m)%nat → ∃ d' mb', trim_loop d mblen m = Ok (d', mb', m) ∧ (d' ≤ d)%nat.
Proof.
  induction d as [|d IH]; intros mblen Hd; cbn [trim_loop]; [by exists 0%nat, mblen|]. rewrite bind_run. unfold get_byte.
  destruct (m !! d) as [c|] eqn:E; [|apply lookup_ge_None in E; lia].
  destruct (negb (IS_UTF8_BYTE c) && Ascii.eqb c " "); [|by exists (S d), mblen].
  destruct (IH (mblen - 1) ltac:(lia)) as (d' & mb' & K & H). exists d', mb'. split; [done|lia].
Qed.
Lemma strncpyz_safe e : ∀ n i m, (i + Nat.min (length e) n < length m)%nat → ∃ m', strncpyz i e n m = Ok (tt, m') ∧ length m' = length m.
Proof.
  induction e as [|c e IH]; intros n i m Hn; [apply store_safe; cbn in Hn; lia|]. destruct n as [|n]; [apply store_safe; lia|].
  cbn [strncpyz]. cbn [length Nat.min] in Hn. destruct (store_safe i c m ltac:(lia)) as (m1 & K1 & L1). rewrite bind_run, K1.
  destruct (IH n (S i) m1) as (m2 & K2 & L2); [lia|]. exists m2. split; [done|congruence].
Qed.
(** The state the functions leave: the text ends inside the place. *)
Definition ends_inside (m : bytes) (r : cres (Z * Z * bytes)) : Prop :=
  ∃ n mb m', r = Ok (Z.of_nat n, mb, m') ∧ length m' = length m ∧ (n < length m)%nat ∧ m' !! n = Some NUL.
Lemma put_empty_safe empty dst_size m : (0 < dst_size)%nat → length m = S dst_size → ends_inside m (put_empty empty dst_size m).
Proof.
  intros Hd Hm. unfold put_empty. destruct (strncpyz_safe empty dst_size 0 m) as (m1 & K1 & L1); [lia|]. rewrite bind_run, K1, bind_run.
  unfold put_byte. rewrite (proj2 (Nat.ltb_lt _ _)) by lia. rewrite bind_run. set (m2 := <[_ := NUL]> m1).
  assert (Hk : m2 !! (dst_size - 1)%nat = Some NUL) by (apply list_lookup_insert_eq; lia).
  destruct (strlen_safe _ m2 Hk dst_size 0) as (n & K2 & H1 & H2); [lia|lia|]. rewrite K2. exists n, (Z.of_nat n), m2.
  split; [done|]. split; [unfold m2; by rewrite length_insert|]. split; [lia|done].
Qed.
Lemma finish_safe fuel dst_size empty d mblen m : (0 < dst_size)%nat → length m = S dst_size → (d ≤ dst_size)%nat → (dst_size < fuel)%nat →
  ends_inside m (finish fuel dst_size empty d mblen m).
Proof.
  intros H0 Hm Hd Hf. unfold finish. destruct (trim_loop_safe m d mblen ltac:(lia)) as (d1 & mb1 & K1 & D1). rewrite bind_run, K1, bind_run.
  unfold put_byte at 1. rewrite (proj2 (Nat.ltb_lt _ _)) by lia. set (m1 := <[d1 := NUL]> m).
  assert (L1 : length m1 = length m) by apply length_insert.
  assert (Hk : m1 !! d1 = Some NUL) by (apply list_lookup_insert_eq; lia).
  destruct (lookup_lt_is_Some_2 m1 0) as [c Hc]; [lia|]. assert (Hl : get_byte 0 m1 = Ok (c, m1)) by (unfold get_byte; by rewrite Hc).
  rewrite bind_run, Hl. destruct (only_underscores_safe d1 m1 Hk fuel 0 ltac:(lia) ltac:(lia)) as (b & K2).
  assert (Hdone : ends_inside m ((c ← get_byte 0; if is_nul c then put_empty empty dst_size else mret (Z.of_nat d1, mb1)) m1)).
  { rewrite bind_run, Hl. destruct (is_nul c).
    - unfold ends_inside. rewrite <- L1. apply put_empty_safe; [done|congruence].
    - exists d1, mb1, m1. split; [done|]. split; [done|]. split; [lia|done]. }
  assert (Hblank : ends_inside m ((_ ← put_byte 0 NUL; c ← get_byte 0; if is_nul c then put_empty empty dst_size else mret (Z.of_nat d1, mb1)) m1)).
  { destruct (store_safe 0 NUL m1 ltac:(lia)) as (m2 & K3 & L2). assert (m2 = <[0%nat := NUL]> m1) as ->.
    { unfold put_byte in K3. rewrite (proj2 (Nat.ltb_lt _ _)) in K3 by lia. by injection K3. }
    rewrite bind_run, K3, bind_run. unfold get_byte. rewrite list_lookup_insert_eq by lia. change (is_nul NUL) with true. cbn match.
    unfold ends_inside. rewrite <- L1, <- L2. apply put_empty_safe; [done|congruence]. }
  rewrite bind_run. destruct (Ascii.eqb c "_"); [rewrite K2; destruct b|]; [exact Hblank|exact Hdone|exact Hdone].
Qed.
Lemma sanitize_safe char_map utf src dst_size empty m : (0 < dst_size)%nat → length m = S dst_size →
  ends_inside m (text_sanitize (Text <$> src) dst_size char_map utf empty m).
Proof.
  intros H0 Hm. unfold text_sanitize. rewrite (proj2 (Nat.eqb_neq _ _)) by lia.
  destruct src as [s|]; cbn [fmap option_fmap option_map]; [|by apply put_empty_safe].
  set (fuel := S (source_length (Text s) m + length m)). rewrite bind_run. cbn [cget]. fold fuel. rewrite bind_run.
  destruct (skip_leading_safe s fuel m 0) as (i & K1 & Hi); [lia|unfold fuel; cbn; lia|]. rewrite K1, bind_run.
  destruct (fetch_text s i m Hi) as (c & K2 & _). rewrite K2. destruct (is_nul c); [by apply put_empty_safe|].
  rewrite bind_run. destruct (copy_loop_safe s (dst_size - 1) char_map utf fuel i 0 1 0 m) as (d & mb & m1 & K3 & D3 & L3);
    [done|unfold fuel; cbn; lia|lia|lia|]. rewrite K3. unfold ends_inside. rewrite <- L3.
  apply finish_safe; [done|congruence|lia|unfold fuel; lia].
Qed.

(** ** A character at the end of the place *)

Lemma copy_letters char_map utf s end_ fuel n : char_map "a"%char = "a"%char → ∀ D R i last mblen rest,
  reads (Text s) D R i (replicate n "a"%char ++ rest) → (length D + n ≤ end_)%nat → (n < length R)%nat →
  ∃ last' mblen' R', copy_loop char_map utf (Text s) end_ (n + fuel) i (length D) last mblen (D ++ R) =
    copy_loop char_map utf (Text s) end_ fuel (i + n) (length D + n) last' mblen' ((D ++ replicate n "a"%char) ++ R') ∧
  reads (Text s) (D ++ replicate n "a"%char) R' (i + n) rest ∧ length R = (n + length R')%nat.
Proof.
  intros Ha. induction n as [|n IH]; intros D R i last mblen rest Hr Hroom HR.
  { exists last, mblen, R. cbn. rewrite app_nil_r, !Nat.add_0_r. done. }
  cbn [replicate app] in Hr. destruct R as [|x R]; [cbn in HR; lia|].
  destruct (IH (D ++ ["a"%char]) R (S i) 0 (mblen + 1) rest) as (last' & mblen' & R' & K & Hr' & L);
    [by eapply reads_write|rewrite length_app; cbn; lia|cbn in HR; lia|].
  exists last', mblen', R'. rewrite <- (app_assoc D ["a"%char] (replicate n "a"%char)) in K, Hr'. cbn [app] in K, Hr'. rewrite length_app in K. cbn [length] in K.
  replace (i + S n)%nat with (S i + n)%nat by lia. replace (length D + S n)%nat with (length D + 1 + n)%nat by lia.
  cbn [replicate]. split; [|split; [done|cbn [length]; lia]]. rewrite <- K. cbn [Nat.add copy_loop]. rewrite bind_run, (reads_head _ _ _ _ _ _ Hr).
  rewrite (proj2 (Nat.ltb_lt _ _)) by lia. change (is_nul "a"%char) with false. cbn [negb andb].
  change (IS_UTF8_STARTBYTE "a"%char) with false. cbn match. rewrite Ha. change (Ascii.eqb "a" " ") with false. cbn match.
  rewrite bind_run, run_store. by rewrite Nat.add_1_r.
Qed.
(** The text: letters, and one character of two bytes. *)
Definition letters_and_e (n : nat) : bytes := replicate n "a"%char ++ ["195"%char; "169"%char].
Lemma sanitize_behind n char_map empty m : char_map "a"%char = "a"%char → length m = S (S n) →
  text_sanitize (Some (Text (letters_and_e n))) (S (S n)) char_map true empty m = UB UB_oob.
Proof.
  intros Ha Hm. unfold text_sanitize. cbn [Nat.eqb]. rewrite bind_run. cbn [cget]. set (s := letters_and_e n).
  assert (Hl : length s = S (S n)) by (unfold s, letters_and_e; rewrite length_app, length_replicate; cbn; lia).
  cbn [source_length]. rewrite Hl, Hm. assert (Hr : reads (Text s) [] m 0 s) by (split; [lia|done]).
  assert (Hf : ∃ c, fetch (Text s) 0 m = Ok (c, m) ∧ is_hidden c = false ∧ is_nul c = false).
  { destruct n; [by exists "195"%char|by exists "a"%char]. }
  destruct Hf as (c & K0 & Hh & Hn). rewrite bind_run. cbn [skip_leading]. rewrite bind_run, K0, Hh. cbn [mret cst_ret].
  rewrite bind_run, K0, Hn, bind_run. replace (S (S n) - 1)%nat with (S n) by lia.
  destruct (copy_letters char_map true s (S n) (5 + n) n Ha [] m 0 1 0 ["195"%char; "169"%char] Hr) as (last' & mb' & R & K & Hr' & L);
    [cbn; lia|lia|]. cbn [length app Nat.add] in K, Hr'. replace (n + S (S (S (S (S n)))))%nat with (S (S (S n) + S (S n)))%nat in K by lia.
  rewrite K. clear K. rewrite Hm in L. destruct R as [|x [|y [|z R]]]; [cbn in L; lia|cbn in L; lia| |cbn in L; lia].
  set (D := replicate n "a"%char) in *. assert (HD : length D = n) by apply length_replicate.
  cbn [copy_loop]. rewrite bind_run, (reads_head _ _ _ _ _ _ Hr'). change (is_nul "195") with false. cbn [negb andb].
  rewrite (proj2 (Nat.ltb_lt _ _)) by lia. change (IS_UTF8_STARTBYTE "195") with true. cbn match.
  change (utf8_character_bytes "195") with 2%nat. unfold valid_sequence. cbn [Nat.eqb Nat.sub all_continue].
  assert (K1 := reads_fetch _ _ _ _ _ 1 Hr' ltac:(cbn; lia)). rewrite Nat.add_1_r in K1. cbn [lookup list_lookup default] in K1.
  change (id "169"%char) with "169"%char in K1.
  assert (F1 : ∀ m', fetch (Text s) (S n) m' = Ok ("169"%char, m')).
  { intros m'. cbn [fetch] in *. unfold clift in *. destruct (at_ s (S n)) as [a| |]; [|done|done]. by injection K1 as ->. }
  assert (F0 : ∀ m', fetch (Text s) n m' = Ok ("195"%char, m')).
  { intros m'. assert (K2 := reads_head _ _ _ _ _ _ Hr'). cbn [fetch] in *. unfold clift in *.
    destruct (at_ s n) as [a| |]; [|done|done]. by injection K2 as ->. }
  rewrite bind_run, bind_run, F1. change (negb (IS_UTF8_BYTE "169") || IS_UTF8_STARTBYTE "169") with false. cbn [mret cst_ret].
  rewrite (proj2 (Nat.leb_gt _ _)) by lia. cbn [andb]. rewrite bind_run. unfold put_hex. rewrite bind_run, F0, bind_run.
  assert (Hs0 : ∀ c1 R1, put_byte n c1 (D ++ x :: R1) = Ok (tt, (D ++ [c1]) ++ R1)) by (intros c1 R1; rewrite <- HD at 1; apply run_store).
  rewrite Hs0, Nat.leb_refl, bind_run, F0, bind_run.
  assert (Hs1 : ∀ c1 c2 R1, put_byte (S n) c2 ((D ++ [c1]) ++ y :: R1) = Ok (tt, ((D ++ [c1]) ++ [c2]) ++ R1)).
  { intros c1 c2 R1. rewrite <- (run_store (D ++ [c1]) y R1 c2). by rewrite length_app, HD, Nat.add_1_r. }
  rewrite Hs1. cbn [mret cst_ret]. rewrite app_nil_r. set (m1 := (D ++ _) ++ _).
  rewrite bind_run. cbn [put_hex_rest]. rewrite bind_run, F1. change (is_continuation "169") with true. cbn [andb].
  rewrite (proj2 (Nat.leb_gt _ _)) by lia. cbn [mret cst_ret Nat.add copy_loop]. rewrite bind_run, F1. change (is_nul "169") with false. cbn [negb andb].
  rewrite (proj2 (Nat.ltb_ge _ _)) by lia. cbn [mret cst_ret]. rewrite bind_run. cbn [trim_loop]. rewrite bind_run. unfold get_byte.
  assert (m1 !! S n = Some "3"%char) as ->.
  { unfold m1. rewrite lookup_app_r; rewrite length_app, HD; cbn [length]; [|lia]. by replace (S n - (n + 1))%nat with 0%nat by lia. }
  change (negb (IS_UTF8_BYTE "3") && Ascii.eqb "3" " ") with false. cbn [mret cst_ret]. rewrite bind_run. unfold put_byte.
  assert (length m1 = S (S n)) as -> by (unfold m1; rewrite !length_app, HD; cbn; lia).
  by rewrite (proj2 (Nat.ltb_ge _ _)) by lia.
Qed.

(** ** The tables *)

Lemma table_good (f : char_map_t) : (∀ c, code c < 128 → c ≠ NUL → (code (f c) <? 128) && negb (is_nul (f c)) = true) → good_map f.
Proof.
  intros H c Hc H0. specialize (H c Hc H0). apply andb_true_iff in H as [H1%Z.ltb_lt H2%negb_true_iff]. split; [done|].
  intros E. rewrite E in H2. done.
Qed.
#[local] Ltac all_bytes := intros [[] [] [] [] [] [] [] []]; vm_compute; by intros.
Lemma label_values_good : good_map label_values_char_map.
Proof. apply table_good. all_bytes. Qed.
Lemma label_names_good : good_map label_names_char_map.
Proof. apply table_good. all_bytes. Qed.
Lemma prometheus_good : good_map prometheus_label_names_char_map.
Proof. apply table_good. all_bytes. Qed.
Lemma chart_names_good : good_map chart_names_allowed_chars.
Proof. apply table_good. all_bytes. Qed.
Lemma external_plugins_good : good_map external_plugins_map.
Proof. apply table_good. all_bytes. Qed.
Lemma functions_good : good_map functions_allowed_chars.
Proof. apply table_good. all_bytes. Qed.

(** ** Chart names *)

Definition no_bang (t : bytes) : bytes := match t with c :: t => (if Ascii.eqb c "!" then "_"%char else c) :: t | [] => [] end.
Definition no_space (c : ascii) : ascii := if Ascii.eqb c " " then "_"%char else c.
(** The name [netdata_fix_chart_name()] makes. *)
Definition fixed_name (us : list bytes) : bytes := no_space <$> no_bang (concat (sanitized chart_names_allowed_chars true us)).

Lemma spaces_to_underscores_spec B R : ∀ A fuel, NUL ∉ B → (length B < fuel)%nat →
  spaces_to_underscores fuel (length A) (A ++ B ++ NUL :: R) = Ok (tt, A ++ (no_space <$> B) ++ NUL :: R).
Proof.
  induction B as [|c B IH]; intros A fuel HB Hf; (destruct fuel as [|fuel]; [cbn in Hf; lia|]); cbn [spaces_to_underscores].
  - rewrite bind_run. unfold get_byte. by rewrite lookup_app_r, Nat.sub_diag by lia.
  - rewrite bind_run. unfold get_byte. rewrite lookup_app_r, Nat.sub_diag by lia. cbn [app lookup list_lookup].
    assert (is_nul c = false) as ->. { apply not_true_is_false. rewrite is_nul_spec. set_solver. }
    specialize (IH (A ++ [no_space c]) fuel ltac:(set_solver) ltac:(cbn in Hf; lia)).
    rewrite length_app, Nat.add_1_r, <- !app_assoc in IH. cbn [app] in IH.
    rewrite bind_run. cbn [fmap list_fmap]. unfold no_space in IH at 1 2 |- * at 1. destruct (Ascii.eqb c " ").
    + rewrite run_store, <- app_assoc. exact IH.
    + exact IH.
Qed.
Lemma result_empty out : result_text out [] = concat out.
Proof. by destruct out. Qed.
Lemma sanitized_uchar char_map utf us : good_map char_map → Forall uchar us → Forall uchar (sanitized char_map utf us).
Proof.
  intros Hm Hus. unfold sanitized. case_match; [constructor|]. apply trim_end_uchar, squeeze_uchar; [done|]. by apply drop_hidden_uchar.
Qed.
Lemma sanitize_chart_name_spec src us dst_size m : Forall uchar us → reads src [] m 0 (concat us) →
  (length (concat us) < dst_size ≤ length m)%nat → ∃ R,
  sanitize_chart_name src dst_size m = Ok (tt, fixed_name us ++ NUL :: R) ∧ length (fixed_name us ++ NUL :: R) = length m.
Proof.
  intros Hus Hr Hlen. unfold sanitize_chart_name.
  destruct (sanitize_valid chart_names_allowed_chars true src us dst_size [] m chart_names_good Hus Hr Hlen) as (R & K & L);
    [cbn; lia|set_solver|]. rewrite result_empty in K, L. rewrite bind_run, K. clear K.
  pose proof (concat_no_nul _ (sanitized_uchar chart_names_allowed_chars true us chart_names_good Hus)) as Hn.
  unfold fixed_name. set (t := concat (sanitized chart_names_allowed_chars true us)) in *. exists R.
  assert (Hb : ∃ c', get_byte 0 (t ++ NUL :: R) = Ok (c', t ++ NUL :: R) ∧
    (if Ascii.eqb c' "!" then put_byte 0 "_"%char else mret tt) (t ++ NUL :: R) = Ok (tt, no_bang t ++ NUL :: R)).
  { destruct t as [|c t]; [by exists NUL|]. exists c. split; [done|]. cbn [no_bang]. by destruct (Ascii.eqb c "!"). }
  destruct Hb as (c' & K1 & K2). rewrite bind_run, K1, bind_run, K2, bind_run. cbn [cget].
  assert (Hlb : length (no_bang t) = length t) by (by destruct t).
  split; [|by rewrite <- L, !length_app, length_fmap, Hlb].
  apply (spaces_to_underscores_spec (no_bang t) R []).
  - destruct t as [|c t]; [done|]. cbn [no_bang]. destruct (Ascii.eqb c "!"); set_solver.
  - rewrite length_app. cbn. lia.
Qed.
(** In place. *)
Lemma fix_chart_name_spec us junk : Forall uchar us → ∃ R,
  netdata_fix_chart_name (concat us ++ NUL :: junk) = Ok (tt, fixed_name us ++ NUL :: R) ∧
  length (fixed_name us ++ NUL :: R) = length (concat us ++ NUL :: junk).
Proof.
  intros Hus. unfold netdata_fix_chart_name. rewrite bind_run. cbn [cget]. rewrite bind_run.
  assert (K := strlen_spec (concat us) junk [] (length (concat us ++ NUL :: junk)) (concat_no_nul us Hus)).
  cbn [length app] in K. rewrite K by (rewrite length_app; cbn; lia). apply sanitize_chart_name_spec; [done| |].
  - split; [done|]. by exists junk.
  - rewrite length_app. cbn. lia.
Qed.

(** A character that is kept: of several bytes, or mapped to itself and no space. *)
Definition kept (u : bytes) : Prop :=
  multibyte u ∨ ∃ c, u = [c] ∧ code c < 128 ∧ c ≠ NUL ∧ chart_names_allowed_chars c = c ∧ c ≠ " "%char.
(** The API accepts what is kept, except the exclamation mark. *)
Lemma api_valid c : code c < 128 → c ≠ NUL → is_netdata_api_valid_character c = true ↔
  (chart_names_allowed_chars c = c ∧ c ≠ " "%char) ∧ c ≠ "!"%char.
Proof. destruct c as [[] [] [] [] [] [] [] []]; vm_compute; intros; first [done|split; [discriminate|intros [[? ?] ?]; congruence]|split; intros; split_and!; congruence]. Qed.
Lemma kept_visible c : code c < 128 → c ≠ NUL → chart_names_allowed_chars c = c → c ≠ " "%char → is_hidden c = false.
Proof. destruct c as [[] [] [] [] [] [] [] []]; vm_compute; intros; first [done|congruence]. Qed.
Lemma kept_again c : code c < 128 → c ≠ NUL → let c' := no_space (chart_names_allowed_chars c) in
  code c' < 128 ∧ c' ≠ NUL ∧ chart_names_allowed_chars c' = c' ∧ c' ≠ " "%char.
Proof. destruct c as [[] [] [] [] [] [] [] []]; vm_compute; intros; first [done|split_and!; congruence]. Qed.
Lemma kept_image u : kept u → image chart_names_allowed_chars true u = u ∧ u ≠ space ∧ hidden_char u = false ∧
  Forall (λ c, no_space c = c) u.
Proof.
  intros [Hu|(c & -> & H1 & H2 & H3 & H4)].
  - destruct (multibyte_inv _ Hu) as (b0 & l & -> & Hs & _ & _ & Hl0 & Hl). destruct l as [|x l]; [done|].
    split_and!; [done|by intros [=]|done|]. unfold no_space. constructor.
    + destruct (Ascii.eqb_spec b0 " ") as [->|]; done.
    + eapply Forall_impl; [exact Hl|]. intros c Hc. destruct (Ascii.eqb_spec c " ") as [->|]; done.
  - split_and!; [cbn; by rewrite H3|by intros [=]|by apply kept_visible|].
    constructor; [|done]. unfold no_space. by rewrite (proj2 (Ascii.eqb_neq _ _)) by done.
Qed.
Lemma squeeze_kept us : Forall kept us → ∀ sp, squeeze chart_names_allowed_chars true sp us = us.
Proof.
  induction 1 as [|u us Hu Hus IH]; intros sp; [done|]. cbn [squeeze]. destruct (kept_image u Hu) as (-> & E & _).
  by rewrite bool_decide_false, IH by done.
Qed.
Lemma trim_kept us : Forall kept us → trim_end us = us.
Proof.
  induction 1 as [|u us Hu Hus IH]; [done|]. cbn [trim_end]. rewrite IH. destruct us; [|done].
  destruct (kept_image u Hu) as (_ & E & _). by rewrite bool_decide_false by done.
Qed.
Lemma no_space_kept us : Forall kept us → no_space <$> concat us = concat us.
Proof.
  induction 1 as [|u us Hu Hus IH]; [done|]. cbn [concat]. rewrite fmap_app, IH. f_equal.
  destruct (kept_image u Hu) as (_ & _ & _ & Hs). clear -Hs. induction Hs as [|c u Hc _ IH]; [done|]. cbn. by rewrite Hc, IH.
Qed.
Lemma fixed_kept us : Forall kept us → concat us !! 0%nat ≠ Some "!"%char →
  fixed_name us = if forallb (λ u, bool_decide (u = underscore)) us then [] else concat us.
Proof.
  intros Hus Hb. unfold fixed_name, sanitized.
  assert (drop_hidden us = us) as -> by (destruct Hus as [|u us Hu _]; [done|]; cbn; by destruct (kept_image u Hu) as (_ & _ & -> & _)).
  rewrite squeeze_kept, trim_kept by done. case_match; [done|].
  assert (no_bang (concat us) = concat us) as ->; [|by apply no_space_kept].
  destruct (concat us) as [|c t]; [done|]. cbn in *. by rewrite (proj2 (Ascii.eqb_neq _ _)) by congruence.
Qed.
(** A fixed name is made of characters that are kept, and no exclamation mark is first. *)
Definition settled (u : bytes) : Prop := multibyte u ∨ ∃ c, u = [c] ∧ code c < 128 ∧ c ≠ NUL ∧ chart_names_allowed_chars c = c.
Lemma squeeze_settled us : Forall uchar us → ∀ sp, Forall settled (squeeze chart_names_allowed_chars true sp us).
Proof.
  induction 1 as [|u us Hu Hus IH]; intros sp; [constructor|]. cbn [squeeze].
  assert (Hsp : settled space) by (right; by exists " "%char).
  case_bool_decide as E; [destruct sp; [done|by constructor]|]. constructor; [|done].
  destruct Hu as [(c & -> & H1 & H2)|Hu].
  - cbn in *. right. exists (chart_names_allowed_chars c). destruct (kept_again c H1 H2) as (K1 & K2 & K3 & K4).
    assert (Hn : chart_names_allowed_chars c ≠ " "%char) by (intros Hn; apply E; by rewrite Hn).
    unfold no_space in *. rewrite (proj2 (Ascii.eqb_neq _ _) Hn) in K1, K2, K3. done.
  - destruct (multibyte_inv _ Hu) as (b0 & [|x l] & -> & _ & _ & _ & ? & _); [done|]. by left.
Qed.
Lemma trim_settled us : Forall settled us → Forall settled (trim_end us).
Proof.
  induction 1 as [|u us Hu Hus IH]; [done|]. cbn. destruct (trim_end us); [|by constructor].
  destruct (bool_decide (u = space)); by repeat first [done|constructor].
Qed.
Lemma settled_kept u : settled u → kept (no_space <$> u).
Proof.
  intros [Hu|(c & -> & H1 & H2 & H3)].
  - assert (no_space <$> u = u) as ->; [|by left]. assert (Hk : kept u) by (by left).
    pose proof (no_space_kept [u] (ltac:(by repeat constructor))) as E. cbn in E. by rewrite app_nil_r in E.
  - right. exists (no_space c). split; [done|]. rewrite <- H3 at 1 2 3 4 5. by apply kept_again.
Qed.
Definition spaceless (u : bytes) : bytes := no_space <$> u.
Lemma fixed_settled us : Forall uchar us → ∃ us', fixed_name us = concat us' ∧ Forall kept us' ∧ concat us' !! 0%nat ≠ Some "!"%char.
Proof.
  intros Hus. unfold fixed_name. set (out := sanitized chart_names_allowed_chars true us).
  assert (Ho : Forall settled out).
  { unfold out, sanitized. case_match; [constructor|]. apply trim_settled, squeeze_settled. by apply drop_hidden_uchar. }
  clearbody out. clear Hus us.
  assert (Hmap : ∀ l, Forall settled l → Forall kept (spaceless <$> l) ∧ no_space <$> concat l = concat (spaceless <$> l)).
  { induction 1 as [|u l Hu _ [IH1 IH2]]; [done|]. cbn [fmap list_fmap concat]. split; [constructor; [by apply settled_kept|done]|].
    rewrite fmap_app. f_equal. exact IH2. }
  destruct Ho as [|u out Hu Ho]; [by exists []|]. destruct (Hmap out Ho) as [M1 M2].
  assert (Hbang : kept ["_"%char]) by (right; by exists "_"%char).
  destruct (decide (u = ["!"%char])) as [->|Hne].
  - exists (["_"%char] :: (spaceless <$> out)). split; [cbn; by rewrite M2|]. split; [by constructor|done].
  - exists (spaceless u :: (spaceless <$> out)). split; [|split; [constructor; [by apply settled_kept|done]|]].
    + cbn [concat]. rewrite <- M2. unfold spaceless. rewrite <- fmap_app. f_equal. destruct Hu as [(b0 & l & -> & Hs & _)%multibyte_inv|(c & -> & _)]; cbn.
      * destruct (Ascii.eqb_spec b0 "!") as [->|]; done.
      * rewrite (proj2 (Ascii.eqb_neq _ _)) by congruence. done.
    + destruct Hu as [(b0 & l & -> & Hs & _)%multibyte_inv|(c & -> & _)]; cbn; unfold no_space; intros [= E].
      * destruct (Ascii.eqb b0 " "); [done|]. by rewrite E in Hs.
      * destruct (Ascii.eqb_spec c " "); [done|]. congruence.
Qed.
(** A name of characters the API accepts is kept, unless it is only underscores. *)
Lemma valid_names_kept (name junk : bytes) : Forall (λ c, code c < 128 ∧ c ≠ NUL ∧ is_netdata_api_valid_character c = true) name →
  forallb (λ c, Ascii.eqb c "_") name = false → ∃ R,
  netdata_fix_chart_name (name ++ NUL :: junk) = Ok (tt, name ++ NUL :: R).
Proof.
  intros Hn Hu. set (us := (λ c, [c]) <$> name).
  assert (Hc : concat us = name) by (unfold us; clear; induction name as [|c n IH]; [done|]; cbn; by rewrite IH).
  assert (Hk : Forall kept us).
  { unfold us. apply Forall_fmap. eapply Forall_impl; [exact Hn|]. intros c (H1 & H2 & H3). right. exists c.
    apply api_valid in H3 as [[H4 H5] _]; [|done|done]. done. }
  assert (Huc : Forall uchar us) by (eapply Forall_impl; [exact Hk|]; intros u [H|(c & -> & H1 & H2 & _)]; [by right|by apply one_plain]).
  destruct (fix_chart_name_spec us junk Huc) as (R & K & _). rewrite Hc in K. exists R. rewrite K, fixed_kept, Hc; [|done|].
  - by rewrite all_underscores, Hc, Hu.
  - rewrite Hc. destruct Hn as [|c n (H1 & H2 & H3) _]; [done|]. apply api_valid in H3 as [_ H4]; [|done|done]. by intros [= ->].
Qed.

(** ** Theorems *)

(** C27. On valid UTF-8 that fits its place, [text_sanitize()] leaves there the text of
    the reference, terminated, and returns the numbers of its bytes and
    characters: the same text whether it works in place or not. *)
Theorem text_sanitize_is_reference char_map utf us src dst_size empty m : good_map char_map → Forall uchar us →
  src = Text (concat us) ∨ (src = Self ∧ ∃ junk, m = concat us ++ NUL :: junk) →
  (length (concat us) < dst_size ≤ length m)%nat → (length empty < dst_size)%nat → NUL ∉ empty →
  let out := sanitized char_map utf us in
  ∃ R, text_sanitize (Some src) dst_size char_map utf empty m =
      Ok (Z.of_nat (length (result_text out empty)), result_chars out empty, result_text out empty ++ NUL :: R) ∧
    length (result_text out empty ++ NUL :: R) = length m.
Proof.
  intros Hmap Hus Hsrc. apply sanitize_valid; [done|done|]. destruct Hsrc as [->|[-> (junk & ->)]]; cbn.
  - split; [lia|done].
  - split; [done|]. by exists junk.
Qed.

(** C28. Whatever the text is, [text_sanitize()] returns and leaves a terminated text, and
    writes inside the place, if the place has one byte more than the size given. *)
Theorem text_sanitize_one_byte_more char_map utf src dst_size empty m : (0 < dst_size)%nat → length m = S dst_size →
  ends_inside m (text_sanitize (Text <$> src) dst_size char_map utf empty m).
Proof. apply sanitize_safe. Qed.

(** C29. With exactly the size given, a text that is cut inside a character of two bytes
    makes [text_sanitize()] write its terminator behind the place, at every size. *)
Theorem text_sanitize_writes_behind n char_map empty m : char_map "a"%char = "a"%char → length m = S (S n) →
  text_sanitize (Some (Text (letters_and_e n))) (S (S n)) char_map true empty m = UB UB_oob.
Proof. apply sanitize_behind. Qed.

(** Fixing a fixed chart name again changes nothing, except that a name of
    underscores only becomes empty. *)
Theorem chart_names_settle us junk : Forall uchar us → ∃ name R R',
  netdata_fix_chart_name (concat us ++ NUL :: junk) = Ok (tt, name ++ NUL :: R) ∧
  netdata_fix_chart_name (name ++ NUL :: R) =
    Ok (tt, (if forallb (λ c, Ascii.eqb c "_") name then [] else name) ++ NUL :: R').
Proof.
  intros Hus. destruct (fix_chart_name_spec us junk Hus) as (R & K & _). destruct (fixed_settled us Hus) as (us' & E & Hk & Hb).
  assert (Huc : Forall uchar us') by (eapply Forall_impl; [exact Hk|]; intros u [H|(c & -> & H1 & H2 & _)]; [by right|by apply one_plain]).
  destruct (fix_chart_name_spec us' R Huc) as (R' & K' & _). exists (fixed_name us), R, R'. split; [done|].
  by rewrite E, K', fixed_kept, all_underscores.
Qed.

(** *** Examples *)

Definition greeting : list bytes := [[" "%char]; ["a"%char]; [" "%char]; ["009"%char]; ["195"%char; "169"%char]; ["!"%char]; [" "%char]].
Lemma greeting_valid : Forall uchar greeting.
Proof.
  unfold greeting. repeat apply List.Forall_cons; try apply List.Forall_nil; try (by apply one_plain). right. exists "195"%char, ["169"%char]. split; [done|].
  split; [by split_and!|]. by repeat constructor.
Qed.
Lemma text_sanitize_is_reference_witness : ∃ R,
  text_sanitize (Some Self) 9 label_values_char_map true (chars_of "[none]") (concat greeting ++ [NUL]) =
    Ok (5, 4, ["a"%char; " "%char; "195"%char; "169"%char; "_"%char] ++ NUL :: R) ∧ length (["a"%char; " "%char; "195"%char; "169"%char; "_"%char] ++ NUL :: R) = 9%nat.
Proof.
  apply (text_sanitize_is_reference label_values_char_map true greeting Self 9 (chars_of "[none]") (concat greeting ++ [NUL])).
  - exact label_values_good.
  - exact greeting_valid.
  - right. split; [reflexivity|]. by exists [].
  - cbn. lia.
  - cbn. lia.
  - cbn. intros H. repeat (apply elem_of_cons in H as [[=]|H]). by apply elem_of_nil in H.
Defined.
Lemma text_sanitize_one_byte_more_witness :
  ends_inside (replicate 6 NUL) (text_sanitize (Text <$> Some (letters_and_e 3)) 5 functions_allowed_chars true [] (replicate 6 NUL)).
Proof. apply (text_sanitize_one_byte_more functions_allowed_chars true (Some (letters_and_e 3)) 5 []); [lia|reflexivity]. Defined.
Lemma text_sanitize_writes_behind_witness :
  text_sanitize (Some (Text (letters_and_e 3))) 5 functions_allowed_chars true [] (replicate 5 NUL) = UB UB_oob.
Proof. apply (text_sanitize_writes_behind 3 functions_allowed_chars []); reflexivity. Defined.
Lemma chart_names_settle_witness : ∃ name R R',
  netdata_fix_chart_name (concat greeting ++ [NUL]) = Ok (tt, name ++ NUL :: R) ∧
  netdata_fix_chart_name (name ++ NUL :: R) =
    Ok (tt, (if forallb (λ c, Ascii.eqb c "_") name then [] else name) ++ NUL :: R').
Proof. apply (chart_names_settle greeting []). exact greeting_valid. Defined.
