(* ===== verification/Interleave.v ===== *)
(** * Threads on shared memory

    A program of several threads is a shared state and a list of thread states.
    A schedule says which thread moves and what it does; every move is one atomic
    access.  Invariants hold after every schedule if every move keeps them, and
    counting the threads in a kind of state is how the counters of the locks are
    explained. *)

From S2P Require Import Prelude.
#[local] Open Scope Z_scope.

Section system.
Context {S T E : Type} (tstep : nat → E → S → T → option (S * T)).

Definition system : Type := S * list T.
(** Thread [i] does [e]. *)
Definition sys_step (ie : nat * E) (s : system) : option system :=
  t ← snd s !! ie.1;
  '(g, t) ← tstep ie.1 ie.2 (fst s) t;
  Some (g, <[ie.1 := t]> (snd s)).
Fixpoint run (sched : list (nat * E)) (s : system) : option system :=
  match sched with
  | [] => Some s
  | ie :: sched => s ← sys_step ie s; run sched s
  end.

Lemma sys_step_inv i e s s' : sys_step (i, e) s = Some s' → ∃ t g t', snd s !! i = Some t ∧ tstep i e (fst s) t = Some (g, t') ∧
  s' = (g, <[i := t']> (snd s)).
Proof.
  unfold sys_step. cbn. destruct (snd s !! i) as [t|]; [|done]. cbn. destruct (tstep i e (fst s) t) as [[g t']|] eqn:K; [|done].
  cbn. intros [= <-]. by exists t, g, t'.
Qed.
Lemma run_cons ie sched s : run (ie :: sched) s = sys_step ie s ≫= run sched.
Proof. done. Qed.
Lemma run_app l1 l2 s : run (l1 ++ l2) s = run l1 s ≫= run l2.
Proof. revert s. induction l1 as [|ie l1 IH]; intros s; [done|]. cbn. destruct (sys_step ie s); [apply IH|done]. Qed.
(** An invariant of the moves a schedule is made of. *)
Lemma run_invariant (allowed : nat * E → Prop) (inv : system → Prop) :
  (∀ i e s s', allowed (i, e) → inv s → sys_step (i, e) s = Some s' → inv s') →
  ∀ sched s s', Forall allowed sched → inv s → run sched s = Some s' → inv s'.
Proof.
  intros Hstep. induction sched as [|[i e] sched IH]; intros s s' Ha Hi; cbn [run]; [by intros [= <-]|].
  inversion Ha as [|? ? Ha1 Ha2]; subst. destruct (sys_step (i, e) s) as [s1|] eqn:K; [|done]. cbn. apply IH; [done|]. by eapply Hstep.
Qed.
Lemma run_threads sched : ∀ s s', run sched s = Some s' → length (snd s') = length (snd s).
Proof.
  induction sched as [|[i e] sched IH]; intros s s'; cbn [run]; [by intros [= <-]|].
  destruct (sys_step (i, e) s) as [s1|] eqn:K; [|done]. intros H%IH. apply sys_step_inv in K as (t & g & t' & _ & _ & ->).
  rewrite H. cbn. apply length_insert.
Qed.
Lemma sys_move i e g l t g' t' : l !! i = Some t → tstep i e g t = Some (g', t') → sys_step (i, e) (g, l) = Some (g', <[i := t']> l).
Proof. intros Hi K. unfold sys_step. cbn. rewrite Hi. cbn. by rewrite K. Qed.
(** Moves of one thread while the others stand still. *)
Fixpoint solo (i : nat) (es : list E) (g : S) (t : T) : option (S * T) :=
  match es with
  | [] => Some (g, t)
  | e :: es => '(g, t) ← tstep i e g t; solo i es g t
  end.
Lemma run_solo i es : ∀ g l t g' t', l !! i = Some t → solo i es g t = Some (g', t') →
  run (map (pair i) es) (g, l) = Some (g', <[i := t']> l).
Proof.
  induction es as [|e es IH]; intros g l t g' t' Hi; cbn [solo map run].
  - intros [= <- <-]. by rewrite list_insert_id.
  - destruct (tstep i e g t) as [[g1 t1]|] eqn:K; [|done]. cbn [mbind option_bind]. intros H. rewrite (sys_move i e g l t g1 t1 Hi K).
    cbn [mbind option_bind]. assert (Hl : (i < length l)%nat) by (by eapply lookup_lt_Some).
    rewrite (IH g1 (<[i := t1]> l) t1 g' t'), list_insert_insert_eq; [done| |done]. by apply list_lookup_insert_eq.
Qed.
End system.

(** ** Counting *)

Definition b2z (b : bool) : Z := if b then 1 else 0.
Section counting.
Context {T : Type}.
Fixpoint count (p : T → bool) (l : list T) : Z := match l with [] => 0 | t :: l => b2z (p t) + count p l end.
Lemma count_nonneg p l : 0 ≤ count p l ≤ Z.of_nat (length l).
Proof. induction l as [|t l IH]; cbn; [lia|]. destruct (p t); cbn; lia. Qed.
Lemma count_insert p l i t t' : l !! i = Some t → count p (<[i := t']> l) = count p l - b2z (p t) + b2z (p t').
Proof.
  revert i. induction l as [|x l IH]; intros [|i] H; try done.
  - injection H as ->. cbn. lia.
  - change (<[S i := t']> (x :: l)) with (x :: <[i := t']> l). cbn [count]. rewrite (IH i H). lia.
Qed.
Lemma count_pos p l i t : l !! i = Some t → p t = true → 1 ≤ count p l.
Proof.
  revert i. induction l as [|x l IH]; intros [|i]; cbn; try done.
  - intros [= ->] ->. pose proof (count_nonneg p l). cbn. lia.
  - intros H Hp. specialize (IH i H Hp). destruct (p x); cbn; lia.
Qed.
Lemma count_two p l i j t u : i ≠ j → l !! i = Some t → l !! j = Some u → p t = true → p u = true → 2 ≤ count p l.
Proof.
  revert i j. induction l as [|x l IH]; intros [|i] [|j] Hne; cbn; try done.
  - intros [= ->] Hj -> Hu. pose proof (count_pos p l j u Hj Hu). cbn. lia.
  - intros Hi [= ->] Ht ->. pose proof (count_pos p l i t Hi Ht). cbn. lia.
  - intros Hi Hj Ht Hu. assert (i ≠ j) as Hij by congruence. specialize (IH i j Hij Hi Hj Ht Hu). destruct (p x); cbn; lia.
Qed.
Lemma count_zero p l : count p l = 0 ↔ Forall (λ t, p t = false) l.
Proof.
  induction l as [|t l IH]; cbn; [by split|]. pose proof (count_nonneg p l). rewrite Forall_cons, <- IH.
  destruct (p t); cbn; split; intros; [lia|naive_solver|split; [done|lia]|naive_solver].
Qed.
Lemma count_some p l : 1 ≤ count p l → ∃ i t, l !! i = Some t ∧ p t = true.
Proof.
  induction l as [|t l IH]; cbn; [lia|]. destruct (p t) eqn:E; cbn; [intros _; by exists 0%nat, t|].
  intros H. destruct IH as (i & u & Hi & Hu); [lia|]. by exists (S i), u.
Qed.
Lemma count_mono (p q : T → bool) l : (∀ t, p t = true → q t = true) → count p l ≤ count q l.
Proof. intros H. induction l as [|t l IH]; cbn; [lia|]. specialize (H t). destruct (p t); [rewrite H by done|destruct (q t)]; cbn; lia. Qed.
End counting.
