(* ===== verification/Refcount.v ===== *)
(** * refcount.h: reference counts with deletion

    The counter is shared; a thread is at one point of one of the functions of the
    header, with the value it read last.  Every load and every compare-and-exchange
    is a move of its own, so that the threads interleave as they do in the code.
    The theorems say who may delete, and when. *)

From S2P Require Import Prelude Interleave.
#[local] Open Scope Z_scope.

Definition REFCOUNT_MAX : Z := 1000000000.
Definition REFCOUNT_DELETED : Z := -2000000000.
Definition REFCOUNT_ERROR : Z := - 2 ^ 31.
Definition REFCOUNT_ACQUIRED (refcount : Z) : bool := 0 <? refcount.
Definition REFCOUNT_VALID (refcount : Z) : bool :=
  ((0 <=? refcount) && (refcount <=? REFCOUNT_MAX))
  || ((REFCOUNT_DELETED <=? refcount) && (refcount <=? - REFCOUNT_MAX)).

(** ** Threads *)

Inductive rc_thread : Type :=
| Out (ret : Z)                      (** holds no reference; what the last call returned *)
| In                                 (** holds a reference *)
| Acquiring (expected : Z)           (** [refcount_acquire_advanced()], before the exchange *)
| Releasing (expected : option Z)    (** [refcount_release()], before the load or the exchange *)
| ReleasingOrDeleting (expected : option Z) (** [refcount_release_and_acquire_for_deletion_advanced()] *)
| Marking (expected : Z)             (** [refcount_acquire_for_deletion_and_wait()], the first loop *)
| Waiting                            (** the second loop *)
| Deleter                            (** was told to delete the object *)
| Died.                              (** [fatal()] *)
Inductive rc_event : Type :=
| CallAcquire | CallRelease | CallReleaseOrDelete | CallDelete | CallDeleteAndWait
| Go.                                (** the next access of the call *)

(** [refcount_acquire_advanced_with_trace()]: one turn of the loop. *)
Definition acquire_turn (rc expected : Z) : Z * rc_thread :=
  if negb (REFCOUNT_VALID expected) then (rc, Died)
  else if REFCOUNT_MAX <=? expected then (rc, Out REFCOUNT_ERROR)
  else if expected <? 0 then (rc, Out expected)
  else
    let desired := expected + 1 in
    if rc =? expected then (desired, In) else (rc, Acquiring rc).
(** [refcount_release_with_trace()] *)
Definition release_turn (rc expected : Z) : Z * rc_thread :=
  if negb (REFCOUNT_VALID expected) then (rc, Died)
  else
    let desired := expected - 1 in
    if rc =? expected then (desired, Out desired) else (rc, Releasing None).
(** [refcount_acquire_for_deletion_with_trace()]: one exchange. *)
Definition delete_once (rc : Z) : Z * rc_thread :=
  if rc =? 0 then (REFCOUNT_DELETED, Deleter)
  else if negb (REFCOUNT_VALID rc) then (rc, Died)
  else (rc, Out 0).
(** [refcount_release_and_acquire_for_deletion_with_trace()]: the caller deletes when
    the value returned is [REFCOUNT_DELETED]. *)
Definition release_or_delete_turn (rc expected : Z) : Z * rc_thread :=
  if negb (REFCOUNT_VALID expected) then (rc, Died)
  else
    let desired := if expected =? 1 then REFCOUNT_DELETED else expected - 1 in
    if rc =? expected then (desired, if desired =? REFCOUNT_DELETED then Deleter else Out desired)
    else (rc, ReleasingOrDeleting None).
(** [refcount_acquire_for_deletion_and_wait_with_trace()]: one turn of the first loop. *)
Definition mark_turn (rc expected : Z) : Z * rc_thread :=
  if negb (REFCOUNT_VALID expected) then (rc, Died)
  else if expected <? 0 then (rc, Out 0)
  else
    let desired := REFCOUNT_DELETED + expected in
    if rc =? expected then (desired, Waiting) else (rc, Marking rc).

Definition rc_step (i : nat) (e : rc_event) (rc : Z) (t : rc_thread) : option (Z * rc_thread) :=
  match e, t with
  | CallAcquire, Out _ => Some (rc, Acquiring rc)
  | CallRelease, In => Some (rc, Releasing None)
  | CallReleaseOrDelete, In => Some (rc, ReleasingOrDeleting None)
  | CallDelete, Out _ => Some (delete_once rc)
  | CallDeleteAndWait, Out _ => Some (rc, Marking rc)
  | Go, Acquiring expected => Some (acquire_turn rc expected)
  | Go, Releasing None => Some (rc, Releasing (Some rc))
  | Go, Releasing (Some expected) => Some (release_turn rc expected)
  | Go, ReleasingOrDeleting None => Some (rc, ReleasingOrDeleting (Some rc))
  | Go, ReleasingOrDeleting (Some expected) => Some (release_or_delete_turn rc expected)
  | Go, Marking expected => Some (mark_turn rc expected)
  | Go, Waiting => Some (rc, if rc =? REFCOUNT_DELETED then Deleter else Waiting)
  | _, _ => None
  end.
Abbreviation rc_system := (@system Z rc_thread).
Abbreviation rc_run := (run rc_step).
(** A new object, not referenced. *)
Definition rc_init (n : nat) : rc_system := (0, replicate n (Out 0)).

(** ** The invariant *)

Definition holds_ref (t : rc_thread) : bool :=
  match t with In | Releasing _ | ReleasingOrDeleting _ => true | _ => false end.
Definition is_deleter (t : rc_thread) : bool := match t with Deleter => true | _ => false end.
Definition is_waiting (t : rc_thread) : bool := match t with Waiting => true | _ => false end.
Definition has_died (t : rc_thread) : bool := match t with Died => true | _ => false end.
Definition wants_both (t : rc_thread) : bool := match t with ReleasingOrDeleting _ => true | _ => false end.
Definition wants_wait (t : rc_thread) : bool := match t with Marking _ | Waiting => true | _ => false end.
(** A value that was read is a valid count. *)
Definition seen_valid (t : rc_thread) : bool :=
  match t with
  | Acquiring v | Marking v | Releasing (Some v) | ReleasingOrDeleting (Some v) => REFCOUNT_VALID v
  | Died => false
  | _ => true
  end.
(** [w]: the object is deleted by waiting for its references; not [w]: by the thread
    that releases the last one. *)
Definition allowed (w : bool) (ie : nat * rc_event) : Prop :=
  match ie.2 with
  | CallReleaseOrDelete => w = false
  | CallDeleteAndWait => w = true
  | _ => True
  end.
Record rc_inv (w : bool) (s : rc_system) : Prop := RcInv {
  ri_refs : 0 ≤ count holds_ref (snd s) ≤ REFCOUNT_MAX;
  ri_count : fst s = count holds_ref (snd s) + REFCOUNT_DELETED * (count is_deleter (snd s) + count is_waiting (snd s));
  ri_one : 0 ≤ count is_deleter (snd s) + count is_waiting (snd s) ≤ 1;
  ri_alone : 0 < count is_deleter (snd s) → count holds_ref (snd s) = 0;
  ri_seen : Forall (λ t, seen_valid t = true) (snd s);
  ri_mode : Forall (λ t, (if w then wants_both t else wants_wait t) = false) (snd s);
}.

Lemma rc_valid w s : rc_inv w s → REFCOUNT_VALID (fst s) = true.
Proof.
  intros [H1 H2 H3 _ _ _]. unfold REFCOUNT_VALID, REFCOUNT_MAX, REFCOUNT_DELETED in *.
  assert (count is_deleter (snd s) + count is_waiting (snd s) = 0 ∨ count is_deleter (snd s) + count is_waiting (snd s) = 1) as [E|E] by lia;
    rewrite E in H2; rewrite H2; [apply orb_true_iff; left|apply orb_true_iff; right]; apply andb_true_iff; split; apply Z.leb_le; lia.
Qed.
(** A move changes the counts by what the thread was and is. *)
Lemma rc_inv_move w rc l i t rc' t' : rc_inv w (rc, l) → l !! i = Some t →
  let h := count holds_ref l in let d := count is_deleter l in let x := count is_waiting l in
  let h' := h - b2z (holds_ref t) + b2z (holds_ref t') in
  let d' := d - b2z (is_deleter t) + b2z (is_deleter t') in
  let x' := x - b2z (is_waiting t) + b2z (is_waiting t') in
  0 ≤ h' ≤ REFCOUNT_MAX → rc' = h' + REFCOUNT_DELETED * (d' + x') → 0 ≤ d' + x' ≤ 1 → (0 < d' → h' = 0) →
  seen_valid t' = true → (if w then wants_both t' else wants_wait t') = false → rc_inv w (rc', <[i := t']> l).
Proof.
  intros [H1 H2 H3 H4 H5 H6] Hi h d x h' d' x' A1 A2 A3 A4 A5 A6. cbn [fst snd] in *. split; cbn [fst snd];
    rewrite ?(count_insert holds_ref _ _ _ _ Hi), ?(count_insert is_deleter _ _ _ _ Hi), ?(count_insert is_waiting _ _ _ _ Hi); try done.
  - by apply Forall_insert.
  - by apply Forall_insert.
Qed.
(** The counts that matter for a move of a thread of the list. *)
Lemma rc_inv_step w i e s s' : allowed w (i, e) → rc_inv w s → sys_step rc_step (i, e) s = Some s' → rc_inv w s'.
Proof.
  intros Ha Hinv (t & rc' & t' & Hi & K & ->)%sys_step_inv. pose proof (rc_valid w s Hinv) as Hv. destruct s as [rc l]. cbn [fst snd] in *.
  pose proof Hinv as [H1 H2 H3 H4 H5 H6]. cbn [fst snd] in *. pose proof (Forall_lookup_1 _ _ _ _ H5 Hi) as Hs.
  pose proof (Forall_lookup_1 _ _ _ _ H6 Hi) as Hm. cbn beta in Hs, Hm.
  pose proof (count_nonneg is_deleter l) as N1. pose proof (count_nonneg is_waiting l) as N2.
  assert (Hh : b2z (holds_ref t) ≤ count holds_ref l).
  { destruct (holds_ref t) eqn:E; cbn; [by eapply count_pos|lia]. }
  assert (Hx : b2z (is_waiting t) ≤ count is_waiting l).
  { destruct (is_waiting t) eqn:E; cbn; [by eapply count_pos|lia]. }
  assert (Hw : w = false → count is_waiting l = 0).
  { intros ->. apply count_zero. eapply Forall_impl; [exact H6|]. by intros []. }
  apply (rc_inv_move w rc l i t rc' t' Hinv Hi);
    destruct e, t as [v| |v|[v|]|[v|]|v| | |]; cbn [rc_step] in K; try discriminate K; apply (inj Some) in K;
    unfold acquire_turn, release_turn, delete_once, release_or_delete_turn, mark_turn in K;
    cbn [seen_valid] in Hs; rewrite ?Hv, ?Hs in K; cbn [negb] in K; unfold allowed in Ha; cbn [snd] in Ha;
    repeat match type of K with context [if ?b then _ else _] => destruct b eqn:?K end;
    try (injection K as <- <-); rewrite ?Z.eqb_eq, ?Z.eqb_neq, ?Z.ltb_lt, ?Z.ltb_ge, ?Z.leb_le, ?Z.leb_gt in *;
    cbn [holds_ref is_deleter is_waiting wants_both wants_wait seen_valid b2z] in *; unfold REFCOUNT_MAX, REFCOUNT_DELETED in *;
    try (by subst w); try done; try lia; try (by destruct w); destruct w; try done; specialize (Hw eq_refl); lia.
Qed.
Lemma rc_init_inv w n : rc_inv w (rc_init n).
Proof.
  assert (H : ∀ p : rc_thread → bool, p (Out 0) = false → count p (replicate n (Out 0)) = 0).
  { intros p Hp. apply count_zero, Forall_replicate. done. }
  split; cbn [rc_init fst snd]; rewrite ?H by done; unfold REFCOUNT_MAX, REFCOUNT_DELETED; try lia; apply Forall_replicate; by destruct w.
Qed.
Lemma rc_reachable w n sched s : Forall (allowed w) sched → rc_run sched (rc_init n) = Some s → rc_inv w s.
Proof.
  intros Ha. apply (run_invariant rc_step (allowed w) (rc_inv w)); [|done|apply rc_init_inv]. intros i e s1 s2. apply rc_inv_step.
Qed.

(** ** Waiting for the references *)

(** A thread that holds a reference can give it back, alone, in three moves. *)
Lemma release_one s j t : rc_inv true s → snd s !! j = Some t → holds_ref t = true → ∃ sched,
  rc_run sched s = Some (fst s - 1, <[j := Out (fst s - 1)]> (snd s)) ∧ (length sched ≤ 3)%nat ∧
  Forall (λ ie, ie.1 = j ∧ (ie.2 = CallRelease ∨ ie.2 = Go)) sched.
Proof.
  intros Hinv Hj Ht. pose proof (rc_valid _ _ Hinv) as Hv. destruct s as [rc l]. cbn [fst snd] in *.
  pose proof (Forall_lookup_1 _ _ _ _ (ri_mode _ _ Hinv) Hj) as Hm. pose proof (Forall_lookup_1 _ _ _ _ (ri_seen _ _ Hinv) Hj) as Hs.
  assert (Hmove : ∀ e u l', l' !! j = Some u → ∀ rc' u', rc_step j e rc u = Some (rc', u') →
    sys_step rc_step (j, e) (rc, l') = Some (rc', <[j := u']> l')).
  { intros e u l' Hl rc' u' K. unfold sys_step. cbn. rewrite Hl. cbn. by rewrite K. }
  assert (Hlen : (j < length l)%nat) by (by eapply lookup_lt_Some).
  assert (Hload : ∀ l', l' !! j = Some (Releasing None) → rc_run [(j, Go); (j, Go)] (rc, l') = Some (rc - 1, <[j := Out (rc - 1)]> l')).
  { intros l' Hl. assert (j < length l')%nat by (by eapply lookup_lt_Some). 
    rewrite run_cons, (Hmove Go _ _ Hl rc (Releasing (Some rc)) eq_refl). cbn [mbind option_bind].
    rewrite run_cons, (Hmove Go (Releasing (Some rc)) _ ltac:(by rewrite list_lookup_insert_eq) (rc - 1) (Out (rc - 1))); [cbn; by rewrite list_insert_insert_eq|].
    cbn. unfold release_turn. by rewrite Hv, Z.eqb_refl. }
  destruct t as [v| |v|[v|]|o|v| | |]; try done.
  - exists [(j, CallRelease); (j, Go); (j, Go)]. split; [|split; [done|by repeat (constructor; [split; auto|])]].
    rewrite run_cons, (Hmove CallRelease _ _ Hj rc (Releasing None) eq_refl). cbn [mbind option_bind].
    rewrite Hload by (by rewrite list_lookup_insert_eq). by rewrite list_insert_insert_eq.
  - cbn in Hs. destruct (Z.eq_dec rc v) as [->|Hne].
    + exists [(j, Go)]. split; [|split; [cbn; lia|by repeat (constructor; [split; auto|])]].
      rewrite run_cons, (Hmove Go _ _ Hj (v - 1) (Out (v - 1))); [done|]. cbn. unfold release_turn. by rewrite Hs, Z.eqb_refl.
    + exists [(j, Go); (j, Go); (j, Go)]. split; [|split; [done|by repeat (constructor; [split; auto|])]].
      rewrite run_cons, (Hmove Go _ _ Hj rc (Releasing None)).
      * cbn [mbind option_bind]. rewrite Hload by (by rewrite list_lookup_insert_eq). by rewrite list_insert_insert_eq.
      * cbn. unfold release_turn. rewrite Hs. by rewrite (proj2 (Z.eqb_neq _ _)).
  - exists [(j, Go); (j, Go)]. split; [by apply Hload|]. split; [cbn; lia|by repeat (constructor; [split; auto|])].
Qed.
(** The moves that finish the releases of the other threads, and then the waiter's. *)
Definition finishing (i : nat) (ie : nat * rc_event) : Prop := ie.2 = Go ∨ (ie.1 ≠ i ∧ ie.2 = CallRelease).
Lemma drain s i : rc_inv true s → snd s !! i = Some Waiting → ∃ sched s', rc_run sched s = Some s' ∧
  snd s' !! i = Some Deleter ∧ Forall (finishing i) sched ∧ Z.of_nat (length sched) ≤ 3 * count holds_ref (snd s) + 1.
Proof.
  remember (Z.to_nat (count holds_ref (snd s))) as h eqn:Hh. revert s Hh. induction h as [|h IH]; intros s Hh Hinv Hi.
  - pose proof (count_nonneg holds_ref (snd s)) as N. assert (H0 : count holds_ref (snd s) = 0) by lia.
    pose proof (count_pos is_waiting _ _ _ Hi eq_refl). pose proof (count_nonneg is_deleter (snd s)).
    pose proof (ri_one _ _ Hinv). pose proof (ri_count _ _ Hinv) as Hc. destruct s as [rc l]. cbn [fst snd] in *.
    assert (rc = REFCOUNT_DELETED) as -> by (unfold REFCOUNT_DELETED in *; lia).
    exists [(i, Go)], (REFCOUNT_DELETED, <[i := Deleter]> l). split.
    { rewrite run_cons. unfold sys_step. cbn. by rewrite Hi. }
    split; [cbn; apply list_lookup_insert_eq; by eapply lookup_lt_Some|]. split; [constructor; [by left|constructor]|]. rewrite H0. cbn. lia.
  - destruct (count_some holds_ref (snd s)) as (j & t & Hj & Ht); [lia|]. assert (Hij : i ≠ j) by (intros ->; rewrite Hi in Hj; by injection Hj as <-).
    destruct (release_one s j t Hinv Hj Ht) as (sched1 & K1 & L1 & F1). set (s1 := (fst s - 1, <[j := Out (fst s - 1)]> (snd s))) in *.
    assert (Hinv1 : rc_inv true s1).
    { apply (run_invariant rc_step (allowed true) (rc_inv true)) with sched1 s; [intros ? ? ? ?; apply rc_inv_step| |done|done].
      eapply Forall_impl; [exact F1|]. intros [? e] [_ [He|He]]; cbn in He; subst e; done. }
    assert (Hc1 : count holds_ref (snd s1) = count holds_ref (snd s) - 1).
    { unfold s1. cbn [snd]. rewrite (count_insert holds_ref _ _ _ _ Hj), Ht. cbn. lia. }
    destruct (IH s1) as (sched2 & s2 & K2 & H2 & F2 & L2); [lia|done|unfold s1; cbn; by rewrite list_lookup_insert_ne|].
    exists (sched1 ++ sched2), s2. split; [by rewrite run_app, K1|]. split; [done|]. split.
    + apply Forall_app. split; [|done]. eapply Forall_impl; [exact F1|]. intros [k e] [Hk He]. cbn in *. subst k. unfold finishing. cbn.
      destruct He as [-> | ->]; [right; auto|by left].
    + rewrite length_app. lia.
Qed.

(** ** Theorems *)

(** C30. Whatever the threads do, as long as they do not mix the two ways of deleting an
    object ([refcount_mixed_deletes_twice] shows that they must not): the counter
    never becomes invalid (nothing calls [fatal()]); it is always the number of
    references, plus the mark when a thread deletes or waits to delete, and there is
    at most one of those; so at most one thread is told to delete, and
    from then on no thread holds a reference. *)
Theorem refcount_deletion_is_exclusive w n sched s : Forall (allowed w) sched → rc_run sched (rc_init n) = Some s →
  (∀ i, snd s !! i ≠ Some Died) ∧
  (fst s = count holds_ref (snd s) + REFCOUNT_DELETED * (count is_deleter (snd s) + count is_waiting (snd s)) ∧
    count is_deleter (snd s) + count is_waiting (snd s) ≤ 1) ∧
  (∀ i j, snd s !! i = Some Deleter → snd s !! j = Some Deleter → i = j) ∧
  (∀ i j t, snd s !! i = Some Deleter → snd s !! j = Some t → holds_ref t = false).
Proof.
  intros Ha Hr. destruct (rc_reachable w n sched s Ha Hr) as [H1 H2 H3 H4 H5 H6]. pose proof (count_nonneg is_waiting (snd s)).
  split; [|split; [|split]].
  - intros i Hi. by apply (Forall_lookup_1 _ _ _ _ H5) in Hi.
  - lia.
  - intros i j Hi Hj. destruct (decide (i = j)) as [|Hij]; [done|]. exfalso.
    pose proof (count_two is_deleter (snd s) i j _ _ Hij Hi Hj eq_refl eq_refl). lia.
  - intros i j t Hi Hj. pose proof (count_pos is_deleter _ _ _ Hi eq_refl). destruct (holds_ref t) eqn:E; [|done].
    pose proof (count_pos holds_ref _ _ _ Hj E). lia.
Qed.

(** C31. A thread that waits to delete an object gets it: after any schedule there is a way
    to go on, at most three moves of each thread that holds a reference (it gives the
    reference back) and one of the waiter, after which the waiter deletes. *)
Theorem refcount_waiter_deletes n sched s i : Forall (allowed true) sched → rc_run sched (rc_init n) = Some s →
  snd s !! i = Some Waiting → ∃ more s', rc_run more s = Some s' ∧ snd s' !! i = Some Deleter ∧
    Forall (finishing i) more ∧ Z.of_nat (length more) ≤ 3 * count holds_ref (snd s) + 1.
Proof. intros Ha Hr. apply drain. by eapply rc_reachable. Qed.

(** When the two ways are mixed, two threads are told to delete the same object: the one
    that waits for the last reference, and the one that releases it. *)
Theorem refcount_mixed_deletes_twice : ∃ s,
  rc_run [(0, CallAcquire); (0, Go); (1, CallDeleteAndWait); (1, Go); (0, CallReleaseOrDelete); (0, Go); (0, Go); (1, Go)]%nat (rc_init 2) = Some s ∧
  snd s !! 0%nat = Some Deleter ∧ snd s !! 1%nat = Some Deleter.
Proof. eexists. split; [vm_compute; reflexivity|done]. Qed.

(** *** Examples *)

Lemma refcount_deletion_is_exclusive_witness : ∃ s,
  rc_run [(0, CallAcquire); (1, CallAcquire); (0, Go); (1, Go); (1, Go); (0, CallReleaseOrDelete); (0, Go); (0, Go); (1, CallReleaseOrDelete); (1, Go); (1, Go)]%nat (rc_init 2) = Some s ∧
  (∀ i j t, snd s !! i = Some Deleter → snd s !! j = Some t → holds_ref t = false).
Proof.
  eexists. split; [vm_compute; reflexivity|].
  refine (proj2 (proj2 (proj2 (refcount_deletion_is_exclusive false 2
    [(0, CallAcquire); (1, CallAcquire); (0, Go); (1, Go); (1, Go); (0, CallReleaseOrDelete); (0, Go); (0, Go); (1, CallReleaseOrDelete); (1, Go); (1, Go)]%nat _ _ _)))).
  - by repeat constructor.
  - vm_compute. reflexivity.
Defined.
Lemma refcount_waiter_deletes_witness : ∃ more s',
  rc_run more (REFCOUNT_DELETED + 1, [In; Waiting]) = Some s' ∧ snd s' !! 1%nat = Some Deleter ∧
  Forall (finishing 1) more ∧ Z.of_nat (length more) ≤ 4.
Proof.
  apply (refcount_waiter_deletes 2 [(0, CallAcquire); (0, Go); (1, CallDeleteAndWait); (1, Go)]%nat (REFCOUNT_DELETED + 1, [In; Waiting]) 1).
  - by repeat constructor.
  - vm_compute. reflexivity.
  - reflexivity.
Defined.
