(* ===== verification/Spinlock.v ===== *)
(** * spinlock.c: a lock for one thread, and how threads wait

    The lock is a flag; a thread looks at it and then tests and sets it, two atomic
    accesses that other threads come between.  After a failure it sleeps, twice as
    long each time up to a limit, and now and then checks for a deadlock; what it
    knows while it waits is its own.  The read-write lock waits in the same way. *)

From S2P Require Import Prelude Interleave.
#[local] Open Scope Z_scope.

Definition MAX_USEC : Z := 512.
Definition SPINLOCK_DEADLOCK_TIMEOUT_SEC : Z := 3600.
Definition SPINS_BEFORE_DEADLOCK_CHECK : Z := 100000.
Definition USEC_PER_SEC : Z := 1000000.

(** [size_t spins; usec_t usec; usec_t deadlock_timestamp;] *)
Record patience := Patience { spins : Z; usec : Z; deadlock_timestamp : Z }.
Definition no_patience : patience := Patience 0 1 0.
(** [spinlock_deadlock_detect()] at the time [now]: the timestamp, or the end of the
    process. *)
Definition spinlock_deadlock_detect (timestamp now : Z) : option Z :=
  if timestamp =? 0 then Some now
  else if SPINLOCK_DEADLOCK_TIMEOUT_SEC * USEC_PER_SEC <=? u64 (now - timestamp) then None
  else Some timestamp.
(** [spins++], the check and what follows the sleep.  [microsleep(usec)] itself changes no
    variable: it is the time between this move of the thread and its next one, and its
    length is [usec p]. *)
Definition back_off (now : Z) (p : patience) : option patience :=
  let spins := u64 (spins p + 1) in
  timestamp ← (if spins mod SPINS_BEFORE_DEADLOCK_CHECK =? 0 then spinlock_deadlock_detect (deadlock_timestamp p) now
               else Some (deadlock_timestamp p));
  Some (Patience spins (if MAX_USEC <=? usec p then MAX_USEC else usec p * 2) timestamp).

(** A call that tries once ([None]) or until it gets the lock. *)
Abbreviation attempt := (option patience).

(** ** Threads *)

Inductive sp_thread : Type :=
| SpOut (got : bool)         (** outside; what the last try returned *)
| SpLoad (a : attempt)       (** before the flag is read *)
| SpSet (a : attempt)        (** before it is tested and set *)
| SpSleep (p : patience)
| SpIn
| SpFatal.
Inductive sp_event : Type := spinlock_lock | spinlock_trylock | spinlock_unlock | SpTurn | SpWake (now : Z).
Definition sp_failed (a : attempt) : sp_thread := match a with None => SpOut false | Some p => SpSleep p end.
(** The shared state is [spinlock->locked]. *)
Definition sp_step (i : nat) (e : sp_event) (locked : bool) (t : sp_thread) : option (bool * sp_thread) :=
  match e, t with
  | spinlock_lock, SpOut _ => Some (locked, SpLoad (Some no_patience))
  | spinlock_trylock, SpOut _ => Some (locked, SpLoad None)
  | spinlock_unlock, SpIn => Some (false, SpOut true)
  | SpTurn, SpLoad a => Some (locked, if locked then sp_failed a else SpSet a)
  | SpTurn, SpSet a => Some (true, if locked then sp_failed a else SpIn)
  | SpWake now, SpSleep p => Some (locked, match back_off now p with Some p => SpLoad (Some p) | None => SpFatal end)
  | _, _ => None
  end.
Abbreviation sp_run := (run sp_step).
(** [spinlock_init()] *)
Definition sp_init (n : nat) : @system bool sp_thread := (false, replicate n (SpOut false)).

Definition sp_holds (t : sp_thread) : bool := match t with SpIn => true | _ => false end.
Definition sp_inv (s : @system bool sp_thread) : Prop := count sp_holds (snd s) = b2z (fst s).
Lemma sp_inv_step i e s s' : sp_inv s → sys_step sp_step (i, e) s = Some s' → sp_inv s'.
Proof.
  unfold sp_inv. intros H (t & l' & t' & Hi & K & ->)%sys_step_inv. cbn [fst snd]. rewrite (count_insert sp_holds _ _ _ _ Hi), H.
  destruct s as [locked ts]. cbn [fst snd] in *. pose proof (count_pos sp_holds ts i t Hi) as Hpos.
  destruct e, t as [g|a|a|p| |]; cbn [sp_step] in K; try discriminate K; injection K as <- <-; try destruct locked; try destruct a as [q|];
    try destruct (back_off now p); cbn in *; try lia; specialize (Hpos eq_refl); lia.
Qed.
Lemma sp_reachable n sched s : sp_run sched (sp_init n) = Some s → sp_inv s.
Proof.
  apply (run_invariant sp_step (λ _, True) sp_inv); [|by apply Forall_true|].
  - intros i e s1 s2 _. apply sp_inv_step.
  - unfold sp_inv. cbn [sp_init fst snd b2z]. apply count_zero, Forall_replicate. done.
Qed.

(** ** Waiting *)

(** [n] failures; [now k] is the clock at the [k]-th. *)
Fixpoint backs_off (now : Z → Z) (n : nat) : option patience :=
  match n with
  | O => Some no_patience
  | S n => p ← backs_off now n; back_off (now (Z.of_nat (S n))) p
  end.
(** The checks that end the process. *)
Definition deadlock_at (now : Z → Z) (k : Z) : Prop :=
  2 * SPINS_BEFORE_DEADLOCK_CHECK ≤ k ∧ k mod SPINS_BEFORE_DEADLOCK_CHECK = 0 ∧
  SPINLOCK_DEADLOCK_TIMEOUT_SEC * USEC_PER_SEC ≤ now k - now SPINS_BEFORE_DEADLOCK_CHECK.
Record clock (now : Z → Z) : Prop := Clock { clock_range : ∀ k, 0 < now k < 2 ^ 64; clock_mono : ∀ j k, j ≤ k → now j ≤ now k }.
(** After [n] failures. *)
Record patience_at (now : Z → Z) (n : Z) (p : patience) : Prop := PatienceAt {
  pa_spins : spins p = n;
  pa_usec : usec p = 2 ^ Z.min n 9;
  pa_timestamp : deadlock_timestamp p = if n <? SPINS_BEFORE_DEADLOCK_CHECK then 0 else now SPINS_BEFORE_DEADLOCK_CHECK;
}.
Lemma usec_doubles n : 0 ≤ n → (if MAX_USEC <=? 2 ^ Z.min n 9 then MAX_USEC else 2 ^ Z.min n 9 * 2) = 2 ^ Z.min (n + 1) 9.
Proof.
  intros Hn. unfold MAX_USEC. destruct (Z.leb_spec 512 (2 ^ Z.min n 9)) as [E|E]; change 512 with (2 ^ 9) in *.
  - apply Z.pow_le_mono_r_iff in E; [|lia..]. f_equal. lia.
  - apply Z.pow_lt_mono_r_iff in E; [|lia..]. rewrite Z.mul_comm, <- Z.pow_succ_r by lia. f_equal. lia.
Qed.
(** The first check takes the time, the later ones compare it. *)
Lemma back_off_at now n p : clock now → 0 ≤ n → n + 1 < 2 ^ 64 → patience_at now n p →
  (deadlock_at now (n + 1) ∧ back_off (now (n + 1)) p = None) ∨
  (¬ deadlock_at now (n + 1) ∧ ∃ q, back_off (now (n + 1)) p = Some q ∧ patience_at now (n + 1) q).
Proof.
  intros [Hr Hm] Hn0 Hn [H1 H2 H3]. unfold back_off. rewrite H1, H2, H3, usec_doubles by done.
  assert (u64 (n + 1) = n + 1) as -> by (apply wrap_u_id; lia). unfold deadlock_at, spinlock_deadlock_detect, SPINS_BEFORE_DEADLOCK_CHECK in *.
  pose proof (Hr 100000) as H0. pose proof (Hr (n + 1)) as H4. destruct (Z.eqb_spec ((n + 1) mod 100000) 0) as [E|E].
  - pose proof (Z.div_mod (n + 1) 100000 ltac:(done)) as D. rewrite E in D. destruct (Z.ltb_spec n 100000) as [L|L].
    + assert (n + 1 = 100000) as K by lia. rewrite K. right. split; [lia|]. eexists. split; [reflexivity|]. by split.
    + rewrite (proj2 (Z.eqb_neq (now 100000) 0)) by lia. pose proof (Hm 100000 (n + 1) ltac:(lia)).
      assert (u64 (now (n + 1) - now 100000) = now (n + 1) - now 100000) as -> by (apply wrap_u_id; lia).
      destruct (Z.leb_spec (SPINLOCK_DEADLOCK_TIMEOUT_SEC * USEC_PER_SEC) (now (n + 1) - now 100000)) as [G|G]; [left|right].
      * split; [|done]. split; [lia|done].
      * split; [lia|]. eexists. split; [reflexivity|]. split; [done..|]. unfold SPINS_BEFORE_DEADLOCK_CHECK. cbn [deadlock_timestamp]. by rewrite (proj2 (Z.ltb_ge _ _)) by lia.
  - right. split; [lia|]. eexists. split; [reflexivity|]. split; [done..|]. unfold SPINS_BEFORE_DEADLOCK_CHECK. cbn [deadlock_timestamp].
    destruct (Z.ltb_spec n 100000), (Z.ltb_spec (n + 1) 100000); try lia. exfalso. apply E. assert (n + 1 = 100000) as -> by lia. done.
Qed.
Lemma backs_off_cases now n : clock now → Z.of_nat n < 2 ^ 64 →
  ((∃ k, k ≤ Z.of_nat n ∧ deadlock_at now k) ∧ backs_off now n = None) ∨
  ((∀ k, k ≤ Z.of_nat n → ¬ deadlock_at now k) ∧ ∃ p, backs_off now n = Some p ∧ patience_at now (Z.of_nat n) p).
Proof.
  intros Hclock. induction n as [|n IH]; intros Hn.
  { right. split; [unfold deadlock_at, SPINS_BEFORE_DEADLOCK_CHECK; lia|]. by exists no_patience. }
  cbn [backs_off]. rewrite Nat2Z.inj_succ, <- Z.add_1_r in *. destruct (IH ltac:(lia)) as [[(k & Hk & D) ->]|(Hno & p & -> & Hp)].
  { left. split; [|done]. exists k. split; [lia|done]. }
  cbn [mbind option_bind]. destruct (back_off_at now (Z.of_nat n) p Hclock ltac:(lia) Hn Hp) as [[D ->]|(D & q & -> & Hq)].
  - left. split; [|done]. exists (Z.of_nat n + 1). split; [lia|done].
  - right. split; [|by exists q]. intros k Hk. destruct (Z.eq_dec k (Z.of_nat n + 1)) as [->|]; [done|]. apply Hno. lia.
Qed.

(** ** Theorems *)

(** Whatever the threads do: at most one is inside, and the flag is set exactly when one
    is. *)
Theorem spinlock_excludes n sched s : sp_run sched (sp_init n) = Some s →
  (∀ i j, snd s !! i = Some SpIn → snd s !! j = Some SpIn → i = j) ∧ (fst s = true ↔ ∃ i, snd s !! i = Some SpIn).
Proof.
  intros H%sp_reachable. unfold sp_inv in H. split.
  - intros i j Hi Hj. destruct (decide (i = j)) as [|Hij]; [done|]. exfalso.
    pose proof (count_two sp_holds (snd s) i j _ _ Hij Hi Hj eq_refl eq_refl). destruct (fst s); cbn in H; lia.
  - split.
    + intros E. rewrite E in H. cbn in H. destruct (count_some sp_holds (snd s)) as (i & t & Hi & Ht); [lia|]. exists i. by destruct t.
    + intros [i Hi]. pose proof (count_pos sp_holds (snd s) i _ Hi eq_refl). destruct (fst s); [done|cbn in H; lia].
Qed.

(** C34. A thread that waits sleeps 1, 2, 4, ... 256 and then always 512 microseconds, and the
    process ends for a deadlock exactly when a check, one every 100000 failures, comes
    3600 seconds or more after the first check. *)
Theorem lock_patience now n : clock now → Z.of_nat n < 2 ^ 64 →
  (∀ p, backs_off now n = Some p → usec p = 2 ^ Z.min (Z.of_nat n) 9) ∧
  (backs_off now n = None ↔ ∃ k, k ≤ Z.of_nat n ∧ deadlock_at now k).
Proof.
  intros Hc Hn. destruct (backs_off_cases now n Hc Hn) as [[D ->]|(D & p & -> & Hp)]; [done|]. split.
  - intros q [= <-]. by apply pa_usec in Hp.
  - split; [done|]. intros (k & Hk & Hd). by apply D in Hd.
Qed.

(** *** Examples *)

Lemma lock_patience_witness : ∃ p, backs_off (λ _, 7) 20 = Some p ∧ usec p = 512.
Proof.
  eexists. split; [vm_compute; reflexivity|]. apply (proj1 (lock_patience (λ _, 7) 20 ltac:(by split) eq_refl)). vm_compute. reflexivity.
Defined.
