(* ===== verification/RwSpinlock.v ===== *)
(** * rw-spinlock.c: a lock for many readers or one writer

    The lock is a word: the number of readers, and a bit for the writer.  Every
    atomic access of a thread is a move; how a thread waits is that of spinlock.c.  The
    theorems say that a writer is alone, and that a thread gets the lock when the
    others let it. *)

From S2P Require Import Prelude Interleave Spinlock.
#[local] Open Scope Z_scope.

Definition WRITER_BIT : Z := 2 ^ 31.
Definition READER_MASK : Z := 2 ^ 31 - 1.

(** The thread that writes, and the word. *)
Record RW_SPINLOCK := RwSpinlock { writer : Z; counter : Z }.
Definition has_writer_bit (v : Z) : bool := negb (Z.land v WRITER_BIT =? 0).
Definition with_counter (v : Z) (l : RW_SPINLOCK) : RW_SPINLOCK := RwSpinlock (writer l) v.
Definition with_writer (w : Z) (l : RW_SPINLOCK) : RW_SPINLOCK := RwSpinlock w (counter l).

(** ** Threads *)

Inductive rw_thread : Type :=
| Idle (got : bool)          (** outside; what the last try returned *)
| ReadTry (a : attempt)      (** before the increment *)
| ReadUndo (a : attempt)     (** before the decrement that undoes it *)
| ReadSleep (p : patience)   (** failed, before the next turn of the loop *)
| Reading
| WriteTry (a : attempt)     (** before the writer bit is set *)
| WriteUndo (a : attempt)    (** before the bit is removed again *)
| WriteSleep (p : patience)
| WriteEnter                 (** has the lock, before it writes its name *)
| Writing
| WriteLeave                 (** before the writer bit is removed *)
| Fatal.
Inductive rw_event : Type :=
| rw_tryread_lock | rw_read_lock | rw_read_unlock | rw_trywrite_lock | rw_write_lock | rw_write_unlock
| Turn                       (** the next access to the lock *)
| Wake (now : Z).            (** the end of the sleep; the clock, if it is read *)

(** After a failed attempt: the call returns, or sleeps and tries again. *)
Definition failed (sleep : patience → rw_thread) (a : attempt) : rw_thread :=
  match a with None => Idle false | Some p => sleep p end.
Definition wake (again : attempt → rw_thread) (now : Z) (p : patience) : rw_thread :=
  match back_off now p with Some p => again (Some p) | None => Fatal end.
(** [__atomic_add_fetch(&counter, 1)] *)
Definition read_attempt (l : RW_SPINLOCK) (a : attempt) : RW_SPINLOCK * rw_thread :=
  let val := u32 (counter l + 1) in
  (with_counter val l, if has_writer_bit val then ReadUndo a else Reading).
(** [__atomic_fetch_or(&counter, WRITER_BIT)] *)
Definition write_attempt (l : RW_SPINLOCK) (a : attempt) : RW_SPINLOCK * rw_thread :=
  let old := counter l in
  (with_counter (Z.lor old WRITER_BIT) l,
   if old =? 0 then WriteEnter
   else if has_writer_bit old then failed WriteSleep a
   else WriteUndo a).
(** [__atomic_sub_fetch(&counter, 1)] and [__atomic_and_fetch(&counter, ~WRITER_BIT)] *)
Definition decrement (l : RW_SPINLOCK) : RW_SPINLOCK := with_counter (u32 (counter l - 1)) l.
Definition drop_writer_bit (l : RW_SPINLOCK) : RW_SPINLOCK := with_counter (Z.land (counter l) READER_MASK) l.

Definition rw_step (i : nat) (e : rw_event) (l : RW_SPINLOCK) (t : rw_thread) : option (RW_SPINLOCK * rw_thread) :=
  match e, t with
  | rw_tryread_lock, Idle _ => Some (l, ReadTry None)
  | rw_read_lock, Idle _ => Some (l, ReadTry (Some no_patience))
  | rw_read_unlock, Reading => Some (decrement l, Idle true)
  | rw_trywrite_lock, Idle _ => Some (l, WriteTry None)
  | rw_write_lock, Idle _ => Some (l, WriteTry (Some no_patience))
  | rw_write_unlock, Writing => Some (with_writer 0 l, WriteLeave)
  | Turn, ReadTry a => Some (read_attempt l a)
  | Turn, ReadUndo a => Some (decrement l, failed ReadSleep a)
  | Turn, WriteTry a => Some (write_attempt l a)
  | Turn, WriteUndo a => Some (drop_writer_bit l, failed WriteSleep a)
  | Turn, WriteEnter => Some (with_writer (Z.of_nat (S i)) l, Writing)
  | Turn, WriteLeave => Some (drop_writer_bit l, Idle true)
  | Wake now, ReadSleep p => Some (l, wake ReadTry now p)
  | Wake now, WriteSleep p => Some (l, wake WriteTry now p)
  | _, _ => None
  end.
Abbreviation rw_system := (@system RW_SPINLOCK rw_thread).
Abbreviation rw_run := (run rw_step).
(** [rw_spinlock_init()]; no thread is inside. *)
Definition rw_init (n : nat) : rw_system := (RwSpinlock 0 0, replicate n (Idle false)).

(** ** The word *)

Lemma mask_low n : 0 ≤ n < WRITER_BIT → Z.land n WRITER_BIT = 0 ∧ Z.land n READER_MASK = n ∧ Z.lor n WRITER_BIT = n + WRITER_BIT.
Proof.
  intros Hn. unfold WRITER_BIT, READER_MASK in *.
  assert (Hb : ∀ k, 31 ≤ k → Z.testbit n k = false).
  { intros k Hk. destruct (Z.eq_dec n 0) as [->|]; [apply Z.testbit_0_l|]. apply Z.bits_above_log2; [lia|].
    apply Z.log2_lt_pow2; [lia|]. apply Z.lt_le_trans with (2 ^ 31); [lia|]. apply Z.pow_le_mono_r; lia. }
  assert (H0 : Z.land n (2 ^ 31) = 0).
  { apply Z.bits_inj'. intros k Hk. rewrite Z.land_spec, Z.testbit_0_l, Z.pow2_bits_eqb by lia.
    destruct (Z.eqb_spec 31 k) as [<-|]; [by rewrite Hb|apply andb_false_r]. }
  split; [done|]. split; [|by rewrite <- Z.add_lor_land, H0, Z.add_0_r in *; lia].
  change (2 ^ 31 - 1) with (Z.ones 31). rewrite Z.land_ones by lia. apply Z.mod_small. lia.
Qed.
Lemma word_bit n b : 0 ≤ n < WRITER_BIT → has_writer_bit (n + WRITER_BIT * b2z b) = b.
Proof.
  intros Hn. destruct (mask_low n Hn) as (H1 & H2 & H3). unfold has_writer_bit. destruct b; cbn [b2z].
  - rewrite Z.mul_1_r, <- H3, Z.land_lor_distr_l, H1, Z.lor_0_l, Z.land_diag. done.
  - by rewrite Z.mul_0_r, Z.add_0_r, H1.
Qed.
Lemma word_or n b : 0 ≤ n < WRITER_BIT → Z.lor (n + WRITER_BIT * b2z b) WRITER_BIT = n + WRITER_BIT * 1.
Proof.
  intros Hn. destruct (mask_low n Hn) as (H1 & H2 & H3). rewrite Z.mul_1_r, <- H3. destruct b; cbn [b2z].
  - by rewrite Z.mul_1_r, <- H3, <- Z.lor_assoc, Z.lor_diag.
  - by rewrite Z.mul_0_r, Z.add_0_r.
Qed.
Lemma word_and n b : 0 ≤ n < WRITER_BIT → Z.land (n + WRITER_BIT * b2z b) READER_MASK = n.
Proof.
  intros Hn. destruct (mask_low n Hn) as (H1 & H2 & H3). destruct b; cbn [b2z].
  - rewrite Z.mul_1_r, <- H3, Z.land_lor_distr_l, H2. change (Z.land WRITER_BIT READER_MASK) with 0. apply Z.lor_0_r.
  - by rewrite Z.mul_0_r, Z.add_0_r.
Qed.

(** ** The invariant *)

Definition counted (t : rw_thread) : bool := match t with Reading | ReadUndo _ => true | _ => false end.
Definition reading (t : rw_thread) : bool := match t with Reading => true | _ => false end.
(** The thread that set the bit and has not removed it. *)
Definition owns_bit (t : rw_thread) : bool := match t with WriteUndo _ | WriteEnter | Writing | WriteLeave => true | _ => false end.
Definition has_write_lock (t : rw_thread) : bool := match t with WriteEnter | Writing | WriteLeave => true | _ => false end.
Definition is_writing (t : rw_thread) : bool := match t with Writing => true | _ => false end.
Record rw_inv (s : rw_system) : Prop := RwInv {
  rw_few : Z.of_nat (length (snd s)) < WRITER_BIT;
  rw_word : ∃ b, count owns_bit (snd s) = b2z b ∧ counter (fst s) = count counted (snd s) + WRITER_BIT * b2z b;
  rw_alone : 0 < count has_write_lock (snd s) → count reading (snd s) = 0;
  rw_writer : ∀ i, snd s !! i = Some Writing → writer (fst s) = Z.of_nat (S i);
  rw_no_writer : count is_writing (snd s) = 0 → writer (fst s) = 0;
}.
(** What a move must keep; the counts change by what the thread was and is. *)
Lemma rw_inv_move l ts i t l' t' b : rw_inv (l, ts) → ts !! i = Some t →
  count owns_bit ts - b2z (owns_bit t) + b2z (owns_bit t') = b2z b →
  counter l' = count counted ts - b2z (counted t) + b2z (counted t') + WRITER_BIT * b2z b →
  (0 < count has_write_lock ts - b2z (has_write_lock t) + b2z (has_write_lock t') →
   count reading ts - b2z (reading t) + b2z (reading t') = 0) →
  ((writer l' = writer l ∧ is_writing t = is_writing t') ∨ (is_writing t = false ∧ t' = Writing ∧ writer l' = Z.of_nat (S i)) ∨
   (t = Writing ∧ is_writing t' = false ∧ writer l' = 0)) →
  rw_inv (l', <[i := t']> ts).
Proof.
  intros [H1 (b0 & H2 & H3) H4 H5 H6] Hi A1 A2 A3 A4. cbn [fst snd] in *.
  assert (Hone : ∀ j, ts !! j = Some Writing → j ≠ i → owns_bit t' = false ∨ owns_bit t = true).
  { intros j Hj Hne. destruct (owns_bit t') eqn:E; [|by left]. right. destruct (owns_bit t) eqn:E'; [done|]. rewrite ?E, ?E' in A1.
    pose proof (count_pos owns_bit _ _ _ Hj eq_refl). destruct b0, b; cbn in *; lia. }
  assert (Htwo : ∀ j, ts !! j = Some Writing → j ≠ i → owns_bit t = false).
  { intros j Hj Hne. destruct (owns_bit t) eqn:E; [|done]. pose proof (count_two owns_bit ts j i _ _ Hne Hj Hi eq_refl E). destruct b0; cbn in *; lia. }
  split; cbn [fst snd].
  - by rewrite length_insert.
  - exists b. rewrite (count_insert owns_bit _ _ _ _ Hi), (count_insert counted _ _ _ _ Hi). done.
  - rewrite (count_insert has_write_lock _ _ _ _ Hi), (count_insert reading _ _ _ _ Hi). done.
  - intros j Hj. destruct (decide (j = i)) as [->|Hne].
    + rewrite list_lookup_insert_eq in Hj by (by eapply lookup_lt_Some). injection Hj as ->.
      destruct A4 as [[A4 A5]|[(_ & _ & A4)|(_ & [=] & _)]]; [|done]. rewrite A4. destruct t; try done. by apply H5.
    + rewrite list_lookup_insert_ne in Hj by done. pose proof (Htwo j Hj Hne) as Ht. destruct (Hone j Hj Hne) as [Ht'|Ht']; [|congruence].
      destruct A4 as [[-> _]|[(_ & -> & _)|(-> & _ & _)]]; [by apply H5|done|done].
  - rewrite (count_insert is_writing _ _ _ _ Hi). intros Hz. pose proof (count_nonneg is_writing ts).
    destruct A4 as [[-> A5]|[(A5 & -> & _)|(_ & _ & A4)]]; [|rewrite A5 in Hz; cbn in Hz; lia|done].
    apply H6. rewrite A5 in Hz. lia.
Qed.
(** What the invariant says around a thread: [b] tells whether the bit is set. *)
Lemma rw_facts l ts i t : rw_inv (l, ts) → ts !! i = Some t → ∃ b,
  count owns_bit ts = b2z b ∧ counter l = count counted ts + WRITER_BIT * b2z b ∧
  (∀ u, 0 ≤ count counted ts - b2z (counted t) + b2z (counted u) < WRITER_BIT) ∧
  0 ≤ count has_write_lock ts ≤ b2z b ∧ 0 ≤ count reading ts ≤ count counted ts ∧
  b2z (owns_bit t) ≤ b2z b ∧ b2z (counted t) ≤ count counted ts ∧ b2z (reading t) ≤ count reading ts.
Proof.
  intros [Hfew (b & Hb & Hc) _ _ _] Hi. cbn [fst snd] in *. exists b.
  assert (Hle : ∀ p, b2z (p t) ≤ count p ts).
  { intros p. destruct (p t) eqn:E; cbn; [by eapply count_pos|apply count_nonneg]. }
  assert (count has_write_lock ts ≤ count owns_bit ts) by (apply count_mono; by intros []).
  assert (count reading ts ≤ count counted ts) by (apply count_mono; by intros []).
  pose proof (count_nonneg has_write_lock ts). pose proof (count_nonneg reading ts). pose proof (Hle owns_bit).
  repeat split; try done; try lia; try apply Hle; rewrite <- (count_insert counted ts i t u Hi);
    pose proof (count_nonneg counted (<[i := u]> ts)) as N; rewrite length_insert in N; lia.
Qed.
Lemma u32_word z : 0 ≤ z < 2 * WRITER_BIT → u32 z = z.
Proof. intros Hz. apply wrap_u_id. exact Hz. Qed.
(** A thread that neither reads nor writes before and after. *)
Definition quiet (t : rw_thread) : Prop :=
  counted t = false ∧ owns_bit t = false ∧ has_write_lock t = false ∧ reading t = false ∧ is_writing t = false.
Lemma failed_quiet sleep a : (∀ p, quiet (sleep p)) → quiet (failed sleep a).
Proof. intros H. destruct a; [apply H|by repeat split]. Qed.
Lemma wake_quiet again now p : (∀ a, quiet (again a)) → quiet (wake again now p).
Proof. intros H. unfold wake. destruct (back_off now p); [apply H|by repeat split]. Qed.
Lemma rw_inv_quiet l ts i t l' t' : rw_inv (l, ts) → ts !! i = Some t → is_writing t = false → quiet t' → writer l' = writer l →
  counter l' = counter l - b2z (counted t) - WRITER_BIT * b2z (owns_bit t) → rw_inv (l', <[i := t']> ts).
Proof.
  intros Hinv Hi Ht (F1 & F2 & F3 & F4 & F5) E2 E1. destruct (rw_facts _ _ _ _ Hinv Hi) as (b & Hb & Hc & Hlow & Hwl & Hrd & Hown & Hcnt & Hr).
  pose proof (rw_alone _ Hinv) as Halone. cbn [fst snd] in Halone.
  apply (rw_inv_move l ts i t l' t' (b && negb (owns_bit t)) Hinv Hi); rewrite ?F1, ?F2, ?F3, ?F4, ?F5, ?Ht.
  - rewrite Hb. destruct b, (owns_bit t); cbn in *; lia.
  - rewrite E1, Hc. destruct b, (owns_bit t); cbn [b2z andb negb] in *; lia.
  - cbn [b2z]. destruct (has_write_lock t), (reading t); cbn in *; intros Hp; specialize (Halone ltac:(lia)); lia.
  - by left.
Qed.
Ltac rw_cbn := cbn [counted owns_bit has_write_lock reading is_writing b2z with_writer with_counter decrement drop_writer_bit counter writer] in *.
Lemma rw_inv_read l ts i a : rw_inv (l, ts) → ts !! i = Some (ReadTry a) →
  let '(l', t') := read_attempt l a in rw_inv (l', <[i := t']> ts).
Proof.
  intros Hinv Hi. destruct (rw_facts _ _ _ _ Hinv Hi) as (b & Hb & Hc & Hlow & Hwl & Hrd & _). specialize (Hlow Reading). rw_cbn.
  unfold read_attempt. assert (u32 (counter l + 1) = count counted ts + 1 + WRITER_BIT * b2z b) as ->.
  { rewrite u32_word; [lia|]. destruct b; cbn in *; unfold WRITER_BIT in *; lia. }
  rewrite word_bit by lia. destruct b; [apply (rw_inv_move l ts i _ _ _ true Hinv Hi)|apply (rw_inv_move l ts i _ _ _ false Hinv Hi)];
    pose proof (rw_alone _ Hinv) as Halone; cbn [fst snd] in Halone; rw_cbn; try lia; by left.
Qed.
Lemma rw_inv_write l ts i a : rw_inv (l, ts) → ts !! i = Some (WriteTry a) →
  let '(l', t') := write_attempt l a in rw_inv (l', <[i := t']> ts).
Proof.
  intros Hinv Hi. destruct (rw_facts _ _ _ _ Hinv Hi) as (b & Hb & Hc & Hlow & Hwl & Hrd & _). specialize (Hlow (Idle true)). rw_cbn.
  pose proof (rw_alone _ Hinv) as Halone. cbn [fst snd] in Halone. unfold write_attempt. rewrite Hc, word_or by lia.
  destruct (Z.eqb_spec (count counted ts + WRITER_BIT * b2z b) 0) as [E0|E0].
  - assert (count counted ts = 0 ∧ b = false) as [Z1 ->] by (destruct b; cbn [b2z] in *; unfold WRITER_BIT in *; split; (done || lia)).
    apply (rw_inv_move l ts i _ _ _ true Hinv Hi); rw_cbn; try lia; by left.
  - rewrite word_bit by lia. destruct b.
    + apply (rw_inv_quiet l ts i _ _ _ Hinv Hi); [done|by apply failed_quiet|done|rw_cbn; lia].
    + apply (rw_inv_move l ts i _ _ _ true Hinv Hi); rw_cbn; try lia; by left.
Qed.
Lemma rw_inv_step i e s s' : rw_inv s → sys_step rw_step (i, e) s = Some s' → rw_inv s'.
Proof.
  intros Hinv (t & l' & t' & Hi & K & ->)%sys_step_inv. destruct s as [l ts]. cbn [fst snd] in *.
  destruct (rw_facts _ _ _ _ Hinv Hi) as (b & Hb & Hc & Hlow & Hwl & Hrd & Hown & Hcnt & _). pose proof (rw_alone _ Hinv) as Halone. cbn [fst snd] in Halone.
  assert (Hdec : counted t = true → counter (decrement l) = counter l - 1).
  { intros Ht. rewrite Ht in *. specialize (Hlow (Idle true)). rw_cbn. rewrite u32_word; destruct b; cbn in *; unfold WRITER_BIT in *; lia. }
  assert (Hdrop : owns_bit t = true → counter (drop_writer_bit l) = counter l - WRITER_BIT).
  { intros Ht. rewrite Ht in *. specialize (Hlow t). destruct b; rw_cbn; [|lia]. rewrite Hc, (word_and _ true) by lia. cbn. lia. }
  destruct e as [| | | | | | |now], t as [g|a|a|p| |a|a|p| | | |]; cbn [rw_step] in K; try discriminate K; apply (inj Some) in K.
  7: { pose proof (rw_inv_read l ts i a Hinv Hi) as P. by rewrite K in P. }
  8: { pose proof (rw_inv_write l ts i a Hinv Hi) as P. by rewrite K in P. }
  all: injection K as <- <-.
  6: apply (rw_inv_move l ts i _ _ _ b Hinv Hi); rw_cbn; try lia; right; by right.
  8: apply (rw_inv_move l ts i _ _ _ b Hinv Hi); rw_cbn; try lia; right; by left.
  all: apply (rw_inv_quiet l ts i _ _ _ Hinv Hi); [done|by (done || apply failed_quiet || apply wake_quiet)|done|rewrite ?Hdec, ?Hdrop by done; rw_cbn; lia].
Qed.
Lemma rw_init_inv n : Z.of_nat n < WRITER_BIT → rw_inv (rw_init n).
Proof.
  intros Hn. assert (H : ∀ p : rw_thread → bool, p (Idle false) = false → count p (replicate n (Idle false)) = 0).
  { intros p Hp. apply count_zero, Forall_replicate. done. }
  split; cbn [rw_init fst snd]; rewrite ?H by done; try done.
  - by rewrite length_replicate.
  - exists false. done.
  - intros i Hi. by apply lookup_replicate in Hi as [[=] _].
Qed.
Lemma rw_reachable n sched s : Z.of_nat n < WRITER_BIT → rw_run sched (rw_init n) = Some s → rw_inv s.
Proof.
  intros Hn. apply (run_invariant rw_step (λ _, True) rw_inv); [|by apply Forall_true|by apply rw_init_inv].
  intros i e s1 s2 _. apply rw_inv_step.
Qed.

(** ** Getting the lock *)

Definition inside (t : rw_thread) : bool := counted t || owns_bit t.
Lemma count_inside ts : count counted ts + count owns_bit ts = count inside ts.
Proof. induction ts as [|t ts IH]; [done|]. cbn [count]. rewrite <- IH. destruct t; cbn; lia. Qed.
(** The first access of a try decides. *)
Lemma read_attempt_iff s i a : rw_inv s → snd s !! i = Some (ReadTry a) →
  snd (read_attempt (fst s) a) = Reading ↔ count owns_bit (snd s) = 0.
Proof.
  destruct s as [l ts]. cbn [fst snd]. intros Hinv Hi. destruct (rw_facts _ _ _ _ Hinv Hi) as (b & Hb & Hc & Hlow & _). specialize (Hlow Reading). rw_cbn.
  unfold read_attempt. cbn [snd]. assert (u32 (counter l + 1) = count counted ts + 1 + WRITER_BIT * b2z b) as ->.
  { rewrite u32_word; destruct b; cbn in *; unfold WRITER_BIT in *; lia. }
  rewrite word_bit, Hb by lia. by destruct b.
Qed.
Lemma write_attempt_iff s i a : rw_inv s → snd s !! i = Some (WriteTry a) →
  snd (write_attempt (fst s) a) = WriteEnter ↔ count inside (snd s) = 0.
Proof.
  destruct s as [l ts]. cbn [fst snd]. intros Hinv Hi. destruct (rw_facts _ _ _ _ Hinv Hi) as (b & Hb & Hc & Hlow & _). specialize (Hlow (Idle true)). rw_cbn.
  rewrite <- count_inside, Hb. unfold write_attempt. cbn [snd]. rewrite Hc.
  destruct (Z.eqb_spec (count counted ts + WRITER_BIT * b2z b) 0) as [E|E]; [|destruct (has_writer_bit _), a];
    (split; [intros; try done|intros; try done; exfalso]); destruct b; cbn in *; unfold WRITER_BIT in *; lia.
Qed.
(** A thread that is inside leaves alone, in three moves. *)
Definition leaving (e : rw_event) : bool := match e with Turn | rw_read_unlock | rw_write_unlock => true | _ => false end.
Lemma leave_alone i l t : inside t = true → ∃ es l' t', solo rw_step i es l t = Some (l', t') ∧ inside t' = false ∧
  (length es ≤ 3)%nat ∧ Forall (λ e, leaving e = true) es.
Proof.
  assert (Hq : ∀ sleep a, (∀ p, inside (sleep p) = false) → inside (failed sleep a) = false) by (intros sleep [p|] H; [apply H|done]).
  intros H. destruct t; try done.
  - exists [Turn]. eexists _, _. split; [reflexivity|]. split; [by apply Hq|]. split; [cbn; lia|by repeat constructor].
  - exists [rw_read_unlock]. eexists _, _. split; [reflexivity|]. split; [done|]. split; [cbn; lia|by repeat constructor].
  - exists [Turn]. eexists _, _. split; [reflexivity|]. split; [by apply Hq|]. split; [cbn; lia|by repeat constructor].
  - exists [Turn; rw_write_unlock; Turn]. eexists _, _. split; [reflexivity|]. split; [done|]. split; [cbn; lia|by repeat constructor].
  - exists [rw_write_unlock; Turn]. eexists _, _. split; [reflexivity|]. split; [done|]. split; [cbn; lia|by repeat constructor].
  - exists [Turn]. eexists _, _. split; [reflexivity|]. split; [done|]. split; [cbn; lia|by repeat constructor].
Qed.
Definition others_leave (i : nat) (ie : nat * rw_event) : Prop := ie.1 ≠ i ∧ leaving ie.2 = true.
Lemma all_leave i t s : rw_inv s → snd s !! i = Some t → inside t = false → ∃ sched s', rw_run sched s = Some s' ∧ rw_inv s' ∧
  snd s' !! i = Some t ∧ count inside (snd s') = 0 ∧ Forall (others_leave i) sched ∧ Z.of_nat (length sched) ≤ 3 * count inside (snd s).
Proof.
  remember (Z.to_nat (count inside (snd s))) as h eqn:Hh. revert s Hh. induction h as [|h IH]; intros s Hh Hinv Hi Ht;
    pose proof (count_nonneg inside (snd s)) as N.
  { exists [], s. split; [done|]. split; [done|]. split; [done|]. split; [lia|]. split; [constructor|cbn; lia]. }
  destruct (count_some inside (snd s)) as (j & u & Hj & Hu); [lia|]. assert (Hij : j ≠ i) by (intros ->; congruence).
  destruct s as [l ts]. cbn [fst snd] in *. destruct (leave_alone j l u Hu) as (es & l' & u' & K & Hu' & L & F).
  pose proof (run_solo rw_step j es l ts u l' u' Hj K) as K1. set (s1 := (l', <[j := u']> ts)) in *.
  assert (Hinv1 : rw_inv s1).
  { eapply (run_invariant rw_step (λ _, True) rw_inv); [|by apply Forall_true|exact Hinv|exact K1]. intros ? ? ? ? _. apply rw_inv_step. }
  assert (Hc1 : count inside (snd s1) = count inside ts - 1).
  { unfold s1. cbn [snd]. rewrite (count_insert inside _ _ _ _ Hj), Hu, Hu'. cbn. lia. }
  destruct (IH s1) as (sched & s2 & K2 & I2 & H2 & C2 & F2 & L2); [lia|done|unfold s1; cbn; by rewrite list_lookup_insert_ne|done|].
  exists (map (pair j) es ++ sched), s2. split; [by rewrite run_app, K1|]. split; [done|]. split; [done|]. split; [done|]. split.
  - apply Forall_app. split; [|done]. apply Forall_map. eapply Forall_impl; [exact F|]. intros e He. by split.
  - rewrite length_app, length_map. lia.
Qed.

(** ** Theorems *)

(** C32. Whatever fewer than 2^31 threads do: at most one thread has the lock for writing,
    no thread reads while one has it, the name in the lock is the writer's and is zero
    when nobody writes, and the word is the number of readers (those that undo their
    increment included) with the bit of the thread that set it. *)
Theorem rw_lock_excludes n sched s : Z.of_nat n < WRITER_BIT → rw_run sched (rw_init n) = Some s →
  (∀ i j t u, snd s !! i = Some t → snd s !! j = Some u → has_write_lock t = true → has_write_lock u = true → i = j) ∧
  (∀ i j t, snd s !! i = Some t → snd s !! j = Some Reading → has_write_lock t = false) ∧
  (∀ i, snd s !! i = Some Writing → writer (fst s) = Z.of_nat (S i)) ∧
  ((∀ i, snd s !! i ≠ Some Writing) → writer (fst s) = 0) ∧
  counter (fst s) = count counted (snd s) + WRITER_BIT * count owns_bit (snd s).
Proof.
  intros Hn Hr. destruct (rw_reachable n sched s Hn Hr) as [_ (b & Hb & Hc) H3 H4 H5]. pose proof (count_nonneg is_writing (snd s)).
  assert (count has_write_lock (snd s) ≤ count owns_bit (snd s)) as Hle by (apply count_mono; by intros []).
  split; [|split; [|split; [|split]]]; [..|by rewrite Hb].
  - intros i j t u Hi Hj Ht Hu. destruct (decide (i = j)) as [|Hij]; [done|]. exfalso.
    pose proof (count_two has_write_lock (snd s) i j _ _ Hij Hi Hj Ht Hu). destruct b; cbn in *; lia.
  - intros i j t Hi Hj. destruct (has_write_lock t) eqn:E; [|done]. pose proof (count_pos has_write_lock _ _ _ Hi E).
    pose proof (count_pos reading _ _ _ Hj eq_refl). lia.
  - done.
  - intros Hno. apply H5. destruct (Z.eq_dec (count is_writing (snd s)) 0) as [|Hne]; [done|].
    destruct (count_some is_writing (snd s)) as (i & t & Hi & Ht); [lia|]. destruct t; try done. by apply Hno in Hi.
Qed.

(** C33. A try succeeds exactly when it may: for reading when no thread has set the writer
    bit, for writing when no thread is inside at all; and a thread that tries can always
    still get the lock: after any schedule the others can leave, in three moves each,
    and then its next turn succeeds. *)
Theorem rw_lock_is_granted n sched s i a : Z.of_nat n < WRITER_BIT → rw_run sched (rw_init n) = Some s →
  (snd s !! i = Some (ReadTry a) →
    (snd (read_attempt (fst s) a) = Reading ↔ count owns_bit (snd s) = 0) ∧
    ∃ more s', rw_run (more ++ [(i, Turn)]) s = Some s' ∧ snd s' !! i = Some Reading ∧
      Forall (others_leave i) more ∧ Z.of_nat (length more) ≤ 3 * count inside (snd s)) ∧
  (snd s !! i = Some (WriteTry a) →
    (snd (write_attempt (fst s) a) = WriteEnter ↔ count inside (snd s) = 0) ∧
    ∃ more s', rw_run (more ++ [(i, Turn)]) s = Some s' ∧ snd s' !! i = Some WriteEnter ∧
      Forall (others_leave i) more ∧ Z.of_nat (length more) ≤ 3 * count inside (snd s)).
Proof.
  intros Hn Hr. pose proof (rw_reachable n sched s Hn Hr) as Hinv. split; intros Hi; (split; [by eapply read_attempt_iff || by eapply write_attempt_iff|]);
    destruct (all_leave i _ s Hinv Hi eq_refl) as (more & [l ts] & K & I & Hi' & C & F & L); cbn [snd] in *;
    pose proof (lookup_lt_Some _ _ _ Hi') as Hlt.
  - pose proof (proj2 (read_attempt_iff (l, ts) i a I Hi')) as G. pose proof (count_inside ts). pose proof (count_nonneg counted ts). pose proof (count_nonneg owns_bit ts).
    exists more, (fst (read_attempt l a), <[i := Reading]> ts). split; [|split; [by apply list_lookup_insert_eq|done]].
    rewrite run_app, K. cbn [mbind option_bind]. rewrite run_cons, (sys_move rw_step i Turn l ts _ (fst (read_attempt l a)) Reading Hi'); [done|].
    cbn [rw_step]. cbn [fst snd] in G. rewrite <- G by lia. by destruct (read_attempt l a).
  - pose proof (proj2 (write_attempt_iff (l, ts) i a I Hi') C) as G. cbn [fst snd] in G.
    exists more, (fst (write_attempt l a), <[i := WriteEnter]> ts). split; [|split; [by apply list_lookup_insert_eq|done]].
    rewrite run_app, K. cbn [mbind option_bind]. rewrite run_cons, (sys_move rw_step i Turn l ts _ (fst (write_attempt l a)) WriteEnter Hi'); [done|].
    cbn [rw_step]. by rewrite <- G; destruct (write_attempt l a).
Qed.

(** *** Examples *)

Lemma rw_lock_excludes_witness : ∃ s,
  rw_run [(0, rw_write_lock); (0, Turn); (1, rw_tryread_lock); (0, Turn); (1, Turn); (2, rw_trywrite_lock); (2, Turn)]%nat (rw_init 3) = Some s ∧
  snd s = [Writing; ReadUndo None; Idle false] ∧ writer (fst s) = 1 ∧ counter (fst s) = WRITER_BIT + 1.
Proof.
  eexists. split; [vm_compute; reflexivity|].
  destruct (rw_lock_excludes 3 [(0, rw_write_lock); (0, Turn); (1, rw_tryread_lock); (0, Turn); (1, Turn); (2, rw_trywrite_lock); (2, Turn)]%nat
    (RwSpinlock 1 (2 ^ 31 + 1), [Writing; ReadUndo None; Idle false])) as (_ & _ & W & _ & C); [done|vm_compute; reflexivity|].
  split; [reflexivity|]. split; [exact (W 0%nat eq_refl)|exact C].
Defined.
Lemma rw_lock_is_granted_witness : ∃ more s', rw_run (more ++ [(1, Turn)]%nat) (RwSpinlock 1 (2 ^ 31), [Writing; WriteTry None]) = Some s' ∧
  snd s' !! 1%nat = Some WriteEnter ∧ Forall (others_leave 1) more ∧ Z.of_nat (length more) ≤ 3.
Proof.
  destruct (rw_lock_is_granted 2 [(0, rw_write_lock); (0, Turn); (0, Turn); (1, rw_trywrite_lock)]%nat (RwSpinlock 1 (2 ^ 31), [Writing; WriteTry None]) 1 None)
    as [_ W]; [done|vm_compute; reflexivity|]. exact (proj2 (W eq_refl)).
Defined.
